(* ===== verification/_CoqProject ===== *)
-Q . S2P
Prelude.v
Double.v
Util.v
Message.v
Wire.v
Samples.v
Dedupe.v
GF256.v
Gauss.v
Fec.v
FecDecoder.v
FecRecovery.v
FecStream.v
Multiplex.v
Sink.v
Mutex.v
Ring.v
RingConc.v
Receiver.v
Transport.v
Batch.v
Fanout.v
Sender.v
SenderCorrect.v
Metrics.v
Consumer.v
Quantiles.v
Args.v
Producer.v
Segment.v
Config.v
Sockets.v
ReceiverMain.v
SenderMain.v
SenderEcho.v
Programs.v
Mains.v
Pipeline.v
FecPipeline.v
System.v
