(* ===== verification/Prelude.v ===== *)
(** * PulseFanout verification library

    ** The program

    PulseFanout ([src/harness]) moves market-data messages between shared-memory
    rings over UDP or Unix stream sockets.  Four programs form a pipeline:
    - the producer ([src/producer.cpp]) builds synthetic messages and publishes
      them to a ring at a configured rate;
    - the sender ([src/sender.cpp]) reads that ring, stamps its identity on each
      frame, encodes it, optionally groups frames into FEC generations, batches
      the datagrams and sends them to one destination directly or to several
      through bounded queues with one worker thread each;
    - the receiver ([src/receiver.cpp]) demultiplexes streams, recovers lost
      frames, removes duplicates and publishes to its own ring;
    - the consumer ([src/consumer.cpp]) reads that ring and measures latency.
    The headers ([include/*.h]) hold what they share: message formats, wire
    codec, FEC code, deduplication window, multiplexing, ring and segment,
    stream transport, metrics, sampling and utilities.

    ** How the files follow the code

    Every operation is a function of its explicit state: a C++ object is a
    [Record], a method a [Definition] or [Fixpoint] of the same name, an
    exception, [std::exit] or undefined behaviour a [Throw] of the result type
    [res] below.  Integers are [Z] with the wrap-around of their width written
    out ([u8] to [u64]); a [double] is a binary64 value.  What the kernel, the
    clock, the random generator and the signals answer are inputs: lists of
    answers consumed in the order of the calls, so a theorem holds for all of
    them.  Threads and processes are step relations whose steps interleave.

    - [Prelude]: results, integers, vectors, shared lemmas and tactics.
      [Double]: binary64 values on [SpecFloat].
    - [Util], [Samples]: [util.h] (clocks, stop flag and signal handlers,
      power-of-two test), [samples.h].
    - [Message], [Wire]: [message.h], [wire.h].
    - [Dedupe]: [dedupe_window.h], with the contract [Spec] it refines.
    - [GF256], [Gauss], [Fec], [FecDecoder], [FecRecovery], [FecStream]: [fec.h]:
      the field, the elimination inside [try_recover], encoder, decoder, both
      together on one generation, and on a stream of generations that share the
      decoder's slots and expire.
    - [Quantiles]: the percentile code of [fec.h] and [sender.cpp] and that of
      [metrics.h] against the definition of a quantile.
    - [Multiplex]: [multiplex.h].
    - [Sink]: the interface (a type class) between a program and its output
      ring; [Ring] implements it.
    - [Mutex], [Ring], [RingConc]: [shm_ring.h]: the robust mutex and the guard
      [Lock] over what POSIX says of such mutexes, the ring one call at a time,
      and the ring interleaved.
      [Segment]: [shm_segment.h], the creation and opening of the mapped objects
      by several processes.
    - [Transport]: the framing of [stream_transport.h]; [Sockets]: its
      [unix_socket] and the functions of the sender and the receiver that open
      UDP sockets.
    - [Batch], [Fanout], [Sender], [SenderCorrect], [SenderMain], [SenderEcho]:
      [sender.cpp]: batches and system calls, the queues and worker threads, the
      main loop, its invariant, [run] with summary and exit status, and echo mode.
    - [Receiver], [ReceiverMain]: [receiver.cpp]: the path of a datagram, and
      [run] with connections, echo mode, acknowledgements, summary and status.
    - [Metrics], [Consumer]: [metrics.h], [consumer.cpp].
    - [Producer]: [producer.cpp].
    - [Args], [Config]: number conversions, the option loop, [idle_wait]; the
      configurations and checks of the four [parse_args].
    - [Programs]: [run] of the producer and of the consumer once attached to
      their rings.  [Mains]: [run] and [main] of all four programs, from the
      command line to the exit status of the process.
    - [Pipeline]: producer, sender, network, receiver and consumer together
      without FEC; [FecPipeline]: producer, sender, network and receiver with FEC;
      [System]: the four processes of [Mains] and what their statuses mean.

    ** What the theorems show

    - The system ([System]): when producer, sender and receiver exit with status
      0 and were asked for the same number of messages, the receiver's ring has
      exactly the producer's messages, each once, whatever the network did, with
      FEC or without, on UDP or on a Unix socket; a consumer that exits with 0
      too has counted all of them and reports no drop.
    - End to end ([Pipeline]): over a network that loses, duplicates and
      reorders within the window, the receiver publishes exactly the messages
      that arrived, each once, in the order of first arrival; when nothing is
      lost or reordered, the consumer counts all of them and reports no drop.
      With FEC ([FecPipeline]), every message of a generation of which as many
      datagrams arrived in time as it has frames is published once, unless it
      precedes the first message published or is a window behind another.
    - The programs: the sender sends every frame it reads, in order, and its
      status 0 means every destination's socket has taken all of it; the receiver
      never faults, publishes only valid frames and none twice, its summary is
      true, and echo mode is exact on both sides; the producer publishes the numbered sequence
      at its pace; the consumer counts every frame; every command line is
      checked against what the rest of the code relies on.  As processes
      ([Mains]) they exit with 0, 1 or 2, and with 2 exactly for a command line
      that is rejected; the sender closes every descriptor it opened.
    - FEC: the bytes form a field, a closed generation has the promised shape,
      the decoder is safe on arbitrary input, and any [n] datagrams of an
      [n]-frame generation recover it.
    - Codec: encode and decode are inverse in both directions; demultiplexing
      inverts multiplexing; a framed message survives any cutting of the stream.
    - Deduplication: refinement of [Spec], termination and exact counters.
    - Ring and segments, in every interleaving with crashes: readers are given
      only complete published frames, in order, without gaps under backpressure;
      at most one live thread holds a mutex and a dead owner never blocks it;
      an opened segment is initialised unless its creator died; nobody unlinks
      another's segment.
    - Fan-out: accounting of every batch, delivery when [finish] returns true,
      and bounded exit of the workers.
    - Percentiles are exact quantiles although ranks are computed in doubles.
    Some theorems state defects: a reader attached at the live edge of a wrapped
    ring blocks the writer, a slide of the window takes time linear in the jump, a
    creator that dies exposes a half written ring, a tiny rate overflows, a NaN
    percentage passes the checks, a frame too old to publish is acknowledged, and
    a stream's first message, when lost, is recovered and then dropped.

    ** Bounds and fuel

    Loops over data are structural.  Where a C++ loop counts or searches, the
    definition gets fuel that is proved sufficient: eight rounds in [mul], the
    bits of the exponent in [inverse], the rows below the diagonal in [find_pivot], the
    window size and the jump in [advance_loop] and [slide_loop].  Loops that wait for the outside world
    (main loops, waits, retries) recurse over the list of answers; a list that
    ends stands for a process that is stopped there.  Counters wrap at 2^64;
    theorems that need a sequence number or a count not to wrap say so
    ([ok_seq], lengths below 2^64).  Reservoirs hold at most [kSampleLimit]
    (65536) samples, which is what makes the rounded ranks exact.

    ** Not modelled

    The receiver's closing of its descriptors and of its listener's path at exit;
    of [fec.h], the choice of [call_publish] among callbacks of different arity
    (the receiver's takes all arguments).  The text of log lines and CSV files (the values printed are, as report
    records), the mapping of memory ([mmap], [munmap]) beyond the fact that it
    can fail, the weak memory model (every atomic access is a step, in program
    order), DNS resolution and sockets beyond their answers, and the test
    programs, benchmarks and Python tooling. *)
From Stdlib Require Export ZArith Lia Bool.
From Stdlib Require Import Strings.Byte.
From stdpp Require Export base list list_numbers numbers tactics gmap.

Declare Scope pulse_scope.
Delimit Scope pulse_scope with pulse.
Open Scope Z_scope.
Open Scope pulse_scope.

(** ** Fallible computations

    A C++ call either returns, throws one of the standard exceptions the code
    names, ends the process with [std::exit], or (the case that must never
    arise) has undefined behaviour: an index outside a vector, a division by
    zero, or the conversion of a double to an integer type that cannot hold it
    ([BadCast]).  [OutOfFuel] is the model's own: a loop that has not ended
    within the number of iterations the definition grants it. *)
Inductive fault :=
| InvalidArgument
| LengthError
| RuntimeError
| LogicError
| OutOfBounds
| DivideByZero
| Aborted
| OutOfFuel
| OutOfRange
| BadCast
| ExitStatus (code : Z).

Inductive res (A : Type) :=
| Ok (a : A)
| Throw (f : fault).
Arguments Ok {A} a.
Arguments Throw {A} f.
#[global] Instance Ok_inj (A : Type) : Inj (=) (=) (@Ok A).
Proof. by intros x y [= ->]. Qed.

#[global] Instance fault_eq_dec : EqDecision fault.
Proof. solve_decision. Defined.

Definition rbind {A B} (c : res A) (k : A -> res B) : res B :=
  match c with Ok a => k a | Throw f => Throw f end.

Notation "'let!' x := c 'in' k" := (rbind c (fun x => k))
  (at level 10, x name, c at level 100, k at level 200) : pulse_scope.
Notation "'let!' ' p := c 'in' k" := (rbind c (fun x => match x with p => k end))
  (at level 10, p strict pattern, c at level 100, k at level 200) : pulse_scope.

(** A [for] loop over an explicit list of index values, threading a state and
    stopping at the first fault. *)
Fixpoint forM {S I : Type} (ks : list I) (body : I -> S -> res S) (s : S) : res S :=
  match ks with
  | [] => Ok s
  | i :: ks' => let! s' := body i s in forM ks' body s'
  end.

(** [v[i]] and [v[i] = x] with the bounds written out. *)
Definition vget {A} (v : list A) (i : nat) : res A :=
  match v !! i with Some a => Ok a | None => Throw OutOfBounds end.
Definition vset {A} (v : list A) (i : nat) (x : A) : res (list A) :=
  if (i <? length v)%nat then Ok (<[i := x]> v) else Throw OutOfBounds.

(** [std::vector::resize(n, x)]: truncates or pads with [x]. *)
Definition vresize {A} (n : nat) (x : A) (v : list A) : list A :=
  take n v ++ replicate (n - length v) x.

(** [memcpy(out.data() + off, src, src.size())]. *)
Definition overwrite {A} (out : list A) (off : nat) (src : list A) : res (list A) :=
  if (off + length src <=? length out)%nat
  then Ok (take off out ++ src ++ drop (off + length src) out)
  else Throw OutOfBounds.

(** ** Machine integers: [wrap w] is reduction to [w] unsigned bits. *)
Definition wrap (w : Z) (z : Z) : Z := z mod 2 ^ w.
Abbreviation u8 := (wrap 8).
Abbreviation u16 := (wrap 16).
Abbreviation u32 := (wrap 32).
Abbreviation u64 := (wrap 64).
Definition in_range (w z : Z) : Prop := 0 <= z < 2 ^ w.

(** ** Bytes: [uint8_t] is [Byte.byte], seen as an integer through [b2z]. *)
Abbreviation byte := Corelib.Init.Byte.byte.
Abbreviation bytes := (list Corelib.Init.Byte.byte).
Definition b2z (b : byte) : Z := Z.of_N (Byte.to_N b).
Definition z2b (z : Z) : byte :=
  match Byte.of_N (Z.to_N (z mod 256)) with Some b => b | None => Corelib.Init.Byte.x00 end.

#[global] Instance byte_eq_dec : EqDecision byte := Byte.byte_eq_dec.

Definition all_bytes : list byte := map (fun n => z2b (Z.of_nat n)) (List.seq 0 256).

(** [bits >> ((i-1)*8)] for [i = n .. 1]: the bytes a big-endian writer emits. *)
Fixpoint be_put (n : nat) (bits : Z) : bytes :=
  match n with
  | O => []
  | S m => z2b (Z.shiftr bits (8 * Z.of_nat m)) :: be_put m bits
  end.

(** The value [bits = (bits << 8) | byte] accumulates over a byte sequence. *)
Fixpoint be_acc (w : Z) (acc : Z) (bs : bytes) : Z :=
  match bs with
  | [] => acc
  | b :: bs' => be_acc w (wrap w (Z.lor (Z.shiftl acc 8) (b2z b))) bs'
  end.
Definition be_get (w : Z) (bs : bytes) : Z := be_acc w 0 bs.

(** The native (x86-64, little-endian) representation used by [memcpy]. *)
Definition le_put (n : nat) (bits : Z) : bytes := rev (be_put n bits).
Definition le_get (w : Z) (bs : bytes) : Z := be_get w (rev bs).

(** ** Automation *)
Create HintDb pulse.
Create HintDb rangedb.
Create Rewrite HintDb lendb.

(** Splits every [match]/[if] of the goal or of a hypothesis, keeping equations. *)
Ltac case_all :=
  repeat match goal with
  | |- context [match ?x with _ => _ end] => destruct x eqn:?
  | H : context [match ?x with _ => _ end] |- _ => destruct x eqn:?
  end.

Ltac zbool :=
  repeat match goal with
  | H : _ && _ = true |- _ => apply andb_true_iff in H; destruct H
  | H : _ || _ = false |- _ => apply orb_false_iff in H; destruct H
  | H : negb _ = true |- _ => apply negb_true_iff in H
  | H : negb _ = false |- _ => apply negb_false_iff in H
  | H : (_ =? _)%Z = true |- _ => apply Z.eqb_eq in H
  | H : (_ =? _)%Z = false |- _ => apply Z.eqb_neq in H
  | H : (_ <? _)%Z = true |- _ => apply Z.ltb_lt in H
  | H : (_ <? _)%Z = false |- _ => apply Z.ltb_ge in H
  | H : (_ <=? _)%Z = true |- _ => apply Z.leb_le in H
  | H : (_ <=? _)%Z = false |- _ => apply Z.leb_gt in H
  | H : (_ =? _)%nat = true |- _ => apply Nat.eqb_eq in H
  | H : (_ =? _)%nat = false |- _ => apply Nat.eqb_neq in H
  | H : (_ <? _)%nat = true |- _ => apply Nat.ltb_lt in H
  | H : (_ <? _)%nat = false |- _ => apply Nat.ltb_ge in H
  end.

(** Opens a [let!] chain in a hypothesis that says the chain returned. *)
Ltac rbind_inv :=
  repeat match goal with
  | H : rbind ?c _ = Ok _ |- _ => destruct c eqn:?; cbn [rbind] in H; [| discriminate H]
  | H : Ok _ = Ok _ |- _ => injection H; clear H; intros; subst
  | H : Throw _ = Ok _ |- _ => discriminate H
  end.

(** The same for a whole function body: opens [let!], tuples, [if] and [match]. *)
Ltac run_inv :=
  repeat match goal with
  | H : rbind ?c _ = Ok _ |- _ => destruct c eqn:?; cbn [rbind] in H; [| discriminate H]
  | H : Ok _ = Ok _ |- _ => injection H; clear H; intros; subst
  | H : Throw _ = Ok _ |- _ => discriminate H
  | H : (match ?x with _ => _ end) = Ok _ |- _ => destruct x eqn:?
  end.

(** ** Weakest preconditions

    [wp F P m]: the computation [m] ends, with a value in [P] or a fault in [F]. *)
Definition wp {A} (F : fault -> Prop) (P : A -> Prop) (m : res A) : Prop :=
  match m with Ok a => P a | Throw f => F f end.
Definition no_fault (_ : fault) : Prop := False.

Lemma wp_ret {A} (F : fault -> Prop) (P : A -> Prop) (a : A) : P a -> wp F P (Ok a).
Proof. done. Qed.

Lemma wp_bind {A B} (F : fault -> Prop) (Q : A -> Prop) (P : B -> Prop) (m : res A) (k : A -> res B) :
  wp F Q m -> (forall a, Q a -> wp F P (k a)) -> wp F P (rbind m k).
Proof. destruct m; cbn; auto. Qed.

Lemma wp_mono {A} (F G : fault -> Prop) (Q P : A -> Prop) (m : res A) :
  wp F Q m -> (forall f, F f -> G f) -> (forall a, Q a -> P a) -> wp G P m.
Proof. destruct m; cbn; auto. Qed.

Lemma wp_returns {A} (P : A -> Prop) (m : res A) : wp no_fault P m <-> exists a, m = Ok a /\ P a.
Proof. destruct m; cbn; split; [eauto | by intros (a' & [= ->] & H) | done | by intros (a' & H & _)]. Qed.

Lemma wp_ok {A} (F : fault -> Prop) (P : A -> Prop) (m : res A) (a : A) : m = Ok a -> P a -> wp F P m.
Proof. by intros ->. Qed.

(** ** Lemmas on bytes *)
Lemma b2z_range (b : byte) : 0 <= b2z b < 256.
Proof.
  unfold b2z. pose proof (Byte.to_N_bounded b). lia.
Qed.
#[export] Hint Resolve b2z_range : rangedb.

Lemma z2b_b2z (b : byte) : z2b (b2z b) = b.
Proof.
  unfold z2b. rewrite Z.mod_small by apply b2z_range.
  unfold b2z. by rewrite N2Z.id, Byte.of_to_N.
Qed.

Lemma b2z_z2b (z : Z) : b2z (z2b z) = z mod 256.
Proof.
  unfold z2b, b2z. pose proof (Z.mod_pos_bound z 256 eq_refl) as Hb.
  destruct (Byte.of_N (Z.to_N (z mod 256))) as [b|] eqn:E.
  - apply Byte.to_of_N in E. rewrite E. lia.
  - apply Byte.of_N_None_iff in E. lia.
Qed.

Lemma b2z_z2b_small (z : Z) : 0 <= z < 256 -> b2z (z2b z) = z.
Proof. intros. by rewrite b2z_z2b, Z.mod_small. Qed.

Lemma b2z_inj (a b : byte) : b2z a = b2z b -> a = b.
Proof. intros E. by rewrite <- (z2b_b2z a), <- (z2b_b2z b), E. Qed.

Lemma z2b_mod (z : Z) : z2b (z mod 256) = z2b z.
Proof. apply b2z_inj. by rewrite !b2z_z2b, Z.mod_mod. Qed.

Lemma all_bytes_complete (b : byte) : In b all_bytes.
Proof.
  unfold all_bytes. apply in_map_iff. exists (Z.to_nat (b2z b)).
  pose proof (b2z_range b). split.
  - rewrite Z2Nat.id by lia. apply z2b_b2z.
  - apply in_seq. lia.
Qed.

(** A decidable fact about one byte is checked by enumeration. *)
Lemma forall_byte (p : byte -> bool) : forallb p all_bytes = true -> forall b, p b = true.
Proof. intros H b. rewrite forallb_forall in H. apply H, all_bytes_complete. Qed.

Lemma forall_byte2 (p : byte -> byte -> bool) :
  forallb (fun a => forallb (p a) all_bytes) all_bytes = true -> forall a b, p a b = true.
Proof.
  intros H a b. apply (forall_byte (p a)).
  by apply (forall_byte (fun a => forallb (p a) all_bytes)).
Qed.

(** [v.empty()]. *)
Definition is_nil {A} (l : list A) : bool := match l with [] => true | _ => false end.

(** ** Lemmas on wrap-around *)
Lemma wrap_range (w z : Z) : 0 <= w -> in_range w (wrap w z).
Proof. intros. unfold wrap, in_range. apply Z.mod_pos_bound. by apply Z.pow_pos_nonneg. Qed.

Lemma wrap_small (w z : Z) : in_range w z -> wrap w z = z.
Proof. apply Z.mod_small. Qed.

Lemma wrap_le (w z : Z) : 0 <= w -> 0 <= z -> wrap w z <= z.
Proof. intros. apply Z.mod_le; [done|]. by apply Z.pow_pos_nonneg. Qed.

Lemma wrap_add_l (w a b : Z) : wrap w (wrap w a + b) = wrap w (a + b).
Proof. unfold wrap. by rewrite Zplus_mod_idemp_l. Qed.

(** Equality of 64-bit counters: equal up to a multiple of 2^64. *)
Definition cong (a b : Z) : Prop := exists j, a = b + j * 2 ^ 64.

#[global] Instance cong_equivalence : Equivalence cong.
Proof.
  split; [intros a; exists 0; lia|intros a b [j ->]; exists (- j); lia|intros a b c [j ->] [i ->]; exists (i + j); lia].
Qed.
#[global] Instance cong_add : Proper (cong ==> cong ==> cong) Z.add.
Proof. intros a b [j ->] c d [i ->]. exists (i + j). lia. Qed.
#[global] Instance cong_sub : Proper (cong ==> cong ==> cong) Z.sub.
Proof. intros a b [j ->] c d [i ->]. exists (j - i). lia. Qed.

Lemma cong_u64 (a : Z) : cong (u64 a) a.
Proof. exists (- (a / 2 ^ 64)). unfold wrap. pose proof (Z.div_mod a (2 ^ 64)). lia. Qed.

Lemma cong_of_eq (a b : Z) : a = b -> cong a b.
Proof. by intros ->. Qed.

Lemma cong_eq (a b : Z) : cong a b -> in_range 64 a -> a = u64 b.
Proof.
  intros [j ->] Hr. rewrite <- (wrap_small 64 (b + j * 2 ^ 64) Hr). unfold wrap. by rewrite Z.mod_add.
Qed.

(** ** Sums *)
Definition Zsum (l : list Z) : Z := foldr Z.add 0 l.

Lemma Zsum_app (l l' : list Z) : Zsum (l ++ l') = Zsum l + Zsum l'.
Proof. induction l as [|x l IH]; cbn; [done|]. unfold Zsum in *. lia. Qed.

#[global] Instance Zsum_perm : Proper ((≡ₚ) ==> (=)) Zsum.
Proof. intros l l' H. induction H; unfold Zsum in *; cbn in *; lia. Qed.

(** ** Endian codecs: both directions *)
Fixpoint be_val (acc : Z) (bs : bytes) : Z :=
  match bs with [] => acc | b :: bs' => be_val (acc * 256 + b2z b) bs' end.

Lemma lor_shift8 (acc : Z) (b : byte) : Z.lor (Z.shiftl acc 8) (b2z b) = acc * 256 + b2z b.
Proof.
  rewrite Z.shiftl_mul_pow2 by lia. change (2 ^ 8) with 256. symmetry.
  rewrite <- Z.lxor_lor; [apply Z.add_nocarry_lxor|]; apply Z.bits_inj'; intros n Hn;
    rewrite Z.land_spec, Z.bits_0; change 256 with (2 ^ 8);
    (destruct (Z.lt_ge_cases n 8);
     [by rewrite Z.mul_pow2_bits_low | rewrite (Z.bits_above_log2 (b2z b)); [apply andb_false_r|..]]);
    try apply b2z_range; pose proof (b2z_range b);
    (destruct (Z.eq_dec (b2z b) 0) as [->|]; [simpl; lia|]);
    apply Z.lt_le_trans with 8; try lia; apply Z.log2_lt_pow2; lia.
Qed.

Lemma be_val_app (bs cs : bytes) (acc : Z) : be_val acc (bs ++ cs) = be_val (be_val acc bs) cs.
Proof. revert acc. induction bs as [|b bs IH]; simpl; auto. Qed.

Lemma pow256_S (n : nat) : 256 ^ Z.of_nat (S n) = 256 * 256 ^ Z.of_nat n.
Proof. rewrite Nat2Z.inj_succ, Z.pow_succ_r by lia. reflexivity. Qed.

Lemma be_val_bound (bs : bytes) (acc : Z) :
  acc * 256 ^ Z.of_nat (length bs) <= be_val acc bs < (acc + 1) * 256 ^ Z.of_nat (length bs).
Proof.
  revert acc. induction bs as [|b bs IH]; intros acc; [simpl; lia|].
  cbn [be_val length]. specialize (IH (acc * 256 + b2z b)). pose proof (b2z_range b).
  rewrite pow256_S. set (p := 256 ^ _) in *.
  assert (0 < p) by (apply Z.pow_pos_nonneg; lia). nia.
Qed.

Lemma be_acc_val (w : Z) (bs : bytes) (acc : Z) :
  0 <= acc -> (acc + 1) * 256 ^ Z.of_nat (length bs) <= 2 ^ w ->
  be_acc w acc bs = be_val acc bs.
Proof.
  revert acc. induction bs as [|b bs IH]; intros acc Ha Hb; [done|].
  cbn [be_acc be_val length] in *. rewrite lor_shift8. pose proof (b2z_range b).
  rewrite pow256_S in Hb. set (p := 256 ^ _) in *.
  assert (0 < p) by (apply Z.pow_pos_nonneg; lia).
  rewrite wrap_small by (unfold in_range; nia). apply IH; nia.
Qed.

Lemma pow256_pow2 (n : nat) : 256 ^ Z.of_nat n = 2 ^ (8 * Z.of_nat n).
Proof. change 256 with (2 ^ 8). rewrite <- Z.pow_mul_r by lia. reflexivity. Qed.

Lemma be_get_val (bs : bytes) :
  be_get (8 * Z.of_nat (length bs)) bs = be_val 0 bs.
Proof. apply be_acc_val; [lia|]. rewrite pow256_pow2. lia. Qed.

Lemma length_be_put (n : nat) (z : Z) : length (be_put n z) = n.
Proof. induction n; simpl; auto. Qed.

Lemma be_put_val (n : nat) (z : Z) (acc : Z) :
  0 <= z -> be_val acc (be_put n z) = acc * 256 ^ Z.of_nat n + z mod 256 ^ Z.of_nat n.
Proof.
  intros Hz. revert acc. induction n as [|n IH]; intros acc.
  - simpl. rewrite Z.mod_1_r. lia.
  - cbn [be_put be_val]. rewrite IH, b2z_z2b, pow256_S.
    rewrite Z.shiftr_div_pow2, <- pow256_pow2 by lia. set (p := 256 ^ Z.of_nat n).
    assert (0 < p) by (apply Z.pow_pos_nonneg; lia).
    rewrite (Z.mul_comm 256 p), Z.rem_mul_r by lia. lia.
Qed.

Lemma be_get_put (n : nat) (z : Z) :
  in_range (8 * Z.of_nat n) z -> be_get (8 * Z.of_nat n) (be_put n z) = z.
Proof.
  intros [Hl Hu]. rewrite <- (length_be_put n z) at 1. rewrite be_get_val, be_put_val by done.
  rewrite pow256_pow2. rewrite Z.mod_small by done. lia.
Qed.

Lemma be_val_inj (bs cs : bytes) (a c : Z) :
  length bs = length cs -> be_val a bs = be_val c cs -> a = c /\ bs = cs.
Proof.
  revert cs a c. induction bs as [|b bs IH]; intros [|x cs] a c Hl Hv; try discriminate; [done|].
  cbn in *. destruct (IH cs _ _ ltac:(lia) Hv) as [He ->].
  pose proof (b2z_range b). pose proof (b2z_range x).
  assert (a = c) by lia. subst. split; [done|]. f_equal. apply b2z_inj. lia.
Qed.

Lemma be_put_get (n : nat) (bs : bytes) :
  length bs = n -> be_put n (be_get (8 * Z.of_nat n) bs) = bs.
Proof.
  intros <-. rewrite be_get_val. pose proof (be_val_bound bs 0) as Hb.
  apply (be_val_inj _ _ 0 0); [apply length_be_put|].
  rewrite be_put_val by lia. rewrite Z.mod_small; lia.
Qed.

Lemma be_get_range (bs : bytes) (n : nat) :
  length bs = n -> in_range (8 * Z.of_nat n) (be_get (8 * Z.of_nat n) bs).
Proof.
  intros <-. rewrite be_get_val. pose proof (be_val_bound bs 0).
  unfold in_range. rewrite <- pow256_pow2. lia.
Qed.

Lemma length_le_put (n : nat) (z : Z) : length (le_put n z) = n.
Proof. unfold le_put. by rewrite length_rev, length_be_put. Qed.

Lemma le_get_put (n : nat) (z : Z) :
  in_range (8 * Z.of_nat n) z -> le_get (8 * Z.of_nat n) (le_put n z) = z.
Proof. intros. unfold le_get, le_put. rewrite rev_involutive. by apply be_get_put. Qed.

Lemma le_put_get (n : nat) (bs : bytes) :
  length bs = n -> le_put n (le_get (8 * Z.of_nat n) bs) = bs.
Proof.
  intros. unfold le_get, le_put. rewrite be_put_get by (by rewrite length_rev).
  apply rev_involutive.
Qed.

Lemma le_get_range (bs : bytes) (n : nat) :
  length bs = n -> in_range (8 * Z.of_nat n) (le_get (8 * Z.of_nat n) bs).
Proof. intros. apply be_get_range. by rewrite length_rev. Qed.
#[export] Hint Rewrite @length_app length_be_put length_le_put @length_replicate
  @length_take @length_drop @length_insert @length_map : lendb.

(** ** Lemmas on lists *)
Lemma length_flat_map_ge {A B} (f : A -> list B) (l : list A) : (forall x, x ∈ l -> f x <> []) -> (length l <= length (flat_map f l))%nat.
Proof.
  induction l as [|x l IH]; intros Hl; [done|]. cbn [flat_map length]. rewrite length_app. specialize (IH (fun y Hy => Hl y ltac:(set_solver))).
  specialize (Hl x ltac:(set_solver)). destruct (f x); [done|]. cbn [length]. clear - IH. lia.
Qed.

(** ** Lemmas on vector access *)
Lemma map_nth_seq {A} (l : list A) (d : A) : map (fun i => nth i l d) (List.seq 0 (length l)) = l.
Proof. induction l as [|a l IH]; [done|]. cbn. f_equal. by rewrite <- seq_shift, map_map. Qed.

(** A decidable property of the integers below a bound, by trying them. *)
Lemma forall_below (n : nat) (p : Z -> bool) :
  forallb (fun i => p (Z.of_nat i)) (List.seq 0 n) = true -> forall z, 0 <= z < Z.of_nat n -> p z = true.
Proof.
  intros H z Hz. rewrite forallb_forall in H. rewrite <- (Z2Nat.id z) by lia. apply H, in_seq. lia.
Qed.

Lemma vget_lookup {A} (v : list A) (i : nat) (x : A) : vget v i = Ok x <-> v !! i = Some x.
Proof. unfold vget. destruct (v !! i); split; congruence. Qed.

Lemma vget_lt {A} (v : list A) (i : nat) : (i < length v)%nat -> exists x, vget v i = Ok x /\ v !! i = Some x.
Proof. intros H. apply lookup_lt_is_Some in H as [x Hx]. exists x. by rewrite vget_lookup. Qed.

Lemma vset_lt {A} (v : list A) (i : nat) (x : A) : (i < length v)%nat -> vset v i x = Ok (<[i:=x]> v).
Proof. intros H. unfold vset. by rewrite (proj2 (Nat.ltb_lt _ _) H). Qed.

Lemma length_vresize {A} (n : nat) (x : A) (v : list A) : length (vresize n x v) = n.
Proof. unfold vresize. rewrite length_app, length_take, length_replicate. lia. Qed.

(** Hoare-style rule for [forM]: an invariant indexed by the part already done. *)
Lemma forM_invariant {S I} (P : list I -> S -> Prop) (body : I -> S -> res S) (ks dn : list I) (s : S) :
  P dn s ->
  (forall pre i post s, ks = pre ++ i :: post -> P (dn ++ pre) s ->
     exists s', body i s = Ok s' /\ P (dn ++ pre ++ [i]) s') ->
  exists s', forM ks body s = Ok s' /\ P (dn ++ ks) s'.
Proof.
  revert dn s. induction ks as [|i ks IH]; intros dn s H0 Hstep.
  - exists s. split; [done|]. by rewrite app_nil_r.
  - destruct (Hstep [] i ks s) as (s1 & Hb & HP); [done| by rewrite app_nil_r |].
    simpl. rewrite Hb. simpl in *. destruct (IH (dn ++ [i]) s1) as (s2 & Hf & HP2).
    + done.
    + intros pre j post s2 -> HP2. destruct (Hstep (i :: pre) j post s2) as (s3 & Hb3 & HP3);
        [done | by rewrite <- app_assoc in HP2 |].
      exists s3. split; [done|]. by rewrite <- !app_assoc in *.
    + exists s2. split; [done|]. by rewrite <- app_assoc in HP2.
Qed.

(** The common case: the loop runs over [0 .. n-1]. *)
Lemma forM_seq_invariant {S} (P : nat -> S -> Prop) (body : nat -> S -> res S) (n : nat) (s : S) :
  P O s ->
  (forall i s, (i < n)%nat -> P i s -> exists s', body i s = Ok s' /\ P (Datatypes.S i) s') ->
  exists s', forM (List.seq 0 n) body s = Ok s' /\ P n s'.
Proof.
  intros H0 Hstep.
  destruct (forM_invariant (fun dn s => P (length dn) s) body (List.seq 0 n) [] s) as (s' & Hf & HP).
  - exact H0.
  - intros pre i post s1 Hsplit HP. simpl in HP.
    assert (length pre < n)%nat.
    { apply (f_equal length) in Hsplit. rewrite length_seq, length_app in Hsplit. simpl in Hsplit. lia. }
    assert (i = length pre).
    { pose proof (f_equal (fun l => nth (length pre) l 0%nat) Hsplit) as Hn.
      simpl in Hn. rewrite seq_nth in Hn by done. rewrite app_nth2, Nat.sub_diag in Hn by lia.
      simpl in Hn. lia. }
    subst i. simpl. rewrite length_app. simpl. rewrite Nat.add_1_r. eauto.
  - exists s'. split; [done|]. simpl in HP. by rewrite length_seq in HP.
Qed.
