(* ===== verification/Double.v ===== *)
(** * Doubles

    A [double] is a binary64 value of the Standard Library's [SpecFloat]; each
    operation rounds to nearest, ties to even.  The build enables neither
    contraction nor a wider intermediate format, so every operation of the
    source is one rounded operation here. *)
From S2P Require Import Prelude.
From Corelib Require Export SpecFloat.

Abbreviation double := spec_float.
Definition double_of (z : Z) : double := binary_normalize 53 1024 z 0 false.
Definition dmul : double -> double -> double := SFmul 53 1024.
Definition ddiv : double -> double -> double := SFdiv 53 1024.
Definition dadd : double -> double -> double := SFadd 53 1024.
Definition dsub : double -> double -> double := SFsub 53 1024.

(** The literal [a/b]: the double nearest to the quotient. *)
Definition ratio (a b : Z) : double := ddiv (double_of a) (double_of b).

(** [static_cast<size_t>] of a finite, non-negative double. *)
Definition size_of_double (x : double) : Z :=
  match x with
  | S754_finite false m e => if 0 <=? e then Z.shiftl (Zpos m) e else Z.shiftr (Zpos m) (- e)
  | _ => 0
  end.

(** Truncation towards zero; [None] for an infinity or a NaN. *)
Definition trunc_double (x : double) : option Z :=
  match x with
  | S754_zero _ => Some 0
  | S754_finite s m e =>
    let a := if 0 <=? e then Z.shiftl (Zpos m) e else Z.shiftr (Zpos m) (- e) in
    Some (if s then - a else a)
  | _ => None
  end.

(** [static_cast<int64_t>] and [static_cast<uint64_t>]: undefined when the
    truncated value does not fit. *)
Definition int64_of_double (x : double) : res Z :=
  match trunc_double x with
  | Some z => if (- 2 ^ 63 <=? z) && (z <? 2 ^ 63) then Ok z else Throw BadCast
  | None => Throw BadCast
  end.
Definition uint64_of_double (x : double) : res Z :=
  match trunc_double x with
  | Some z => if (0 <=? z) && (z <? 2 ^ 64) then Ok z else Throw BadCast
  | None => Throw BadCast
  end.

(** The binary64 bit pattern, as [memcpy] to a [uint64_t] shows it. *)
Definition double_bits (x : double) : Z :=
  let sign (s : bool) := if s then Z.shiftl 1 63 else 0 in
  match x with
  | S754_zero s => sign s
  | S754_infinity s => Z.lor (sign s) (Z.shiftl 0x7ff 52)
  | S754_nan => Z.shiftl 0x7ff8 48
  | S754_finite s m e =>
    if 2 ^ 52 <=? Zpos m then u64 (Z.lor (sign s) (Z.lor (Z.shiftl (e + 1075) 52) (Zpos m - 2 ^ 52)))
    else u64 (Z.lor (sign s) (Zpos m))
  end.

Lemma double_bits_range (x : double) : in_range 64 (double_bits x).
Proof.
  destruct x as [[]|[]| |s m e]; [split; [discriminate|reflexivity] ..|].
  unfold double_bits. cbv zeta. destruct (Z.leb _ _); by apply wrap_range.
Qed.
#[export] Hint Resolve double_bits_range : rangedb.

Lemma int64_of_double_range (x : double) (z : Z) : int64_of_double x = Ok z -> - 2 ^ 63 <= z < 2 ^ 63.
Proof. unfold int64_of_double. destruct (trunc_double x); [|done]. destruct (_ && _) eqn:E; [|done]. intros [= <-]. zbool. lia. Qed.

(** Bit patterns of a few doubles. *)
Example bits_of_65000_5 : double_bits (dadd (double_of 65000) (ratio 1 2)) = 0x40efbd1000000000.
Proof. reflexivity. Qed.
Example bits_of_tenth : double_bits (ratio 1 10) = 0x3fb999999999999a.
Proof. reflexivity. Qed.
