(* ===== verification/Util.v ===== *)
(** * Utilities: [harness/include/util.h]

    The power-of-two test that guards ring sizes and deduplication windows, the
    clocks, and the flag the signal handlers set.  ([idle_wait], which reads
    environment variables, is in [Args].)  In the other files a reading of a
    clock or of the flag is an input of the loop that takes it. *)
From S2P Require Import Prelude.

(** ** Clocks *)

(** [count]: the nanoseconds [time_since_epoch] holds, signed 64 bits. *)
Definition now_ns (count : Z) : Z := u64 count.
Definition steady_now_ns (count : Z) : Z := u64 count.

(** The difference of two readings is the time that passed, also for a clock
    whose count is negative or wraps. *)
Lemma elapsed_exact (before after : Z) :
  in_range 64 (after - before) -> u64 (steady_now_ns after - steady_now_ns before) = after - before.
Proof.
  intros Hr. unfold steady_now_ns, wrap. rewrite <- Zminus_mod. by apply Z.mod_small.
Qed.

(** ** Signals *)

(** The dispositions the process has, the flag, and whether the process still
    runs: the default action of both signals is to end it. *)
Inductive signal := SIGINT | SIGTERM.
#[global] Instance signal_eq_dec : EqDecision signal.
Proof. solve_decision. Defined.
Record Signals := mkSignals { sg_handled : signal -> bool; stop_requested : bool; sg_running : bool }.
Definition signals_init : Signals := mkSignals (fun _ => false) false true.

Definition request_stop (s : Signals) : Signals := mkSignals (sg_handled s) true (sg_running s).
Definition handle (s : Signals) (sig : signal) : Signals :=
  mkSignals (fun x => if decide (x = sig) then true else sg_handled s x) (stop_requested s) (sg_running s).
Definition install_signal_handlers (s : Signals) : Signals := handle (handle s SIGINT) SIGTERM.
Definition should_stop (s : Signals) : bool := stop_requested s.

(** The kernel delivers a signal. *)
Definition deliver (s : Signals) (sig : signal) : Signals :=
  if sg_handled s sig then request_stop s else mkSignals (sg_handled s) (stop_requested s) false.

(** The answers of [should_stop()] while signals arrive between two calls. *)
Fixpoint stop_readings (s : Signals) (arrivals : list (list signal)) : list bool :=
  match arrivals with
  | [] => []
  | sigs :: arrivals' => let s := fold_left deliver sigs s in should_stop s :: stop_readings s arrivals'
  end.

Lemma deliver_all (sigs : list signal) (s : Signals) :
  (forall sig, sg_handled s sig = true) ->
  fold_left deliver sigs s = mkSignals (sg_handled s) (stop_requested s || negb (is_nil sigs)) (sg_running s).
Proof.
  intros Hh. revert s Hh. induction sigs as [|sig sigs IH]; intros s Hh; cbn [fold_left is_nil negb]; [rewrite orb_false_r; by destruct s|].
  unfold deliver at 2. rewrite Hh, IH by (cbn; done). cbn. by rewrite orb_true_r.
Qed.

(** Once the handlers are installed no such signal ends the process: the
    [i]-th reading of the flag is true exactly if some signal has arrived by then,
    so that it never goes back to false. *)
Lemma stop_is_sticky (arrivals : list (list signal)) (i : nat) (b : bool) :
  stop_readings (install_signal_handlers signals_init) arrivals !! i = Some b -> b = negb (is_nil (concat (take (S i) arrivals))).
Proof.
  assert (Hgen : forall s, (forall sig, sg_handled s sig = true) ->
    stop_readings s arrivals !! i = Some b -> b = stop_requested s || negb (is_nil (concat (take (S i) arrivals)))); [|intros E; apply Hgen in E; [done|by intros []]].
  revert i. induction arrivals as [|sigs arrivals IH]; intros i s Hh E; [done|]. cbn [stop_readings] in E. rewrite deliver_all in E by done.
  destruct i as [|i]; [injection E as <-; cbn; by rewrite app_nil_r|]. apply IH in E; [|done]. cbn [stop_requested] in E. rewrite E, <- orb_assoc. f_equal.
  cbn [take concat]. by destruct sigs.
Qed.

(** ** Powers of two *)

Definition is_power_of_two (value : Z) : bool :=
  negb (value =? 0) && (Z.land value (u64 (value - 1)) =? 0).

(** [v & (v - 1)] clears the lowest set bit: it is zero only for powers of two. *)
Lemma land_pred_pow2 (v : Z) : 0 < v -> Z.land v (v - 1) = 0 -> v = 2 ^ Z.log2 v.
Proof.
  intros Hv Hl. destruct (Z.log2_spec v Hv) as [Hlo Hhi].
  destruct (Z.eq_dec v (2 ^ Z.log2 v)) as [|Hne]; [done|exfalso].
  assert (Z.testbit (v - 1) (Z.log2 v) = true) as B2.
  { rewrite <- (Z.log2_unique (v - 1) (Z.log2 v)).
    - apply Z.bit_log2. pose proof (Z.log2_nonneg v).
      assert (0 < 2 ^ Z.log2 v) by (apply Z.pow_pos_nonneg; lia). lia.
    - apply Z.log2_nonneg.
    - lia. }
  apply (f_equal (fun z => Z.testbit z (Z.log2 v))) in Hl.
  rewrite Z.land_spec, Z.bit_log2, B2, Z.bits_0 in Hl by lia. discriminate.
Qed.

Lemma pow2_land_pred (k : Z) : 0 <= k -> Z.land (2 ^ k) (2 ^ k - 1) = 0.
Proof.
  intros Hk. replace (2 ^ k - 1) with (Z.ones k) by (rewrite Z.ones_equiv; lia).
  rewrite Z.land_ones by done. apply Z.mod_same. apply Z.pow_nonzero; lia.
Qed.

Lemma is_power_of_two_iff (v : Z) :
  in_range 64 v -> is_power_of_two v = true <-> exists k, 0 <= k < 64 /\ v = 2 ^ k.
Proof.
  intros [H0 H1]. unfold is_power_of_two. split.
  - intros H. zbool. rewrite wrap_small in * by (unfold in_range; lia).
    exists (Z.log2 v). split; [|apply land_pred_pow2; lia].
    split; [apply Z.log2_nonneg|]. apply Z.log2_lt_pow2; lia.
  - intros (k & Hk & ->). assert (0 < 2 ^ k) by (apply Z.pow_pos_nonneg; lia).
    rewrite wrap_small by (unfold in_range; lia). rewrite pow2_land_pred by lia.
    destruct (Z.eqb_spec (2 ^ k) 0); [lia|done].
Qed.

(** The test accepts exactly the powers of two of the 64-bit range. *)
Theorem power_of_two_test_exact (v : Z) :
  in_range 64 v -> is_power_of_two v = true <-> exists k, 0 <= k < 64 /\ v = 2 ^ k.
Proof. apply is_power_of_two_iff. Qed.

Lemma power_of_two_test_exact_witness : is_power_of_two 1024 = true <-> exists k, 0 <= k < 64 /\ 1024 = 2 ^ k.
Proof. apply power_of_two_test_exact. unfold in_range. lia. Defined.
