(* ===== verification/Message.v ===== *)
(** * Messages: [harness/include/message.h]

    The structs of [namespace msg], the generic visitor [fields] that lists
    their members in declaration order (used by the wire codec and, since the
    structs have no internal padding, also describing their native image), and
    [validate_frame]. *)
From S2P Require Import Prelude.

Definition kSymbolLen : nat := 16.
Definition kVenueLen : nat := 16.
Definition kCurrencyLen : nat := 8.
Definition kBookDepth : nat := 5.
Definition kVersion : Z := 2.

(** [enum class Type : uint16_t]; any 16-bit value can be cast to it. *)
Definition Type_Trade : Z := 1.
Definition Type_Bbo : Z := 2.
Definition Type_OrderBook : Z := 3.

(** Integer fields are values of their width; a [double] is its binary64 bit
    pattern (the code only copies its bits); character arrays are byte lists. *)
Record Header := mkHeader {
  seq_id : Z; send_ts_ns : Z; type_ : Z; version : Z; body_len : Z;
  stream_id : Z; stream_epoch : Z
}.

Record Trade := mkTrade {
  tr_header : Header;
  tr_symbol : bytes; tr_venue : bytes; tr_base_currency : bytes; tr_quote_currency : bytes;
  tr_trade_id : Z; tr_buyer_order_id : Z; tr_seller_order_id : Z;
  tr_exchange_ts_ns : Z; tr_match_engine_ts_ns : Z;
  tr_price : Z; tr_quantity : Z; tr_notional : Z;
  tr_price_ticks : Z; tr_quantity_lots : Z; tr_tick_direction : Z;
  tr_aggressor_side : Z; tr_is_block_trade : Z; tr_is_rpi : Z; tr_is_liquidation : Z;
  tr_flags : Z; tr_reserved : bytes
}.

Record Bbo := mkBbo {
  bb_header : Header; bb_symbol : bytes; bb_venue : bytes;
  bb_update_id : Z; bb_exchange_ts_ns : Z; bb_match_engine_ts_ns : Z;
  bb_bid_price : Z; bb_bid_size : Z; bb_ask_price : Z; bb_ask_size : Z;
  bb_bid_price_ticks : Z; bb_ask_price_ticks : Z; bb_bid_size_lots : Z; bb_ask_size_lots : Z;
  bb_bid_order_count : Z; bb_ask_order_count : Z; bb_flags : Z; bb_reserved : bytes
}.

Record Level := mkLevel {
  lv_price : Z; lv_size : Z; lv_price_ticks : Z; lv_size_lots : Z;
  lv_order_count : Z; lv_reserved : Z
}.

Record OrderBook := mkOrderBook {
  ob_header : Header; ob_symbol : bytes; ob_venue : bytes;
  ob_update_id : Z; ob_prev_update_id : Z; ob_exchange_ts_ns : Z; ob_match_engine_ts_ns : Z;
  ob_bids : list Level; ob_asks : list Level;
  ob_checksum : Z; ob_is_snapshot : Z; ob_flags : Z; ob_reserved : bytes
}.

(** ** The visitor

    [IntIO] is the policy the template parameter [IO] stands for: how an
    unsigned integer of [n] bytes is laid out. *)
Class IntIO := {
  io_put : nat -> Z -> bytes;
  io_get : nat -> bytes -> Z
}.

Class IntIOLaws (io : IntIO) := {
  io_put_length n z : length (io_put n z) = n;
  io_get_put n z : in_range (8 * Z.of_nat n) z -> io_get n (io_put n z) = z;
  io_put_get n bs : length bs = n -> io_put n (io_get n bs) = bs;
  io_get_range n bs : length bs = n -> in_range (8 * Z.of_nat n) (io_get n bs)
}.
#[export] Hint Rewrite @io_put_length using typeclasses eauto : lendb.

(** Two's complement: [static_cast<U>(v)] and the conversion back in [Reader]. *)
Definition to_unsigned (w v : Z) : Z := wrap w v.
Definition to_signed (w bits : Z) : Z :=
  if bits <=? 2 ^ (w - 1) - 1 then bits else -1 - (2 ^ w - 1 - bits).
Definition in_srange (w z : Z) : Prop := - 2 ^ (w - 1) <= z < 2 ^ (w - 1).

(** The reading side: [wire::Reader] with its position, and the bound check that
    throws [std::length_error]. *)
Record Reader := mkReader { rd_data : bytes; rd_pos : nat }.
Definition rd (A : Type) : Type := Reader -> res (A * Reader).
Definition rd_ret {A} (a : A) : rd A := fun r => Ok (a, r).
Definition rd_bind {A B} (f : rd A) (g : A -> rd B) : rd B :=
  fun r => let! x := f r in g (fst x) (snd x).
Notation "x <~ f ;; g" := (rd_bind f (fun x => g))
  (at level 100, f at next level, right associativity) : pulse_scope.

Section Visitor.
Context {io : IntIO}.

Definition put_signed (n : nat) (v : Z) : bytes := io_put n (to_unsigned (8 * Z.of_nat n) v).
Definition put_chars (v : bytes) : bytes := flat_map (fun b => io_put 1 (b2z b)) v.

Definition put_Header (m : Header) : bytes :=
  io_put 8 (seq_id m) ++ io_put 8 (send_ts_ns m) ++ io_put 2 (type_ m) ++
  io_put 2 (version m) ++ io_put 4 (body_len m) ++ io_put 8 (stream_id m) ++
  io_put 8 (stream_epoch m).

Definition put_Trade (m : Trade) : bytes :=
  put_Header (tr_header m) ++ put_chars (tr_symbol m) ++ put_chars (tr_venue m) ++
  put_chars (tr_base_currency m) ++ put_chars (tr_quote_currency m) ++
  io_put 8 (tr_trade_id m) ++ io_put 8 (tr_buyer_order_id m) ++
  io_put 8 (tr_seller_order_id m) ++ io_put 8 (tr_exchange_ts_ns m) ++
  io_put 8 (tr_match_engine_ts_ns m) ++
  io_put 8 (tr_price m) ++ io_put 8 (tr_quantity m) ++ io_put 8 (tr_notional m) ++
  put_signed 8 (tr_price_ticks m) ++ put_signed 8 (tr_quantity_lots m) ++
  io_put 4 (tr_tick_direction m) ++ io_put 1 (tr_aggressor_side m) ++
  io_put 1 (tr_is_block_trade m) ++ io_put 1 (tr_is_rpi m) ++
  io_put 1 (tr_is_liquidation m) ++ io_put 1 (tr_flags m) ++ put_chars (tr_reserved m).

Definition put_Bbo (m : Bbo) : bytes :=
  put_Header (bb_header m) ++ put_chars (bb_symbol m) ++ put_chars (bb_venue m) ++
  io_put 8 (bb_update_id m) ++ io_put 8 (bb_exchange_ts_ns m) ++
  io_put 8 (bb_match_engine_ts_ns m) ++
  io_put 8 (bb_bid_price m) ++ io_put 8 (bb_bid_size m) ++
  io_put 8 (bb_ask_price m) ++ io_put 8 (bb_ask_size m) ++
  put_signed 8 (bb_bid_price_ticks m) ++ put_signed 8 (bb_ask_price_ticks m) ++
  put_signed 8 (bb_bid_size_lots m) ++ put_signed 8 (bb_ask_size_lots m) ++
  io_put 4 (bb_bid_order_count m) ++ io_put 4 (bb_ask_order_count m) ++
  io_put 1 (bb_flags m) ++ put_chars (bb_reserved m).

Definition put_Level (m : Level) : bytes :=
  io_put 8 (lv_price m) ++ io_put 8 (lv_size m) ++ put_signed 8 (lv_price_ticks m) ++
  put_signed 8 (lv_size_lots m) ++ io_put 4 (lv_order_count m) ++ io_put 4 (lv_reserved m).

Definition put_OrderBook (m : OrderBook) : bytes :=
  put_Header (ob_header m) ++ put_chars (ob_symbol m) ++ put_chars (ob_venue m) ++
  io_put 8 (ob_update_id m) ++ io_put 8 (ob_prev_update_id m) ++
  io_put 8 (ob_exchange_ts_ns m) ++ io_put 8 (ob_match_engine_ts_ns m) ++
  flat_map put_Level (ob_bids m) ++ flat_map put_Level (ob_asks m) ++
  io_put 4 (ob_checksum m) ++ io_put 1 (ob_is_snapshot m) ++ io_put 1 (ob_flags m) ++
  put_chars (ob_reserved m).

Definition get_uint (n : nat) : rd Z := fun r =>
  if (length (rd_data r) <? rd_pos r + n)%nat then Throw LengthError
  else Ok (io_get n (take n (drop (rd_pos r) (rd_data r))), mkReader (rd_data r) (rd_pos r + n)).
Definition get_signed (n : nat) : rd Z :=
  bits <~ get_uint n ;; rd_ret (to_signed (8 * Z.of_nat n) bits).
Fixpoint get_array {A} (get : rd A) (n : nat) : rd (list A) :=
  match n with
  | O => rd_ret []
  | S m => x <~ get ;; xs <~ get_array get m ;; rd_ret (x :: xs)
  end.
Definition get_chars (n : nat) : rd bytes :=
  get_array (x <~ get_uint 1 ;; rd_ret (z2b x)) n.

Definition get_Header : rd Header :=
  a <~ get_uint 8 ;; b <~ get_uint 8 ;; c <~ get_uint 2 ;; d <~ get_uint 2 ;;
  e <~ get_uint 4 ;; f <~ get_uint 8 ;; g <~ get_uint 8 ;;
  rd_ret (mkHeader a b c d e f g).

Definition get_Trade : rd Trade :=
  h <~ get_Header ;;
  sy <~ get_chars kSymbolLen ;; ve <~ get_chars kVenueLen ;;
  bc <~ get_chars kCurrencyLen ;; qc <~ get_chars kCurrencyLen ;;
  ti <~ get_uint 8 ;; bo <~ get_uint 8 ;; so <~ get_uint 8 ;;
  ex <~ get_uint 8 ;; me <~ get_uint 8 ;;
  pr <~ get_uint 8 ;; qu <~ get_uint 8 ;; no <~ get_uint 8 ;;
  pt <~ get_signed 8 ;; ql <~ get_signed 8 ;;
  td <~ get_uint 4 ;; ag <~ get_uint 1 ;; bt <~ get_uint 1 ;;
  rp <~ get_uint 1 ;; li <~ get_uint 1 ;; fl <~ get_uint 1 ;; re <~ get_chars 19 ;;
  rd_ret (mkTrade h sy ve bc qc ti bo so ex me pr qu no pt ql td ag bt rp li fl re).

Definition get_Bbo : rd Bbo :=
  h <~ get_Header ;; sy <~ get_chars kSymbolLen ;; ve <~ get_chars kVenueLen ;;
  ui <~ get_uint 8 ;; ex <~ get_uint 8 ;; me <~ get_uint 8 ;;
  bp <~ get_uint 8 ;; bs <~ get_uint 8 ;; ap <~ get_uint 8 ;; as_ <~ get_uint 8 ;;
  bt <~ get_signed 8 ;; at_ <~ get_signed 8 ;; bl <~ get_signed 8 ;; al <~ get_signed 8 ;;
  bc <~ get_uint 4 ;; ac <~ get_uint 4 ;; fl <~ get_uint 1 ;; re <~ get_chars 23 ;;
  rd_ret (mkBbo h sy ve ui ex me bp bs ap as_ bt at_ bl al bc ac fl re).

Definition get_Level : rd Level :=
  p <~ get_uint 8 ;; s <~ get_uint 8 ;; t <~ get_signed 8 ;; l <~ get_signed 8 ;;
  c <~ get_uint 4 ;; r <~ get_uint 4 ;; rd_ret (mkLevel p s t l c r).

Definition get_OrderBook : rd OrderBook :=
  h <~ get_Header ;; sy <~ get_chars kSymbolLen ;; ve <~ get_chars kVenueLen ;;
  ui <~ get_uint 8 ;; pu <~ get_uint 8 ;; ex <~ get_uint 8 ;; me <~ get_uint 8 ;;
  bi <~ get_array get_Level kBookDepth ;; as_ <~ get_array get_Level kBookDepth ;;
  ck <~ get_uint 4 ;; sn <~ get_uint 1 ;; fl <~ get_uint 1 ;; re <~ get_chars 26 ;;
  rd_ret (mkOrderBook h sy ve ui pu ex me bi as_ ck sn fl re).
End Visitor.

(** ** Native representation

    On the target ABI the structs have no internal padding, so their image is
    the visitor's output in little-endian order, followed by the tail padding
    that [alignas(64)] adds. *)
Definition native_io : IntIO :=
  {| io_put := le_put; io_get n bs := le_get (8 * Z.of_nat n) bs |}.

Definition sizeof_Header : nat := 40.
Definition sizeof_Trade : nat := 256.
Definition sizeof_Bbo : nat := 192.
Definition sizeof_OrderBook : nat := 576.
Definition kMaxFrame : nat := sizeof_OrderBook.

Definition expected_size (type : Z) : nat :=
  if type =? Type_Trade then sizeof_Trade
  else if type =? Type_Bbo then sizeof_Bbo
  else if type =? Type_OrderBook then sizeof_OrderBook
  else 0.

(** [memcpy] of a struct image into a struct. *)
Definition native_read {A} (get : IntIO -> rd A) (data : bytes) : res A :=
  let! x := get native_io (mkReader data 0) in Ok (fst x).

Definition validate_frame (data : bytes) : bool :=
  let len := length data in
  if (len <? sizeof_Header)%nat || (kMaxFrame <? len)%nat then false
  else match native_read (@get_Header) data with
  | Throw _ => false
  | Ok h =>
    if negb (version h =? kVersion) || negb (body_len h =? Z.of_nat len) then false
    else (expected_size (type_ h) =? len)%nat
  end.

(** ** Well-formed values: every member in the range of its C++ type. *)
Definition wf_Header (h : Header) : Prop :=
  in_range 64 (seq_id h) /\ in_range 64 (send_ts_ns h) /\ in_range 16 (type_ h) /\
  in_range 16 (version h) /\ in_range 32 (body_len h) /\ in_range 64 (stream_id h) /\
  in_range 64 (stream_epoch h).

Definition wf_Trade (m : Trade) : Prop :=
  wf_Header (tr_header m) /\ length (tr_symbol m) = kSymbolLen /\ length (tr_venue m) = kVenueLen /\
  length (tr_base_currency m) = kCurrencyLen /\ length (tr_quote_currency m) = kCurrencyLen /\
  in_range 64 (tr_trade_id m) /\ in_range 64 (tr_buyer_order_id m) /\
  in_range 64 (tr_seller_order_id m) /\ in_range 64 (tr_exchange_ts_ns m) /\
  in_range 64 (tr_match_engine_ts_ns m) /\ in_range 64 (tr_price m) /\
  in_range 64 (tr_quantity m) /\ in_range 64 (tr_notional m) /\
  in_srange 64 (tr_price_ticks m) /\ in_srange 64 (tr_quantity_lots m) /\
  in_range 32 (tr_tick_direction m) /\ in_range 8 (tr_aggressor_side m) /\
  in_range 8 (tr_is_block_trade m) /\ in_range 8 (tr_is_rpi m) /\
  in_range 8 (tr_is_liquidation m) /\ in_range 8 (tr_flags m) /\ length (tr_reserved m) = 19%nat.

Definition wf_Bbo (m : Bbo) : Prop :=
  wf_Header (bb_header m) /\ length (bb_symbol m) = kSymbolLen /\ length (bb_venue m) = kVenueLen /\
  in_range 64 (bb_update_id m) /\ in_range 64 (bb_exchange_ts_ns m) /\
  in_range 64 (bb_match_engine_ts_ns m) /\ in_range 64 (bb_bid_price m) /\
  in_range 64 (bb_bid_size m) /\ in_range 64 (bb_ask_price m) /\ in_range 64 (bb_ask_size m) /\
  in_srange 64 (bb_bid_price_ticks m) /\ in_srange 64 (bb_ask_price_ticks m) /\
  in_srange 64 (bb_bid_size_lots m) /\ in_srange 64 (bb_ask_size_lots m) /\
  in_range 32 (bb_bid_order_count m) /\ in_range 32 (bb_ask_order_count m) /\
  in_range 8 (bb_flags m) /\ length (bb_reserved m) = 23%nat.

Definition wf_Level (m : Level) : Prop :=
  in_range 64 (lv_price m) /\ in_range 64 (lv_size m) /\ in_srange 64 (lv_price_ticks m) /\
  in_srange 64 (lv_size_lots m) /\ in_range 32 (lv_order_count m) /\ in_range 32 (lv_reserved m).

Definition wf_OrderBook (m : OrderBook) : Prop :=
  wf_Header (ob_header m) /\ length (ob_symbol m) = kSymbolLen /\ length (ob_venue m) = kVenueLen /\
  in_range 64 (ob_update_id m) /\ in_range 64 (ob_prev_update_id m) /\
  in_range 64 (ob_exchange_ts_ns m) /\ in_range 64 (ob_match_engine_ts_ns m) /\
  (length (ob_bids m) = kBookDepth /\ Forall wf_Level (ob_bids m)) /\
  (length (ob_asks m) = kBookDepth /\ Forall wf_Level (ob_asks m)) /\
  in_range 32 (ob_checksum m) /\ in_range 8 (ob_is_snapshot m) /\ in_range 8 (ob_flags m) /\
  length (ob_reserved m) = 26%nat.

(** ** A reader recovers what the writer wrote, and only that

    [reads f e a]: on input that continues with [e], [f] returns [a] and
    consumes exactly [e].  [consumes f Q]: whenever [f] returns [a], the bytes
    it consumed are related to [a] by [Q]. *)
Definition reads {A} (f : rd A) (e : bytes) (a : A) : Prop :=
  forall data pos rest, drop pos data = e ++ rest ->
    f (mkReader data pos) = Ok (a, mkReader data (pos + length e)).

Definition consumes {A} (f : rd A) (Q : A -> bytes -> Prop) : Prop :=
  forall data pos a r, (pos <= length data)%nat -> f (mkReader data pos) = Ok (a, r) ->
    exists e rest, drop pos data = e ++ rest /\ r = mkReader data (pos + length e) /\ Q a e.

Lemma reads_ret {A} (a : A) : reads (rd_ret a) [] a.
Proof. intros data pos rest _. simpl. by rewrite Nat.add_0_r. Qed.

Lemma drop_past {A} (data e rest : list A) (pos : nat) :
  drop pos data = e ++ rest -> drop (pos + length e) data = rest.
Proof. intros H. rewrite <- drop_drop, H. by rewrite drop_app_length. Qed.

Lemma reads_bind {A B} (f : rd A) (g : A -> rd B) (e1 e2 : bytes) (a : A) (b : B) :
  reads f e1 a -> reads (g a) e2 b -> reads (rd_bind f g) (e1 ++ e2) b.
Proof.
  intros Hf Hg data pos rest Hd. rewrite <- app_assoc in Hd. unfold rd_bind.
  rewrite (Hf _ _ _ Hd). cbn [rbind fst snd].
  rewrite (Hg _ _ rest) by (by apply drop_past). by rewrite length_app, Nat.add_assoc.
Qed.

(** The last read of a chain: what follows is only [rd_ret]. *)
Lemma reads_last {A B} (f : rd A) (g : A -> rd B) (e : bytes) (a : A) (b : B) :
  reads f e a -> reads (g a) [] b -> reads (rd_bind f g) e b.
Proof. intros. rewrite <- (app_nil_r e). by apply reads_bind with a. Qed.

Lemma consumes_ret {A} (a : A) (Q : A -> bytes -> Prop) : Q a [] -> consumes (rd_ret a) Q.
Proof.
  intros HQ data pos a' r _ H. injection H as <- <-. exists [], (drop pos data).
  split; [done|]. split; [|done]. by rewrite Nat.add_0_r.
Qed.

Lemma consumes_bind {A B} (f : rd A) (g : A -> rd B) Q1 (Q2 : B -> bytes -> Prop) :
  consumes f Q1 ->
  (forall a e, Q1 a e -> consumes (g a) (fun b e' => Q2 b (e ++ e'))) ->
  consumes (rd_bind f g) Q2.
Proof.
  intros Hf Hg data pos b r Hpos H. unfold rd_bind in H.
  destruct (f (mkReader data pos)) as [[a r1]|] eqn:E; [|discriminate H].
  cbn [rbind fst snd] in H. destruct (Hf _ _ _ _ Hpos E) as (e1 & r1' & Hd & -> & HQ).
  assert (pos + length e1 <= length data)%nat.
  { apply (f_equal length) in Hd. rewrite length_drop, length_app in Hd. lia. }
  destruct (Hg _ _ HQ _ _ _ _ H0 H) as (e2 & rest & Hd2 & -> & HQ2).
  exists (e1 ++ e2), rest. split.
  - rewrite (drop_past _ _ _ _ Hd) in Hd2. by rewrite <- app_assoc, <- Hd2.
  - split; [|done]. f_equal. rewrite length_app. lia.
Qed.

Lemma to_signed_unsigned (w v : Z) : 0 < w -> in_srange w v -> to_signed w (to_unsigned w v) = v.
Proof.
  intros Hw Hv. unfold to_signed, to_unsigned, in_srange, wrap in *.
  assert (2 ^ w = 2 * 2 ^ (w - 1)) as Hp by (rewrite <- Z.pow_succ_r by lia; f_equal; lia).
  rewrite Hp. destruct (Z.lt_ge_cases v 0).
  - rewrite (Z.mod_eq v) by lia.
    replace (v / (2 * 2 ^ (w - 1))) with (-1) by (apply Z.div_unique with (v + 2 * 2 ^ (w - 1)); lia).
    destruct (Z.leb_spec (v - 2 * 2 ^ (w - 1) * -1) (2 ^ (w - 1) - 1)); lia.
  - rewrite Z.mod_small by lia. destruct (Z.leb_spec v (2 ^ (w - 1) - 1)); lia.
Qed.

Lemma to_unsigned_signed (w b : Z) : 0 < w -> in_range w b ->
  to_unsigned w (to_signed w b) = b /\ in_srange w (to_signed w b).
Proof.
  intros Hw Hb. unfold to_signed, to_unsigned, in_range, in_srange, wrap in *.
  assert (2 ^ w = 2 * 2 ^ (w - 1)) as Hp by (rewrite <- Z.pow_succ_r by lia; f_equal; lia).
  destruct (Z.leb_spec b (2 ^ (w - 1) - 1)).
  - rewrite Z.mod_small by lia. lia.
  - split; [|lia]. rewrite <- (Z.mod_small b (2 ^ w)) at 2 by lia.
    replace (-1 - (2 ^ w - 1 - b)) with (b + (-1) * 2 ^ w) by lia. apply Z.mod_add. lia.
Qed.

Section VisitorLemmas.
Context {io : IntIO} {laws : IntIOLaws io}.

Lemma get_uint_reads (n : nat) (z : Z) :
  (0 < n)%nat -> in_range (8 * Z.of_nat n) z -> reads (get_uint n) (io_put n z) z.
Proof.
  intros Hn Hz data pos rest Hd. unfold get_uint. cbn [rd_data rd_pos].
  pose proof (f_equal length Hd) as Hl. rewrite length_drop, length_app, io_put_length in Hl.
  destruct (Nat.ltb_spec (length data) (pos + n)); [lia|].
  rewrite Hd, take_app_le, take_ge by (rewrite io_put_length; lia).
  by rewrite io_get_put, io_put_length.
Qed.

Lemma get_uint_consumes (n : nat) :
  consumes (get_uint n) (fun z e => e = io_put n z /\ in_range (8 * Z.of_nat n) z).
Proof.
  intros data pos z r Hpos H. unfold get_uint in H. cbn [rd_data rd_pos] in H.
  destruct (Nat.ltb_spec (length data) (pos + n)); [discriminate|]. injection H as <- <-.
  assert (length (take n (drop pos data)) = n) as Hl by (rewrite length_take, length_drop; lia).
  exists (take n (drop pos data)), (drop n (drop pos data)).
  rewrite take_drop, Hl, io_put_get by done. auto using io_get_range.
Qed.

Lemma get_signed_reads (n : nat) (v : Z) :
  (0 < n)%nat -> in_srange (8 * Z.of_nat n) v -> reads (get_signed n) (put_signed n v) v.
Proof.
  intros Hn Hv. unfold get_signed, put_signed. eapply reads_last.
  - apply get_uint_reads; [done|]. apply wrap_range. lia.
  - rewrite to_signed_unsigned by (lia || done). apply reads_ret.
Qed.

Lemma get_signed_consumes (n : nat) : (0 < n)%nat ->
  consumes (get_signed n) (fun v e => e = put_signed n v /\ in_srange (8 * Z.of_nat n) v).
Proof.
  intros Hn. unfold get_signed, put_signed. eapply consumes_bind; [apply get_uint_consumes|].
  intros b e [-> Hb]. apply consumes_ret. rewrite app_nil_r.
  destruct (to_unsigned_signed (8 * Z.of_nat n) b ltac:(lia) Hb) as [-> ?]. done.
Qed.

Lemma get_array_reads {A} (get : rd A) (put : A -> bytes) (wf : A -> Prop) (l : list A) :
  (forall a, wf a -> reads get (put a) a) -> Forall wf l ->
  reads (get_array get (length l)) (flat_map put l) l.
Proof.
  intros Hg. induction 1 as [|a l Ha Hl IH]; [apply reads_ret|].
  cbn [get_array flat_map length]. eapply reads_bind; [by apply Hg|].
  eapply reads_last; [exact IH|]. apply reads_ret.
Qed.

Lemma get_array_consumes {A} (get : rd A) (put : A -> bytes) (wf : A -> Prop) (n : nat) :
  consumes get (fun a e => e = put a /\ wf a) ->
  consumes (get_array get n) (fun l e => e = flat_map put l /\ length l = n /\ Forall wf l).
Proof.
  intros Hg. induction n as [|n IH]; [by apply consumes_ret|].
  cbn [get_array]. eapply consumes_bind; [exact Hg|]. intros a e [-> Ha].
  eapply consumes_bind; [exact IH|]. intros l e (-> & <- & Hl).
  apply consumes_ret. rewrite app_nil_r. by repeat constructor.
Qed.

Lemma get_byte_reads (b : byte) :
  reads (x <~ get_uint 1 ;; rd_ret (z2b x)) (io_put 1 (b2z b)) b.
Proof.
  eapply reads_last.
  - apply get_uint_reads; [lia|]. apply b2z_range.
  - rewrite z2b_b2z. apply reads_ret.
Qed.

Lemma get_byte_consumes :
  consumes (x <~ get_uint 1 ;; rd_ret (z2b x)) (fun b e => e = io_put 1 (b2z b) /\ True).
Proof.
  eapply consumes_bind; [apply get_uint_consumes|]. intros z e [-> Hz].
  apply consumes_ret. rewrite app_nil_r, b2z_z2b_small by exact Hz. done.
Qed.

Lemma get_chars_reads (n : nat) (v : bytes) : length v = n -> reads (get_chars n) (put_chars v) v.
Proof.
  intros <-. apply (get_array_reads _ _ (fun _ => True)).
  - intros. apply get_byte_reads.
  - by apply Forall_true.
Qed.

Lemma get_chars_consumes (n : nat) :
  consumes (get_chars n) (fun v e => e = put_chars v /\ length v = n).
Proof.
  intros data pos v r Hpos H.
  destruct (get_array_consumes _ _ _ n get_byte_consumes _ _ _ _ Hpos H)
    as (e & rest & Hd & Hr & He & Hl & _). eauto 10.
Qed.

Lemma length_put_chars (v : bytes) : length (put_chars v) = length v.
Proof. induction v; simpl; auto. by rewrite length_app, io_put_length, IHv. Qed.

Lemma length_put_signed (n : nat) (v : Z) : length (put_signed n v) = n.
Proof. apply io_put_length. Qed.
End VisitorLemmas.
#[export] Hint Rewrite @length_put_chars @length_put_signed using typeclasses eauto : lendb.

Ltac rewrite_lengths := repeat match goal with H : length _ = _ |- _ => rewrite H end.

(** One field of a struct: an integer, a signed integer or a character array. *)
Ltac reads_field :=
  first [ apply get_uint_reads; [lia|assumption]
        | apply get_signed_reads; [lia|assumption]
        | apply get_chars_reads; assumption
        | eassumption ].
Ltac reads_fields :=
  repeat first
    [ eapply reads_bind; [reads_field|]
    | eapply reads_last; [reads_field|] ];
  match goal with |- reads (rd_ret _) [] ?m => destruct m; apply reads_ret end.

Ltac consumes_fields :=
  repeat (eapply consumes_bind;
    [ first [ apply get_uint_consumes | apply get_signed_consumes; lia | apply get_chars_consumes
            | eassumption ]
    | let H := fresh "Hf" in intros ? ? H; destruct H as [-> H] ]);
  apply consumes_ret; rewrite ?app_nil_r.

Section StructLemmas.
Context {io : IntIO} {laws : IntIOLaws io}.

Lemma get_Header_reads (h : Header) : wf_Header h -> reads get_Header (put_Header h) h.
Proof.
  intros Hw. unfold wf_Header in Hw. destruct_and! Hw.
  unfold get_Header, put_Header. reads_fields.
Qed.

Lemma get_Header_consumes : consumes get_Header (fun h e => e = put_Header h /\ wf_Header h).
Proof. unfold get_Header. consumes_fields. split; [done|]. unfold wf_Header. cbn. tauto. Qed.

Lemma get_Trade_reads (m : Trade) : wf_Trade m -> reads get_Trade (put_Trade m) m.
Proof.
  intros Hw. unfold wf_Trade in Hw. destruct_and! Hw.
  pose proof (get_Header_reads (tr_header m) ltac:(assumption)).
  unfold get_Trade, put_Trade. reads_fields.
Qed.

Lemma get_Trade_consumes : consumes get_Trade (fun m e => e = put_Trade m /\ wf_Trade m).
Proof.
  pose proof get_Header_consumes. unfold get_Trade. consumes_fields.
  split; [done|]. unfold wf_Trade. cbn. tauto.
Qed.

Lemma get_Bbo_reads (m : Bbo) : wf_Bbo m -> reads get_Bbo (put_Bbo m) m.
Proof.
  intros Hw. unfold wf_Bbo in Hw. destruct_and! Hw.
  pose proof (get_Header_reads (bb_header m) ltac:(assumption)).
  unfold get_Bbo, put_Bbo. reads_fields.
Qed.

Lemma get_Bbo_consumes : consumes get_Bbo (fun m e => e = put_Bbo m /\ wf_Bbo m).
Proof.
  pose proof get_Header_consumes. unfold get_Bbo. consumes_fields.
  split; [done|]. unfold wf_Bbo. cbn. tauto.
Qed.

Lemma get_Level_reads (m : Level) : wf_Level m -> reads get_Level (put_Level m) m.
Proof.
  intros Hw. unfold wf_Level in Hw. destruct_and! Hw.
  unfold get_Level, put_Level. reads_fields.
Qed.

Lemma get_Level_consumes : consumes get_Level (fun m e => e = put_Level m /\ wf_Level m).
Proof. unfold get_Level. consumes_fields. split; [done|]. unfold wf_Level. cbn. tauto. Qed.

Lemma get_levels_reads (l : list Level) : length l = kBookDepth /\ Forall wf_Level l ->
  reads (get_array get_Level kBookDepth) (flat_map put_Level l) l.
Proof.
  intros [<- Hl]. eapply get_array_reads; [|exact Hl]. apply get_Level_reads.
Qed.

Lemma get_OrderBook_reads (m : OrderBook) : wf_OrderBook m -> reads get_OrderBook (put_OrderBook m) m.
Proof.
  intros (?&?&?&?&?&?&?&Hb&Ha&?&?&?&?).
  pose proof (get_Header_reads (ob_header m) ltac:(assumption)).
  pose proof (get_levels_reads _ Hb). pose proof (get_levels_reads _ Ha).
  unfold get_OrderBook, put_OrderBook. reads_fields.
Qed.

Lemma get_OrderBook_consumes :
  consumes get_OrderBook (fun m e => e = put_OrderBook m /\ wf_OrderBook m).
Proof.
  pose proof get_Header_consumes.
  pose proof (get_array_consumes _ _ _ kBookDepth get_Level_consumes).
  unfold get_OrderBook. consumes_fields.
  split; [done|]. unfold wf_OrderBook. cbn -[kBookDepth]. tauto.
Qed.

Lemma length_put_Header (h : Header) : length (put_Header h) = sizeof_Header.
Proof. unfold put_Header. by autorewrite with lendb. Qed.

Lemma length_put_Level (m : Level) : length (put_Level m) = 40%nat.
Proof. unfold put_Level. by autorewrite with lendb. Qed.

Lemma length_put_levels (l : list Level) : length (flat_map put_Level l) = (40 * length l)%nat.
Proof. induction l; simpl; [done|]. rewrite length_app, length_put_Level, IHl. lia. Qed.

Lemma length_put_Trade (m : Trade) : wf_Trade m -> length (put_Trade m) = 196%nat.
Proof.
  intros Hw. unfold wf_Trade in Hw. destruct_and! Hw. unfold put_Trade.
  autorewrite with lendb. rewrite length_put_Header. rewrite_lengths; reflexivity.
Qed.

Lemma length_put_Bbo (m : Bbo) : wf_Bbo m -> length (put_Bbo m) = 192%nat.
Proof.
  intros Hw. unfold wf_Bbo in Hw. destruct_and! Hw. unfold put_Bbo.
  autorewrite with lendb. rewrite length_put_Header. rewrite_lengths; reflexivity.
Qed.

Lemma length_put_OrderBook (m : OrderBook) : wf_OrderBook m -> length (put_OrderBook m) = 536%nat.
Proof.
  intros Hw. unfold wf_OrderBook in Hw. destruct_and! Hw. unfold put_OrderBook.
  autorewrite with lendb. rewrite !length_put_levels, length_put_Header. rewrite_lengths; reflexivity.
Qed.
End StructLemmas.

#[export] Instance native_laws : IntIOLaws native_io.
Proof.
  constructor; cbn; eauto using length_le_put, le_get_put, le_put_get, le_get_range.
Qed.

(** ** Reading succeeds when enough bytes are left *)
Definition total {A} (f : rd A) (n : nat) : Prop :=
  forall data pos, (pos + n <= length data)%nat ->
    exists a, f (mkReader data pos) = Ok (a, mkReader data (pos + n)).

Lemma total_ret {A} (a : A) : total (rd_ret a) 0.
Proof. intros data pos _. exists a. by rewrite Nat.add_0_r. Qed.

Lemma total_bind {A B} (f : rd A) (g : A -> rd B) (n m : nat) :
  total f n -> (forall a, total (g a) m) -> total (rd_bind f g) (n + m).
Proof.
  intros Hf Hg data pos Hl. unfold rd_bind.
  destruct (Hf data pos) as [a ->]; [lia|]. cbn [rbind fst snd].
  destruct (Hg a data (pos + n)%nat) as [b ->]; [lia|]. exists b. by rewrite Nat.add_assoc.
Qed.

Lemma total_get_uint {io : IntIO} (n : nat) : total (get_uint n) n.
Proof.
  intros data pos Hl. unfold get_uint. cbn [rd_data rd_pos].
  destruct (Nat.ltb_spec (length data) (pos + n)); [lia|]. eauto.
Qed.

Lemma total_get_array {A} (get : rd A) (k n : nat) :
  total get k -> total (get_array get n) (k * n).
Proof.
  intros Hg. induction n as [|n IH].
  - rewrite Nat.mul_0_r. apply total_ret.
  - replace (k * S n)%nat with (k + (k * n + 0))%nat by lia. cbn [get_array].
    apply total_bind; [done|]. intros a. apply total_bind; [done|]. intros; apply total_ret.
Qed.

Lemma total_eq {A} (f : rd A) (n m : nat) : total f n -> n = m -> total f m.
Proof. by intros ? <-. Qed.

Ltac total_fields :=
  eapply total_eq;
  [ repeat (eapply total_bind;
      [ first [ apply total_get_uint
              | apply total_bind; [apply total_get_uint | intros; apply total_ret]
              | apply total_get_array; first [eassumption | apply total_bind; [apply total_get_uint | intros; apply total_ret]]
              | eassumption ]
      | intros ]);
    apply total_ret
  | reflexivity ].

Section Totality.
Context {io : IntIO}.

Lemma total_get_Header : total get_Header 40.
Proof. unfold get_Header. total_fields. Qed.

Lemma total_get_Level : total get_Level 40.
Proof. unfold get_Level. total_fields. Qed.

Lemma total_get_Trade : total get_Trade 196.
Proof. pose proof total_get_Header. unfold get_Trade. total_fields. Qed.

Lemma total_get_Bbo : total get_Bbo 192.
Proof. pose proof total_get_Header. unfold get_Bbo. total_fields. Qed.

Lemma total_get_OrderBook : total get_OrderBook 536.
Proof. pose proof total_get_Header. pose proof total_get_Level. unfold get_OrderBook. total_fields. Qed.
End Totality.
