(* ===== verification/Wire.v ===== *)
(** * Wire codec: [harness/include/wire.h]

    Protocol 3: the magic "PUL3" followed by the fields of one message in
    declaration order, big endian.  [encode] turns a native frame into a wire
    frame, [decode] a wire frame into a native frame. *)
From S2P Require Import Prelude Message.

Definition magic : Z := 0x50554c33.
Definition max_frame : nat := 1024.

Definition wire_io : IntIO :=
  {| io_put := be_put; io_get n bs := be_get (8 * Z.of_nat n) bs |}.

#[export] Instance wire_laws : IntIOLaws wire_io.
Proof. constructor; cbn; eauto using length_be_put, be_get_put, be_put_get, be_get_range. Qed.

(** What the templates [encode_as<T>] and [decode_as<T>] need of [T]: its
    [fields], its header, and [sizeof(T)]. *)
Class WireMsg (T : Type) := {
  put_msg : IntIO -> T -> bytes;
  get_msg : IntIO -> rd T;
  msg_header : T -> Header;
  set_body_len : Z -> T -> T;
  sizeof : nat;
  msg_type : Z
}.

Definition Header_set_body_len (n : Z) (h : Header) : Header :=
  mkHeader (seq_id h) (send_ts_ns h) (type_ h) (version h) n (stream_id h) (stream_epoch h).

#[export] Instance Trade_msg : WireMsg Trade := {|
  put_msg := @put_Trade; get_msg := @get_Trade; msg_header := tr_header;
  set_body_len n m := mkTrade (Header_set_body_len n (tr_header m))
    (tr_symbol m) (tr_venue m) (tr_base_currency m) (tr_quote_currency m)
    (tr_trade_id m) (tr_buyer_order_id m) (tr_seller_order_id m)
    (tr_exchange_ts_ns m) (tr_match_engine_ts_ns m)
    (tr_price m) (tr_quantity m) (tr_notional m) (tr_price_ticks m) (tr_quantity_lots m)
    (tr_tick_direction m) (tr_aggressor_side m) (tr_is_block_trade m) (tr_is_rpi m)
    (tr_is_liquidation m) (tr_flags m) (tr_reserved m);
  sizeof := sizeof_Trade; msg_type := Type_Trade |}.

#[export] Instance Bbo_msg : WireMsg Bbo := {|
  put_msg := @put_Bbo; get_msg := @get_Bbo; msg_header := bb_header;
  set_body_len n m := mkBbo (Header_set_body_len n (bb_header m))
    (bb_symbol m) (bb_venue m) (bb_update_id m) (bb_exchange_ts_ns m) (bb_match_engine_ts_ns m)
    (bb_bid_price m) (bb_bid_size m) (bb_ask_price m) (bb_ask_size m)
    (bb_bid_price_ticks m) (bb_ask_price_ticks m) (bb_bid_size_lots m) (bb_ask_size_lots m)
    (bb_bid_order_count m) (bb_ask_order_count m) (bb_flags m) (bb_reserved m);
  sizeof := sizeof_Bbo; msg_type := Type_Bbo |}.

#[export] Instance OrderBook_msg : WireMsg OrderBook := {|
  put_msg := @put_OrderBook; get_msg := @get_OrderBook; msg_header := ob_header;
  set_body_len n m := mkOrderBook (Header_set_body_len n (ob_header m))
    (ob_symbol m) (ob_venue m) (ob_update_id m) (ob_prev_update_id m)
    (ob_exchange_ts_ns m) (ob_match_engine_ts_ns m) (ob_bids m) (ob_asks m)
    (ob_checksum m) (ob_is_snapshot m) (ob_flags m) (ob_reserved m);
  sizeof := sizeof_OrderBook; msg_type := Type_OrderBook |}.

(** The memory image of a message object: its fields and zeroed tail padding. *)
Definition native_image {T} `{WireMsg T} (m : T) : bytes :=
  let b := put_msg native_io m in b ++ replicate (sizeof (T:=T) - length b) Corelib.Init.Byte.x00.

(** [encode_as<T>]: the length is measured by a first pass with [body_len = 0]. *)
Definition encode_as (T : Type) `{WireMsg T} (data : bytes) : res bytes :=
  let! m := native_read (@get_msg T _) (take (sizeof (T:=T)) data) in
  let tag := @io_put wire_io 4 magic in
  let w := tag ++ put_msg wire_io (set_body_len 0 m) in
  let m' := set_body_len (u32 (Z.of_nat (length w))) m in
  Ok (tag ++ put_msg wire_io m').

Definition encode (data : bytes) : res bytes :=
  if negb (validate_frame data) then Throw InvalidArgument
  else
    let! h := native_read (@get_Header) (take sizeof_Header data) in
    if type_ h =? Type_Trade then encode_as Trade data
    else if type_ h =? Type_Bbo then encode_as Bbo data
    else if type_ h =? Type_OrderBook then encode_as OrderBook data
    else Throw InvalidArgument.

(** [decode_as<T>] and [decode] return the native frame, or [None] for [false]. *)
Definition decode_as (T : Type) `{WireMsg T} (data : bytes) : res (option bytes) :=
  let! x := get_msg (T:=T) wire_io (mkReader data 4) in
  let '(m, r) := x in
  if negb (rd_pos r =? length data)%nat
     || negb (body_len (msg_header m) =? Z.of_nat (length data))
     || negb (version (msg_header m) =? kVersion)
  then Ok None
  else Ok (Some (native_image (set_body_len (Z.of_nat (sizeof (T:=T))) m))).

Definition decode_body (data : bytes) : res (option bytes) :=
  let! x := @get_uint wire_io 4 (mkReader data 0) in
  let '(tag, r) := x in
  let! y := @get_Header wire_io r in
  let '(h, _) := y in
  if negb (tag =? magic) || negb (version h =? kVersion)
     || negb (body_len h =? Z.of_nat (length data)) then Ok None
  else if type_ h =? Type_Trade then decode_as Trade data
  else if type_ h =? Type_Bbo then decode_as Bbo data
  else if type_ h =? Type_OrderBook then decode_as OrderBook data
  else Ok None.

(** The [try]/[catch (std::length_error)] around the body. *)
Definition decode (data : bytes) : option bytes :=
  if (length data <? 44)%nat || (max_frame <? length data)%nat then None
  else match decode_body data with
  | Ok o => o
  | Throw _ => None
  end.

(** ** What the templates rely on, proved once per message type *)
Class WireMsgLaws (T : Type) `{WireMsg T} := {
  wf_msg : T -> Prop;
  wire_len : nat;
  wire_len_bound : (40 <= wire_len <= sizeof (T:=T))%nat /\ (sizeof (T:=T) <= 1000)%nat;
  sizeof_expected : expected_size (msg_type (T:=T)) = sizeof (T:=T);
  get_msg_reads (io : IntIO) `{!IntIOLaws io} m : wf_msg m -> reads (get_msg io) (put_msg io m) m;
  get_msg_consumes (io : IntIO) `{!IntIOLaws io} :
    consumes (get_msg (T:=T) io) (fun m e => e = put_msg io m /\ wf_msg m);
  get_msg_total (io : IntIO) : total (get_msg (T:=T) io) wire_len;
  put_msg_length (io : IntIO) `{!IntIOLaws io} m : wf_msg m -> length (put_msg io m) = wire_len;
  put_msg_header (io : IntIO) m : exists rest, put_msg io m = put_Header (msg_header m) ++ rest;
  wf_msg_header m : wf_msg m -> wf_Header (msg_header m);
  set_body_len_header n m : msg_header (set_body_len n m) = Header_set_body_len n (msg_header m);
  set_body_len_wf n m : in_range 32 n -> wf_msg m -> wf_msg (set_body_len n m);
  set_body_len_twice a b m : set_body_len a (set_body_len b m) = set_body_len a m;
  set_body_len_same m : set_body_len (body_len (msg_header m)) m = m
}.

Lemma Header_set_body_len_wf (n : Z) (h : Header) :
  in_range 32 n -> wf_Header h -> wf_Header (Header_set_body_len n h).
Proof. unfold wf_Header, Header_set_body_len. cbn. tauto. Qed.

Ltac wf_set_body_len :=
  intros n m Hn Hm; pose proof (fun h => Header_set_body_len_wf n h Hn); cbn -[kBookDepth]; intuition auto.

#[export] Instance Trade_laws : WireMsgLaws Trade.
Proof.
  refine {| wf_msg := wf_Trade; wire_len := 196 |}.
  - vm_compute. lia.
  - reflexivity.
  - intros. by apply get_Trade_reads.
  - intros. apply get_Trade_consumes.
  - intros. apply total_get_Trade.
  - intros. by apply length_put_Trade.
  - intros. cbn. eexists. reflexivity.
  - intros m Hm. apply Hm.
  - reflexivity.
  - unfold wf_Trade. wf_set_body_len.
  - reflexivity.
  - intros [[]]; reflexivity.
Defined.

#[export] Instance Bbo_laws : WireMsgLaws Bbo.
Proof.
  refine {| wf_msg := wf_Bbo; wire_len := 192 |}.
  - vm_compute. lia.
  - reflexivity.
  - intros. by apply get_Bbo_reads.
  - intros. apply get_Bbo_consumes.
  - intros. apply total_get_Bbo.
  - intros. by apply length_put_Bbo.
  - intros. cbn. eexists. reflexivity.
  - intros m Hm. apply Hm.
  - reflexivity.
  - unfold wf_Bbo. wf_set_body_len.
  - reflexivity.
  - intros [[]]; reflexivity.
Defined.

#[export] Instance OrderBook_laws : WireMsgLaws OrderBook.
Proof.
  refine {| wf_msg := wf_OrderBook; wire_len := 536 |}.
  - vm_compute. lia.
  - reflexivity.
  - intros. by apply get_OrderBook_reads.
  - intros. apply get_OrderBook_consumes.
  - intros. apply total_get_OrderBook.
  - intros. by apply length_put_OrderBook.
  - intros. cbn. eexists. reflexivity.
  - intros m Hm. apply Hm.
  - reflexivity.
  - unfold wf_OrderBook. wf_set_body_len.
  - reflexivity.
  - intros [[]]; reflexivity.
Defined.

Section PerType.
Context {T : Type} `{HM : WireMsg T} {laws : WireMsgLaws T}.
Implicit Types m : T.

Definition tag_bytes : bytes := @io_put wire_io 4 magic.

Lemma length_native_image m : wf_msg m -> length (native_image m) = sizeof (T:=T).
Proof.
  intros Hm. unfold native_image. rewrite length_app, length_replicate.
  rewrite (put_msg_length native_io) by done. pose proof (wire_len_bound (T:=T)). lia.
Qed.

Lemma header_agree (io : IntIO) `{!IntIOLaws io} (data rest : bytes) (pos : nat) h r m :
  wf_msg m -> drop pos data = put_msg io m ++ rest ->
  @get_Header io (mkReader data pos) = Ok (h, r) -> h = msg_header m.
Proof.
  intros Hm Hd Hr. destruct (put_msg_header io m) as [rest' Hp].
  rewrite Hp, <- app_assoc in Hd.
  rewrite (get_Header_reads _ (wf_msg_header _ Hm) _ _ _ Hd) in Hr. congruence.
Qed.

Lemma get_Header_image (io : IntIO) `{!IntIOLaws io} (data rest : bytes) (pos : nat) m :
  wf_msg m -> drop pos data = put_msg io m ++ rest ->
  @get_Header io (mkReader data pos) = Ok (msg_header m, mkReader data (pos + 40)).
Proof.
  intros Hm Hd. destruct (put_msg_header io m) as [rest' Hp].
  rewrite Hp, <- app_assoc in Hd.
  rewrite (get_Header_reads _ (wf_msg_header _ Hm) _ _ _ Hd). by rewrite length_put_Header.
Qed.

(** A native buffer of the right size holds exactly one message value. *)
Lemma native_read_msg (d : bytes) :
  length d = sizeof (T:=T) ->
  exists m rest, native_read (@get_msg T _) d = Ok m /\ wf_msg m /\ d = put_msg native_io m ++ rest.
Proof.
  intros Hl. pose proof (wire_len_bound (T:=T)) as [Hb _].
  destruct (get_msg_total native_io d O) as [m Hg]; [lia|].
  destruct (get_msg_consumes native_io _ _ _ _ (Nat.le_0_l _) Hg) as (e & rest & Hd & _ & -> & Hw).
  exists m, rest. unfold native_read. rewrite Hg. rewrite drop_0 in Hd. auto.
Qed.

Lemma native_read_image m : wf_msg m -> native_read (@get_msg T _) (native_image m) = Ok m.
Proof.
  intros Hm. unfold native_read, native_image.
  rewrite (get_msg_reads native_io _ Hm _ _ (replicate _ _)) by (by rewrite drop_0). done.
Qed.

Lemma native_header_image (d rest : bytes) m :
  wf_msg m -> d = put_msg native_io m ++ rest -> (40 <= length d)%nat ->
  native_read (@get_Header) (take sizeof_Header d) = Ok (msg_header m) /\
  native_read (@get_Header) d = Ok (msg_header m).
Proof.
  intros Hm -> _. destruct (put_msg_header native_io m) as [rest' Hp].
  rewrite Hp, <- app_assoc. split; unfold native_read.
  - rewrite take_app_le, take_ge by (rewrite length_put_Header; cbv; lia).
    by rewrite (get_Header_reads _ (wf_msg_header _ Hm) _ O []) by (by rewrite drop_0, app_nil_r).
  - by rewrite (get_Header_reads _ (wf_msg_header _ Hm) _ O (rest' ++ rest)) by (by rewrite drop_0).
Qed.

(** Messages whose header a validated native frame of type [T] carries. *)
Definition native_header_ok m : Prop :=
  type_ (msg_header m) = msg_type (T:=T) /\ version (msg_header m) = kVersion /\
  body_len (msg_header m) = Z.of_nat (sizeof (T:=T)).

Lemma validate_native (d rest : bytes) m :
  wf_msg m -> native_header_ok m -> d = put_msg native_io m ++ rest ->
  length d = sizeof (T:=T) -> (sizeof (T:=T) <= kMaxFrame)%nat -> validate_frame d = true.
Proof.
  intros Hm (Ht & Hv & Hbl) Hd Hl Hmax. pose proof (wire_len_bound (T:=T)) as [Hb _].
  destruct (native_header_image d rest m Hm Hd) as [_ Hr]; [lia|].
  unfold validate_frame. rewrite Hr, Hv, Hbl, Hl, Ht, sizeof_expected.
  destruct (Nat.ltb_spec (sizeof (T:=T)) sizeof_Header) as [Hlt|_]; [unfold sizeof_Header in Hlt; lia|].
  destruct (Nat.ltb_spec kMaxFrame (sizeof (T:=T))); [lia|].
  simpl. rewrite Z.eqb_refl. simpl. apply Nat.eqb_refl.
Qed.

Definition wire_of m : bytes :=
  tag_bytes ++ put_msg wire_io (set_body_len (4 + Z.of_nat (wire_len (T:=T))) m).

Lemma length_wire_of m : wf_msg m -> length (wire_of m) = (4 + wire_len (T:=T))%nat.
Proof.
  intros Hm. unfold wire_of, tag_bytes. rewrite length_app, io_put_length, (put_msg_length wire_io); [done|].
  pose proof (wire_len_bound (T:=T)). apply set_body_len_wf; [unfold in_range|done]. lia.
Qed.

Lemma encode_as_ok (d rest : bytes) m :
  wf_msg m -> d = put_msg native_io m ++ rest -> length d = sizeof (T:=T) ->
  encode_as T d = Ok (wire_of m).
Proof.
  intros Hm Hd Hl. unfold encode_as. rewrite take_ge by lia.
  unfold native_read. rewrite (get_msg_reads native_io _ Hm _ _ rest) by (by rewrite drop_0).
  cbn [rbind fst]. rewrite length_app, io_put_length, (put_msg_length wire_io) by (apply set_body_len_wf; [by cbv|done]).
  unfold wire_of, tag_bytes. pose proof (wire_len_bound (T:=T)).
  rewrite wrap_small by (unfold in_range; lia). repeat f_equal. lia.
Qed.

Lemma decode_as_wire m :
  wf_msg m -> native_header_ok m -> decode_as T (wire_of m) = Ok (Some (native_image m)).
Proof.
  intros Hm (Ht & Hv & Hb). pose proof (wire_len_bound (T:=T)) as [Hwl Hsz].
  unfold decode_as. set (m' := set_body_len (4 + Z.of_nat (wire_len (T:=T))) m).
  assert (wf_msg m') as Hm' by (apply set_body_len_wf; [unfold in_range; lia|done]).
  rewrite (get_msg_reads wire_io m' Hm' (wire_of m) 4%nat []).
  2: { unfold wire_of, tag_bytes. rewrite drop_app_ge by (rewrite io_put_length; lia).
       rewrite io_put_length. by rewrite app_nil_r. }
  cbn [rbind rd_pos]. rewrite (put_msg_length wire_io) by done. rewrite length_wire_of by done.
  unfold m'. rewrite set_body_len_header. cbn [body_len version Header_set_body_len].
  rewrite Hv, Nat.eqb_refl, Z.eqb_refl, set_body_len_twice, <- Hb, set_body_len_same.
  replace (4 + Z.of_nat wire_len =? Z.of_nat (4 + wire_len)) with true by (symmetry; apply Z.eqb_eq; lia).
  done.
Qed.

Lemma decode_body_wire m :
  wf_msg m -> native_header_ok m ->
  decode_body (wire_of m) =
    (if type_ (msg_header m) =? Type_Trade then decode_as Trade (wire_of m)
     else if type_ (msg_header m) =? Type_Bbo then decode_as Bbo (wire_of m)
     else if type_ (msg_header m) =? Type_OrderBook then decode_as OrderBook (wire_of m)
     else Ok None).
Proof.
  intros Hm (Ht & Hv & Hb). pose proof (wire_len_bound (T:=T)) as [Hwl Hsz].
  unfold decode_body. set (m' := set_body_len (4 + Z.of_nat (wire_len (T:=T))) m).
  assert (wf_msg m') as Hm' by (apply set_body_len_wf; [unfold in_range; lia|done]).
  rewrite (@get_uint_reads wire_io _ 4 magic ltac:(lia) ltac:(by cbv) _ O (put_msg wire_io m')) by (by rewrite drop_0).
  cbn [rbind]. rewrite io_put_length.
  rewrite (get_Header_image wire_io _ [] _ m' Hm').
  2: { unfold wire_of, tag_bytes. rewrite drop_app_ge by (rewrite io_put_length; lia).
       rewrite io_put_length. by rewrite app_nil_r. }
  cbn [rbind]. rewrite length_wire_of by done. unfold m'. rewrite set_body_len_header.
  cbn [body_len version type_ Header_set_body_len]. rewrite Hv, !Z.eqb_refl.
  replace (4 + Z.of_nat wire_len =? Z.of_nat (4 + wire_len)) with true by (symmetry; apply Z.eqb_eq; lia).
  done.
Qed.

(** Whatever [decode_as] accepts is the encoding of the message it returns. *)
Lemma decode_as_sound (d out rest : bytes) h r :
  d = tag_bytes ++ rest -> @get_Header wire_io (mkReader d 4) = Ok (h, r) ->
  type_ h = msg_type (T:=T) ->
  decode_as T d = Ok (Some out) ->
  exists m, wf_msg m /\ native_header_ok m /\ out = native_image m /\ d = wire_of m.
Proof.
  intros Hd Hh Ht Hdec. pose proof (wire_len_bound (T:=T)) as [Hwl Hsz]. unfold decode_as in Hdec.
  assert (4 <= length d)%nat as H4 by (subst d; unfold tag_bytes; rewrite length_app, io_put_length; lia).
  destruct (get_msg wire_io (mkReader d 4)) as [[m r']|] eqn:Hg; [|discriminate Hdec]. cbn [rbind] in Hdec.
  destruct (get_msg_consumes wire_io _ _ _ _ H4 Hg) as (e & rest' & Hd' & -> & -> & Hw).
  rewrite (header_agree wire_io _ _ _ _ _ m Hw Hd' Hh) in *.
  destruct (_ || _ || _) eqn:Hc; [discriminate Hdec|]. injection Hdec as <-. zbool. cbn [rd_pos] in *.
  rewrite (put_msg_length wire_io) in * by done.
  assert (rest' = []) as -> by (destruct rest'; [done|]; apply (f_equal length) in Hd';
    rewrite length_drop, length_app, (put_msg_length wire_io) in Hd' by done; simpl in Hd'; lia).
  rewrite app_nil_r in Hd'. exists (set_body_len (Z.of_nat (sizeof (T:=T))) m). split_and!.
  - apply set_body_len_wf; [unfold in_range; lia|done].
  - unfold native_header_ok. rewrite set_body_len_header. by cbn.
  - done.
  - unfold wire_of. rewrite set_body_len_twice.
    replace (4 + Z.of_nat (wire_len (T:=T))) with (body_len (msg_header m)) by lia.
    rewrite set_body_len_same, <- Hd'. subst d. done.
Qed.
End PerType.

(** ** Frames of any type *)

(** [d] is the native frame of a [T], with its header filled in for the ring. *)
Definition holds (T : Type) `{WireMsgLaws T} (d : bytes) (m : T) : Prop :=
  wf_msg m /\ native_header_ok m /\ length d = sizeof (T:=T) /\ (sizeof (T:=T) <= kMaxFrame)%nat /\
  exists rest, d = put_msg native_io m ++ rest.

Lemma holds_image T `{WireMsgLaws T} (m : T) :
  wf_msg m -> native_header_ok m -> (sizeof (T:=T) <= kMaxFrame)%nat -> holds T (native_image m) m.
Proof. intros. split_and!; eauto using length_native_image. Qed.

Lemma encode_dispatch T `{WireMsgLaws T} (d : bytes) (m : T) :
  holds T d m ->
  encode d = (if msg_type (T:=T) =? Type_Trade then encode_as Trade d
              else if msg_type (T:=T) =? Type_Bbo then encode_as Bbo d
              else if msg_type (T:=T) =? Type_OrderBook then encode_as OrderBook d
              else Throw InvalidArgument) /\
  validate_frame d = true /\ encode_as T d = Ok (wire_of m).
Proof.
  intros (Hw & Hh & Hl & Hs & rest & Hd). pose proof (wire_len_bound (T:=T)) as [Hb _].
  pose proof (validate_native _ _ _ Hw Hh Hd Hl Hs) as Hv.
  destruct (native_header_image d rest m Hw Hd) as [Hr _]; [lia|].
  split; [|eauto using encode_as_ok]. unfold encode. rewrite Hv, Hr. cbn [negb rbind].
  destruct Hh as (-> & _ & _). done.
Qed.

Lemma decode_dispatch T `{WireMsgLaws T} (m : T) :
  wf_msg m -> native_header_ok m -> (wire_len (T:=T) <= 1020)%nat ->
  decode (wire_of m) =
    match (if msg_type (T:=T) =? Type_Trade then decode_as Trade (wire_of m)
           else if msg_type (T:=T) =? Type_Bbo then decode_as Bbo (wire_of m)
           else if msg_type (T:=T) =? Type_OrderBook then decode_as OrderBook (wire_of m)
           else Ok None) with Ok o => o | Throw _ => None end /\
  decode_as T (wire_of m) = Ok (Some (native_image m)).
Proof.
  intros Hw Hh Hl. split; [|by apply decode_as_wire]. unfold decode.
  rewrite length_wire_of, decode_body_wire by done. destruct Hh as (-> & _ & _).
  pose proof (wire_len_bound (T:=T)). unfold max_frame.
  destruct (Nat.ltb_spec (4 + wire_len (T:=T)) 44); [lia|].
  destruct (Nat.ltb_spec 1024 (4 + wire_len (T:=T))); [lia|]. done.
Qed.

Lemma validate_frame_inv (d : bytes) :
  validate_frame d = true ->
  exists h, native_read (@get_Header) d = Ok h /\ version h = kVersion /\
    body_len h = Z.of_nat (length d) /\ expected_size (type_ h) = length d /\
    (40 <= length d <= kMaxFrame)%nat.
Proof.
  unfold validate_frame. intros Hv.
  destruct (_ || _) eqn:Hl in Hv; [discriminate|].
  destruct (native_read _ d) as [h|] eqn:Hh; [|discriminate].
  destruct (negb _ || negb _) eqn:Hc in Hv; [discriminate|]. zbool. unfold sizeof_Header in *. eauto 10.
Qed.

Lemma expected_size_inv (t : Z) (n : nat) :
  expected_size t = n -> (0 < n)%nat ->
  (t = Type_Trade /\ n = sizeof_Trade) \/ (t = Type_Bbo /\ n = sizeof_Bbo) \/
  (t = Type_OrderBook /\ n = sizeof_OrderBook).
Proof. unfold expected_size. intros <- Hn. case_all; zbool; auto; lia. Qed.

Lemma holds_intro T `{WireMsgLaws T} (d : bytes) h :
  native_read (@get_Header) d = Ok h -> version h = kVersion ->
  body_len h = Z.of_nat (length d) -> type_ h = msg_type (T:=T) -> length d = sizeof (T:=T) ->
  (sizeof (T:=T) <= kMaxFrame)%nat -> exists m, holds T d m.
Proof.
  intros Hr Hv Hb Ht Hl Hs. destruct (native_read_msg d Hl) as (m & rest & _ & Hw & Hd).
  pose proof (wire_len_bound (T:=T)) as [Hbd _].
  destruct (native_header_image d rest m Hw Hd) as [_ Hr']; [lia|].
  assert (h = msg_header m) as -> by congruence.
  exists m. split_and!; eauto. split_and!; congruence.
Qed.

(** Every frame that passes [validate_frame] is a trade, a quote or a book. *)
Lemma validated_cases (d : bytes) :
  validate_frame d = true ->
  (exists m, holds Trade d m) \/ (exists m, holds Bbo d m) \/ (exists m, holds OrderBook d m).
Proof.
  intros Hv. destruct (validate_frame_inv _ Hv) as (h & Hr & Hver & Hb & He & Hl).
  destruct (expected_size_inv _ _ He) as [[Ht Hn]|[[Ht Hn]|[Ht Hn]]]; [lia|..];
    [left | right; left | right; right]; eapply holds_intro; eauto; cbv; lia.
Qed.

(** The wire length of a message type, and its value on the three types. *)
Definition wire_size (type : Z) : nat :=
  if type =? Type_Trade then 200 else if type =? Type_Bbo then 196 else 540.

Lemma holds_roundtrip T `{WireMsgLaws T} (d : bytes) (m : T) :
  holds T d m ->
  length (native_image m) = length d /\
  take (length (wire_of m) - 4) (native_image m) = take (length (wire_of m) - 4) d.
Proof.
  intros (Hw & Hh & Hl & Hs & rest & Hd). split; [by rewrite length_native_image|].
  rewrite length_wire_of by done. replace (4 + wire_len - 4)%nat with (wire_len (T:=T)) by lia.
  unfold native_image. rewrite Hd. rewrite !take_app_le by (rewrite (put_msg_length native_io) by done; lia). done.
Qed.

Ltac pick_type H :=
  cbn [msg_type Trade_msg Bbo_msg OrderBook_msg] in H;
  repeat match type of H with context [?a =? ?b] =>
    let r := eval vm_compute in (a =? b) in change (a =? b) with r in H end;
  cbv iota in H.

(** The per-type facts, with the dispatch on [type] carried out. *)
Lemma encode_validated (d : bytes) :
  validate_frame d = true ->
  exists w d', encode d = Ok w /\ decode w = Some d' /\ length d' = length d /\
    take (length w - 4) d' = take (length w - 4) d /\
    (length w = 200 \/ length w = 196 \/ length w = 540)%nat.
Proof.
  intros Hv. destruct (validated_cases _ Hv) as [[m Hm]|[[m Hm]|[m Hm]]];
    pose proof Hm as (Hw & Hh & _);
    destruct (encode_dispatch _ _ _ Hm) as (He & _ & Hea);
    destruct (decode_dispatch _ m Hw Hh ltac:(cbv; lia)) as [Hd Hda];
    destruct (holds_roundtrip _ _ _ Hm) as [Hl Ht];
    exists (wire_of m), (native_image m); pick_type He; pick_type Hd; rewrite Hda in Hd;
    split_and!; try congruence; rewrite length_wire_of by done; cbn [wire_len Trade_laws Bbo_laws OrderBook_laws]; auto.
Qed.

Lemma get_uint4_inv (data : bytes) (z : Z) r :
  @get_uint wire_io 4 (mkReader data 0) = Ok (z, r) ->
  exists rest, data = @io_put wire_io 4 z ++ rest /\ r = mkReader data 4.
Proof.
  intros Hg. destruct (get_uint_consumes 4 _ _ _ _ (Nat.le_0_l _) Hg) as (e & rest & Hd & -> & -> & _).
  rewrite drop_0 in Hd. exists rest. split; [done|]. by rewrite io_put_length.
Qed.

Lemma decode_inv (d out : bytes) :
  decode d = Some out ->
  exists rest h r, d = tag_bytes ++ rest /\ @get_Header wire_io (mkReader d 4) = Ok (h, r) /\
    ((type_ h = Type_Trade /\ decode_as Trade d = Ok (Some out)) \/
     (type_ h = Type_Bbo /\ decode_as Bbo d = Ok (Some out)) \/
     (type_ h = Type_OrderBook /\ decode_as OrderBook d = Ok (Some out))).
Proof.
  unfold decode. destruct (_ || _) eqn:Hlen; [discriminate|].
  destruct (decode_body d) as [o|] eqn:Hb; [|discriminate]. intros ->. unfold decode_body in Hb.
  destruct (get_uint 4 _) as [[tag r]|] eqn:Hg; [|discriminate Hb]. cbn [rbind] in Hb.
  destruct (get_uint4_inv _ _ _ Hg) as (rest & Hd & ->).
  destruct (get_Header _) as [[h r']|] eqn:Hh; [|discriminate Hb]. cbn [rbind] in Hb.
  destruct (_ || _ || _) eqn:Hc in Hb; [discriminate|]. zbool. subst tag.
  exists rest, h, r'. split; [done|]. split; [done|].
  destruct (Z.eqb_spec (type_ h) Type_Trade); [auto|].
  destruct (Z.eqb_spec (type_ h) Type_Bbo); [auto|].
  destruct (Z.eqb_spec (type_ h) Type_OrderBook); [auto|discriminate].
Qed.

Lemma decode_holds (d out : bytes) :
  decode d = Some out -> validate_frame out = true /\ encode out = Ok d.
Proof.
  intros Hdec.
  assert (forall T `{WireMsgLaws T} h r rest, d = tag_bytes ++ rest ->
            @get_Header wire_io (mkReader d 4) = Ok (h, r) -> type_ h = msg_type (T:=T) ->
            decode_as T d = Ok (Some out) -> (sizeof (T:=T) <= kMaxFrame)%nat ->
            exists m : T, out = native_image m /\ d = wire_of m /\ holds T out m) as Hgen.
  { intros T ? ? h r rest Hd Hh Ht Ha Hs.
    destruct (decode_as_sound _ _ _ _ _ Hd Hh Ht Ha) as (m & Hw & Hok & -> & Hwire).
    eauto using holds_image. }
  destruct (decode_inv _ _ Hdec) as (rest & h & r & Hd & Hh & [[Ht Ha]|[[Ht Ha]|[Ht Ha]]]);
    [ destruct (Hgen Trade Trade_msg Trade_laws h r rest Hd Hh Ht Ha ltac:(cbv; lia)) as (m & Ho & Hwire & Hm)
    | destruct (Hgen Bbo Bbo_msg Bbo_laws h r rest Hd Hh Ht Ha ltac:(cbv; lia)) as (m & Ho & Hwire & Hm)
    | destruct (Hgen OrderBook OrderBook_msg OrderBook_laws h r rest Hd Hh Ht Ha ltac:(cbv; lia)) as (m & Ho & Hwire & Hm) ];
    destruct (encode_dispatch _ _ _ Hm) as (He & Hv & Hea); pick_type He;
    (split; [exact Hv | rewrite He, Hea, Hwire; reflexivity]).
Qed.

(** ** Properties *)

(** C16: Every native frame the ring can carry (one that [validate_frame] accepts)
    is encoded without error, the wire frame has one of the three documented
    sizes, and decoding it restores the frame: same length, and equal on every
    byte that belongs to a field (the tail padding of the struct is not sent). *)
Theorem wire_encode_decode (d : bytes) :
  validate_frame d = true ->
  exists w d', encode d = Ok w /\ decode w = Some d' /\ length d' = length d /\
    take (length w - 4) d' = take (length w - 4) d /\
    (length w = 200 \/ length w = 196 \/ length w = 540)%nat.
Proof. apply encode_validated. Qed.

(** C17: Decoding is sound and canonical: a datagram that [decode] accepts yields a
    native frame that passes [validate_frame], and the datagram is byte for
    byte the encoding of that frame, so no two datagrams decode to the same
    frame and truncated or extended frames are rejected. *)
Theorem wire_decode_canonical (d out : bytes) :
  decode d = Some out -> validate_frame out = true /\ encode out = Ok d.
Proof. apply decode_holds. Qed.

(** [encode] throws exactly on the frames [validate_frame] rejects, and then
    with [std::invalid_argument]. *)
Theorem wire_encode_error (d : bytes) :
  encode d = Throw InvalidArgument <-> validate_frame d = false.
Proof.
  split.
  - intros He. destruct (validate_frame d) eqn:Hv; [|done].
    destruct (encode_validated _ Hv) as (w & _ & He' & _). congruence.
  - intros Hv. unfold encode. by rewrite Hv.
Qed.

(** A concrete frame. *)
Definition demo_bbo : Bbo :=
  mkBbo (mkHeader 42 1000 2 2 192 7 9)
    (replicate 16 (z2b 65)) (replicate 16 (z2b 66)) 1 2 3 4 5 6 7 8 9 10 (-11) 12 13 14 (replicate 23 (z2b 0)).
Definition demo_frame : bytes := native_image demo_bbo.
Definition demo_wire : bytes := match encode demo_frame with Ok w => w | Throw _ => [] end.

Lemma wire_encode_decode_witness :
  exists w d', encode demo_frame = Ok w /\ decode w = Some d' /\ length d' = length demo_frame /\
    take (length w - 4) d' = take (length w - 4) demo_frame /\
    (length w = 200 \/ length w = 196 \/ length w = 540)%nat.
Proof. apply wire_encode_decode. vm_compute. reflexivity. Defined.

Lemma wire_decode_canonical_witness :
  validate_frame demo_frame = true /\ encode demo_frame = Ok demo_wire.
Proof. apply wire_decode_canonical. vm_compute. reflexivity. Defined.
