(* ===== verification/Samples.v ===== *)
(** * Bounded reservoir of telemetry samples: [harness/include/samples.h] *)
From S2P Require Import Prelude.

Definition kSampleLimit : nat := 65536.

(** The mixing function ([x] after the three rounds). *)
Definition sample_hash (seen : Z) : Z :=
  let x := u64 (seen + 0x9e3779b97f4a7c15) in
  let x := u64 (Z.lxor x (Z.shiftr x 30) * 0xbf58476d1ce4e5b9) in
  let x := u64 (Z.lxor x (Z.shiftr x 27) * 0x94d049bb133111eb) in
  Z.lxor x (Z.shiftr x 31).

Definition sample (values : list Z) (value seen : Z) : res (list Z) :=
  if (length values <? kSampleLimit)%nat then Ok (values ++ [value])
  else if seen =? 0 then Throw DivideByZero
  else
    let index := sample_hash seen mod seen in
    if index <? Z.of_nat (length values) then vset values (Z.to_nat index) value else Ok values.

Lemma sample_hash_nonneg (seen : Z) : 0 <= sample_hash seen.
Proof.
  unfold sample_hash. apply Z.lxor_nonneg. rewrite Z.shiftr_nonneg. tauto.
Qed.

Lemma sample_ok (values : list Z) (value seen : Z) :
  (length values <= kSampleLimit)%nat -> 0 < seen ->
  exists out, sample values value seen = Ok out /\ (length out <= kSampleLimit)%nat /\
    (forall x, x ∈ out -> x = value \/ x ∈ values).
Proof.
  intros Hl Hs. unfold sample. destruct (Nat.ltb_spec (length values) kSampleLimit) as [Hlt|Hge].
  - eexists. split; [done|]. rewrite length_app, Nat.add_1_r. split; [exact Hlt|].
    intros x [?|?%list_elem_of_singleton]%elem_of_app; auto.
  - destruct (Z.eqb_spec seen 0); [lia|].
    pose proof (Z.mod_pos_bound (sample_hash seen) seen Hs).
    destruct (Z.ltb_spec (sample_hash seen mod seen) (Z.of_nat (length values))); [|eauto].
    rewrite vset_lt by lia. eexists. split; [done|]. rewrite length_insert. split; [done|].
    intros x Hx%list_elem_of_lookup. destruct Hx as [j Hj]. rewrite list_lookup_insert in Hj.
    case_match; [left; congruence|]. right. apply list_elem_of_lookup. eauto.
Qed.

(** The reservoir never grows past [kSampleLimit], never indexes out of range,
    and only ever holds values that were offered to it. *)
Theorem sample_bounded (values : list Z) (value seen : Z) :
  (length values <= kSampleLimit)%nat -> 0 < seen ->
  exists out, sample values value seen = Ok out /\ (length out <= kSampleLimit)%nat /\
    (forall x, x ∈ out -> x = value \/ x ∈ values).
Proof. apply sample_ok. Qed.

Lemma sample_bounded_witness :
  exists out, sample [7; 9] 5 3 = Ok out /\ (length out <= kSampleLimit)%nat /\
    (forall x, x ∈ out -> x = 5 \/ x ∈ [7; 9]).
Proof. apply sample_bounded; [apply Nat.leb_le; vm_compute; reflexivity | lia]. Defined.
