(* ===== verification/Dedupe.v ===== *)
(** * Deduplication window: [harness/include/dedupe_window.h]

    [Window] is the bit-packed sliding window of the receiver; [Spec] is the
    contract it implements: an unbounded set of accepted sequence numbers and a
    base below which everything is too old. *)
From S2P Require Import Prelude Util.

Inductive ObserveResult := kAccept | kDuplicate | kTooOld | kAdvanced.

#[global] Instance ObserveResult_eq_dec : EqDecision ObserveResult.
Proof. solve_decision. Defined.

Record Counters := mkCounters {
  accepted : Z; duplicates : Z; too_old : Z; lost_confirmed : Z;
  window_slides : Z; max_reorder_depth : Z; receiver_seq_jump_raw : Z
}.
Definition Counters_zero : Counters := mkCounters 0 0 0 0 0 0 0.

Record Window := mkWindow {
  size_ : Z; mask_ : Z; bits_ : list Z; base_seq_ : Z; initialized_ : bool; counters_ : Counters
}.

(** The constructor; [None] is [std::abort()]. *)
Definition make (size : Z) : option Window :=
  if (size =? 0) || negb (Z.land size (u64 (size - 1)) =? 0) || (size <? 64) then None
  else Some (mkWindow size (u64 (size - 1)) (replicate (Z.to_nat (size / 64)) 0) 0 false Counters_zero).

Definition test_bits (mask : Z) (bits : list Z) (seq : Z) : res bool :=
  let pos := Z.land seq mask in
  let! word := vget bits (Z.to_nat (Z.shiftr pos 6)) in
  Ok (negb (Z.land word (Z.shiftl 1 (Z.land pos 63)) =? 0)).
Definition test (w : Window) (seq : Z) : res bool := test_bits (mask_ w) (bits_ w) seq.

Definition with_bits (w : Window) (b : list Z) : Window :=
  mkWindow (size_ w) (mask_ w) b (base_seq_ w) (initialized_ w) (counters_ w).

Definition set (w : Window) (seq : Z) : res Window :=
  let pos := Z.land seq (mask_ w) in
  let i := Z.to_nat (Z.shiftr pos 6) in
  let! word := vget (bits_ w) i in
  let! b := vset (bits_ w) i (Z.lor word (Z.shiftl 1 (Z.land pos 63))) in
  Ok (with_bits w b).

Definition clear (w : Window) (seq : Z) : res Window :=
  let pos := Z.land seq (mask_ w) in
  let i := Z.to_nat (Z.shiftr pos 6) in
  let! word := vget (bits_ w) i in
  let! b := vset (bits_ w) i (Z.land word (u64 (Z.lnot (Z.shiftl 1 (Z.land pos 63))))) in
  Ok (with_bits w b).

Definition with_base (w : Window) (b : Z) : Window :=
  mkWindow (size_ w) (mask_ w) (bits_ w) b (initialized_ w) (counters_ w).
Definition with_counters (w : Window) (c : Counters) : Window :=
  mkWindow (size_ w) (mask_ w) (bits_ w) (base_seq_ w) (initialized_ w) c.

Definition inc_accepted (c : Counters) : Counters :=
  mkCounters (u64 (accepted c + 1)) (duplicates c) (too_old c) (lost_confirmed c)
    (window_slides c) (max_reorder_depth c) (receiver_seq_jump_raw c).
Definition inc_duplicates (c : Counters) : Counters :=
  mkCounters (accepted c) (u64 (duplicates c + 1)) (too_old c) (lost_confirmed c)
    (window_slides c) (max_reorder_depth c) (receiver_seq_jump_raw c).
Definition inc_too_old (c : Counters) : Counters :=
  mkCounters (accepted c) (duplicates c) (u64 (too_old c + 1)) (lost_confirmed c)
    (window_slides c) (max_reorder_depth c) (receiver_seq_jump_raw c).
Definition inc_lost (c : Counters) : Counters :=
  mkCounters (accepted c) (duplicates c) (too_old c) (u64 (lost_confirmed c + 1))
    (window_slides c) (max_reorder_depth c) (receiver_seq_jump_raw c).
Definition inc_slides (c : Counters) : Counters :=
  mkCounters (accepted c) (duplicates c) (too_old c) (lost_confirmed c)
    (u64 (window_slides c + 1)) (max_reorder_depth c) (receiver_seq_jump_raw c).
Definition set_depth (d : Z) (c : Counters) : Counters :=
  mkCounters (accepted c) (duplicates c) (too_old c) (lost_confirmed c)
    (window_slides c) d (receiver_seq_jump_raw c).
Definition set_jump (d : Z) (c : Counters) : Counters :=
  mkCounters (accepted c) (duplicates c) (too_old c) (lost_confirmed c)
    (window_slides c) (max_reorder_depth c) d.

(** [while (base_seq_ < next_base)]: one iteration per sequence number. *)
Fixpoint slide_loop (fuel : nat) (w : Window) (next_base : Z) : res Window :=
  if base_seq_ w <? next_base then
    match fuel with
    | O => Throw OutOfFuel
    | S f =>
      let! t := test w (base_seq_ w) in
      let w := if negb t then with_counters w (inc_lost (counters_ w)) else w in
      let! w := clear w (base_seq_ w) in
      slide_loop f (with_base w (u64 (base_seq_ w + 1))) next_base
    end
  else Ok w.
Definition slide_to (w : Window) (next_base : Z) : res Window :=
  slide_loop (Z.to_nat (next_base - base_seq_ w)) w next_base.

(** [while (test(base_seq_))]: each iteration clears a bit, so [size_] of them
    are enough. *)
Fixpoint advance_loop (fuel : nat) (w : Window) : res Window :=
  let! t := test w (base_seq_ w) in
  if t then
    match fuel with
    | O => Throw OutOfFuel
    | S f =>
      let! w := clear w (base_seq_ w) in
      advance_loop f (with_base w (u64 (base_seq_ w + 1)))
    end
  else Ok w.
Definition advance_contiguous (w : Window) : res Window :=
  advance_loop (Z.to_nat (size_ w)) w.

(** The first part of [observe]: initialisation on the first packet and the raw
    jump statistic. *)
Definition observe_init (w : Window) (seq : Z) : Window :=
  let w := if initialized_ w then w
           else mkWindow (size_ w) (mask_ w) (bits_ w) seq true (counters_ w) in
  if base_seq_ w <=? seq then
    let raw_jump := seq - base_seq_ w in
    if receiver_seq_jump_raw (counters_ w) <? raw_jump
    then with_counters w (set_jump raw_jump (counters_ w)) else w
  else w.

(** The second part, once the sequence number is inside the window. *)
Definition observe_tail (w : Window) (seq : Z) (result : ObserveResult) : res (ObserveResult * Window) :=
  let depth := u64 (seq - base_seq_ w) in
  let w := if max_reorder_depth (counters_ w) <? depth
           then with_counters w (set_depth depth (counters_ w)) else w in
  let! t := test w seq in
  if t then Ok (kDuplicate, with_counters w (inc_duplicates (counters_ w)))
  else
    let! w := set w seq in
    let w := with_counters w (inc_accepted (counters_ w)) in
    let! w := advance_contiguous w in
    Ok (result, w).

(** [observe] after its initialisation part. *)
Definition observe_core (w : Window) (seq : Z) : res (ObserveResult * Window) :=
  if seq <? base_seq_ w then Ok (kTooOld, with_counters w (inc_too_old (counters_ w)))
  else if u64 (base_seq_ w + size_ w) <=? seq then
    let! w := slide_to w (u64 (seq - size_ w + 1)) in
    observe_tail (with_counters w (inc_slides (counters_ w))) seq kAdvanced
  else observe_tail w seq kAccept.

Definition observe (w : Window) (seq : Z) : res (ObserveResult * Window) :=
  observe_core (observe_init w seq) seq.

(** A run over a sequence of packets. *)
Fixpoint observe_all (w : Window) (seqs : list Z) : res (list ObserveResult * Window) :=
  match seqs with
  | [] => Ok ([], w)
  | s :: rest =>
    let! x := observe w s in
    let '(r, w1) := x in
    let! y := observe_all w1 rest in
    let '(rs, w2) := y in
    Ok (r :: rs, w2)
  end.

Definition is_accept (r : ObserveResult) : bool :=
  match r with kAccept | kAdvanced => true | _ => false end.

(** ** What a call counts *)
Definition seen_count (c : Counters) : Z := accepted c + duplicates c + too_old c.
Definition same_counts (c c' : Counters) : Prop :=
  accepted c' = accepted c /\ duplicates c' = duplicates c /\ too_old c' = too_old c.

Lemma set_counts (w w' : Window) (seq : Z) : set w seq = Ok w' -> counters_ w' = counters_ w.
Proof. intros H. unfold set in H. by run_inv. Qed.
Lemma clear_counts (w w' : Window) (seq : Z) : clear w seq = Ok w' -> counters_ w' = counters_ w.
Proof. intros H. unfold clear in H. by run_inv. Qed.

Lemma slide_loop_counts (fuel : nat) (w w' : Window) (next_base : Z) :
  slide_loop fuel w next_base = Ok w' -> same_counts (counters_ w) (counters_ w').
Proof.
  revert w. induction fuel as [|fuel IH]; intros w H; cbn [slide_loop] in H; run_inv; try done;
    apply IH in H; cbn [with_base counters_] in H;
    match goal with Hc : clear _ _ = Ok _ |- _ => apply clear_counts in Hc; rewrite Hc in H end; by destruct a.
Qed.

Lemma advance_loop_counts (fuel : nat) (w w' : Window) : advance_loop fuel w = Ok w' -> counters_ w' = counters_ w.
Proof.
  revert w. induction fuel as [|fuel IH]; intros w H; cbn [advance_loop] in H; run_inv; try done.
  apply IH in H. cbn [with_base counters_] in H. rewrite H. by eapply clear_counts.
Qed.

Lemma observe_tail_counts (w w' : Window) (seq : Z) (r r' : ObserveResult) :
  is_accept r = true -> observe_tail w seq r = Ok (r', w') ->
  cong (accepted (counters_ w')) (accepted (counters_ w) + if is_accept r' then 1 else 0) /\
  cong (seen_count (counters_ w')) (seen_count (counters_ w) + 1).
Proof.
  intros Hr H. unfold observe_tail in H. set (w1 := if _ <? _ then _ else w) in H.
  assert (Hw1 : same_counts (counters_ w) (counters_ w1)) by (unfold w1; by destruct (_ <? _)). clearbody w1.
  destruct Hw1 as (E1 & E2 & E3). unfold seen_count. rewrite <- E1, <- E2, <- E3. run_inv.
  - cbn. rewrite cong_u64. split; apply cong_of_eq; lia.
  - match goal with Hs : set _ _ = Ok _, Ha : advance_contiguous _ = Ok _ |- _ =>
      apply advance_loop_counts in Ha; apply set_counts in Hs; rewrite Ha; cbn [with_counters counters_ inc_accepted accepted duplicates too_old]; rewrite Hs end.
    rewrite Hr, cong_u64. split; apply cong_of_eq; lia.
Qed.

(** Every call is counted once, and as accepted exactly when it is. *)
Lemma observe_counts (w w' : Window) (seq : Z) (r : ObserveResult) :
  observe w seq = Ok (r, w') ->
  cong (accepted (counters_ w')) (accepted (counters_ w) + if is_accept r then 1 else 0) /\
  cong (seen_count (counters_ w')) (seen_count (counters_ w) + 1).
Proof.
  intros H. unfold observe in H. set (w1 := observe_init w seq) in H.
  assert (Hw1 : same_counts (counters_ w) (counters_ w1)).
  { unfold w1, observe_init. destruct (initialized_ w); cbn; by repeat case_match. }
  clearbody w1. destruct Hw1 as (E1 & E2 & E3). unfold seen_count. rewrite <- E1, <- E2, <- E3. unfold observe_core in H.
  destruct (_ <? _); [|destruct (_ <=? _)].
  - run_inv. cbn. rewrite cong_u64. split; apply cong_of_eq; lia.
  - run_inv. match goal with Hs : slide_to _ _ = Ok _ |- _ => apply slide_loop_counts in Hs as (F1 & F2 & F3) end.
    rewrite <- F1, <- F2, <- F3. by apply (observe_tail_counts (with_counters a (inc_slides (counters_ a))) w' seq kAdvanced).
  - by apply (observe_tail_counts w1 w' seq kAccept).
Qed.

(** ** The contract *)
Module Spec.
(** The set of sequence numbers accepted so far, the current base, and the
    first sequence number seen. *)
Record state := mkState { seen : gset Z; base : Z; first : Z }.

(** The base moves to the first number at or above it that was not accepted. *)
Definition advanced (s : gset Z) (from to : Z) : Prop :=
  from <= to /\ (to ∉ s) /\ forall x, from <= x < to -> x ∈ s.

Inductive step (size : Z) (st : state) (seq : Z) : ObserveResult -> state -> Prop :=
| step_too_old : seq < base st -> step size st seq kTooOld st
| step_duplicate : base st <= seq < base st + size -> seq ∈ seen st ->
    step size st seq kDuplicate st
| step_accept b' : base st <= seq < base st + size -> (seq ∉ seen st) ->
    advanced ({[seq]} ∪ seen st) (base st) b' ->
    step size st seq kAccept (mkState ({[seq]} ∪ seen st) b' (first st))
| step_slide b' : base st + size <= seq -> (seq ∉ seen st) ->
    advanced ({[seq]} ∪ seen st) (seq - size + 1) b' ->
    step size st seq kAdvanced (mkState ({[seq]} ∪ seen st) b' (first st)).
End Spec.

(** ** Bits of the window *)
Definition bitat (bits : list Z) (p : Z) : bool :=
  match bits !! Z.to_nat (p / 64) with Some wd => Z.testbit wd (p mod 64) | None => false end.

(** Type invariant of a window: a power-of-two size, and one bit per position. *)
Definition shape (w : Window) : Prop :=
  exists k, 6 <= k < 64 /\ size_ w = 2 ^ k /\ mask_ w = size_ w - 1 /\
    length (bits_ w) = Z.to_nat (size_ w / 64).

Lemma land_single (a i : Z) : 0 <= i -> negb (Z.land a (Z.shiftl 1 i) =? 0) = Z.testbit a i.
Proof.
  intros Hi. rewrite Z.shiftl_1_l. destruct (Z.testbit a i) eqn:E.
  - apply negb_true_iff, Z.eqb_neq. intros H0. apply (f_equal (fun z => Z.testbit z i)) in H0.
    rewrite Z.land_spec, E, Z.pow2_bits_true, Z.bits_0 in H0 by done. discriminate.
  - apply negb_false_iff, Z.eqb_eq. apply Z.bits_inj'. intros n Hn.
    rewrite Z.land_spec, Z.pow2_bits_eqb, Z.bits_0 by done.
    destruct (Z.eqb_spec i n); [subst; by rewrite E | by rewrite andb_false_r].
Qed.

Lemma pos_index (w : Window) (seq : Z) : shape w ->
  let p := Z.land seq (mask_ w) in
  p = seq mod size_ w /\ 0 <= p < size_ w /\ Z.shiftr p 6 = p / 64 /\ Z.land p 63 = p mod 64 /\
  (Z.to_nat (p / 64) < length (bits_ w))%nat.
Proof.
  intros (k & Hk & Hs & Hm & Hl) p.
  assert (p = seq mod size_ w) as Hp.
  { unfold p. rewrite Hm, Hs. rewrite <- Z.land_ones by lia. f_equal. rewrite Z.ones_equiv. lia. }
  assert (0 < size_ w) by (rewrite Hs; apply Z.pow_pos_nonneg; lia).
  pose proof (Z.mod_pos_bound seq (size_ w) ltac:(lia)).
  split_and!; try done; try lia.
  - by rewrite Z.shiftr_div_pow2 by lia.
  - change 63 with (Z.ones 6). by rewrite Z.land_ones by lia.
  - rewrite Hl. apply Z2Nat.inj_lt; [apply Z.div_pos; lia | apply Z.div_pos; lia |].
    assert (size_ w = 64 * (size_ w / 64)) as Hd.
    { apply Z.div_exact; [lia|]. rewrite Hs. replace k with (k - 6 + 6) by lia.
      rewrite Z.pow_add_r by lia. change (2 ^ 6) with 64. apply Z.mod_mul. lia. }
    apply Z.div_lt_upper_bound; lia.
Qed.

Lemma test_spec (w : Window) (seq : Z) : shape w -> test w seq = Ok (bitat (bits_ w) (seq mod size_ w)).
Proof.
  intros Hw. destruct (pos_index w seq Hw) as (Hp & Hr & Hs & Hl & Hi).
  unfold test, test_bits. rewrite Hs, Hl, Hp in *.
  destruct (vget_lt _ _ Hi) as (wd & -> & Hwd). cbn [rbind]. unfold bitat. rewrite Hwd.
  by rewrite land_single by (apply Z.mod_pos_bound; lia).
Qed.

(** The two updates change one position and nothing else. *)
Lemma update_spec (w : Window) (seq : Z) (f : Z -> Z) (v : bool) : shape w ->
  (forall wd i, 0 <= i < 64 -> Z.testbit (f wd) i =
     if i =? seq mod size_ w mod 64 then v else Z.testbit wd i) ->
  exists b, (let! word := vget (bits_ w) (Z.to_nat (seq mod size_ w / 64)) in
             let! b := vset (bits_ w) (Z.to_nat (seq mod size_ w / 64)) (f word) in
             Ok (with_bits w b)) = Ok (with_bits w b) /\
    length b = length (bits_ w) /\
    forall p, 0 <= p < size_ w ->
      bitat b p = if p =? seq mod size_ w then v else bitat (bits_ w) p.
Proof.
  intros Hw Hf. destruct (pos_index w seq Hw) as (Hp & Hr & Hs & Hl & Hi). rewrite Hp in *.
  destruct (vget_lt _ _ Hi) as (wd & -> & Hwd). cbn [rbind]. rewrite vset_lt by done. cbn [rbind].
  eexists. split; [done|]. split; [apply length_insert|]. intros p Hpr. unfold bitat.
  set (q := seq mod size_ w) in *.
  pose proof (Z.div_mod p 64 ltac:(lia)). pose proof (Z.div_mod q 64 ltac:(lia)).
  pose proof (Z.mod_pos_bound p 64 ltac:(lia)). pose proof (Z.mod_pos_bound q 64 ltac:(lia)).
  pose proof (Z.div_pos p 64 ltac:(lia) ltac:(lia)). pose proof (Z.div_pos q 64 ltac:(lia) ltac:(lia)).
  destruct (Nat.eq_dec (Z.to_nat (q / 64)) (Z.to_nat (p / 64))) as [E|E].
  - rewrite <- E, list_lookup_insert_eq by done. rewrite Hf by lia. rewrite Hwd.
    destruct (Z.eqb_spec (p mod 64) (q mod 64)), (Z.eqb_spec p q); try lia; done.
  - rewrite list_lookup_insert_ne by done. destruct (Z.eqb_spec p q); [subst p; done|done].
Qed.

Lemma set_spec (w : Window) (seq : Z) : shape w ->
  exists b, set w seq = Ok (with_bits w b) /\ length b = length (bits_ w) /\
    forall p, 0 <= p < size_ w -> bitat b p = if p =? seq mod size_ w then true else bitat (bits_ w) p.
Proof.
  intros Hw. destruct (pos_index w seq Hw) as (Hp & Hr & Hs & Hl & Hi).
  unfold set. cbv zeta. rewrite Hs, Hl, Hp in *. set (q := seq mod size_ w) in *.
  apply (update_spec w seq (fun word => Z.lor word (Z.shiftl 1 (q mod 64))) true Hw).
  intros wd i Hii. rewrite Z.lor_spec, Z.shiftl_1_l, Z.pow2_bits_eqb by (apply Z.mod_pos_bound; lia).
  fold q. rewrite (Z.eqb_sym i). destruct (_ =? i); [apply orb_true_r | apply orb_false_r].
Qed.

Lemma clear_spec (w : Window) (seq : Z) : shape w ->
  exists b, clear w seq = Ok (with_bits w b) /\ length b = length (bits_ w) /\
    forall p, 0 <= p < size_ w -> bitat b p = if p =? seq mod size_ w then false else bitat (bits_ w) p.
Proof.
  intros Hw. destruct (pos_index w seq Hw) as (Hp & Hr & Hs & Hl & Hi).
  unfold clear. cbv zeta. rewrite Hs, Hl, Hp in *. set (q := seq mod size_ w) in *.
  apply (update_spec w seq (fun word => Z.land word (u64 (Z.lnot (Z.shiftl 1 (q mod 64))))) false Hw).
  intros wd i Hii. unfold wrap. rewrite <- Z.land_ones by lia.
  rewrite !Z.land_spec, Z.lnot_spec, Z.shiftl_1_l, Z.pow2_bits_eqb, Z.ones_spec_low
    by (lia || apply Z.mod_pos_bound; lia).
  fold q. rewrite (Z.eqb_sym i), andb_true_r. destruct (_ =? i); [apply andb_false_r | apply andb_true_r].
Qed.

(** ** The window represents the set of accepted numbers *)
Definition bits_rep (w : Window) (seen : gset Z) : Prop :=
  forall x, base_seq_ w <= x < base_seq_ w + size_ w ->
    bitat (bits_ w) (x mod size_ w) = bool_decide (x ∈ seen).

Lemma shape_size (w : Window) : shape w -> 64 <= size_ w.
Proof.
  intros (k & Hk & -> & _). change 64 with (2 ^ 6). apply Z.pow_le_mono_r; lia.
Qed.

Lemma mod_window_inj (n x y : Z) : 0 < n -> Z.abs (x - y) < n -> x mod n = y mod n -> x = y.
Proof.
  intros Hn Hd He. pose proof (Z.div_mod x n ltac:(lia)). pose proof (Z.div_mod y n ltac:(lia)).
  assert (x - y = n * (x / n - y / n)) as Hq by lia.
  set (d := x / n - y / n) in *. assert (d = 0) by nia. nia.
Qed.

(** Clearing the base and moving it by one keeps the representation. *)
Lemma clear_base (w : Window) (seen : gset Z) :
  shape w -> bits_rep w seen -> 0 <= base_seq_ w -> base_seq_ w + 1 < 2 ^ 64 ->
  base_seq_ w + size_ w ∉ seen ->
  exists w1, clear w (base_seq_ w) = Ok w1 /\
    let w2 := with_base w1 (u64 (base_seq_ w1 + 1)) in
    shape w2 /\ bits_rep w2 seen /\ base_seq_ w2 = base_seq_ w + 1 /\ size_ w2 = size_ w /\
    counters_ w2 = counters_ w /\ initialized_ w2 = initialized_ w.
Proof.
  intros Hs Hr H0 Hm Hn. pose proof (shape_size w Hs) as H64.
  destruct (clear_spec w (base_seq_ w) Hs) as (b & -> & Hl & Hb).
  exists (with_bits w b). split; [done|]. cbn. rewrite wrap_small by (unfold in_range; lia).
  split_and!; try done.
  - destruct Hs as (k & ? & ? & ? & ?). exists k. cbn. rewrite Hl. done.
  - intros x Hx. cbn in *. rewrite Hb by (apply Z.mod_pos_bound; lia).
    destruct (Z.eqb_spec (x mod size_ w) (base_seq_ w mod size_ w)) as [E|E].
    + assert (x = base_seq_ w + size_ w) as ->.
      { replace (base_seq_ w mod size_ w) with ((base_seq_ w + size_ w) mod size_ w) in E.
        - apply (mod_window_inj (size_ w)); lia || done.
        - rewrite <- (Z.mul_1_l (size_ w)) at 1. by rewrite Z.mod_add by lia. }
      by rewrite bool_decide_false.
    + apply Hr. destruct (Z.eq_dec x (base_seq_ w + size_ w)); [|lia]. subst x. exfalso. apply E.
      rewrite <- (Z.mul_1_l (size_ w)) at 1. by rewrite Z.mod_add by lia.
Qed.

(** Sequence numbers in [a, a + n) that were never accepted. *)
Fixpoint misses (seen : gset Z) (a : Z) (n : nat) : Z :=
  match n with
  | O => 0
  | S m => (if decide (a ∈ seen) then 0 else 1) + misses seen (a + 1) m
  end.

Lemma misses_app (seen : gset Z) (n m : nat) (a : Z) :
  misses seen a (n + m) = misses seen a n + misses seen (a + Z.of_nat n) m.
Proof.
  revert a. induction n as [|n IH]; intros a; [simpl; by rewrite Z.add_0_r|].
  cbn [misses Nat.add]. rewrite IH.
  replace (a + Z.of_nat (S n)) with (a + 1 + Z.of_nat n) by lia. lia.
Qed.

Lemma misses_ext (s s' : gset Z) (n : nat) (a : Z) :
  (forall x, a <= x < a + Z.of_nat n -> x ∈ s <-> x ∈ s') -> misses s a n = misses s' a n.
Proof.
  revert a. induction n as [|n IH]; intros a H; [done|]. simpl.
  rewrite (IH (a + 1)) by (intros x Hx; apply H; lia).
  specialize (H a ltac:(lia)). destruct (decide (a ∈ s)), (decide (a ∈ s')); tauto || done.
Qed.

Lemma misses_none (s : gset Z) (n : nat) (a : Z) :
  (forall x, a <= x < a + Z.of_nat n -> x ∈ s) -> misses s a n = 0.
Proof.
  revert a. induction n as [|n IH]; intros a H; [done|]. simpl.
  rewrite IH by (intros x Hx; apply H; lia). by rewrite decide_True by (apply H; lia).
Qed.

Lemma test_base (w : Window) (seen : gset Z) :
  shape w -> bits_rep w seen -> test w (base_seq_ w) = Ok (bool_decide (base_seq_ w ∈ seen)).
Proof. intros Hs Hr. rewrite test_spec by done. f_equal. apply Hr. pose proof (shape_size w Hs). lia. Qed.

Definition same_but_lost (c c' : Counters) (n : Z) : Prop :=
  c' = mkCounters (accepted c) (duplicates c) (too_old c) (u64 (lost_confirmed c + n))
         (window_slides c) (max_reorder_depth c) (receiver_seq_jump_raw c).

Lemma shape_with_counters (w : Window) c : shape w -> shape (with_counters w c).
Proof. done. Qed.

Lemma slide_loop_spec (seen : gset Z) (n : nat) (w : Window) (nb : Z) :
  shape w -> bits_rep w seen -> 0 <= base_seq_ w -> in_range 64 (lost_confirmed (counters_ w)) ->
  (forall x, x ∈ seen -> x < base_seq_ w + size_ w) ->
  nb = base_seq_ w + Z.of_nat n -> nb < 2 ^ 64 ->
  exists w', slide_loop n w nb = Ok w' /\ shape w' /\ bits_rep w' seen /\ base_seq_ w' = nb /\
    size_ w' = size_ w /\ initialized_ w' = initialized_ w /\
    same_but_lost (counters_ w) (counters_ w') (misses seen (base_seq_ w) n).
Proof.
  revert w. induction n as [|n IH]; intros w Hs Hr H0 Hlost Hub -> Hnb.
  - exists w. simpl. rewrite Z.add_0_r, Z.ltb_irrefl. split_and!; try done.
    unfold same_but_lost. rewrite Z.add_0_r, wrap_small by done. by destruct (counters_ w).
  - cbn [slide_loop]. destruct (Z.ltb_spec (base_seq_ w) (base_seq_ w + Z.of_nat (S n))); [|lia].
    rewrite (test_base w seen) by done. cbn [rbind].
    set (w1 := if negb _ then _ else w).
    assert (shape w1 /\ bits_rep w1 seen /\ base_seq_ w1 = base_seq_ w /\ size_ w1 = size_ w /\
            initialized_ w1 = initialized_ w /\
            same_but_lost (counters_ w) (counters_ w1) (if decide (base_seq_ w ∈ seen) then 0 else 1))
      as (Hs1 & Hr1 & Hb1 & Hz1 & Hi1 & Hc1).
    { unfold w1, same_but_lost. destruct (decide (base_seq_ w ∈ seen)) as [Hin|Hin];
        [rewrite bool_decide_true by done | rewrite bool_decide_false by done];
        split_and!; try done. cbn [negb].
      rewrite Z.add_0_r, wrap_small by done. by destruct (counters_ w). }
    destruct (clear_base w1 seen) as (w2 & -> & Hs2 & Hr2 & Hb2 & Hz2 & Hc2 & Hi2); try done; try lia.
    { intros Hin. specialize (Hub _ Hin). lia. }
    cbn [rbind]. set (w3 := with_base w2 _) in *.
    destruct (IH w3) as (w' & Hloop & Hs' & Hr' & Hb' & Hz' & Hi' & Hc'); try done; try lia.
    { rewrite Hc2, Hc1. cbn. by apply wrap_range. }
    { intros x Hx. specialize (Hub x Hx). lia. }
    rewrite Hloop. exists w'. split_and!; try done; try congruence.
    unfold same_but_lost in *. rewrite Hc', Hc2, Hc1, Hb2, Hb1. cbn [misses lost_confirmed].
    by rewrite wrap_add_l, Z.add_assoc.
Qed.

Lemma advance_loop_spec (seen : gset Z) (bound : Z) (n : nat) (w : Window) :
  shape w -> bits_rep w seen -> 0 <= base_seq_ w -> bound < 2 ^ 64 ->
  (forall x, x ∈ seen -> x < bound) -> bound <= base_seq_ w + size_ w ->
  bound - base_seq_ w <= Z.of_nat n ->
  exists w', advance_loop n w = Ok w' /\ shape w' /\ bits_rep w' seen /\
    Spec.advanced seen (base_seq_ w) (base_seq_ w') /\
    size_ w' = size_ w /\ initialized_ w' = initialized_ w /\ counters_ w' = counters_ w.
Proof.
  revert w. induction n as [|n IH]; intros w Hs Hr H0 Hb Hub Hbs Hf;
    cbn [advance_loop]; rewrite (test_base w seen) by done; cbn [rbind];
    (destruct (decide (base_seq_ w ∈ seen)) as [Hin|Hin];
     [rewrite bool_decide_true by done | rewrite bool_decide_false by done]).
  - specialize (Hub _ Hin). lia.
  - exists w. split_and!; try done. split; [lia|]. split; [done|]. intros; lia.
  - specialize (Hub _ Hin) as Hlt.
    destruct (clear_base w seen) as (w2 & -> & Hs2 & Hr2 & Hb2 & Hz2 & Hc2 & Hi2); try done; try lia.
    { intros Hin'. specialize (Hub _ Hin'). lia. }
    cbn [rbind]. set (w3 := with_base w2 _) in *.
    destruct (IH w3) as (w' & Hl & Hs' & Hr' & (Ha1 & Ha2 & Ha3) & Hz' & Hi' & Hc'); try done; try lia.
    exists w'. split_and!; try done; try congruence. split; [lia|]. split; [done|].
    intros x Hx. destruct (Z.eq_dec x (base_seq_ w)) as [->|]; [done|]. apply Ha3. lia.
  - exists w. split_and!; try done. split; [lia|]. split; [done|]. intros; lia.
Qed.

(** The part of [observe] after the window has been positioned. *)
Lemma set_rep (w : Window) (seen : gset Z) (seq : Z) :
  shape w -> bits_rep w seen -> base_seq_ w <= seq < base_seq_ w + size_ w ->
  exists w1, set w seq = Ok w1 /\ shape w1 /\ bits_rep w1 ({[seq]} ∪ seen) /\
    base_seq_ w1 = base_seq_ w /\ size_ w1 = size_ w /\ initialized_ w1 = initialized_ w /\
    counters_ w1 = counters_ w.
Proof.
  intros Hs Hr Hseq. pose proof (shape_size w Hs) as H64.
  destruct (set_spec w seq Hs) as (b & -> & Hl & Hb). exists (with_bits w b). split_and!; try done.
  - destruct Hs as (k & ? & ? & ? & ?). exists k. cbn. by rewrite Hl.
  - intros x Hx. cbn in *. rewrite Hb by (apply Z.mod_pos_bound; lia).
    destruct (Z.eqb_spec (x mod size_ w) (seq mod size_ w)) as [E|E].
    + apply mod_window_inj in E; [|lia..]. subst. symmetry. apply bool_decide_true. set_solver.
    + rewrite (Hr x Hx). apply bool_decide_ext. assert (x <> seq) by congruence. set_solver.
Qed.

Lemma observe_tail_fresh (w : Window) (seen : gset Z) (seq : Z) (r : ObserveResult) :
  shape w -> bits_rep w seen -> 0 <= base_seq_ w -> base_seq_ w <= seq < base_seq_ w + size_ w ->
  base_seq_ w + size_ w < 2 ^ 64 -> (forall x, x ∈ seen -> x < base_seq_ w + size_ w) ->
  (seq ∉ seen) ->
  exists w', observe_tail w seq r = Ok (r, w') /\ shape w' /\ bits_rep w' ({[seq]} ∪ seen) /\
    Spec.advanced ({[seq]} ∪ seen) (base_seq_ w) (base_seq_ w') /\
    size_ w' = size_ w /\ initialized_ w' = initialized_ w /\
    accepted (counters_ w') = u64 (accepted (counters_ w) + 1) /\
    lost_confirmed (counters_ w') = lost_confirmed (counters_ w).
Proof.
  intros Hs Hr H0 Hseq Hmax Hub Hnew. unfold observe_tail.
  set (w1 := if _ <? _ then _ else w).
  assert (shape w1 /\ bits_rep w1 seen /\ base_seq_ w1 = base_seq_ w /\ size_ w1 = size_ w /\
          initialized_ w1 = initialized_ w /\ accepted (counters_ w1) = accepted (counters_ w) /\
          lost_confirmed (counters_ w1) = lost_confirmed (counters_ w))
    as (Hs1 & Hr1 & Hb1 & Hz1 & Hi1 & Ha1 & Hl1) by (unfold w1; case_match; done).
  rewrite test_spec by done. rewrite (Hr1 seq) by lia. rewrite bool_decide_false by done. cbn [rbind].
  destruct (set_rep w1 seen seq Hs1 Hr1 ltac:(lia)) as (w2 & -> & Hs2 & Hr2 & Hb2 & Hz2 & Hi2 & Hc2).
  cbn [rbind]. set (w3 := with_counters w2 _).
  destruct (advance_loop_spec ({[seq]} ∪ seen) (base_seq_ w + size_ w) (Z.to_nat (size_ w3)) w3)
    as (w' & Hadv & Hs' & Hr' & Ha' & Hz' & Hi' & Hc'); try done; unfold w3 in *; cbn in *; try lia.
  { intros x Hx. apply elem_of_union in Hx as [->%elem_of_singleton|Hx]; [lia|by apply Hub]. }
  unfold advance_contiguous. cbn in *. rewrite Hadv. exists w'. cbn. rewrite Hc', Hc2. cbn.
  split_and!; try done; congruence.
Qed.

Lemma observe_tail_dup (w : Window) (seen : gset Z) (seq : Z) (r : ObserveResult) :
  shape w -> bits_rep w seen -> base_seq_ w <= seq < base_seq_ w + size_ w -> seq ∈ seen ->
  exists w', observe_tail w seq r = Ok (kDuplicate, w') /\ shape w' /\ bits_rep w' seen /\
    base_seq_ w' = base_seq_ w /\ size_ w' = size_ w /\ initialized_ w' = initialized_ w /\
    accepted (counters_ w') = accepted (counters_ w) /\
    lost_confirmed (counters_ w') = lost_confirmed (counters_ w).
Proof.
  intros Hs Hr Hseq Hin. unfold observe_tail. set (w1 := if _ <? _ then _ else w).
  assert (shape w1 /\ bits_rep w1 seen /\ base_seq_ w1 = base_seq_ w /\ size_ w1 = size_ w /\
          initialized_ w1 = initialized_ w /\ accepted (counters_ w1) = accepted (counters_ w) /\
          lost_confirmed (counters_ w1) = lost_confirmed (counters_ w))
    as (Hs1 & Hr1 & Hb1 & Hz1 & Hi1 & Ha1 & Hl1) by (unfold w1; case_match; done).
  rewrite test_spec by done. rewrite (Hr1 seq) by lia. rewrite bool_decide_true by done. cbn [rbind].
  eexists. split; [done|]. done.
Qed.

(** ** Refinement *)

(** The concrete window stands for the abstract state. *)
Record rep (w : Window) (st : Spec.state) : Prop := {
  rep_shape : shape w;
  rep_init : initialized_ w = true;
  rep_base : base_seq_ w = Spec.base st;
  rep_bits : bits_rep w (Spec.seen st);
  rep_fresh : Spec.base st ∉ Spec.seen st;
  rep_seen x : x ∈ Spec.seen st ->
    Spec.first st <= x < Spec.base st + size_ w /\ x + size_ w + 1 < 2 ^ 64;
  rep_first : 0 <= Spec.first st <= Spec.base st;
  rep_max : Spec.base st + size_ w < 2 ^ 64;
  rep_accepted : accepted (counters_ w) = u64 (Z.of_nat (size (Spec.seen st)));
  rep_lost : lost_confirmed (counters_ w) =
    u64 (misses (Spec.seen st) (Spec.first st) (Z.to_nat (Spec.base st - Spec.first st)))
}.

(** Sequence numbers far enough from the end of the 64-bit space. *)
Definition ok_seq (size seq : Z) : Prop := 0 <= seq /\ seq + size + 1 < 2 ^ 64.

Lemma rep_observe_init (w : Window) (st : Spec.state) (seq : Z) :
  rep w st -> rep (observe_init w seq) st /\ size_ (observe_init w seq) = size_ w.
Proof.
  intros [Hs Hi Hb Hr Hf Hse Hfi Hm Ha Hl]. unfold observe_init. rewrite Hi.
  case_match; [case_match|]; split; try done; by constructor.
Qed.

Lemma make_shape (sz : Z) (w : Window) : in_range 64 sz -> make sz = Some w ->
  shape w /\ 64 <= sz /\ w = mkWindow sz (sz - 1) (replicate (Z.to_nat (sz / 64)) 0) 0 false Counters_zero.
Proof.
  intros Hsz Hm. unfold make in Hm. destruct (_ || _ || _) eqn:Hc; [discriminate|].
  injection Hm as <-. zbool. rewrite (wrap_small 64 (sz - 1)) in * by (unfold in_range in *; lia). split; [|done].
  assert (exists k, 6 <= k < 64 /\ sz = 2 ^ k) as (k & Hk & Hsk).
  { destruct (proj1 (is_power_of_two_iff sz Hsz)) as (k & Hk & ->).
    - unfold is_power_of_two. rewrite wrap_small by (unfold in_range in *; lia).
      destruct (Z.eqb_spec sz 0); [done|]. by apply Z.eqb_eq.
    - exists k. split; [|done]. split; [|lia]. apply (Z.pow_le_mono_r_iff 2); lia. }
  exists k. cbn. rewrite length_replicate. auto.
Qed.

Lemma fresh_observe_init (sz : Z) (w : Window) (seq : Z) :
  in_range 64 sz -> ok_seq sz seq -> make sz = Some w ->
  rep (observe_init w seq) (Spec.mkState ∅ seq seq) /\ size_ (observe_init w seq) = sz.
Proof.
  intros Hsz [Hq0 Hq1] Hm. destruct (make_shape sz w Hsz Hm) as ((k & Hk & Hshape) & H64 & ->).
  unfold observe_init. cbn. rewrite Z.leb_refl, Z.sub_diag. cbn. split; [|done].
  constructor; cbn; try done; try lia; try set_solver.
  - by exists k.
  - intros x Hx. cbn in *. unfold bitat.
    destruct (replicate _ _ !! _) eqn:E; [|by rewrite bool_decide_false].
    apply lookup_replicate in E as [-> _]. by rewrite Z.bits_0, bool_decide_false.
  - by rewrite Z.sub_diag.
Qed.

(** Accepting [seq] after the base has moved to [b0] re-establishes [rep]. *)
Lemma rep_accept (w w' : Window) (st : Spec.state) (seq b0 : Z) :
  rep w st -> ok_seq (size_ w) seq -> Spec.base st <= b0 <= seq -> seq < b0 + size_ w ->
  (seq ∉ Spec.seen st) ->
  shape w' -> size_ w' = size_ w -> initialized_ w' = true ->
  bits_rep w' ({[seq]} ∪ Spec.seen st) -> Spec.advanced ({[seq]} ∪ Spec.seen st) b0 (base_seq_ w') ->
  accepted (counters_ w') = u64 (accepted (counters_ w) + 1) ->
  lost_confirmed (counters_ w') =
    u64 (lost_confirmed (counters_ w) + misses (Spec.seen st) (Spec.base st) (Z.to_nat (b0 - Spec.base st))) ->
  rep w' (Spec.mkState ({[seq]} ∪ Spec.seen st) (base_seq_ w') (Spec.first st)).
Proof.
  intros [Hs Hi Hb Hr Hf Hse Hfi Hm Ha Hl] [Hq0 Hq1] Hb0 Hseq Hnew Hs' Hz' Hi' Hr' (Hd1 & Hd2 & Hd3) Ha' Hl'.
  assert (forall x, x ∈ {[seq]} ∪ Spec.seen st ->
            Spec.first st <= x < base_seq_ w' + size_ w /\ x + size_ w + 1 < 2 ^ 64) as Hall.
  { intros x [->%elem_of_singleton|Hx]%elem_of_union; [lia|]. specialize (Hse _ Hx). lia. }
  constructor; cbn; rewrite ?Hz'; try done; try lia.
  - destruct (Z.eq_dec (base_seq_ w') b0); [lia|].
    specialize (Hall (base_seq_ w' - 1) ltac:(apply Hd3; lia)). lia.
  - rewrite Ha', Ha, wrap_add_l, size_union, size_singleton by (by apply disjoint_singleton_l).
    f_equal. lia.
  - rewrite Hl', Hl, wrap_add_l.
    replace (Z.to_nat (base_seq_ w' - Spec.first st)) with
      (Z.to_nat (Spec.base st - Spec.first st) +
       (Z.to_nat (b0 - Spec.base st) + Z.to_nat (base_seq_ w' - b0)))%nat by lia.
    rewrite !misses_app. f_equal.
    rewrite (misses_none _ (Z.to_nat (base_seq_ w' - b0))) by (intros x Hx; apply Hd3; lia).
    rewrite !(misses_ext ({[seq]} ∪ Spec.seen st) (Spec.seen st))
      by (intros x Hx; rewrite elem_of_union, elem_of_singleton; split; [intros [?|?]; [lia|done] | auto]).
    replace (Spec.first st + Z.of_nat (Z.to_nat (Spec.base st - Spec.first st))) with (Spec.base st) by lia.
    lia.
Qed.

Lemma observe_slides (w : Window) (st : Spec.state) (seq : Z) :
  rep w st -> ok_seq (size_ w) seq -> base_seq_ w + size_ w <= seq ->
  exists w' st', observe_core w seq = Ok (kAdvanced, w') /\
    Spec.step (size_ w) st seq kAdvanced st' /\ rep w' st' /\ size_ w' = size_ w.
Proof.
  intros Hrep Hok Hslide. pose proof Hrep as [Hs Hi Hb Hr Hf Hse Hfi Hm Ha Hl]. pose proof Hok as [Hq0 Hq1].
  pose proof (shape_size w Hs) as H64. unfold observe_core.
  destruct (Z.ltb_spec seq (base_seq_ w)); [lia|]. rewrite !wrap_small by (unfold in_range; lia).
  destruct (Z.leb_spec (base_seq_ w + size_ w) seq); [|lia].
  assert (seq ∉ Spec.seen st) as Hnew by (intros Hx; specialize (Hse _ Hx); lia).
  destruct (slide_loop_spec (Spec.seen st) (Z.to_nat (seq - size_ w + 1 - base_seq_ w)) w (seq - size_ w + 1))
    as (w1 & Hsl & Hs1 & Hr1 & Hb1 & Hz1 & Hi1 & Hc1); try done; try lia.
  { rewrite Hl. by apply wrap_range. }
  { intros x Hx. specialize (Hse _ Hx). lia. }
  unfold slide_to. rewrite Hsl. cbn [rbind]. set (w2 := with_counters w1 _).
  destruct (observe_tail_fresh w2 (Spec.seen st) seq kAdvanced)
    as (w' & Ho & Hs' & Hr' & Hadv & Hz' & Hi' & Ha' & Hl'); try done; unfold w2 in *; cbn in *; try lia.
  { intros x Hx. specialize (Hse _ Hx). lia. }
  rewrite Hb1 in Hadv. exists w', (Spec.mkState ({[seq]} ∪ Spec.seen st) (base_seq_ w') (Spec.first st)).
  split_and!; [done | apply Spec.step_slide; by (lia || done) | | congruence].
  rewrite Hc1 in Ha', Hl'. cbn in Ha', Hl'. rewrite Hb in Hl'.
  apply (rep_accept w w' st seq (seq - size_ w + 1)); try done; try lia; congruence.
Qed.

Lemma observe_within (w : Window) (st : Spec.state) (seq : Z) :
  rep w st -> ok_seq (size_ w) seq -> base_seq_ w <= seq < base_seq_ w + size_ w ->
  exists r w' st', observe_core w seq = Ok (r, w') /\
    Spec.step (size_ w) st seq r st' /\ rep w' st' /\ size_ w' = size_ w.
Proof.
  intros Hrep Hok Hin. pose proof Hrep as [Hs Hi Hb Hr Hf Hse Hfi Hm Ha Hl]. pose proof Hok as [Hq0 Hq1].
  unfold observe_core. destruct (Z.ltb_spec seq (base_seq_ w)); [lia|].
  rewrite wrap_small by (unfold in_range; lia).
  destruct (Z.leb_spec (base_seq_ w + size_ w) seq); [lia|].
  destruct (decide (seq ∈ Spec.seen st)) as [Hdup|Hnew].
  - destruct (observe_tail_dup w (Spec.seen st) seq kAccept)
      as (w' & Ho & Hs' & Hr' & Hb' & Hz' & Hi' & Ha' & Hl'); try done.
    exists kDuplicate, w', st. split_and!; [done | apply Spec.step_duplicate; by (lia || done) | | done].
    constructor; rewrite ?Hz', ?Hb', ?Ha', ?Hl'; try done; congruence.
  - destruct (observe_tail_fresh w (Spec.seen st) seq kAccept)
      as (w' & Ho & Hs' & Hr' & Hadv & Hz' & Hi' & Ha' & Hl'); try done; try lia.
    { intros x Hx. specialize (Hse _ Hx). lia. }
    rewrite Hb in Hadv. exists kAccept, w', (Spec.mkState ({[seq]} ∪ Spec.seen st) (base_seq_ w') (Spec.first st)).
    split_and!; [done | apply Spec.step_accept; by (lia || done) | | done].
    apply (rep_accept w w' st seq (Spec.base st)); try done; try lia; try congruence.
    rewrite Z.sub_diag, Z.add_0_r, Hl'. symmetry. rewrite Hl. by apply wrap_small, wrap_range.
Qed.

Lemma observe_core_refines (w : Window) (st : Spec.state) (seq : Z) :
  rep w st -> ok_seq (size_ w) seq ->
  exists r w' st', observe_core w seq = Ok (r, w') /\
    Spec.step (size_ w) st seq r st' /\ rep w' st' /\ size_ w' = size_ w.
Proof.
  intros Hrep Hok. pose proof Hrep as [Hs Hi Hb Hr Hf Hse Hfi Hm Ha Hl].
  destruct (Z.lt_ge_cases seq (base_seq_ w)) as [Hlt|Hge].
  - unfold observe_core. rewrite (proj2 (Z.ltb_lt _ _) Hlt). do 3 eexists.
    split_and!; [done | apply Spec.step_too_old; lia | by constructor | done].
  - destruct (Z.lt_ge_cases seq (base_seq_ w + size_ w)) as [Hin|Hout].
    + apply observe_within; done.
    + destruct (observe_slides w st seq Hrep Hok Hout) as (w' & st' & ?). eauto.
Qed.

Lemma observe_refines (w : Window) (st : Spec.state) (seq : Z) :
  rep w st -> ok_seq (size_ w) seq ->
  exists r w' st', observe w seq = Ok (r, w') /\
    Spec.step (size_ w) st seq r st' /\ rep w' st' /\ size_ w' = size_ w.
Proof.
  intros Hrep Hok. destruct (rep_observe_init w st seq Hrep) as [Hrep1 Hz1].
  destruct (observe_core_refines (observe_init w seq) st seq) as (r & w' & st' & H);
    [done | by rewrite Hz1 |]. rewrite Hz1 in H. eauto.
Qed.

(** ** Runs *)
Inductive run (size : Z) : Spec.state -> list Z -> list ObserveResult -> Spec.state -> Prop :=
| run_nil st : run size st [] [] st
| run_cons st s r st1 seqs rs st2 :
    Spec.step size st s r st1 -> run size st1 seqs rs st2 -> run size st (s :: seqs) (r :: rs) st2.

Lemma observe_all_refines (seqs : list Z) (w : Window) (st : Spec.state) :
  rep w st -> Forall (ok_seq (size_ w)) seqs ->
  exists rs w' st', observe_all w seqs = Ok (rs, w') /\ run (size_ w) st seqs rs st' /\ rep w' st'.
Proof.
  revert w st. induction seqs as [|s seqs IH]; intros w st Hrep Hok.
  - do 3 eexists. split; [done|]. split; [constructor|done].
  - inversion Hok as [|? ? Hs Hrest]; subst.
    destruct (observe_refines w st s Hrep Hs) as (r & w1 & st1 & Ho & Hstep & Hrep1 & Hz).
    destruct (IH w1 st1 Hrep1) as (rs & w2 & st2 & Ha & Hrun & Hrep2); [by rewrite Hz|].
    cbn [observe_all]. rewrite Ho. cbn [rbind]. rewrite Ha. rewrite Hz in Hrun.
    do 3 eexists. split; [done|]. split; [by econstructor|done].
Qed.

Lemma observe_all_fresh (sz s0 : Z) (seqs : list Z) (w0 : Window) :
  in_range 64 sz -> make sz = Some w0 -> Forall (ok_seq sz) (s0 :: seqs) ->
  exists rs w' st', observe_all w0 (s0 :: seqs) = Ok (rs, w') /\
    run sz (Spec.mkState ∅ s0 s0) (s0 :: seqs) rs st' /\ rep w' st'.
Proof.
  intros Hsz Hmk Hok. inversion Hok as [|? ? Hs Hrest]; subst.
  destruct (fresh_observe_init sz w0 s0 Hsz Hs Hmk) as [Hrep Hz].
  destruct (observe_core_refines _ _ s0 Hrep) as (r & w1 & st1 & Ho & Hstep & Hrep1 & Hz1); [by rewrite Hz|].
  destruct (observe_all_refines seqs w1 st1 Hrep1) as (rs & w2 & st2 & Ha & Hrun & Hrep2); [by rewrite Hz1, Hz|].
  cbn [observe_all]. change (observe w0 s0) with (observe_core (observe_init w0 s0) s0). rewrite Ho. cbn [rbind].
  rewrite Ha. rewrite Hz in Hstep. rewrite Hz1, Hz in Hrun.
  do 3 eexists. split; [done|]. split; [by econstructor|done].
Qed.

Lemma step_seen (size : Z) st s r st' :
  Spec.step size st s r st' ->
  Spec.seen st' = (if is_accept r then {[s]} ∪ Spec.seen st else Spec.seen st) /\
  (is_accept r = true -> s ∉ Spec.seen st) /\ (r = kDuplicate -> s ∈ Spec.seen st).
Proof. intros H. inversion H; subst; cbn; split_and!; try done. Qed.

Lemma run_seen_rejected (size : Z) st seqs rs st' : run size st seqs rs st' ->
  forall j s r, s ∈ Spec.seen st -> seqs !! j = Some s -> rs !! j = Some r -> is_accept r = false.
Proof.
  induction 1 as [|st s0 r0 st1 seqs rs st2 Hstep Hrun IH]; intros j s r Hin Hs Hr; [done|].
  destruct (step_seen _ _ _ _ _ Hstep) as (Hseen & Hacc & _). destruct j as [|j]; cbn in *; simplify_eq.
  - destruct (is_accept r) eqn:E; [|done]. by specialize (Hacc eq_refl).
  - apply (IH j s r); try done. rewrite Hseen. destruct (is_accept r0); set_solver.
Qed.

Lemma run_at_most_once (size : Z) st seqs rs st' : run size st seqs rs st' ->
  forall i j s ri rj, (i < j)%nat -> seqs !! i = Some s -> seqs !! j = Some s ->
    rs !! i = Some ri -> rs !! j = Some rj -> is_accept ri = true -> is_accept rj = false.
Proof.
  induction 1 as [|st s0 r0 st1 seqs rs st2 Hstep Hrun IH]; intros i j s ri rj Hij Hsi Hsj Hri Hrj Ha; [done|].
  destruct j as [|j]; [lia|]. destruct i as [|i]; cbn in *; simplify_eq.
  - apply (run_seen_rejected _ _ _ _ _ Hrun j s rj); try done.
    destruct (step_seen _ _ _ _ _ Hstep) as (-> & _). rewrite Ha. set_solver.
  - by apply (IH i j s ri rj); try lia.
Qed.

Lemma run_duplicate_justified (size : Z) st seqs rs st' : run size st seqs rs st' ->
  forall j s, seqs !! j = Some s -> rs !! j = Some kDuplicate ->
    s ∈ Spec.seen st \/ exists i ri, (i < j)%nat /\ seqs !! i = Some s /\ rs !! i = Some ri /\ is_accept ri = true.
Proof.
  induction 1 as [|st s0 r0 st1 seqs rs st2 Hstep Hrun IH]; intros j s Hs Hr; [done|].
  destruct (step_seen _ _ _ _ _ Hstep) as (Hseen & Hacc & Hdup). destruct j as [|j]; cbn in *; simplify_eq; [auto|].
  destruct (IH j s Hs Hr) as [Hin|(i & ri & Hi & Hsi & Hri & Ha)].
  - rewrite Hseen in Hin. destruct (is_accept r0) eqn:E; [|auto].
    apply elem_of_union in Hin as [->%elem_of_singleton|Hin]; [|auto].
    right. exists O, r0. split; [lia|]. done.
  - right. exists (S i), ri. split; [lia|]. done.
Qed.

Lemma run_count (size : Z) st seqs rs st' : run size st seqs rs st' ->
  base.size (Spec.seen st') = (base.size (Spec.seen st) + length (filter (fun r => is_accept r = true) rs))%nat /\
  Spec.first st' = Spec.first st.
Proof.
  induction 1 as [|st s0 r0 st1 seqs rs st2 Hstep Hrun [IH IH2]]; [cbn; lia|].
  destruct (step_seen _ _ _ _ _ Hstep) as (Hseen & Hacc & _).
  split; [|rewrite IH2; by inversion Hstep]. rewrite IH, Hseen, filter_cons. destruct (is_accept r0) eqn:E.
  - rewrite size_union, size_singleton by (apply disjoint_singleton_l; auto).
    rewrite decide_True by done. cbn. lia.
  - rewrite decide_False by done. lia.
Qed.

(** A slide takes one iteration per sequence number jumped over. *)
Lemma slide_loop_linear (seen : gset Z) (n : nat) (w : Window) (nb : Z) :
  shape w -> bits_rep w seen -> 0 <= base_seq_ w -> nb < 2 ^ 64 ->
  (forall x, x ∈ seen -> x < base_seq_ w + size_ w) ->
  base_seq_ w + Z.of_nat n < nb -> slide_loop n w nb = Throw OutOfFuel.
Proof.
  revert w. induction n as [|n IH]; intros w Hs Hr H0 Hm Hub Hlt; cbn [slide_loop];
    (destruct (Z.ltb_spec (base_seq_ w) nb); [|lia]); [done|].
  rewrite (test_base w seen) by done. cbn [rbind]. set (w1 := if negb _ then _ else w).
  assert (shape w1 /\ bits_rep w1 seen /\ base_seq_ w1 = base_seq_ w /\ size_ w1 = size_ w)
    as (Hs1 & Hr1 & Hb1 & Hz1) by (unfold w1; case_match; done).
  destruct (clear_base w1 seen) as (w2 & -> & Hs2 & Hr2 & Hb2 & Hz2 & _); try done; try lia.
  { intros Hin. specialize (Hub _ Hin). lia. }
  cbn [rbind]. apply IH; try done; try lia. intros x Hx. specialize (Hub x Hx). lia.
Qed.

(** ** Totality on every 64-bit input

    No assumption on the sequence numbers: even where [base_seq_ + size_] wraps
    around, every index is inside the bitmap and both loops end. *)
Definition ones (bits : list Z) (n : nat) : nat :=
  length (List.filter (fun p => bitat bits (Z.of_nat p)) (List.seq 0 n)).

Lemma filter_clear_one (f g : nat -> bool) (q : nat) (l : list nat) :
  List.NoDup l -> In q l -> f q = true -> (forall p, In p l -> g p = if (p =? q)%nat then false else f p) ->
  length (List.filter f l) = S (length (List.filter g l)).
Proof.
  induction l as [|x l IH]; intros Hnd Hin Hq Hg; [done|]. inversion Hnd as [|? ? Hx Hnd']; subst. cbn [List.filter].
  rewrite (Hg x) by (cbn; auto). destruct (Nat.eqb_spec x q) as [->|Hne].
  - rewrite Hq. cbn [length]. f_equal. f_equal. apply List.filter_ext_in. intros p Hp. rewrite Hg by (cbn; auto).
    destruct (Nat.eqb_spec p q); [congruence|done].
  - destruct Hin as [?|Hin]; [congruence|]. rewrite (List.filter_ext_in g (fun p => if (p =? q)%nat then false else f p)) by (intros; apply Hg; cbn; auto).
    specialize (IH Hnd' Hin Hq ltac:(intros; apply Hg; cbn; auto)).
    rewrite (List.filter_ext_in g (fun p => if (p =? q)%nat then false else f p)) in IH by (intros; apply Hg; cbn; auto).
    destruct (f x); cbn [length]; lia.
Qed.

Lemma ones_le (bits : list Z) (n : nat) : (ones bits n <= n)%nat.
Proof. unfold ones. etransitivity; [apply List.filter_length_le|]. by rewrite length_seq. Qed.

Lemma clear_total (w : Window) (seq : Z) : shape w ->
  exists w', clear w seq = Ok w' /\ shape w' /\ size_ w' = size_ w /\ base_seq_ w' = base_seq_ w /\ counters_ w' = counters_ w /\
    (bitat (bits_ w) (seq mod size_ w) = true -> ones (bits_ w) (Z.to_nat (size_ w)) = S (ones (bits_ w') (Z.to_nat (size_ w)))).
Proof.
  intros Hw. destruct (clear_spec w seq Hw) as (b & -> & Hl & Hb). exists (with_bits w b). pose proof (shape_size w Hw).
  pose proof (Z.mod_pos_bound seq (size_ w) ltac:(lia)). split_and!; try done.
  - destruct Hw as (k & ? & ? & ? & ?). exists k. cbn. rewrite Hl. done.
  - intros Ht. cbn. unfold ones. apply (filter_clear_one _ _ (Z.to_nat (seq mod size_ w))); [apply seq_NoDup | apply in_seq; lia | by rewrite Z2Nat.id by lia |].
    intros p Hp%in_seq. rewrite Hb by lia. destruct (Z.eqb_spec (Z.of_nat p) (seq mod size_ w)), (Nat.eqb_spec p (Z.to_nat (seq mod size_ w))); try done; lia.
Qed.

Lemma advance_total (fuel : nat) (w : Window) :
  shape w -> in_range 64 (base_seq_ w) -> (ones (bits_ w) (Z.to_nat (size_ w)) <= fuel)%nat ->
  exists w', advance_loop fuel w = Ok w' /\ shape w' /\ size_ w' = size_ w /\ in_range 64 (base_seq_ w').
Proof.
  revert w. induction fuel as [|fuel IH]; intros w Hw Hb Ho; cbn [advance_loop]; rewrite test_spec by done; cbn [rbind];
    destruct (clear_total w (base_seq_ w) Hw) as (w1 & Hc & Hs1 & Hz1 & Hb1 & _ & Hone);
    (destruct (bitat _ _) eqn:Ht; [|by exists w]); specialize (Hone eq_refl); [lia|].
  rewrite Hc. cbn [rbind].
  destruct (IH (with_base w1 (u64 (base_seq_ w1 + 1)))) as (w' & -> & ? & Hz & ?).
  - destruct Hs1 as (k & ?). by exists k.
  - cbn. apply wrap_range. lia.
  - cbn. rewrite Hz1. lia.
  - exists w'. split_and!; try done. cbn in Hz. congruence.
Qed.

Lemma slide_total (fuel : nat) (w : Window) (nb : Z) :
  shape w -> in_range 64 (base_seq_ w) -> nb < 2 ^ 64 -> (Z.to_nat (nb - base_seq_ w) <= fuel)%nat ->
  exists w', slide_loop fuel w nb = Ok w' /\ shape w' /\ size_ w' = size_ w /\ in_range 64 (base_seq_ w').
Proof.
  revert w. induction fuel as [|fuel IH]; intros w Hw [Hb0 Hb1] Hn Hf; cbn [slide_loop];
    (destruct (Z.ltb_spec (base_seq_ w) nb) as [Hlt|]; [|exists w; unfold in_range; by split_and!]); [lia|].
  rewrite test_spec by done. cbn [rbind]. set (w1 := if negb _ then _ else w).
  assert (shape w1 /\ base_seq_ w1 = base_seq_ w /\ size_ w1 = size_ w) as (Hs1 & Eb & Ez) by (unfold w1; case_match; done).
  destruct (clear_total w1 (base_seq_ w1) Hs1) as (w2 & -> & Hs2 & Hz2 & Hb2 & _). cbn [rbind].
  destruct (IH (with_base w2 (u64 (base_seq_ w2 + 1)))) as (w' & -> & ? & Hz & ?).
  - destruct Hs2 as (k & ?). by exists k.
  - cbn. apply wrap_range. lia.
  - done.
  - cbn. rewrite wrap_small by (unfold in_range; lia). lia.
  - exists w'. split_and!; try done. cbn in Hz. congruence.
Qed.

Lemma observe_tail_total (w : Window) (seq : Z) (r0 : ObserveResult) :
  shape w -> in_range 64 (base_seq_ w) ->
  exists r w', observe_tail w seq r0 = Ok (r, w') /\ shape w' /\ size_ w' = size_ w /\ in_range 64 (base_seq_ w').
Proof.
  intros Hw Hb. unfold observe_tail. set (w1 := if _ <? _ then _ else w).
  assert (shape w1 /\ base_seq_ w1 = base_seq_ w /\ size_ w1 = size_ w) as (Hs1 & Eb & Ez) by (unfold w1; case_match; done).
  rewrite test_spec by done. cbn [rbind]. destruct (bitat _ _).
  { exists kDuplicate, (with_counters w1 (inc_duplicates (counters_ w1))). split_and!; try done. cbn. by rewrite Eb. }
  destruct (set_spec w1 seq Hs1) as (b & -> & Hl & _). cbn [rbind].
  set (w2 := with_counters _ _). assert (shape w2) as Hs2.
  { destruct Hs1 as (k & ? & ? & ? & ?). exists k. cbn. rewrite Hl. done. }
  unfold advance_contiguous. destruct (advance_total (Z.to_nat (size_ w2)) w2 Hs2) as (w3 & -> & ? & Hz & ?).
  - cbn. by rewrite Eb.
  - apply ones_le.
  - cbn [rbind]. exists r0, w3. split_and!; try done. cbn in Hz. congruence.
Qed.

Lemma observe_total (w : Window) (seq : Z) :
  shape w -> in_range 64 (base_seq_ w) -> in_range 64 seq ->
  exists r w', observe w seq = Ok (r, w') /\ shape w' /\ size_ w' = size_ w /\ in_range 64 (base_seq_ w').
Proof.
  intros Hw Hb Hq. unfold observe. set (w1 := observe_init w seq).
  assert (shape w1 /\ in_range 64 (base_seq_ w1) /\ size_ w1 = size_ w) as (Hs1 & Eb & Ez).
  { unfold w1, observe_init. destruct (initialized_ w); repeat case_match; done. }
  rewrite <- Ez. unfold observe_core. destruct (_ <? _).
  { exists kTooOld, (with_counters w1 (inc_too_old (counters_ w1))). by split_and!. }
  destruct (_ <=? _); [|by apply observe_tail_total].
  unfold slide_to. destruct (slide_total (Z.to_nat (u64 (seq - size_ w1 + 1) - base_seq_ w1)) w1 (u64 (seq - size_ w1 + 1)) Hs1 Eb)
    as (w2 & -> & Hs2 & Hz2 & Hb2); [apply wrap_range; lia | lia |]. cbn [rbind]. rewrite <- Hz2.
  apply (observe_tail_total (with_counters w2 (inc_slides (counters_ w2)))); done.
Qed.

(** Every operation returns, whatever the 64-bit sequence numbers are. *)
Lemma observe_all_total (seqs : list Z) (w : Window) :
  shape w -> in_range 64 (base_seq_ w) -> Forall (in_range 64) seqs ->
  exists rs w', observe_all w seqs = Ok (rs, w') /\ shape w' /\ size_ w' = size_ w /\ length rs = length seqs.
Proof.
  intros Hw Hb Hs. revert w Hw Hb. induction Hs as [|s seqs Hs _ IH]; intros w Hw Hb; cbn [observe_all].
  - by exists [], w.
  - destruct (observe_total w s Hw Hb Hs) as (r & w1 & -> & H1 & H2 & H3). cbn [rbind].
    destruct (IH w1 H1 H3) as (rs & w2 & -> & H4 & H5 & H6). cbn [rbind].
    exists (r :: rs), w2. split; [done|]. split; [done|]. split; [congruence|]. cbn. by rewrite H6.
Qed.

(** ** Properties *)

(** C11: Refinement: on every sequence of packets whose sequence numbers stay a
    window away from the end of the 64-bit space, a fresh window returns a
    result for each packet (no fault, all loops end), the results are those of
    the abstract contract [Spec], and the final window represents its state. *)
Theorem dedupe_refines_spec (sz s0 : Z) (seqs : list Z) (w0 : Window) :
  in_range 64 sz -> make sz = Some w0 -> Forall (ok_seq sz) (s0 :: seqs) ->
  exists rs w' st', observe_all w0 (s0 :: seqs) = Ok (rs, w') /\
    run sz (Spec.mkState ∅ s0 s0) (s0 :: seqs) rs st' /\ rep w' st'.
Proof. apply observe_all_fresh. Qed.

(** C27: No input makes the window fault or loop: for every sequence of 64-bit
    sequence numbers, however close to the wrap-around, each [observe] returns,
    no bitmap index is out of range and the window keeps its shape. *)
Theorem dedupe_never_faults (sz : Z) (seqs : list Z) (w0 : Window) :
  in_range 64 sz -> make sz = Some w0 -> Forall (in_range 64) seqs ->
  exists rs w', observe_all w0 seqs = Ok (rs, w') /\ shape w' /\ size_ w' = sz /\ length rs = length seqs.
Proof.
  intros Hsz Hm Hs. destruct (make_shape sz w0 Hsz Hm) as (Hw & _ & E).
  destruct (observe_all_total seqs w0 Hw) as (rs & w' & ? & ? & Hz & ?); [subst w0; unfold in_range; cbn; lia | done |].
  exists rs, w'. split_and!; try done. by subst w0.
Qed.

(** At most once: no sequence number is accepted twice in a run, and a packet is
    called a duplicate only if an earlier packet with its number was accepted. *)
Theorem dedupe_at_most_once (sz s0 : Z) (seqs : list Z) (w0 : Window) :
  in_range 64 sz -> make sz = Some w0 -> Forall (ok_seq sz) (s0 :: seqs) ->
  exists rs w', observe_all w0 (s0 :: seqs) = Ok (rs, w') /\
    (forall i j s ri rj, (i < j)%nat -> (s0 :: seqs) !! i = Some s -> (s0 :: seqs) !! j = Some s ->
       rs !! i = Some ri -> rs !! j = Some rj -> is_accept ri = true -> is_accept rj = false) /\
    (forall j s, (s0 :: seqs) !! j = Some s -> rs !! j = Some kDuplicate ->
       exists i ri, (i < j)%nat /\ (s0 :: seqs) !! i = Some s /\ rs !! i = Some ri /\ is_accept ri = true).
Proof.
  intros Hsz Hmk Hok. destruct (observe_all_fresh sz s0 seqs w0 Hsz Hmk Hok) as (rs & w' & st' & Ho & Hrun & _).
  exists rs, w'. split; [done|]. split; [exact (run_at_most_once _ _ _ _ _ Hrun)|].
  intros j s Hs Hr. destruct (run_duplicate_justified _ _ _ _ _ Hrun j s Hs Hr) as [Hin|?]; [|done].
  cbn in Hin. set_solver.
Qed.

(** C37: The telemetry counters are exact (modulo 2^64): [accepted] counts the
    accepted packets and [lost_confirmed] the sequence numbers between the first
    one seen and the base that were never accepted. *)
Theorem dedupe_counters_exact (sz s0 : Z) (seqs : list Z) (w0 : Window) :
  in_range 64 sz -> make sz = Some w0 -> Forall (ok_seq sz) (s0 :: seqs) ->
  exists rs w' st', observe_all w0 (s0 :: seqs) = Ok (rs, w') /\
    run sz (Spec.mkState ∅ s0 s0) (s0 :: seqs) rs st' /\
    accepted (counters_ w') = u64 (Z.of_nat (length (filter (fun r => is_accept r = true) rs))) /\
    lost_confirmed (counters_ w') =
      u64 (misses (Spec.seen st') s0 (Z.to_nat (base_seq_ w' - s0))).
Proof.
  intros Hsz Hmk Hok. destruct (observe_all_fresh sz s0 seqs w0 Hsz Hmk Hok) as (rs & w' & st' & Ho & Hrun & Hrep).
  exists rs, w', st'. destruct (run_count _ _ _ _ _ Hrun) as [Hc Hf]. cbn in Hc, Hf.
  split_and!; try done.
  - by rewrite (rep_accepted _ _ Hrep), Hc.
  - by rewrite (rep_lost _ _ Hrep), Hf, (rep_base _ _ Hrep).
Qed.

(** The cost of a slide is the size of the jump, whatever the window size: with
    any smaller number of iterations the loop of [slide_to] has not ended. *)
Theorem dedupe_slide_linear_in_jump (w : Window) (st : Spec.state) (n : nat) (nb : Z) :
  rep w st -> nb < 2 ^ 64 -> base_seq_ w + Z.of_nat n < nb -> slide_loop n w nb = Throw OutOfFuel.
Proof.
  intros Hrep Hnb Hlt. apply (slide_loop_linear (Spec.seen st)); try done; try apply Hrep.
  - rewrite (rep_base _ _ Hrep). pose proof (rep_first _ _ Hrep). lia.
  - intros x Hx. rewrite (rep_base _ _ Hrep). by apply (rep_seen _ _ Hrep).
Qed.

(** ** Witnesses: a 64-entry window on a short run with a gap, a duplicate, a
    slide and a late packet. *)
Definition demo_window : Window := mkWindow 64 63 [0] 0 false Counters_zero.
Definition demo_seqs : list Z := [3; 3; 66; 2].

Example demo_results :
  (let! x := observe_all demo_window (1 :: demo_seqs) in Ok (fst x)) =
  Ok [kAccept; kAccept; kDuplicate; kAdvanced; kTooOld].
Proof. vm_compute. reflexivity. Qed.

Lemma demo_ok : Forall (ok_seq 64) (1 :: demo_seqs).
Proof. repeat (constructor; [unfold ok_seq; lia|]). constructor. Defined.

Lemma dedupe_refines_spec_witness :
  exists rs w' st', observe_all demo_window (1 :: demo_seqs) = Ok (rs, w') /\
    run 64 (Spec.mkState ∅ 1 1) (1 :: demo_seqs) rs st' /\ rep w' st'.
Proof. apply dedupe_refines_spec; [done | reflexivity | apply demo_ok]. Defined.

Lemma dedupe_at_most_once_witness :
  exists rs w', observe_all demo_window (1 :: demo_seqs) = Ok (rs, w') /\
    (forall i j s ri rj, (i < j)%nat -> (1 :: demo_seqs) !! i = Some s -> (1 :: demo_seqs) !! j = Some s ->
       rs !! i = Some ri -> rs !! j = Some rj -> is_accept ri = true -> is_accept rj = false) /\
    (forall j s, (1 :: demo_seqs) !! j = Some s -> rs !! j = Some kDuplicate ->
       exists i ri, (i < j)%nat /\ (1 :: demo_seqs) !! i = Some s /\ rs !! i = Some ri /\ is_accept ri = true).
Proof. apply (dedupe_at_most_once 64); [done | reflexivity | apply demo_ok]. Defined.

Lemma dedupe_counters_exact_witness :
  exists rs w' st', observe_all demo_window (1 :: demo_seqs) = Ok (rs, w') /\
    run 64 (Spec.mkState ∅ 1 1) (1 :: demo_seqs) rs st' /\
    accepted (counters_ w') = u64 (Z.of_nat (length (filter (fun r => is_accept r = true) rs))) /\
    lost_confirmed (counters_ w') =
      u64 (misses (Spec.seen st') 1 (Z.to_nat (base_seq_ w' - 1))).
Proof. apply dedupe_counters_exact; [done | reflexivity | apply demo_ok]. Defined.

Lemma dedupe_slide_linear_in_jump_witness :
  slide_loop 1000 (observe_init demo_window 1) (2 ^ 63) = Throw OutOfFuel.
Proof.
  apply (dedupe_slide_linear_in_jump _ (Spec.mkState ∅ 1 1)); [|done|vm_compute; reflexivity].
  apply (fresh_observe_init 64 demo_window 1); [done | unfold ok_seq; lia | reflexivity].
Defined.

Lemma dedupe_never_faults_witness :
  exists rs w', observe_all demo_window [2 ^ 64 - 1; 0; 5] = Ok (rs, w') /\ shape w' /\ size_ w' = 64 /\ length rs = 3%nat.
Proof. apply (dedupe_never_faults 64); [done | reflexivity | repeat constructor; unfold in_range; lia]. Defined.
