(* ===== verification/GF256.v ===== *)
(** * Arithmetic of GF(256): [fec::mul], [fec::inverse], [fec::coefficient]
    of [harness/include/fec.h]

    Bytes with exclusive or and [mul] form a field (the reduction polynomial is
    0x11d); it is registered with the [ring] and [field] tactics. *)
From S2P Require Import Prelude.
From Stdlib Require Import Ring Field.
From Stdlib Require Strings.Byte.

Definition b0 : byte := Corelib.Init.Byte.x00.
Definition b1 : byte := Corelib.Init.Byte.x01.

(** [a ^ b] on [uint8_t]. *)
Definition bxor (a b : byte) : byte := z2b (Z.lxor (b2z a) (b2z b)).

(** One iteration of the loop of [mul]: [a <<= 1; if(high) a ^= 0x1d]. *)
Definition xtime (a : Z) : Z :=
  let high := Z.land a 128 in
  let a := u8 (Z.shiftl a 1) in
  if high =? 0 then a else Z.lxor a 0x1d.

(** [while(b)]: [b] loses a bit per iteration, so 8 iterations end the loop. *)
Fixpoint mul_loop (fuel : nat) (out a b : Z) : Z :=
  if b =? 0 then out
  else match fuel with
  | O => out
  | S f =>
    let out := if Z.land b 1 =? 0 then out else Z.lxor out a in
    mul_loop f out (xtime a) (Z.shiftr b 1)
  end.
Definition mul (a b : byte) : byte := z2b (mul_loop 8 0 (b2z a) (b2z b)).

(** [for(int n=254;n;n>>=1,a=mul(a,a)) if(n&1) out=mul(out,a)]. *)
Fixpoint inverse_loop (fuel : nat) (n : Z) (out a : byte) : byte :=
  if n =? 0 then out
  else match fuel with
  | O => out
  | S f =>
    let out := if Z.land n 1 =? 0 then out else mul out a in
    inverse_loop f (Z.shiftr n 1) out (mul a a)
  end.
Definition inv (a : byte) : byte := inverse_loop 8 254 b1 a.
Definition inverse (a : byte) : res byte :=
  if b2z a =? 0 then Throw InvalidArgument else Ok (inv a).

Definition coefficient (row col : Z) : res byte :=
  let! i := inverse (z2b (Z.lxor col (128 + row))) in
  Ok (mul (z2b (Z.lxor col 128)) i).

Definition byte_eqb (a b : byte) : bool := Byte.eqb a b.
Lemma byte_eqb_eq (a b : byte) : byte_eqb a b = true <-> a = b.
Proof.
  unfold byte_eqb. split.
  - apply Byte.byte_dec_bl.
  - apply Byte.byte_dec_lb.
Qed.

(** ** Exclusive or *)
Lemma lxor_mod (a b k : Z) : 0 <= k -> Z.lxor a b mod 2 ^ k = Z.lxor (a mod 2 ^ k) (b mod 2 ^ k).
Proof.
  intros Hk. rewrite <- !Z.land_ones by done. apply Z.bits_inj'. intros n Hn.
  rewrite !Z.land_spec, !Z.lxor_spec, !Z.land_spec. by destruct (Z.testbit a n), (Z.testbit b n), (Z.testbit (Z.ones k) n).
Qed.

Lemma lxor_range (a b : Z) : in_range 8 a -> in_range 8 b -> in_range 8 (Z.lxor a b).
Proof.
  unfold in_range. intros Ha Hb. rewrite <- (Z.mod_small a (2 ^ 8)), <- (Z.mod_small b (2 ^ 8)) by done.
  rewrite <- lxor_mod by done. apply Z.mod_pos_bound. done.
Qed.

Lemma b2z_bxor (a b : byte) : b2z (bxor a b) = Z.lxor (b2z a) (b2z b).
Proof. unfold bxor. apply b2z_z2b_small, lxor_range; apply b2z_range. Qed.

Lemma bxor_comm (a b : byte) : bxor a b = bxor b a.
Proof. unfold bxor. by rewrite Z.lxor_comm. Qed.
Lemma bxor_assoc (a b c : byte) : bxor a (bxor b c) = bxor (bxor a b) c.
Proof. apply b2z_inj. by rewrite !b2z_bxor, Z.lxor_assoc. Qed.
Lemma bxor_0_l (a : byte) : bxor b0 a = a.
Proof. apply b2z_inj. rewrite b2z_bxor. apply Z.lxor_0_l. Qed.
Lemma bxor_nilpotent (a : byte) : bxor a a = b0.
Proof. apply b2z_inj. rewrite b2z_bxor. apply Z.lxor_nilpotent. Qed.
Lemma bxor_0_r (a : byte) : bxor a b0 = a.
Proof. by rewrite bxor_comm, bxor_0_l. Qed.
Lemma z2b_lxor (a b : Z) : z2b (Z.lxor a b) = bxor (z2b a) (z2b b).
Proof. apply b2z_inj. rewrite b2z_bxor, !b2z_z2b. change 256 with (2 ^ 8). by rewrite lxor_mod. Qed.
Lemma lxor_swap (a b c d : Z) :
  Z.lxor (Z.lxor a b) (Z.lxor c d) = Z.lxor (Z.lxor a c) (Z.lxor b d).
Proof. rewrite !Z.lxor_assoc. f_equal. rewrite <- !Z.lxor_assoc. f_equal. apply Z.lxor_comm. Qed.

(** ** [mul] is bilinear *)
Lemma land_pow2_eqb (a k : Z) : 0 <= k -> (Z.land a (2 ^ k) =? 0) = negb (Z.testbit a k).
Proof.
  intros Hk. destruct (Z.testbit a k) eqn:E.
  - apply Z.eqb_neq. intros H0. apply (f_equal (fun z => Z.testbit z k)) in H0.
    rewrite Z.land_spec, E, Z.pow2_bits_true, Z.bits_0 in H0 by done. discriminate.
  - apply Z.eqb_eq, Z.bits_inj'. intros n Hn. rewrite Z.land_spec, Z.pow2_bits_eqb, Z.bits_0 by done.
    destruct (Z.eqb_spec k n); [subst; by rewrite E | by rewrite andb_false_r].
Qed.

Lemma xtime_lxor (a b : Z) : xtime (Z.lxor a b) = Z.lxor (xtime a) (xtime b).
Proof.
  unfold xtime. rewrite !(land_pow2_eqb _ 7) by lia. rewrite Z.lxor_spec.
  unfold wrap. rewrite Z.shiftl_lxor, lxor_mod by lia.
  set (x := Z.shiftl a 1 mod 2 ^ 8). set (y := Z.shiftl b 1 mod 2 ^ 8).
  destruct (Z.testbit a 7), (Z.testbit b 7); cbn [negb xorb].
  - by rewrite lxor_swap, Z.lxor_nilpotent, Z.lxor_0_r.
  - by rewrite !Z.lxor_assoc, (Z.lxor_comm y).
  - by rewrite Z.lxor_assoc.
  - done.
Qed.

(** The product as the sum of the shifted copies of [a] selected by [b]. *)
Fixpoint msum (f : nat) (a b : Z) : Z :=
  match f with
  | O => 0
  | S f => Z.lxor (if Z.testbit b 0 then a else 0) (msum f (xtime a) (Z.shiftr b 1))
  end.

Lemma msum_0_r (f : nat) (a : Z) : msum f a 0 = 0.
Proof. revert a. induction f; intros a; cbn; [done|]. rewrite IHf. done. Qed.

Lemma mul_loop_msum (f : nat) (out a b : Z) :
  0 <= b < 2 ^ Z.of_nat f -> mul_loop f out a b = Z.lxor out (msum f a b).
Proof.
  revert out a b. induction f as [|f IH]; intros out a b Hb.
  - assert (b = 0) as -> by (cbn in Hb; lia). cbn. by rewrite Z.lxor_0_r.
  - cbn [mul_loop]. destruct (Z.eqb_spec b 0) as [->|Hn]; [by rewrite msum_0_r, Z.lxor_0_r|].
    rewrite IH.
    + cbn [msum]. rewrite (land_pow2_eqb b 0 ltac:(lia) : (Z.land b 1 =? 0) = _). destruct (Z.testbit b 0); cbn [negb].
      * by rewrite Z.lxor_assoc.
      * by rewrite Z.lxor_0_l.
    + rewrite Z.shiftr_div_pow2 by lia. change (2 ^ 1) with 2. rewrite Nat2Z.inj_succ, Z.pow_succ_r in Hb by lia.
      split; [apply Z.div_pos; lia | apply Z.div_lt_upper_bound; lia].
Qed.

Lemma msum_lxor_l (f : nat) (a a' b : Z) : msum f (Z.lxor a a') b = Z.lxor (msum f a b) (msum f a' b).
Proof.
  revert a a' b. induction f as [|f IH]; intros a a' b; cbn [msum]; [done|].
  rewrite xtime_lxor, IH, lxor_swap. f_equal. by destruct (Z.testbit b 0).
Qed.

Lemma msum_lxor_r (f : nat) (a b b' : Z) : msum f a (Z.lxor b b') = Z.lxor (msum f a b) (msum f a b').
Proof.
  revert a b b'. induction f as [|f IH]; intros a b b'; cbn [msum]; [done|].
  rewrite Z.shiftr_lxor, IH, lxor_swap. f_equal. rewrite Z.lxor_spec.
  destruct (Z.testbit b 0), (Z.testbit b' 0); cbn [xorb];
    by rewrite ?Z.lxor_nilpotent, ?Z.lxor_0_l, ?Z.lxor_0_r.
Qed.

Lemma mul_msum (a b : byte) : mul a b = z2b (msum 8 (b2z a) (b2z b)).
Proof. unfold mul. rewrite mul_loop_msum by apply b2z_range. by rewrite Z.lxor_0_l. Qed.

Lemma mul_bxor_l (a a' b : byte) : mul (bxor a a') b = bxor (mul a b) (mul a' b).
Proof. by rewrite !mul_msum, b2z_bxor, msum_lxor_l, z2b_lxor. Qed.
Lemma mul_bxor_r (a b b' : byte) : mul a (bxor b b') = bxor (mul a b) (mul a b').
Proof. by rewrite !mul_msum, b2z_bxor, msum_lxor_r, z2b_lxor. Qed.
Lemma mul_0_r (a : byte) : mul a b0 = b0.
Proof. rewrite mul_msum. by rewrite msum_0_r. Qed.
Lemma mul_0_l (a : byte) : mul b0 a = b0.
Proof. rewrite <- (bxor_nilpotent b0) at 1. rewrite mul_bxor_l. apply bxor_nilpotent. Qed.

(** More iterations than the bits of [b] change nothing: the loop of [mul] ends
    by itself. *)
Lemma mul_loop_ends (f : nat) (out a b : Z) :
  in_range 8 b -> (8 <= f)%nat -> mul_loop f out a b = mul_loop 8 out a b.
Proof.
  intros Hb Hf. assert (2 ^ 8 <= 2 ^ Z.of_nat f) by (apply Z.pow_le_mono_r; lia). unfold in_range in Hb.
  rewrite !mul_loop_msum by (lia || done). f_equal. clear out.
  assert (forall g a b, 0 <= b < 2 ^ Z.of_nat g -> forall h, (g <= h)%nat -> msum h a b = msum g a b) as Hstable.
  { clear. induction g as [|g IH]; intros a b Hb h Hh.
    - assert (b = 0) as -> by (cbn in Hb; lia). by rewrite !msum_0_r.
    - destruct h as [|h]; [lia|]. cbn [msum]. f_equal. apply IH; [|lia].
      rewrite Z.shiftr_div_pow2 by lia. change (2 ^ 1) with 2. rewrite Nat2Z.inj_succ, Z.pow_succ_r in Hb by lia.
      split; [apply Z.div_pos; lia | apply Z.div_lt_upper_bound; lia]. }
  apply Hstable; [done|lia].
Qed.

(** ** Induction over the basis 1, x, .., x^7 *)
Definition basis : list byte := map (fun i => z2b (2 ^ Z.of_nat i)) (List.seq 0 8).

Lemma byte_basis_sum (b : byte) :
  b = fold_right bxor b0 (map (fun i => if Z.testbit (b2z b) (Z.of_nat i) then z2b (2 ^ Z.of_nat i) else b0)
                              (List.seq 0 8)).
Proof.
  symmetry. apply byte_eqb_eq. revert b. apply (forall_byte (fun b => byte_eqb (fold_right bxor b0
    (map (fun i => if Z.testbit (b2z b) (Z.of_nat i) then z2b (2 ^ Z.of_nat i) else b0) (List.seq 0 8))) b)).
  vm_compute. reflexivity.
Qed.

Lemma byte_linear_ind (P : byte -> Prop) :
  P b0 -> Forall P basis -> (forall a b, P a -> P b -> P (bxor a b)) -> forall b, P b.
Proof.
  intros H0 Hb Hx b. rewrite (byte_basis_sum b). unfold basis in Hb.
  generalize (List.seq 0 8) Hb. induction l as [|i l IH]; intros Hl; cbn; [done|].
  inversion Hl; subst. apply Hx; [by destruct (Z.testbit _ _)|by apply IH].
Qed.

Lemma forall_basis (P : byte -> Prop) (p : byte -> bool) :
  (forall b, p b = true -> P b) -> forallb p basis = true -> Forall P basis.
Proof. intros Hp H. apply Forall_forall. intros b Hb. apply Hp. rewrite forallb_forall in H. apply H. by apply list_elem_of_In. Qed.

(** A bilinear law holds everywhere if it holds on the basis. *)
Lemma mul_comm (a b : byte) : mul a b = mul b a.
Proof.
  revert b. apply byte_linear_ind.
  - by rewrite mul_0_l, mul_0_r.
  - revert a. apply (byte_linear_ind (fun a => Forall (fun b => mul a b = mul b a) basis)).
    + apply Forall_forall. intros. by rewrite mul_0_l, mul_0_r.
    + apply (forall_basis _ (fun a => forallb (fun b => byte_eqb (mul a b) (mul b a)) basis)); [|vm_compute; reflexivity].
      intros a. apply forall_basis. intros b. apply byte_eqb_eq.
    + intros a a' Ha Ha'. rewrite Forall_forall in *. intros b Hb. by rewrite mul_bxor_l, mul_bxor_r, Ha, Ha'.
  - intros b b' Hb Hb'. by rewrite mul_bxor_l, mul_bxor_r, Hb, Hb'.
Qed.

Lemma mul_assoc_basis : Forall (fun c => Forall (fun b => Forall (fun a =>
  mul a (mul b c) = mul (mul a b) c) basis) basis) basis.
Proof.
  apply (forall_basis _ (fun c => forallb (fun b => forallb (fun a =>
    byte_eqb (mul a (mul b c)) (mul (mul a b) c)) basis) basis)); [|vm_compute; reflexivity].
  intros c. apply forall_basis. intros b. apply forall_basis. intros a. apply byte_eqb_eq.
Qed.

Lemma mul_assoc (a b c : byte) : mul a (mul b c) = mul (mul a b) c.
Proof.
  revert c. apply byte_linear_ind.
  - by rewrite !mul_0_r.
  - pose proof mul_assoc_basis as Hbas. rewrite Forall_forall in Hbas |- *. intros c Hc.
    specialize (Hbas c Hc). cbn in Hbas. revert b. apply byte_linear_ind.
    + by rewrite mul_0_l, !mul_0_r, mul_0_l.
    + rewrite Forall_forall in Hbas |- *. intros b Hb. specialize (Hbas b Hb). cbn in Hbas.
      revert a. apply byte_linear_ind; [by rewrite !mul_0_l | done |].
      intros a a' Ha Ha'. by rewrite !mul_bxor_l, Ha, Ha'.
    + intros b b' Hb Hb'. by rewrite mul_bxor_l, !mul_bxor_r, mul_bxor_l, Hb, Hb'.
  - intros c c' Hc Hc'. by rewrite !mul_bxor_r, Hc, Hc'.
Qed.

Lemma mul_1_l (a : byte) : mul b1 a = a.
Proof.
  apply byte_eqb_eq. revert a. apply (forall_byte (fun a => byte_eqb (mul b1 a) a)). vm_compute. reflexivity.
Qed.

Lemma inv_correct (a : byte) : a <> b0 -> mul (inv a) a = b1.
Proof.
  intros Ha. assert (byte_eqb a b0 || byte_eqb (mul (inv a) a) b1 = true) as H.
  { revert a Ha. intros a _. revert a.
    apply (forall_byte (fun a => byte_eqb a b0 || byte_eqb (mul (inv a) a) b1)). vm_compute. reflexivity. }
  apply orb_true_iff in H as [H|H]; apply byte_eqb_eq in H; [contradiction|done].
Qed.

#[global] Arguments mul : simpl never.
#[global] Arguments inv : simpl never.
#[global] Arguments bxor : simpl never.
#[global] Opaque mul inv bxor.

(** ** The field *)
Definition bdiv (a b : byte) : byte := mul a (inv b).
Definition bopp (a : byte) : byte := a.

Lemma gf_ring : ring_theory b0 b1 bxor mul bxor bopp eq.
Proof.
  constructor; intros; unfold bopp; auto using bxor_0_l, bxor_comm, bxor_assoc, mul_1_l, mul_comm, mul_assoc, mul_bxor_l, bxor_nilpotent.
Qed.

Lemma gf_field : field_theory b0 b1 bxor mul bxor bopp bdiv inv eq.
Proof. constructor; [apply gf_ring | done | done | apply inv_correct]. Qed.

(** Coefficients are taken in Z/2, so that [ring] and [field] know [a + a = 0]. *)
Definition of_bit (b : bool) : byte := if b then b1 else b0.

Lemma gf_morph : ring_morph b0 b1 bxor mul bxor bopp eq false true xorb andb xorb (fun b => b) eqb of_bit.
Proof.
  constructor; try done.
  - intros [] []; reflexivity.
  - intros [] []; reflexivity.
  - intros [] []; reflexivity.
  - intros [] [] H; done.
Qed.

Ltac bit_cst t :=
  match t with
  | b0 => constr:(false)
  | b1 => constr:(true)
  | _ => constr:(InitialRing.NotConstant)
  end.
Add Field gf_field_tac : gf_field (morphism gf_morph, constants [bit_cst]).

Lemma mul_integral (a b : byte) : mul a b = b0 -> a = b0 \/ b = b0.
Proof.
  intros H. destruct (decide (a = b0)) as [|Ha]; [auto|right].
  rewrite <- (mul_1_l b), <- (inv_correct a Ha), <- mul_assoc, H. apply mul_0_r.
Qed.

Lemma bxor_eq_0 (a b : byte) : bxor a b = b0 -> a = b.
Proof. intros H. rewrite <- (bxor_0_r a), <- (bxor_nilpotent b), bxor_assoc, H. apply bxor_0_l. Qed.

(** ** The Cauchy coefficients *)
Definition coef (row col : Z) : byte :=
  mul (z2b (Z.lxor col 128)) (inv (z2b (Z.lxor col (128 + row)))).

(** The two families of points: [x_row] has its top bit set, [y_col] has not. *)
Definition xpt (row : Z) : byte := z2b (128 + row).
Definition ypt (col : Z) : byte := z2b col.

Lemma xy_distinct (row col : Z) : 0 <= row < 128 -> 0 <= col < 128 -> bxor (ypt col) (xpt row) <> b0.
Proof.
  intros Hr Hc H. apply bxor_eq_0, (f_equal b2z) in H. unfold ypt, xpt in H.
  rewrite !b2z_z2b_small in H by lia. lia.
Qed.

Lemma xpt_inj (r s : Z) : 0 <= r < 128 -> 0 <= s < 128 -> xpt r = xpt s -> r = s.
Proof. intros Hr Hs H. apply (f_equal b2z) in H. unfold xpt in H. rewrite !b2z_z2b_small in H by lia. lia. Qed.

Lemma ypt_inj (c d : Z) : 0 <= c < 128 -> 0 <= d < 128 -> ypt c = ypt d -> c = d.
Proof. intros Hr Hs H. apply (f_equal b2z) in H. unfold ypt in H. rewrite !b2z_z2b_small in H by lia. lia. Qed.

Lemma coef_cauchy (row col : Z) :
  coef row col = bdiv (bxor (ypt col) (xpt 0)) (bxor (ypt col) (xpt row)).
Proof. unfold coef, bdiv. by rewrite !z2b_lxor. Qed.

Lemma coefficient_ok (row col : Z) :
  0 <= row < 128 -> 0 <= col < 128 -> coefficient row col = Ok (coef row col).
Proof.
  intros Hr Hc. unfold coefficient, inverse. destruct (Z.eqb_spec (b2z (z2b (Z.lxor col (128 + row)))) 0) as [E|E]; [|unfold coef; reflexivity].
  exfalso. apply (xy_distinct row col Hr Hc). apply b2z_inj. unfold ypt, xpt. by rewrite <- z2b_lxor.
Qed.

(** The first parity row is plain exclusive or. *)
Lemma coef_row0 (col : Z) : 0 <= col < 128 -> coef 0 col = b1.
Proof.
  intros Hc. rewrite coef_cauchy. unfold bdiv. rewrite mul_comm. apply inv_correct. apply xy_distinct; lia.
Qed.

(** ** Reference multiplication: polynomials over GF(2) modulo x^8+x^4+x^3+x^2+1 *)
Fixpoint clmul (n : nat) (a b : Z) : Z :=
  match n with
  | O => 0
  | S m => Z.lxor (clmul m a b) (if Z.testbit b (Z.of_nat m) then Z.shiftl a (Z.of_nat m) else 0)
  end.
Fixpoint preduce (n : nat) (z : Z) : Z :=
  match n with
  | O => z
  | S m => preduce m (if Z.testbit z (8 + Z.of_nat m) then Z.lxor z (Z.shiftl 0x11d (Z.of_nat m)) else z)
  end.
Definition poly_mul (a b : byte) : byte := z2b (preduce 7 (clmul 8 (b2z a) (b2z b))).

Lemma clmul_lxor_l (n : nat) (a a' b : Z) : clmul n (Z.lxor a a') b = Z.lxor (clmul n a b) (clmul n a' b).
Proof.
  induction n as [|n IH]; cbn [clmul]; [done|]. rewrite IH, lxor_swap. f_equal.
  destruct (Z.testbit b _); [apply Z.shiftl_lxor|done].
Qed.
Lemma clmul_lxor_r (n : nat) (a b b' : Z) : clmul n a (Z.lxor b b') = Z.lxor (clmul n a b) (clmul n a b').
Proof.
  induction n as [|n IH]; cbn [clmul]; [done|]. rewrite IH, lxor_swap. f_equal. rewrite Z.lxor_spec.
  destruct (Z.testbit b _), (Z.testbit b' _); cbn [xorb];
    by rewrite ?Z.lxor_nilpotent, ?Z.lxor_0_l, ?Z.lxor_0_r.
Qed.
Lemma preduce_lxor (n : nat) (y z : Z) : preduce n (Z.lxor y z) = Z.lxor (preduce n y) (preduce n z).
Proof.
  revert y z. induction n as [|n IH]; intros y z; cbn [preduce]; [done|]. rewrite <- IH. f_equal.
  rewrite Z.lxor_spec. set (c := Z.shiftl _ _).
  destruct (Z.testbit y _), (Z.testbit z _); cbn [xorb].
  - by rewrite lxor_swap, Z.lxor_nilpotent, Z.lxor_0_r.
  - by rewrite !Z.lxor_assoc, (Z.lxor_comm z).
  - by rewrite Z.lxor_assoc.
  - done.
Qed.

Lemma poly_mul_l (a a' b : byte) : poly_mul (bxor a a') b = bxor (poly_mul a b) (poly_mul a' b).
Proof. unfold poly_mul. by rewrite b2z_bxor, clmul_lxor_l, preduce_lxor, z2b_lxor. Qed.
Lemma poly_mul_r (a b b' : byte) : poly_mul a (bxor b b') = bxor (poly_mul a b) (poly_mul a b').
Proof. unfold poly_mul. by rewrite b2z_bxor, clmul_lxor_r, preduce_lxor, z2b_lxor. Qed.

(** ** Properties *)

(** [mul] is multiplication of polynomials over GF(2) reduced modulo 0x11d, and
    its loop ends within the 8 bits of the second factor. *)
Theorem mul_is_polynomial_product (a b : byte) :
  mul a b = poly_mul a b /\
  forall f, (8 <= f)%nat -> mul_loop f 0 (b2z a) (b2z b) = mul_loop 8 0 (b2z a) (b2z b).
Proof.
  split; [|intros; apply mul_loop_ends; [apply b2z_range|done]].
  revert b. apply byte_linear_ind.
  - rewrite <- (bxor_nilpotent b0), mul_bxor_r, poly_mul_r. by rewrite !bxor_nilpotent.
  - revert a. apply (byte_linear_ind (fun a => Forall (fun b => mul a b = poly_mul a b) basis)).
    + apply Forall_forall. intros b _. rewrite <- (bxor_nilpotent b0), mul_bxor_l, poly_mul_l. by rewrite !bxor_nilpotent.
    + apply (forall_basis _ (fun a => forallb (fun b => byte_eqb (mul a b) (poly_mul a b)) basis)); [|vm_compute; reflexivity].
      intros a. apply forall_basis. intros b. apply byte_eqb_eq.
    + intros a a' Ha Ha'. rewrite Forall_forall in *. intros b Hb. by rewrite mul_bxor_l, poly_mul_l, Ha, Ha'.
  - intros b b' Hb Hb'. by rewrite mul_bxor_r, poly_mul_r, Hb, Hb'.
Qed.

(** C31: Bytes with exclusive or and [mul] form a field, in which [inverse] computes
    the multiplicative inverse and throws on zero only. *)
Theorem gf256_is_a_field :
  field_theory b0 b1 bxor mul bxor bopp bdiv inv eq /\
  (forall a, inverse a = Throw InvalidArgument <-> a = b0) /\
  (forall a, a <> b0 -> inverse a = Ok (inv a) /\ mul a (inv a) = b1).
Proof.
  assert (forall a, b2z a = 0 <-> a = b0) as Hz.
  { intros a. split; [|intros ->; reflexivity]. intros H. by apply b2z_inj. }
  split; [exact gf_field|]. unfold inverse. split.
  - intros a. rewrite <- Hz. destruct (Z.eqb_spec (b2z a) 0); split; congruence.
  - intros a Ha. rewrite mul_comm, inv_correct by assumption. rewrite <- Hz in Ha.
    destruct (Z.eqb_spec (b2z a) 0); [contradiction|split; reflexivity].
Qed.
