(* ===== verification/Gauss.v ===== *)
(** * Elimination over GF(256): the solver inside [fec::Decoder::try_recover]
    of [harness/include/fec.h]

    The Gauss-Jordan loop as the decoder runs it (in place, on vectors of rows,
    every index checked), and the proof that it recovers the unknowns of any
    system whose matrix has a trivial kernel; Cauchy matrices have one. *)
From S2P Require Import Prelude GF256.
From Stdlib Require Import Ring Field.

(** [for j < n: dst[j] ^= mul(f, src[j])]. *)
Fixpoint xor_scaled (n : nat) (f : byte) (dst src : bytes) : res bytes :=
  match n with
  | O => Ok dst
  | S m =>
    match dst, src with
    | d :: dst', s :: src' => let! tl := xor_scaled m f dst' src' in Ok (bxor d (mul f s) :: tl)
    | _, _ => Throw OutOfBounds
    end
  end.

Abbreviation system := (list bytes * list bytes)%type.

(** [while(pivot<missing && !matrix[pivot][c]) ++pivot]. *)
Fixpoint find_pivot (fuel : nat) (matrix : list bytes) (missing c pivot : nat) : res nat :=
  if (pivot <? missing)%nat then
    match fuel with
    | O => Throw OutOfFuel
    | S f =>
      let! row := vget matrix pivot in
      let! x := vget row c in
      if byte_eqb x b0 then find_pivot f matrix missing c (S pivot) else Ok pivot
    end
  else Ok pivot.

Definition vswap {A} (v : list A) (i j : nat) : res (list A) :=
  let! a := vget v i in
  let! b := vget v j in
  let! v := vset v i b in
  vset v j a.

Definition scale_row (m : list bytes) (c : nat) (scale : byte) : res (list bytes) :=
  let! row := vget m c in
  vset m c (map (fun x => mul x scale) row).

(** The body of the inner loop over [r]. *)
Definition eliminate_row (missing width c r : nat) (st : system) : res system :=
  let '(matrix, rhs) := st in
  if (r =? c)%nat then Ok st
  else
    let! mr := vget matrix r in
    let! factor := vget mr c in
    let! mc := vget matrix c in
    let! mr' := xor_scaled missing factor mr mc in
    let! matrix := vset matrix r mr' in
    let! rr := vget rhs r in
    let! rc := vget rhs c in
    let! rr' := xor_scaled width factor rr rc in
    let! rhs := vset rhs r rr' in
    Ok (matrix, rhs).

(** One column; [None] is the early [return false] when no pivot exists. *)
Definition gauss_column (missing width c : nat) (st : system) : res (option system) :=
  let '(matrix, rhs) := st in
  let! pivot := find_pivot missing matrix missing c c in
  if (pivot =? missing)%nat then Ok None
  else
    let! matrix := vswap matrix pivot c in
    let! rhs := vswap rhs pivot c in
    let! row := vget matrix c in
    let! x := vget row c in
    let! scale := inverse x in
    let! matrix := scale_row matrix c scale in
    let! rhs := scale_row rhs c scale in
    let! st := forM (List.seq 0 missing) (eliminate_row missing width c) (matrix, rhs) in
    Ok (Some st).

Fixpoint gauss_loop (missing width : nat) (cs : list nat) (st : system) : res (option system) :=
  match cs with
  | [] => Ok (Some st)
  | c :: cs' =>
    let! o := gauss_column missing width c st in
    match o with None => Ok None | Some st' => gauss_loop missing width cs' st' end
  end.
Definition gauss (missing width : nat) (matrix rhs : list bytes) : res (option system) :=
  gauss_loop missing width (List.seq 0 missing) (matrix, rhs).

(** ** Sums over GF(256) *)

(** Closes goals that follow from a hypothesis quantified over an index range. *)
Ltac by_idx := intros; first [lia | assumption | match goal with H : forall _, _ |- _ => solve [apply H; by_idx] end | split; by_idx].

Fixpoint bsum (f : nat -> byte) (n : nat) : byte :=
  match n with O => b0 | S m => bxor (bsum f m) (f m) end.

Lemma bsum_ext (f g : nat -> byte) (n : nat) :
  (forall k, (k < n)%nat -> f k = g k) -> bsum f n = bsum g n.
Proof. induction n as [|n IH]; intros H; cbn; [done|]. rewrite IH, H by by_idx. done. Qed.

Lemma bsum_xor (f g : nat -> byte) (n : nat) :
  bsum (fun k => bxor (f k) (g k)) n = bxor (bsum f n) (bsum g n).
Proof. induction n as [|n IH]; cbn; [by rewrite bxor_0_l|]. rewrite IH. ring. Qed.

Lemma bsum_scale (f : nat -> byte) (a : byte) (n : nat) :
  bsum (fun k => mul a (f k)) n = mul a (bsum f n).
Proof. induction n as [|n IH]; cbn; [by rewrite mul_0_r|]. rewrite IH. ring. Qed.

Lemma bsum_zero (f : nat -> byte) (n : nat) : (forall k, (k < n)%nat -> f k = b0) -> bsum f n = b0.
Proof. induction n as [|n IH]; intros H; cbn; [done|]. rewrite IH, H by by_idx. apply bxor_0_l. Qed.

(** A sum with a single nonzero term. *)
Lemma bsum_single (f : nat -> byte) (n i : nat) :
  (i < n)%nat -> (forall k, (k < n)%nat -> k <> i -> f k = b0) -> bsum f n = f i.
Proof.
  induction n as [|n IH]; intros Hi H; [lia|]. cbn. destruct (Nat.eq_dec i n) as [->|].
  - rewrite bsum_zero by (intros; apply H; lia). apply bxor_0_l.
  - rewrite IH by by_idx. rewrite (H n) by lia. apply bxor_0_r.
Qed.

(** ** Cauchy matrices have a trivial kernel *)
Section Cauchy.
Variables (x y : nat -> byte).

Lemma cauchy_step (n : nat) (v : nat -> byte) (r : nat) :
  (forall c, (c < S n)%nat -> bxor (x r) (y c) <> b0 /\ bxor (x n) (y c) <> b0) ->
  bsum (fun c => bdiv (v c) (bxor (x r) (y c))) (S n) = b0 ->
  bsum (fun c => bdiv (v c) (bxor (x n) (y c))) (S n) = b0 ->
  mul (bxor (x r) (x n))
      (bsum (fun c => bdiv (mul (v c) (bdiv (bxor (y n) (y c)) (bxor (x n) (y c)))) (bxor (x r) (y c))) n) = b0.
Proof.
  intros Hne Er En. cbn in Er, En.
  transitivity (bxor (mul (bxor (x r) (y n)) (bxor (bsum (fun c => bdiv (v c) (bxor (x r) (y c))) n) (bdiv (v n) (bxor (x r) (y n)))))
                     (mul (bxor (x n) (y n)) (bxor (bsum (fun c => bdiv (v c) (bxor (x n) (y c))) n) (bdiv (v n) (bxor (x n) (y n)))))).
  - destruct (Hne n) as [H1 H2]; [lia|].
    transitivity (bxor (mul (bxor (x r) (y n)) (bsum (fun c => bdiv (v c) (bxor (x r) (y c))) n))
                       (mul (bxor (x n) (y n)) (bsum (fun c => bdiv (v c) (bxor (x n) (y c))) n))).
    + rewrite <- !bsum_scale, <- bsum_xor. apply bsum_ext. intros c Hc.
      destruct (Hne c) as [H3 H4]; [lia|]. field. done.
    + field. done.
  - rewrite Er, En. ring.
Qed.

Lemma cauchy_kernel (n : nat) (v : nat -> byte) :
  (forall r s, (r < n)%nat -> (s < n)%nat -> x r = x s -> r = s) ->
  (forall c d, (c < n)%nat -> (d < n)%nat -> y c = y d -> c = d) ->
  (forall r c, (r < n)%nat -> (c < n)%nat -> bxor (x r) (y c) <> b0) ->
  (forall r, (r < n)%nat -> bsum (fun c => bdiv (v c) (bxor (x r) (y c))) n = b0) ->
  forall c, (c < n)%nat -> v c = b0.
Proof.
  revert v. induction n as [|n IH]; intros v Hx Hy Hne Hs c Hc; [lia|].
  assert (forall c, (c < n)%nat -> v c = b0) as Hlow.
  { intros d Hd. pose proof (IH (fun c => mul (v c) (bdiv (bxor (y n) (y c)) (bxor (x n) (y c))))) as IHv.
    specialize (IHv ltac:(by_idx) ltac:(by_idx) ltac:(by_idx)).
    assert (mul (v d) (bdiv (bxor (y n) (y d)) (bxor (x n) (y d))) = b0) as Hw.
    { apply IHv; [|done]. intros r Hr.
      assert (bxor (x r) (x n) <> b0) as Hxr by (intros E; apply bxor_eq_0, Hx in E; lia).
      destruct (mul_integral _ _ (cauchy_step n v r ltac:(by_idx) ltac:(by_idx) ltac:(by_idx))); done. }
    apply mul_integral in Hw as [Hw|Hw]; [done|exfalso]. unfold bdiv in Hw.
    apply mul_integral in Hw as [Hw|Hw]; [apply bxor_eq_0, Hy in Hw; lia|].
    pose proof (inv_correct _ (Hne n d ltac:(lia) ltac:(lia))) as Hi. rewrite Hw, mul_0_l in Hi. discriminate. }
  destruct (Nat.eq_dec c n) as [->|]; [|apply Hlow; lia].
  specialize (Hs n ltac:(lia)). cbn in Hs. rewrite bsum_zero, bxor_0_l in Hs.
  - unfold bdiv in Hs. apply mul_integral in Hs as [Hs|Hs]; [done|exfalso].
    pose proof (inv_correct _ (Hne n n ltac:(lia) ltac:(lia))) as Hi. rewrite Hs, mul_0_l in Hi. discriminate.
  - intros k Hk. rewrite Hlow by done. unfold bdiv. apply mul_0_l.
Qed.
End Cauchy.

(** ** Rows of a matrix *)
Definition ent (m : list bytes) (r c : nat) : byte := nth c (nth r m []) b0.
Definition shape (n w : nat) (m : list bytes) : Prop :=
  length m = n /\ forall r, (r < n)%nat -> length (nth r m []) = w.

Lemma vget_nth {A} (v : list A) (i : nat) (d : A) : (i < length v)%nat -> vget v i = Ok (nth i v d).
Proof. intros H. apply vget_lookup. destruct (nth_lookup_or_length v i d); [done|lia]. Qed.

Lemma nth_insert {A} (v : list A) (i r : nat) (x d : A) :
  (i < length v)%nat -> nth r (<[i:=x]> v) d = if (r =? i)%nat then x else nth r v d.
Proof.
  intros Hi. rewrite !nth_lookup. destruct (Nat.eqb_spec r i) as [->|].
  - by rewrite list_lookup_insert_eq.
  - by rewrite list_lookup_insert_ne.
Qed.

Lemma shape_insert (n w i : nat) (m : list bytes) (row : bytes) :
  shape n w m -> (i < n)%nat -> length row = w -> shape n w (<[i:=row]> m).
Proof.
  intros [Hl Hw] Hi Hr. split; [by rewrite length_insert|]. intros r Hlt.
  rewrite nth_insert by lia. destruct (r =? i)%nat; auto.
Qed.

Lemma xor_scaled_ok (n : nat) (f : byte) (dst src : bytes) :
  (n <= length dst)%nat -> (n <= length src)%nat ->
  exists out, xor_scaled n f dst src = Ok out /\ length out = length dst /\
    forall j, nth j out b0 = if (j <? n)%nat then bxor (nth j dst b0) (mul f (nth j src b0)) else nth j dst b0.
Proof.
  revert dst src. induction n as [|n IH]; intros dst src Hd Hs; [by exists dst|].
  destruct dst as [|d dst], src as [|s src]; cbn in Hd, Hs; try lia.
  destruct (IH dst src) as (out & Ho & Hl & He); [lia..|]. cbn. rewrite Ho. cbn.
  eexists. split; [done|]. split; [cbn; by rewrite Hl|]. intros [|j]; [done|]. cbn. apply He.
Qed.

Lemma vswap_ok (n w i j : nat) (m : list bytes) :
  shape n w m -> (i < n)%nat -> (j < n)%nat ->
  exists m', vswap m i j = Ok m' /\ shape n w m' /\
    forall r k, ent m' r k = ent m (if (r =? j)%nat then i else if (r =? i)%nat then j else r) k.
Proof.
  intros [Hl Hw] Hi Hj. unfold vswap. rewrite (vget_nth m i []), (vget_nth m j []) by lia. cbn [rbind].
  rewrite vset_lt by lia. cbn [rbind]. rewrite vset_lt by (rewrite length_insert; lia).
  eexists. split; [done|]. split.
  - apply shape_insert; [apply shape_insert|..]; auto. done.
  - intros r k. unfold ent. rewrite !nth_insert by (rewrite ?length_insert; lia).
    by destruct (r =? j)%nat, (r =? i)%nat.
Qed.

Lemma nth_map_mul (row : bytes) (s : byte) (k : nat) :
  nth k (map (fun x => mul x s) row) b0 = mul (nth k row b0) s.
Proof. rewrite <- (mul_0_l s) at 1. apply (map_nth (fun x => mul x s)). Qed.

Lemma scale_row_ok (n w c : nat) (m : list bytes) (s : byte) :
  shape n w m -> (c < n)%nat ->
  exists m', scale_row m c s = Ok m' /\ shape n w m' /\
    forall r k, ent m' r k = if (r =? c)%nat then mul s (ent m r k) else ent m r k.
Proof.
  intros [Hl Hw] Hc. unfold scale_row. rewrite (vget_nth m c []) by lia. cbn [rbind].
  rewrite vset_lt by lia. eexists. split; [done|]. split.
  - apply shape_insert; [done..|]. rewrite length_map. auto.
  - intros r k. unfold ent. rewrite nth_insert by lia. destruct (Nat.eqb_spec r c) as [->|]; [|done].
    by rewrite nth_map_mul, mul_comm.
Qed.

(** ** The invariant of the elimination

    [X] is the (unknown) solution; a system is good when [X] solves it, its
    kernel is trivial and its first [c] columns are those of the identity. *)
Definition rowdot (n : nat) (m : list bytes) (r : nat) (v : nat -> byte) : byte :=
  bsum (fun k => mul (ent m r k) (v k)) n.

Record good (n w : nat) (X : list bytes) (st : system) : Prop := {
  good_m : shape n n (fst st);
  good_r : shape n w (snd st);
  good_solves r j : (r < n)%nat -> (j < w)%nat ->
    rowdot n (fst st) r (fun k => ent X k j) = ent (snd st) r j;
  good_kernel v : (forall r, (r < n)%nat -> rowdot n (fst st) r v = b0) ->
    forall k, (k < n)%nat -> v k = b0
}.

Definition unit_cols (n c : nat) (m : list bytes) : Prop :=
  forall r j, (r < n)%nat -> (j < c)%nat -> ent m r j = if (r =? j)%nat then b1 else b0.

Lemma rowdot_ext (n : nat) (m m' : list bytes) (r r' : nat) v :
  (forall k, (k < n)%nat -> ent m r k = ent m' r' k) -> rowdot n m r v = rowdot n m' r' v.
Proof. intros H. apply bsum_ext. intros k Hk. by rewrite H. Qed.

Lemma good_swap (n w i j : nat) X m rhs :
  good n w X (m, rhs) -> (i < n)%nat -> (j < n)%nat ->
  exists m' rhs', vswap m i j = Ok m' /\ vswap rhs i j = Ok rhs' /\ good n w X (m', rhs') /\
    forall r k, ent m' r k = ent m (if (r =? j)%nat then i else if (r =? i)%nat then j else r) k.
Proof.
  intros [Hm Hr Hs Hk] Hi Hj. cbn [fst snd] in *.
  destruct (vswap_ok n n i j m Hm Hi Hj) as (m' & -> & Hm' & He).
  destruct (vswap_ok n w i j rhs Hr Hi Hj) as (rhs' & -> & Hr' & He').
  exists m', rhs'. split_and!; try done. constructor; cbn [fst snd]; try done.
  - intros r k Hlt Hkw. rewrite He'. set (r' := if (r =? j)%nat then _ else _).
    rewrite (rowdot_ext _ m' m r r') by (intros; apply He). apply Hs; [|done].
    unfold r'. destruct (r =? j)%nat, (r =? i)%nat; lia.
  - intros v Hv. apply Hk. intros r Hlt.
    set (r' := if (r =? j)%nat then i else if (r =? i)%nat then j else r).
    rewrite (rowdot_ext _ m m' r r'); [apply Hv; unfold r'; destruct (r =? j)%nat, (r =? i)%nat; lia|].
    intros k _. rewrite He. f_equal. unfold r'.
    repeat case_match; zbool; subst; try lia; congruence.
Qed.

Lemma good_scale (n w c : nat) X m rhs (s : byte) :
  good n w X (m, rhs) -> (c < n)%nat -> s <> b0 ->
  exists m' rhs', scale_row m c s = Ok m' /\ scale_row rhs c s = Ok rhs' /\ good n w X (m', rhs') /\
    forall r k, ent m' r k = if (r =? c)%nat then mul s (ent m r k) else ent m r k.
Proof.
  intros [Hm Hr Hs Hk] Hc Hs0. cbn [fst snd] in *.
  destruct (scale_row_ok n n c m s Hm Hc) as (m' & -> & Hm' & He).
  destruct (scale_row_ok n w c rhs s Hr Hc) as (rhs' & -> & Hr' & He').
  assert (forall r v, rowdot n m' r v = if (r =? c)%nat then mul s (rowdot n m r v) else rowdot n m r v) as Hd.
  { intros r v. unfold rowdot. destruct (r =? c)%nat eqn:E.
    - rewrite <- bsum_scale. apply bsum_ext. intros k _. rewrite He, E. ring.
    - apply bsum_ext. intros k _. by rewrite He, E. }
  exists m', rhs'. split_and!; try done. constructor; cbn [fst snd]; try done.
  - intros r j Hlt Hj. rewrite Hd, He', Hs by done. done.
  - intros v Hv. apply Hk. intros r Hlt. specialize (Hv r Hlt). rewrite Hd in Hv.
    destruct (r =? c)%nat; [|done]. by apply mul_integral in Hv as [|].
Qed.

Lemma eliminate_row_ok (n w c r : nat) m rhs :
  shape n n m -> shape n w rhs -> (c < n)%nat -> (r < n)%nat -> r <> c ->
  exists m' rhs', eliminate_row n w c r (m, rhs) = Ok (m', rhs') /\ shape n n m' /\ shape n w rhs' /\
    (forall i k, (k < n)%nat ->
      ent m' i k = if (i =? r)%nat then bxor (ent m r k) (mul (ent m r c) (ent m c k)) else ent m i k) /\
    (forall i k, (k < w)%nat ->
      ent rhs' i k = if (i =? r)%nat then bxor (ent rhs r k) (mul (ent m r c) (ent rhs c k)) else ent rhs i k).
Proof.
  intros Hm Hr Hc Hrn Hne. pose proof Hm as [Hlm Hwm]. pose proof Hr as [Hlr Hwr].
  unfold eliminate_row. rewrite (proj2 (Nat.eqb_neq r c) Hne).
  rewrite (vget_nth m r []) by lia. cbn [rbind].
  rewrite (vget_nth (nth r m []) c b0) by (rewrite Hwm; lia). cbn [rbind]. fold (ent m r c). set (f := ent m r c).
  rewrite (vget_nth m c []) by lia. cbn [rbind].
  destruct (xor_scaled_ok n f (nth r m []) (nth c m [])) as (mr & -> & Hmr & Hem); [rewrite Hwm; lia..|].
  cbn [rbind]. rewrite vset_lt by lia. cbn [rbind].
  rewrite (vget_nth rhs r []), (vget_nth rhs c []) by lia. cbn [rbind].
  destruct (xor_scaled_ok w f (nth r rhs []) (nth c rhs [])) as (rr & -> & Hrr & Her); [rewrite Hwr; lia..|].
  cbn [rbind]. rewrite vset_lt by lia. cbn [rbind]. do 2 eexists. split; [done|]. split_and!.
  - apply shape_insert; [done..|]. rewrite Hmr. auto.
  - apply shape_insert; [done..|]. rewrite Hrr. auto.
  - intros i k Hkn. unfold ent. rewrite nth_insert by lia. destruct (i =? r)%nat; [|reflexivity].
    rewrite Hem. destruct (Nat.ltb_spec k n); [reflexivity|lia].
  - intros i k Hkn. unfold ent. rewrite nth_insert by lia. destruct (i =? r)%nat; [|reflexivity].
    rewrite Her. destruct (Nat.ltb_spec k w); [reflexivity|lia].
Qed.

Lemma good_eliminate (n w c r : nat) X m rhs :
  good n w X (m, rhs) -> (c < n)%nat -> (r < n)%nat -> r <> c ->
  exists m' rhs', eliminate_row n w c r (m, rhs) = Ok (m', rhs') /\ good n w X (m', rhs') /\
    forall i k, (k < n)%nat ->
      ent m' i k = if (i =? r)%nat then bxor (ent m r k) (mul (ent m r c) (ent m c k)) else ent m i k.
Proof.
  intros [Hm Hr Hs Hk] Hc Hrn Hne. cbn [fst snd] in *.
  destruct (eliminate_row_ok n w c r m rhs Hm Hr Hc Hrn Hne) as (m' & rhs' & -> & Hm' & Hr' & He & He').
  set (f := ent m r c) in *.
  assert (forall i v, rowdot n m' i v = if (i =? r)%nat then bxor (rowdot n m r v) (mul f (rowdot n m c v)) else rowdot n m i v) as Hd.
  { intros i v. unfold rowdot. destruct (i =? r)%nat eqn:E.
    - rewrite <- bsum_scale, <- bsum_xor. apply bsum_ext. intros k Hkn. rewrite He, E by done. ring.
    - apply bsum_ext. intros k Hkn. by rewrite He, E. }
  exists m', rhs'. split; [done|]. split; [|exact He]. constructor; cbn [fst snd]; [done..| |].
  - intros i j Hi Hj. rewrite Hd, He' by done. destruct (i =? r)%nat; by rewrite ?Hs.
  - intros v Hv. apply Hk. intros i Hi. pose proof (Hv i Hi) as Hvi. rewrite Hd in Hvi.
    destruct (Nat.eqb_spec i r) as [->|]; [|done].
    pose proof (Hv c Hc) as Hvc. rewrite Hd in Hvc. destruct (Nat.eqb_spec c r); [lia|].
    rewrite Hvc, mul_0_r, bxor_0_r in Hvi. exact Hvi.
Qed.

(** After the inner loop, column [c] is a column of the identity as well. *)
Lemma good_eliminate_all (n w c : nat) X m rhs :
  good n w X (m, rhs) -> (c < n)%nat -> unit_cols n c m -> ent m c c = b1 ->
  exists m' rhs', forM (List.seq 0 n) (eliminate_row n w c) (m, rhs) = Ok (m', rhs') /\
    good n w X (m', rhs') /\ unit_cols n (S c) m'.
Proof.
  intros Hg Hc Hu H1.
  destruct (forM_seq_invariant (fun i st => good n w X st /\ unit_cols n c (fst st) /\ ent (fst st) c c = b1 /\
     forall r, (r < i)%nat -> r <> c -> ent (fst st) r c = b0) (eliminate_row n w c) n (m, rhs))
    as ([m' rhs'] & Hf & Hg' & Hu' & H1' & H0').
  - split_and!; [done..|]. intros; lia.
  - intros i [m1 r1] Hi (Hg1 & Hu1 & H11 & H01). cbn [fst snd] in *.
    destruct (Nat.eq_dec i c) as [->|Hne].
    + exists (m1, r1). split; [unfold eliminate_row; by rewrite Nat.eqb_refl|].
      split_and!; try done. intros r Hr Hrc. cbn [fst]. apply H01; lia.
    + destruct (good_eliminate n w c i X m1 r1 Hg1 Hc Hi Hne) as (m2 & r2 & Hel & Hg2 & He).
      exists (m2, r2). split; [done|]. cbn [fst]. split_and!; [done|..].
      * intros r j Hr Hj. rewrite He by lia. destruct (Nat.eqb_spec r i) as [->|]; [|by apply Hu1].
        rewrite (Hu1 i j), (Hu1 c j) by lia. rewrite (proj2 (Nat.eqb_neq c j)) by lia.
        rewrite mul_0_r. apply bxor_0_r.
      * rewrite He by lia. destruct (Nat.eqb_spec c i); [lia|done].
      * intros r Hr Hrc. rewrite He by lia. destruct (Nat.eqb_spec r i) as [->|]; [|apply H01; lia].
        rewrite H11. ring.
  - exists m', rhs'. split; [done|]. split; [done|]. intros r j Hr Hj.
    destruct (Nat.eq_dec j c) as [->|]; [|apply Hu'; lia]. cbn [fst] in *.
    destruct (Nat.eqb_spec r c) as [->|]; [done|]. apply H0'; lia.
Qed.

(** The search returns the first usable row, or [missing]. *)
Lemma find_pivot_ok (n w c : nat) (m : list bytes) (fuel p : nat) :
  shape n n m -> (c < n)%nat -> (p <= n)%nat -> (n - p <= fuel)%nat ->
  exists q, find_pivot fuel m n c p = Ok q /\ (p <= q <= n)%nat /\
    (forall r, (p <= r < q)%nat -> ent m r c = b0) /\ ((q < n)%nat -> ent m q c <> b0).
Proof.
  intros [Hl Hw] Hc. revert p. induction fuel as [|fuel IH]; intros p Hp Hf; cbn [find_pivot];
    destruct (Nat.ltb_spec p n); try (exists p; split; [done|]; split; [lia|]; split; intros; lia).
  - lia.
  - rewrite (vget_nth m p []) by lia. cbn [rbind]. rewrite (vget_nth (nth p m []) c b0) by (rewrite Hw; lia).
    cbn [rbind]. fold (ent m p c). destruct (byte_eqb (ent m p c) b0) eqn:E.
    + apply byte_eqb_eq in E. destruct (IH (S p)) as (q & -> & Hq & H0 & Hne); [lia..|].
      exists q. split; [done|]. split; [lia|]. split; [|done]. intros r Hr.
      destruct (Nat.eq_dec r p) as [->|]; [done|]. apply H0. lia.
    + exists p. split; [done|]. split; [lia|]. split; [intros; lia|].
      intros _ H0. apply byte_eqb_eq in H0. congruence.
Qed.

(** With a trivial kernel some row at or below [c] has a nonzero entry: otherwise
    column [c] would be a combination of the unit columns before it. *)
Lemma pivot_exists (n w c : nat) X m rhs :
  good n w X (m, rhs) -> (c < n)%nat -> unit_cols n c m ->
  ~ (forall r, (c <= r < n)%nat -> ent m r c = b0).
Proof.
  intros [Hm Hr Hs Hk] Hc Hu H0. cbn [fst snd] in *.
  set (v := fun k => if (k <? c)%nat then ent m k c else if (k =? c)%nat then b1 else b0).
  assert (v c = b0) as Hvc.
  { apply Hk; [|done]. intros r Hrn. unfold rowdot.
    transitivity (bsum (fun k => bxor (if (k =? c)%nat then ent m r c else b0)
                                     (if (k =? r)%nat && (k <? c)%nat then ent m r c else b0)) n).
    - apply bsum_ext. intros k Hkn. unfold v. destruct (Nat.ltb_spec k c).
      + rewrite Hu by lia. rewrite (Nat.eqb_sym r k). destruct (Nat.eqb_spec k c); [lia|].
        destruct (Nat.eqb_spec k r) as [->|]; cbn; ring.
      + rewrite andb_false_r. destruct (Nat.eqb_spec k c) as [->|]; ring.
    - rewrite bsum_xor. rewrite (bsum_single _ n c) by (try lia; intros k ? ?; by destruct (Nat.eqb_spec k c)).
      rewrite Nat.eqb_refl. destruct (Nat.lt_ge_cases r c) as [Hrc|Hrc].
      + rewrite (bsum_single _ n r) by (try lia; intros k ? ?; by destruct (Nat.eqb_spec k r)).
        rewrite Nat.eqb_refl. destruct (Nat.ltb_spec r c); [cbn; ring|lia].
      + rewrite H0 by lia. rewrite bsum_zero; [ring|]. intros k _. by destruct (_ && _). }
  unfold v in Hvc. rewrite Nat.ltb_irrefl, Nat.eqb_refl in Hvc. discriminate.
Qed.

Lemma unit_cols_swap (n c p : nat) (m m' : list bytes) :
  unit_cols n c m -> (c <= p < n)%nat ->
  (forall r k, ent m' r k = ent m (if (r =? c)%nat then p else if (r =? p)%nat then c else r) k) ->
  unit_cols n c m'.
Proof.
  intros Hu Hp He r j Hr Hj. rewrite He.
  destruct (Nat.eqb_spec r c) as [->|]; [|destruct (Nat.eqb_spec r p) as [->|]]; rewrite Hu by lia;
    repeat match goal with |- context [(?a =? ?b)%nat] => destruct (Nat.eqb_spec a b) end; try lia; done.
Qed.

Lemma gauss_column_ok (n w c : nat) X st :
  good n w X st -> (c < n)%nat -> unit_cols n c (fst st) ->
  exists st', gauss_column n w c st = Ok (Some st') /\ good n w X st' /\ unit_cols n (S c) (fst st').
Proof.
  destruct st as [m rhs]. intros Hg Hc Hu. cbn [fst] in Hu. unfold gauss_column.
  destruct (find_pivot_ok n w c m n c (good_m _ _ _ _ Hg) Hc ltac:(lia) ltac:(lia)) as (p & -> & Hp & H0 & Hne).
  cbn [rbind]. destruct (Nat.eqb_spec p n) as [->|Hpn].
  { destruct (pivot_exists n w c X m rhs Hg Hc Hu). auto. }
  destruct (good_swap n w p c X m rhs Hg ltac:(lia) Hc) as (m1 & r1 & -> & -> & Hg1 & He1). cbn [rbind].
  assert (ent m1 c c <> b0) as Hx by (rewrite He1, Nat.eqb_refl; apply Hne; lia).
  assert (unit_cols n c m1) as Hu1 by (apply (unit_cols_swap n c p m m1); [exact Hu | lia | exact He1]).
  destruct (good_m _ _ _ _ Hg1) as [Hl1 Hw1]. cbn [fst] in *.
  rewrite (vget_nth m1 c []) by lia. cbn [rbind]. rewrite (vget_nth (nth c m1 []) c b0) by (rewrite Hw1; lia).
  cbn [rbind]. fold (ent m1 c c). unfold inverse.
  destruct (Z.eqb_spec (b2z (ent m1 c c)) 0) as [E|_]; [destruct Hx; by apply b2z_inj|]. cbn [rbind].
  assert (inv (ent m1 c c) <> b0) as Hi.
  { intros Hi0. pose proof (inv_correct _ Hx) as Hi. rewrite Hi0, mul_0_l in Hi. discriminate. }
  destruct (good_scale n w c X m1 r1 _ Hg1 Hc Hi) as (m2 & r2 & -> & -> & Hg2 & He2). cbn [rbind].
  destruct (good_eliminate_all n w c X m2 r2 Hg2 Hc) as (m3 & r3 & -> & Hg3 & Hu3).
  - intros r j Hr Hj. rewrite He2, (Hu1 r j) by lia. destruct (Nat.eqb_spec r c) as [->|]; [|done].
    rewrite (proj2 (Nat.eqb_neq c j)) by lia. apply mul_0_r.
  - rewrite He2, Nat.eqb_refl. by apply inv_correct.
  - cbn [rbind]. eexists. split; [done|]. done.
Qed.

Lemma gauss_loop_ok (n w : nat) X (k c : nat) st :
  (c + k = n)%nat -> good n w X st -> unit_cols n c (fst st) ->
  exists st', gauss_loop n w (List.seq c k) st = Ok (Some st') /\ good n w X st' /\ unit_cols n n (fst st').
Proof.
  revert c st. induction k as [|k IH]; intros c st Hck Hg Hu.
  - replace n with c in * by lia. by exists st.
  - cbn [List.seq gauss_loop]. destruct (gauss_column_ok n w c X st Hg ltac:(lia) Hu) as (st1 & -> & Hg1 & Hu1).
    cbn [rbind]. apply IH; [lia|done..].
Qed.

(** Solving: the right-hand sides end up being the rows of the solution. *)
Lemma gauss_solves (n w : nat) (X m rhs : list bytes) :
  good n w X (m, rhs) -> shape n w X ->
  exists m', gauss n w m rhs = Ok (Some (m', X)).
Proof.
  intros Hg HX. destruct (gauss_loop_ok n w X n 0 (m, rhs)) as ([m' rhs'] & Hgl & Hg' & Hu);
    [lia | done | intros r j; lia |].
  exists m'. unfold gauss. rewrite Hgl. repeat f_equal. cbn [fst] in Hu.
  destruct (good_r _ _ _ _ Hg') as [Hl Hw]. destruct HX as [HlX HwX]. cbn [snd] in *.
  apply (nth_ext _ _ [] []); [lia|]. intros r Hr. apply (nth_ext _ _ b0 b0); [rewrite Hw, HwX; lia|].
  intros j Hj. rewrite Hw in Hj by lia. change (ent rhs' r j = ent X r j).
  pose proof (good_solves _ _ _ _ Hg' r j ltac:(lia) ltac:(lia)) as Hsol. cbn [fst snd] in Hsol.
  rewrite <- Hsol. unfold rowdot.
  rewrite (bsum_single _ n r); [|lia|].
  - rewrite Hu, Nat.eqb_refl by lia. apply mul_1_l.
  - intros k Hk Hkr. rewrite Hu by lia. destruct (Nat.eqb_spec r k); [lia|]. apply mul_0_l.
Qed.

(** ** Safety on any system

    Whatever the entries, no index leaves its vector and no zero is inverted. *)
Definition sys_shape (n w : nat) (st : system) : Prop := shape n n (fst st) /\ shape n w (snd st).

Lemma gauss_column_safe (n w c : nat) st :
  sys_shape n w st -> (c < n)%nat ->
  exists o, gauss_column n w c st = Ok o /\ forall st', o = Some st' -> sys_shape n w st'.
Proof.
  destruct st as [m rhs]. intros [Hm Hr] Hc. cbn [fst snd] in *. unfold gauss_column.
  destruct (find_pivot_ok n w c m n c Hm Hc ltac:(lia) ltac:(lia)) as (p & -> & Hp & _ & Hne).
  cbn [rbind]. destruct (Nat.eqb_spec p n) as [->|Hpn]; [by exists None|].
  destruct (vswap_ok n n p c m Hm ltac:(lia) Hc) as (m1 & -> & Hm1 & He1).
  destruct (vswap_ok n w p c rhs Hr ltac:(lia) Hc) as (r1 & -> & Hr1 & _). cbn [rbind].
  destruct Hm1 as [Hl1 Hw1] eqn:E1.
  rewrite (vget_nth m1 c []) by lia. cbn [rbind]. rewrite (vget_nth (nth c m1 []) c b0) by (rewrite Hw1; lia).
  cbn [rbind]. fold (ent m1 c c). unfold inverse.
  assert (ent m1 c c <> b0) as Hx by (rewrite He1, Nat.eqb_refl; apply Hne; lia).
  destruct (Z.eqb_spec (b2z (ent m1 c c)) 0) as [E|_]; [destruct Hx; by apply b2z_inj|]. cbn [rbind].
  destruct (scale_row_ok n n c m1 (inv (ent m1 c c)) (conj Hl1 Hw1) Hc) as (m2 & -> & Hm2 & _).
  destruct (scale_row_ok n w c r1 (inv (ent m1 c c)) Hr1 Hc) as (r2 & -> & Hr2 & _). cbn [rbind].
  destruct (forM_seq_invariant (fun _ st => sys_shape n w st) (eliminate_row n w c) n (m2, r2)) as (st & -> & Hst).
  - split; done.
  - intros i [m3 r3] Hi [Hm3 Hr3]. cbn [fst snd] in *. destruct (Nat.eq_dec i c) as [->|Hic].
    + exists (m3, r3). unfold eliminate_row. rewrite Nat.eqb_refl. done.
    + destruct (eliminate_row_ok n w c i m3 r3 Hm3 Hr3 Hc Hi Hic) as (m4 & r4 & -> & ? & ? & _). by exists (m4, r4).
  - exists (Some st). split; [done|]. intros st' [= <-]. done.
Qed.

Lemma gauss_safe (n w : nat) (m rhs : list bytes) :
  shape n n m -> shape n w rhs ->
  exists o, gauss n w m rhs = Ok o /\ forall m' rhs', o = Some (m', rhs') -> shape n w rhs'.
Proof.
  intros Hm Hr. unfold gauss. assert (Forall (fun c => (c < n)%nat) (List.seq 0 n)) as Hcs.
  { apply Forall_forall. intros c Hc. apply list_elem_of_In, in_seq in Hc. lia. }
  assert (sys_shape n w (m, rhs)) as Hst by done. revert Hst. generalize (m, rhs).
  induction Hcs as [|c cs Hc _ IH]; intros st Hst; cbn [gauss_loop].
  - exists (Some st). split; [done|]. intros m' rhs' [= ->]. apply Hst.
  - destruct (gauss_column_safe n w c st Hst Hc) as (o & -> & Ho). cbn [rbind].
    destruct o as [st'|]; [by apply IH, Ho | by exists None].
Qed.
