(* ===== verification/Fec.v ===== *)
(** * FEC envelopes and encoder: [harness/include/fec.h], [Envelope] to [Encoder]

    A generation is a list of frames; [close] emits one datagram per frame and
    [parity_count_] parity datagrams, whose payloads are the Cauchy combinations
    of the length-prefixed, zero-padded frames. *)
From S2P Require Import Prelude Message Wire GF256 Gauss.
From Stdlib Require Import Ring Field.

Definition kMagic : Z := 0x46454332.
Definition kMaxGeneration : Z := 128.
Definition kEnvelopeSize : nat := 17.

Record Envelope := mkEnvelope {
  env_magic : Z; env_gen_id : Z; env_index : Z; env_k : Z;
  env_parity_count : Z; env_protected_len : Z; env_close_reason : Z
}.

Definition envelope_bytes (h : Envelope) : bytes :=
  be_put 4 (env_magic h) ++ be_put 4 (env_gen_id h) ++ be_put 2 (env_index h) ++
  be_put 2 (env_k h) ++ be_put 2 (env_parity_count h) ++ be_put 2 (env_protected_len h) ++
  be_put 1 (env_close_reason h).

Definition write_envelope (out : bytes) (h : Envelope) : res bytes :=
  overwrite out 0 (take kEnvelopeSize (envelope_bytes h)).

Definition get_envelope : rd Envelope :=
  m <~ @get_uint wire_io 4 ;; g <~ @get_uint wire_io 4 ;; i <~ @get_uint wire_io 2 ;;
  k <~ @get_uint wire_io 2 ;; p <~ @get_uint wire_io 2 ;; l <~ @get_uint wire_io 2 ;;
  c <~ @get_uint wire_io 1 ;; rd_ret (mkEnvelope m g i k p l c).
Definition read_envelope (data : bytes) : res Envelope :=
  let! x := get_envelope (mkReader (take kEnvelopeSize data) 0) in Ok (fst x).

Definition put_u16 (out : bytes) (value : Z) : res bytes :=
  let! out := vset out 0 (z2b (Z.land value 255)) in
  vset out 1 (z2b (Z.shiftr value 8)).

Definition get_u16 (data : bytes) : res Z :=
  let! a := vget data 0 in
  let! b := vget data 1 in
  Ok (Z.lor (b2z a) (u16 (Z.shiftl (b2z b) 8))).

(** [len] is the length of [frame]. *)
Definition protected_frame (frame : bytes) (padded_len : Z) : res bytes :=
  let out := replicate (Z.to_nat padded_len + 2) b0 in
  let! out := put_u16 out (u16 (Z.of_nat (length frame))) in
  overwrite out 2 frame.

Definition data_datagram (gen_id index k : Z) (frame : bytes) : res bytes :=
  let len := length frame in
  let out := replicate (kEnvelopeSize + len) b0 in
  let! out := write_envelope out (mkEnvelope kMagic gen_id index k 0 (Z.of_nat len) 0) in
  overwrite out kEnvelopeSize frame.

(** ** Encoder *)
Record BuiltGeneration := mkBuilt {
  bg_data : list bytes; bg_parity : bytes; bg_extra_parity : list bytes
}.

Record Encoder := mkEncoder {
  en_k : Z; en_parity_count : Z; en_max_len : Z; en_frames : list bytes
}.

Definition Encoder_make (k parity_count : Z) : res Encoder :=
  if (k =? 0) || (kMaxGeneration <? k) || (parity_count =? 0) || (16 <? parity_count)
  then Throw InvalidArgument
  else Ok (mkEncoder k parity_count 0 []).

Definition Encoder_add (e : Encoder) (frame : bytes) : bool * Encoder :=
  let len := Z.of_nat (length frame) in
  if (len =? 0) || (Z.of_nat max_frame <? len) || (Z.of_nat (length (en_frames e)) =? en_k e)
  then (false, e)
  else (true, mkEncoder (en_k e) (en_parity_count e)
                (if en_max_len e <? len then len else en_max_len e) (en_frames e ++ [frame])).

Definition Encoder_empty (e : Encoder) : bool := (length (en_frames e) =? 0)%nat.
Definition Encoder_size (e : Encoder) : Z := u16 (Z.of_nat (length (en_frames e))).
Definition Encoder_full (e : Encoder) : bool := Z.of_nat (length (en_frames e)) =? en_k e.

(** [for j < n: dst[j] ^= src[j]]. *)
Fixpoint xor_bytes (n : nat) (dst src : bytes) : res bytes :=
  match n with
  | O => Ok dst
  | S m =>
    match dst, src with
    | d :: dst', s :: src' => let! tl := xor_bytes m dst' src' in Ok (bxor d s :: tl)
    | _, _ => Throw OutOfBounds
    end
  end.

(** The first loop of [close]: data datagrams and the exclusive-or parity. *)
Definition close_data (e : Encoder) (gen_id : Z) (i : nat) (st : list bytes * bytes) : res (list bytes * bytes) :=
  let '(data, parity) := st in
  let! frame := vget (en_frames e) i in
  let! d := data_datagram gen_id (Z.of_nat i) (en_k e) frame in
  let! protected_data := protected_frame frame (en_max_len e) in
  let! parity := xor_bytes (length parity) parity protected_data in
  Ok (data ++ [d], parity).

(** The inner loop over [col] for one extra parity row. *)
Definition close_shard (e : Encoder) (row : Z) (col : nat) (shard : bytes) : res bytes :=
  let! frame := vget (en_frames e) col in
  let! block := protected_frame frame (en_max_len e) in
  let! c := coefficient row (Z.of_nat col) in
  xor_scaled (length shard) c shard block.

Definition parity_packet (header : Envelope) (payload : bytes) : res bytes :=
  let! packet := write_envelope (replicate (kEnvelopeSize + length payload) b0) header in
  overwrite packet kEnvelopeSize payload.

Definition close_row (e : Encoder) (gen_id reason actual_k : Z) (width : nat) (row : nat) (extra : list bytes) : res (list bytes) :=
  let! shard := forM (List.seq 0 (Z.to_nat actual_k)) (close_shard e (Z.of_nat row)) (replicate width b0) in
  let! packet := parity_packet
    (mkEnvelope kMagic gen_id (u16 (actual_k + Z.of_nat row)) actual_k (en_parity_count e) (u16 (Z.of_nat width)) reason) shard in
  Ok (extra ++ [packet]).

Definition Encoder_close (e : Encoder) (gen_id close_reason : Z) : res (BuiltGeneration * Encoder) :=
  if Encoder_empty e then Throw InvalidArgument
  else
    let actual_k := u16 (Z.of_nat (length (en_frames e))) in
    let width := (Z.to_nat (en_max_len e) + 2)%nat in
    let! x := forM (List.seq 0 (Z.to_nat actual_k)) (close_data e gen_id) ([], replicate width b0) in
    let '(data, parity) := x in
    let! p := parity_packet (mkEnvelope kMagic gen_id actual_k actual_k (en_parity_count e)
                               (u16 (Z.of_nat (length parity))) close_reason) parity in
    let! extra := forM (List.seq 1 (Z.to_nat (en_parity_count e) - 1))
                       (close_row e gen_id close_reason actual_k (length parity)) [] in
    Ok (mkBuilt data p extra, mkEncoder (en_k e) (en_parity_count e) 0 []).

(** ** Round trips of the envelope and of the length prefix *)
Definition wf_envelope (h : Envelope) : Prop :=
  in_range 32 (env_magic h) /\ in_range 32 (env_gen_id h) /\ in_range 16 (env_index h) /\
  in_range 16 (env_k h) /\ in_range 16 (env_parity_count h) /\ in_range 16 (env_protected_len h) /\
  in_range 8 (env_close_reason h).

Lemma length_envelope_bytes (h : Envelope) : length (envelope_bytes h) = kEnvelopeSize.
Proof. unfold envelope_bytes. by autorewrite with lendb. Qed.

Lemma get_envelope_reads (h : Envelope) : wf_envelope h -> reads get_envelope (envelope_bytes h) h.
Proof.
  intros Hw. unfold wf_envelope in Hw. destruct_and! Hw. unfold get_envelope, envelope_bytes.
  change be_put with (@io_put wire_io). reads_fields.
Qed.

Lemma total_get_envelope : total get_envelope 17.
Proof. unfold get_envelope. total_fields. Qed.

Lemma read_envelope_app (h : Envelope) (rest : bytes) :
  wf_envelope h -> read_envelope (envelope_bytes h ++ rest) = Ok h.
Proof.
  intros Hw. unfold read_envelope. rewrite take_app_le, take_ge by (by rewrite length_envelope_bytes).
  by rewrite (get_envelope_reads h Hw _ O []) by (by rewrite drop_0, app_nil_r).
Qed.

Lemma get_envelope_consumes : consumes get_envelope (fun h e => e = envelope_bytes h /\ wf_envelope h).
Proof.
  unfold get_envelope. change be_put with (@io_put wire_io). consumes_fields. split; [done|].
  unfold wf_envelope. cbn. tauto.
Qed.

(** Any datagram of at least 17 bytes is an envelope and a payload. *)
Lemma read_envelope_total (data : bytes) :
  (kEnvelopeSize <= length data)%nat ->
  exists h, read_envelope data = Ok h /\ wf_envelope h /\ data = envelope_bytes h ++ drop kEnvelopeSize data.
Proof.
  intros Hl. unfold read_envelope.
  assert (length (take kEnvelopeSize data) = kEnvelopeSize) as Ht by (rewrite length_take; lia).
  destruct (total_get_envelope (take kEnvelopeSize data) O) as [h Hg]; [rewrite Ht; done|].
  destruct (get_envelope_consumes _ _ _ _ (Nat.le_0_l _) Hg) as (e & rest & Hd & _ & -> & Hw).
  rewrite Hg. exists h. split; [done|]. split; [done|].
  rewrite <- (take_drop kEnvelopeSize data) at 1. f_equal. rewrite drop_0 in Hd. rewrite Hd.
  assert (rest = []) as ->; [|by rewrite app_nil_r].
  apply (f_equal length) in Hd. rewrite Ht, length_app, length_envelope_bytes in Hd. destruct rest; [done|cbn [length] in Hd; lia].
Qed.

Lemma overwrite_ok {A} (out src : list A) (off : nat) :
  (off + length src <= length out)%nat ->
  overwrite out off src = Ok (take off out ++ src ++ drop (off + length src) out).
Proof. intros H. unfold overwrite. by rewrite (proj2 (Nat.leb_le _ _) H). Qed.

(** A length-prefixed frame padded with zeros. *)
Definition prefix16 (n : Z) : bytes := [z2b (Z.land n 255); z2b (Z.shiftr n 8)].
Definition block (padded : nat) (frame : bytes) : bytes :=
  prefix16 (Z.of_nat (length frame)) ++ frame ++ replicate (padded - length frame) b0.

Lemma length_block (padded : nat) (frame : bytes) :
  (length frame <= padded)%nat -> length (block padded frame) = (padded + 2)%nat.
Proof. intros H. unfold block. rewrite !length_app, length_replicate. cbn. lia. Qed.

Lemma protected_frame_ok (frame : bytes) (padded : Z) :
  (length frame <= Z.to_nat padded)%nat -> (length frame <= 1024)%nat ->
  protected_frame frame padded = Ok (block (Z.to_nat padded) frame).
Proof.
  intros Hl Hm. unfold protected_frame. rewrite wrap_small by (unfold in_range; lia).
  rewrite Nat.add_comm. cbn [replicate Nat.add]. unfold put_u16.
  rewrite vset_lt by (cbn; lia). cbn [rbind]. rewrite vset_lt by (cbn; lia).
  cbn [rbind insert list_insert]. rewrite overwrite_ok by (cbn; rewrite length_replicate; lia).
  unfold block, prefix16. cbn. rewrite drop_replicate. do 4 f_equal.
Qed.

Lemma get_u16_block (padded : nat) (frame rest : bytes) :
  (length frame <= 1024)%nat -> get_u16 (block padded frame ++ rest) = Ok (Z.of_nat (length frame)).
Proof.
  intros Hl. unfold get_u16, block, prefix16. cbn [app vget lookup list_lookup rbind]. unfold vget. cbn [lookup list_lookup rbind].
  f_equal. rewrite !b2z_z2b. set (n := Z.of_nat (length frame)). assert (0 <= n <= 1024) by lia.
  change 255 with (Z.ones 8). rewrite Z.land_ones, Z.shiftr_div_pow2 by lia. change (2 ^ 8) with 256.
  rewrite Z.mod_mod by lia. rewrite (Z.mod_small (n / 256)) by (split; [apply Z.div_pos; lia | apply Z.div_lt_upper_bound; lia]).
  rewrite Z.shiftl_mul_pow2 by lia. change (2 ^ 8) with 256.
  assert (0 <= n / 256 <= 4) by (split; [apply Z.div_pos; lia | apply Z.div_le_upper_bound; lia]).
  rewrite wrap_small by (unfold in_range; lia).
  rewrite Z.lor_comm. pose proof (lor_shift8 (n / 256) (z2b n)) as Hls. rewrite Z.shiftl_mul_pow2 in Hls by lia.
  rewrite b2z_z2b in Hls. change (2 ^ 8) with 256 in Hls. rewrite Hls. rewrite Z.mul_comm. symmetry. apply Z.div_mod. lia.
Qed.

Lemma write_packet (h : Envelope) (payload : bytes) :
  (let! out := write_envelope (replicate (kEnvelopeSize + length payload) b0) h in
   overwrite out kEnvelopeSize payload) = Ok (envelope_bytes h ++ payload).
Proof.
  unfold write_envelope. rewrite take_ge by (by rewrite length_envelope_bytes).
  rewrite overwrite_ok by (rewrite length_envelope_bytes, length_replicate; lia). cbn [rbind].
  rewrite length_envelope_bytes, drop_replicate, take_0. cbn [app Nat.add].
  rewrite overwrite_ok by (rewrite length_app, length_envelope_bytes, length_replicate; lia).
  rewrite take_app_le, take_ge by (by rewrite length_envelope_bytes).
  rewrite drop_ge by (rewrite length_app, length_envelope_bytes, length_replicate; lia).
  by rewrite app_nil_r.
Qed.

Lemma data_datagram_ok (gen_id index k : Z) (frame : bytes) :
  data_datagram gen_id index k frame =
  Ok (envelope_bytes (mkEnvelope kMagic gen_id index k 0 (Z.of_nat (length frame)) 0) ++ frame).
Proof. apply write_packet. Qed.

Lemma xor_bytes_scaled (n : nat) (dst src : bytes) : xor_bytes n dst src = xor_scaled n b1 dst src.
Proof.
  revert dst src. induction n as [|n IH]; intros [|d dst] [|s src]; cbn; try reflexivity.
  rewrite IH. destruct (xor_scaled n b1 dst src); cbn; [|reflexivity]. by rewrite mul_1_l.
Qed.

(** ** What [close] emits *)

(** Invariant of the encoder. *)
Record wf_encoder (e : Encoder) : Prop := {
  wfe_k : 1 <= en_k e <= 128;
  wfe_p : 1 <= en_parity_count e <= 16;
  wfe_n : Z.of_nat (length (en_frames e)) <= en_k e;
  wfe_max : 0 <= en_max_len e <= 1024;
  wfe_frames : Forall (fun f => 1 <= Z.of_nat (length f) <= en_max_len e) (en_frames e)
}.

(** The payload of parity row [row], by its defining sums. *)
Definition is_parity (frames : list bytes) (padded : nat) (row : Z) (payload : bytes) : Prop :=
  length payload = (padded + 2)%nat /\
  forall j, (j < padded + 2)%nat -> nth j payload b0 =
    bsum (fun c => mul (coef row (Z.of_nat c)) (nth j (block padded (nth c frames [])) b0)) (length frames).

Lemma wf_frame (e : Encoder) (i : nat) : wf_encoder e -> (i < length (en_frames e))%nat ->
  vget (en_frames e) i = Ok (nth i (en_frames e) []) /\
  (1 <= length (nth i (en_frames e) []) <= Z.to_nat (en_max_len e))%nat /\ (Z.to_nat (en_max_len e) <= 1024)%nat.
Proof.
  intros [Hk Hp Hn Hm Hf] Hi. split; [by apply vget_nth|].
  rewrite Forall_forall in Hf. assert (nth i (en_frames e) [] ∈ en_frames e) as Hin.
  { apply list_elem_of_In. by apply nth_In. }
  specialize (Hf _ Hin). cbn in Hf. lia.
Qed.

Lemma close_shards (e : Encoder) (row : Z) :
  wf_encoder e -> 0 <= row < 128 ->
  exists shard, forM (List.seq 0 (length (en_frames e))) (close_shard e row) (replicate (Z.to_nat (en_max_len e) + 2) b0) = Ok shard /\
    is_parity (en_frames e) (Z.to_nat (en_max_len e)) row shard.
Proof.
  intros He Hrow. set (w := (Z.to_nat (en_max_len e) + 2)%nat).
  destruct (forM_seq_invariant (fun i (s : bytes) => length s = w /\ forall j, (j < w)%nat -> nth j s b0 =
     bsum (fun c => mul (coef row (Z.of_nat c)) (nth j (block (Z.to_nat (en_max_len e)) (nth c (en_frames e) [])) b0)) i)
     (close_shard e row) (length (en_frames e)) (replicate w b0)) as (s & Hf & Hl & Hs).
  - split; [apply length_replicate|]. intros j Hj. apply nth_lookup_Some. by apply lookup_replicate.
  - intros i s Hi [Hl Hs]. destruct (wf_frame e i He Hi) as (Hg & Hlen & Hmax).
    pose proof (wfe_k e He). pose proof (wfe_n e He).
    unfold close_shard. rewrite Hg. cbn [rbind]. rewrite protected_frame_ok by lia. cbn [rbind].
    rewrite coefficient_ok by lia. cbn [rbind].
    destruct (xor_scaled_ok (length s) (coef row (Z.of_nat i)) s (block (Z.to_nat (en_max_len e)) (nth i (en_frames e) [])))
      as (out & -> & Hlo & Ho); [done | rewrite length_block by lia; unfold w in *; lia |].
    exists out. split; [done|]. split; [lia|]. intros j Hj. rewrite Ho.
    destruct (Nat.ltb_spec j (length s)); [|lia]. cbn [bsum]. by rewrite Hs.
  - exists s. split; [done|]. split; [done|]. exact Hs.
Qed.

Definition parity_payload (frames : list bytes) (padded : nat) (row : Z) : bytes :=
  map (fun j => bsum (fun c => mul (coef row (Z.of_nat c)) (nth j (block padded (nth c frames [])) b0)) (length frames))
      (List.seq 0 (padded + 2)).

Lemma nth_map_seq {A} (f : nat -> A) (n j : nat) (d : A) :
  (j < n)%nat -> nth j (map f (List.seq 0 n)) d = f j.
Proof.
  intros Hj. rewrite (nth_indep _ d (f O)) by (by rewrite length_map, length_seq).
  by rewrite map_nth, seq_nth.
Qed.

Lemma is_parity_payload (frames : list bytes) (padded : nat) (row : Z) (p : bytes) :
  is_parity frames padded row p -> p = parity_payload frames padded row.
Proof.
  intros [Hl Hn]. unfold parity_payload. apply (nth_ext _ _ b0 b0); [by rewrite length_map, length_seq|].
  intros j Hj. rewrite Hl in Hj. rewrite nth_map_seq by exact Hj. apply Hn. exact Hj.
Qed.

Lemma length_parity_payload (frames : list bytes) (padded : nat) (row : Z) :
  length (parity_payload frames padded row) = (padded + 2)%nat.
Proof. unfold parity_payload. by rewrite length_map, length_seq. Qed.

(** The datagrams of a generation, in closed form. *)
Definition data_env (k gen_id : Z) (i : nat) (frame : bytes) : Envelope :=
  mkEnvelope kMagic gen_id (Z.of_nat i) k 0 (Z.of_nat (length frame)) 0.
Definition data_pkt (k gen_id : Z) (frames : list bytes) (i : nat) : bytes :=
  envelope_bytes (data_env k gen_id i (nth i frames [])) ++ nth i frames [].
Definition parity_env (n p gen_id reason : Z) (padded row : nat) : Envelope :=
  mkEnvelope kMagic gen_id (n + Z.of_nat row) n p (Z.of_nat (padded + 2)) reason.
Definition parity_pkt (p gen_id reason : Z) (frames : list bytes) (padded row : nat) : bytes :=
  envelope_bytes (parity_env (Z.of_nat (length frames)) p gen_id reason padded row) ++
  parity_payload frames padded (Z.of_nat row).

Lemma close_first_loop (e : Encoder) (gen_id : Z) :
  wf_encoder e ->
  forM (List.seq 0 (length (en_frames e))) (close_data e gen_id) ([], replicate (Z.to_nat (en_max_len e) + 2) b0) =
  Ok (map (data_pkt (en_k e) gen_id (en_frames e)) (List.seq 0 (length (en_frames e))),
      parity_payload (en_frames e) (Z.to_nat (en_max_len e)) 0).
Proof.
  intros He. set (w := (Z.to_nat (en_max_len e) + 2)%nat).
  destruct (forM_seq_invariant (fun i (st : list bytes * bytes) =>
      fst st = map (data_pkt (en_k e) gen_id (en_frames e)) (List.seq 0 i) /\ length (snd st) = w /\
      forall j, (j < w)%nat -> nth j (snd st) b0 =
        bsum (fun c => mul (coef 0 (Z.of_nat c)) (nth j (block (Z.to_nat (en_max_len e)) (nth c (en_frames e) [])) b0)) i)
     (close_data e gen_id) (length (en_frames e)) ([], replicate w b0)) as ([data par] & Hf & Hd & Hl & Hs).
  - split; [done|]. split; [apply length_replicate|]. intros j Hj. apply nth_lookup_Some. by apply lookup_replicate.
  - intros i [data par] Hi (Hd & Hl & Hs). cbn [fst snd] in *. destruct (wf_frame e i He Hi) as (Hg & Hlen & Hmax).
    pose proof (wfe_k e He). pose proof (wfe_n e He).
    unfold close_data. rewrite Hg. cbn [rbind]. rewrite data_datagram_ok. cbn [rbind].
    rewrite protected_frame_ok by lia. cbn [rbind]. rewrite xor_bytes_scaled.
    destruct (xor_scaled_ok (length par) b1 par (block (Z.to_nat (en_max_len e)) (nth i (en_frames e) [])))
      as (out & -> & Hlo & Ho); [done | rewrite length_block by lia; unfold w in *; lia |].
    eexists. split; [reflexivity|]. cbn [fst snd]. split_and!.
    + rewrite seq_S, map_app, Hd. reflexivity.
    + lia.
    + intros j Hj. rewrite Ho. destruct (Nat.ltb_spec j (length par)); [|lia]. cbn [bsum].
      rewrite Hs by exact Hj. rewrite (coef_row0 (Z.of_nat i)) by lia. reflexivity.
  - rewrite Hf. cbn [fst snd] in *. rewrite Hd. do 2 f_equal. apply is_parity_payload. split; [exact Hl|exact Hs].
Qed.

Lemma close_rows (e : Encoder) (gen_id reason : Z) :
  wf_encoder e ->
  forM (List.seq 1 (Z.to_nat (en_parity_count e) - 1))
       (close_row e gen_id reason (Z.of_nat (length (en_frames e))) (Z.to_nat (en_max_len e) + 2)) [] =
  Ok (map (parity_pkt (en_parity_count e) gen_id reason (en_frames e) (Z.to_nat (en_max_len e)))
          (List.seq 1 (Z.to_nat (en_parity_count e) - 1))).
Proof.
  intros He. pose proof (wfe_k e He). pose proof (wfe_n e He). pose proof (wfe_p e He). pose proof (wfe_max e He).
  set (rows := List.seq _ _).
  destruct (forM_invariant (fun dn (ex : list bytes) => ex =
     map (parity_pkt (en_parity_count e) gen_id reason (en_frames e) (Z.to_nat (en_max_len e))) dn)
     (close_row e gen_id reason (Z.of_nat (length (en_frames e))) (Z.to_nat (en_max_len e) + 2)) rows [] [])
    as (ex & Hf & ->); [done | | exact Hf].
  intros pre row post ex Hsplit ->. cbn [app].
  assert (In row rows) as Hin by (rewrite Hsplit; apply in_app_iff; cbn; auto).
  apply in_seq in Hin. unfold close_row. rewrite Nat2Z.id.
  destruct (close_shards e (Z.of_nat row) He ltac:(lia)) as (shard & -> & Hs%is_parity_payload). cbn [rbind].
  unfold parity_packet. rewrite write_packet. cbn [rbind]. eexists. split; [reflexivity|].
  rewrite map_app. cbn [map]. unfold parity_pkt, parity_env. rewrite Hs, !wrap_small by (unfold in_range; lia). reflexivity.
Qed.

(** [close] on a well-formed, nonempty encoder returns, and emits exactly these
    datagrams. *)
Lemma Encoder_close_ok (e : Encoder) (gen_id reason : Z) :
  wf_encoder e -> en_frames e <> [] ->
  Encoder_close e gen_id reason =
  Ok (mkBuilt (map (data_pkt (en_k e) gen_id (en_frames e)) (List.seq 0 (length (en_frames e))))
        (parity_pkt (en_parity_count e) gen_id reason (en_frames e) (Z.to_nat (en_max_len e)) 0)
        (map (parity_pkt (en_parity_count e) gen_id reason (en_frames e) (Z.to_nat (en_max_len e)))
             (List.seq 1 (Z.to_nat (en_parity_count e) - 1))),
      mkEncoder (en_k e) (en_parity_count e) 0 []).
Proof.
  intros He Hne. pose proof (wfe_k e He). pose proof (wfe_n e He). pose proof (wfe_p e He). pose proof (wfe_max e He).
  unfold Encoder_close, Encoder_empty. destruct (Nat.eqb_spec (length (en_frames e)) 0) as [E|_].
  { destruct (en_frames e); [contradiction|discriminate]. }
  rewrite wrap_small by (unfold in_range; lia). rewrite Nat2Z.id, close_first_loop by exact He. cbn [rbind].
  unfold parity_packet. rewrite write_packet. cbn [rbind].
  rewrite length_parity_payload, close_rows by exact He. cbn [rbind].
  rewrite wrap_small by (unfold in_range; lia). do 2 f_equal. f_equal.
  unfold parity_pkt, parity_env. by rewrite Z.add_0_r.
Qed.

(** The operations of the encoder keep its invariant. *)
Lemma Encoder_make_wf (k p : Z) (e : Encoder) :
  0 <= k -> 0 <= p -> Encoder_make k p = Ok e -> wf_encoder e /\ en_frames e = [].
Proof.
  intros Hk Hp. unfold Encoder_make, kMaxGeneration. destruct (_ || _ || _ || _) eqn:Hc; [discriminate|].
  intros H. injection H as <-. zbool. split; [|done]. constructor; cbn; try lia. constructor.
Qed.

Lemma Encoder_add_wf (e e' : Encoder) (frame : bytes) (b : bool) :
  wf_encoder e -> Encoder_add e frame = (b, e') ->
  wf_encoder e' /\ (b = true -> en_frames e' = en_frames e ++ [frame]) /\ (b = false -> e' = e) /\
  en_k e' = en_k e /\ en_parity_count e' = en_parity_count e.
Proof.
  intros [Hk Hp Hn Hm Hf]. unfold Encoder_add, max_frame. destruct (_ || _ || _) eqn:Hc; intros H; injection H as <- <-; [done|].
  zbool. split_and!; try done. rewrite Forall_forall in Hf. constructor; cbn; try done.
  - rewrite length_app. cbn. lia.
  - destruct (Z.ltb_spec (en_max_len e) (Z.of_nat (length frame))); lia.
  - apply Forall_forall. intros f [Hin | ->%list_elem_of_singleton]%elem_of_app; [specialize (Hf f Hin)|];
      destruct (Z.ltb_spec (en_max_len e) (Z.of_nat (length frame))); lia.
Qed.

(** Encoders the code can reach: constructed, filled and closed any number of times. *)
Inductive enc_reach : Encoder -> Prop :=
| er_make k p e : in_range 16 k -> in_range 16 p -> Encoder_make k p = Ok e -> enc_reach e
| er_add e frame b e' : enc_reach e -> Encoder_add e frame = (b, e') -> enc_reach e'
| er_close e gen_id reason built e' : enc_reach e -> Encoder_close e gen_id reason = Ok (built, e') -> enc_reach e'.

Lemma Encoder_close_wf (e e' : Encoder) (gen_id reason : Z) (built : BuiltGeneration) :
  wf_encoder e -> Encoder_close e gen_id reason = Ok (built, e') -> wf_encoder e' /\ en_frames e <> [].
Proof.
  intros He Hc. destruct (decide (en_frames e = [])) as [E|Hne].
  { unfold Encoder_close, Encoder_empty in Hc. by rewrite E in Hc. }
  rewrite Encoder_close_ok in Hc by done. injection Hc as <- <-. split; [|done].
  destruct He. constructor; cbn; try done; lia.
Qed.

Lemma enc_reach_wf (e : Encoder) : enc_reach e -> wf_encoder e.
Proof.
  induction 1 as [k p e [Hk _] [Hp _] He | e f b e' _ IH Ha | e g r bt e' _ IH Hc].
  - by apply (Encoder_make_wf k p).
  - by apply (Encoder_add_wf e e' f b).
  - by apply (Encoder_close_wf e e' g r bt).
Qed.

(** All datagrams of a closed generation. *)
Definition all_datagrams (b : BuiltGeneration) : list bytes := bg_data b ++ bg_parity b :: bg_extra_parity b.

(** The invariant the encoder keeps and the shape of what [close] emits: as many
    data datagrams as frames, the configured number of parity datagrams, all of
    them within a 1500-byte MTU and each carrying an envelope the decoder reads
    back with the generation's number; the encoder is empty afterwards. *)
Theorem fec_encoder_close_shape (e : Encoder) (gen_id reason : Z) :
  enc_reach e -> en_frames e <> [] -> in_range 32 gen_id -> in_range 8 reason ->
  exists built e', Encoder_close e gen_id reason = Ok (built, e') /\
    en_frames e' = [] /\ enc_reach e' /\
    length (bg_data built) = length (en_frames e) /\
    Z.of_nat (length (bg_parity built :: bg_extra_parity built)) = en_parity_count e /\
    (forall i f, en_frames e !! i = Some f -> bg_data built !! i = Some (envelope_bytes (data_env (en_k e) gen_id i f) ++ f)) /\
    Forall (fun d => (length d <= 1500)%nat /\ exists h, read_envelope d = Ok h /\ env_magic h = kMagic /\ env_gen_id h = gen_id /\
                     env_protected_len h = Z.of_nat (length d - kEnvelopeSize)) (all_datagrams built).
Proof.
  intros Hr Hne Hg Hre. pose proof (enc_reach_wf e Hr) as He. pose proof (Encoder_close_ok e gen_id reason He Hne) as Hc.
  eexists _, _. split; [exact Hc|]. split; [done|]. split; [by eapply er_close|]. cbn [bg_data bg_parity bg_extra_parity all_datagrams].
  pose proof (wfe_p e He). pose proof (wfe_k e He). pose proof (wfe_n e He). pose proof (wfe_max e He).
  split; [by rewrite length_map, length_seq|]. split; [cbn [length]; rewrite length_map, length_seq; lia|]. split.
  - intros i f Hi. rewrite list_lookup_fmap. pose proof (lookup_lt_Some _ _ _ Hi) as Hlt.
    rewrite (proj2 (lookup_seq _ _ _ _)) by (split; [reflexivity|exact Hlt]). cbn [fmap option_fmap option_map]. unfold data_pkt.
    by rewrite (nth_lookup_Some _ _ _ _ Hi).
  - unfold all_datagrams. cbn [bg_data bg_parity bg_extra_parity].
    apply Forall_app. split; [|rewrite <- map_cons; apply Forall_map, Forall_forall; intros row Hrow].
    + apply Forall_map, Forall_forall. intros i Hi%list_elem_of_In%in_seq. destruct (wf_frame e i He ltac:(lia)) as (_ & Hl & _).
      unfold data_pkt, data_env. split; [rewrite length_app, length_envelope_bytes; unfold kEnvelopeSize; lia|].
      eexists. split; [apply read_envelope_app; unfold wf_envelope, in_range, kMagic in *; cbn; lia|].
      split_and!; try done. cbn [env_protected_len]. rewrite length_app, length_envelope_bytes. lia.
    + assert (Z.of_nat row < en_parity_count e) by (apply list_elem_of_In in Hrow as [<-|Hrow%in_seq]; lia).
      unfold parity_pkt, parity_env. split; [rewrite length_app, length_envelope_bytes, length_parity_payload; unfold kEnvelopeSize; lia|].
      eexists. split; [apply read_envelope_app; unfold wf_envelope, in_range, kMagic in *; cbn; lia|].
      split_and!; try done. cbn [env_protected_len]. rewrite length_app, length_envelope_bytes, length_parity_payload. lia.
Qed.

(** A concrete generation: three frames, two parity datagrams. *)
Definition demo_frames : list bytes := [map z2b [1; 2]; map z2b [7]; map z2b [9; 8; 9]].
Definition demo_encoder : Encoder := mkEncoder 3 2 3 demo_frames.
Definition demo_built : BuiltGeneration :=
  match Encoder_close demo_encoder 77 1 with Ok (b, _) => b | Throw _ => mkBuilt [] [] [] end.

Lemma demo_encoder_reach : enc_reach demo_encoder.
Proof.
  apply (er_add (mkEncoder 3 2 2 [map z2b [1; 2]; map z2b [7]]) (map z2b [9; 8; 9]) true); [|reflexivity].
  apply (er_add (mkEncoder 3 2 2 [map z2b [1; 2]]) (map z2b [7]) true); [|reflexivity].
  apply (er_add (mkEncoder 3 2 0 []) (map z2b [1; 2]) true); [|reflexivity].
  apply (er_make 3 2); [unfold in_range; lia..|reflexivity].
Qed.

Lemma fec_encoder_close_shape_witness :
  exists built e', Encoder_close demo_encoder 77 1 = Ok (built, e') /\ length (bg_data built) = 3%nat /\
    Z.of_nat (length (bg_parity built :: bg_extra_parity built)) = 2.
Proof.
  destruct (fec_encoder_close_shape demo_encoder 77 1 demo_encoder_reach) as (b & e' & H1 & _ & _ & H2 & H3 & _);
    [discriminate | unfold in_range; lia | unfold in_range; lia |].
  exists b, e'. split; [exact H1|]. split; [exact H2 | exact H3].
Defined.
