(* ===== verification/FecDecoder.v ===== *)
(** * FEC decoder: [fec::Decoder] of [harness/include/fec.h]

    The decoder keeps a ring of [gens_] generations indexed by [gen_id % gens_].
    [receive] takes one UDP payload, hands data frames on through the [publish]
    callback and, once parity has arrived, solves for the missing frames.  The
    callback is the code of the caller (the receiver), so it is a variable of the
    section, with its own state [P].  A generation is a reference into [slots_]
    in the code; here it is taken out by [slot] and put back on every return. *)
From S2P Require Import Prelude Message Wire Samples GF256 Gauss Fec.

Record Counters := mkCounters {
  fc_parity_received : Z; fc_recovered : Z; fc_unrecoverable_gens : Z;
  fc_recovered_by_k : Z; fc_recovered_by_timeout : Z; fc_recovered_by_flush : Z
}.
Definition zero_counters : Counters := mkCounters 0 0 0 0 0 0.

Record Generation := mkGeneration {
  gn_active : bool; gn_seen_any : bool; gn_parity_received : bool; gn_recovered : bool;
  gn_unrecoverable_counted : bool; gn_gen_id : Z; gn_k : Z; gn_parity_count : Z;
  gn_close_reason : Z; gn_first_ns : Z;
  gn_data : list bytes; gn_parities : list bytes; gn_received : list bool
}.
Definition fresh_generation : Generation :=
  mkGeneration false false false false false 0 0 0 0 0 [] [] [].

Record Decoder := mkDecoder {
  dc_recovery_events : Z; dc_recovery_k_events : Z; dc_recovery_timeout_events : Z; dc_recovery_flush_events : Z;
  dc_gens : Z; dc_slots : list Generation; dc_counters : Counters;
  dc_recovery_latencies : list Z; dc_recovery_by_k : list Z;
  dc_recovery_by_timeout : list Z; dc_recovery_by_flush : list Z
}.

Definition Decoder_make (gens : Z) : Decoder :=
  let gens := if gens =? 0 then 1 else gens in
  mkDecoder 0 0 0 0 gens (replicate (Z.to_nat gens) fresh_generation) zero_counters [] [] [] [].

(** Field updates. *)
Definition with_slots (d : Decoder) (s : list Generation) (c : Counters) : Decoder :=
  mkDecoder (dc_recovery_events d) (dc_recovery_k_events d) (dc_recovery_timeout_events d) (dc_recovery_flush_events d)
    (dc_gens d) s c (dc_recovery_latencies d) (dc_recovery_by_k d) (dc_recovery_by_timeout d) (dc_recovery_by_flush d).
Definition with_counters (d : Decoder) (c : Counters) : Decoder := with_slots d (dc_slots d) c.

Definition gn_mark_unrecoverable (g : Generation) : Generation :=
  mkGeneration (gn_active g) (gn_seen_any g) (gn_parity_received g) (gn_recovered g) true
    (gn_gen_id g) (gn_k g) (gn_parity_count g) (gn_close_reason g) (gn_first_ns g) (gn_data g) (gn_parities g) (gn_received g).
Definition gn_mark_recovered (g : Generation) : Generation :=
  mkGeneration (gn_active g) (gn_seen_any g) (gn_parity_received g) true (gn_unrecoverable_counted g)
    (gn_gen_id g) (gn_k g) (gn_parity_count g) (gn_close_reason g) (gn_first_ns g) (gn_data g) (gn_parities g) (gn_received g).
Definition gn_with_data (g : Generation) (k : Z) (data : list bytes) (received : list bool) : Generation :=
  mkGeneration (gn_active g) (gn_seen_any g) (gn_parity_received g) (gn_recovered g) (gn_unrecoverable_counted g)
    (gn_gen_id g) k (gn_parity_count g) (gn_close_reason g) (gn_first_ns g) data (gn_parities g) received.
Definition gn_with_parities (g : Generation) (parity_received : bool) (parity_count close_reason : Z) (parities : list bytes) : Generation :=
  mkGeneration (gn_active g) (gn_seen_any g) parity_received (gn_recovered g) (gn_unrecoverable_counted g)
    (gn_gen_id g) (gn_k g) parity_count close_reason (gn_first_ns g) (gn_data g) parities (gn_received g).

(** [gen.seen_any = true; gen.first_ns = gen.first_ns == 0 ? now_ns : gen.first_ns]. *)
Definition gn_touch (g : Generation) (now_ns : Z) : Generation :=
  mkGeneration (gn_active g) true (gn_parity_received g) (gn_recovered g) (gn_unrecoverable_counted g)
    (gn_gen_id g) (gn_k g) (gn_parity_count g) (gn_close_reason g)
    (if gn_first_ns g =? 0 then now_ns else gn_first_ns g) (gn_data g) (gn_parities g) (gn_received g).

(** ** [finalize], [slot], [ensure] *)
Fixpoint finalize_missing (received : list bool) (k i : nat) : Z :=
  match k with
  | O => 0
  | S k' =>
    let rest := finalize_missing received k' (S i) in
    match received !! i with Some true => rest | _ => u16 (rest + 1) end
  end.

Definition finalize (c : Counters) (g : Generation) : Counters * Generation :=
  if negb (gn_active g) || negb (gn_parity_received g) || gn_recovered g || gn_unrecoverable_counted g || (gn_k g =? 0)
  then (c, g)
  else
    let missing := finalize_missing (gn_received g) (Z.to_nat (gn_k g)) 0 in
    if 0 <? missing
    then (mkCounters (fc_parity_received c) (fc_recovered c) (u64 (fc_unrecoverable_gens c + 1))
            (fc_recovered_by_k c) (fc_recovered_by_timeout c) (fc_recovered_by_flush c), gn_mark_unrecoverable g)
    else (c, g).

Definition slot_index (d : Decoder) (gen_id : Z) : nat := Z.to_nat (gen_id mod dc_gens d).

Definition slot (d : Decoder) (gen_id k now_ns : Z) : res (Decoder * Generation) :=
  if dc_gens d =? 0 then Throw DivideByZero
  else
    let! gen := vget (dc_slots d) (slot_index d gen_id) in
    if negb (gn_active gen) || negb (gn_gen_id gen =? gen_id) then
      let '(c, _) := finalize (dc_counters d) gen in
      Ok (with_counters d c, mkGeneration true false false false false gen_id k 0 0 now_ns [] [] [])
    else Ok (d, gen).

(** The write through the reference returned by [slot]. *)
Definition put (d : Decoder) (gen_id : Z) (g : Generation) : Decoder :=
  with_slots d (<[slot_index d gen_id := g]> (dc_slots d)) (dc_counters d).

Definition ensure (g : Generation) (k : Z) : Generation :=
  let k := if (gn_k g =? 0) || (k <? gn_k g) then k else gn_k g in
  if Z.of_nat (length (gn_data g)) <? k
  then gn_with_data g k (vresize (Z.to_nat k) [] (gn_data g)) (vresize (Z.to_nat k) false (gn_received g))
  else gn_with_data g k (gn_data g) (gn_received g).

(** ** [try_recover] *)
Definition count_missing (g : Generation) : res Z :=
  forM (List.seq 0 (Z.to_nat (gn_k g)))
       (fun i missing => let! r := vget (gn_received g) i in Ok (if r then u16 (missing - 1) else missing)) (gn_k g).

Definition list_absent (g : Generation) : res (list nat) :=
  forM (List.seq 0 (Z.to_nat (gn_k g)))
       (fun i absent => let! r := vget (gn_received g) i in Ok (if r then absent else absent ++ [i])) [].


Definition list_rows (g : Generation) : res (list nat) :=
  forM (List.seq 0 (length (gn_parities g)))
       (fun i rows => let! p := vget (gn_parities g) i in Ok (if is_nil p then rows else rows ++ [i])) [].

(** Row [r] of the matrix. *)
Definition matrix_row (row : nat) (absent : list nat) (missing : nat) : res bytes :=
  forM (List.seq 0 missing)
       (fun c out => let! a := vget absent c in
                     let! x := coefficient (Z.of_nat row) (Z.of_nat a) in
                     vset out c x) (replicate missing b0).

(** Subtracts the received frames from one right-hand side; [None] is the early
    [return false] on a frame wider than the parity. *)
Fixpoint reduce_rhs (g : Generation) (row width : nat) (cs : list nat) (rhs : bytes) : res (option bytes) :=
  match cs with
  | [] => Ok (Some rhs)
  | c :: cs' =>
    let! r := vget (gn_received g) c in
    if r then
      let! d := vget (gn_data g) c in
      if (width <? length d)%nat then Ok None
      else
        let! factor := coefficient (Z.of_nat row) (Z.of_nat c) in
        let! rhs := xor_scaled (length d) factor rhs d in
        reduce_rhs g row width cs' rhs
    else reduce_rhs g row width cs' rhs
  end.

Fixpoint build_system (g : Generation) (rows absent : list nat) (missing width : nat) (rs : list nat)
    (matrix rhs : list bytes) : res (option (list bytes * list bytes)) :=
  match rs with
  | [] => Ok (Some (matrix, rhs))
  | r :: rs' =>
    let! row := vget rows r in
    let! parity := vget (gn_parities g) row in
    let! mrow := matrix_row row absent missing in
    let! matrix := vset matrix r mrow in
    let! o := reduce_rhs g row width (List.seq 0 (Z.to_nat (gn_k g))) parity in
    match o with
    | None => Ok None
    | Some v => build_system g rows absent missing width rs' matrix (rhs ++ [v])
    end
  end.

(** The first loop over the solutions: every length must be plausible. *)
Fixpoint lengths_ok (width : nat) (rs : list nat) (rhs : list bytes) : res bool :=
  match rs with
  | [] => Ok true
  | r :: rs' =>
    let! recovered := vget rhs r in
    let! len := get_u16 recovered in
    if (len =? 0) || (Z.of_nat max_frame <? len) || (Z.of_nat width <? len + 2) then Ok false
    else lengths_ok width rs' rhs
  end.

Definition count_recovered (c : Counters) (close_reason : Z) : Counters :=
  let r := u64 (fc_recovered c + 1) in
  if close_reason =? 0
  then mkCounters (fc_parity_received c) r (fc_unrecoverable_gens c) (u64 (fc_recovered_by_k c + 1)) (fc_recovered_by_timeout c) (fc_recovered_by_flush c)
  else if close_reason =? 1
  then mkCounters (fc_parity_received c) r (fc_unrecoverable_gens c) (fc_recovered_by_k c) (u64 (fc_recovered_by_timeout c + 1)) (fc_recovered_by_flush c)
  else mkCounters (fc_parity_received c) r (fc_unrecoverable_gens c) (fc_recovered_by_k c) (fc_recovered_by_timeout c) (u64 (fc_recovered_by_flush c + 1)).

(** The telemetry at the end of [try_recover]. *)
Definition record_recovery (d : Decoder) (close_reason latency : Z) : res Decoder :=
  let ev := u64 (dc_recovery_events d + 1) in
  let! lat := sample (dc_recovery_latencies d) latency ev in
  if close_reason =? 0 then
    let e := u64 (dc_recovery_k_events d + 1) in
    let! v := sample (dc_recovery_by_k d) latency e in
    Ok (mkDecoder ev e (dc_recovery_timeout_events d) (dc_recovery_flush_events d) (dc_gens d) (dc_slots d) (dc_counters d)
          lat v (dc_recovery_by_timeout d) (dc_recovery_by_flush d))
  else if close_reason =? 1 then
    let e := u64 (dc_recovery_timeout_events d + 1) in
    let! v := sample (dc_recovery_by_timeout d) latency e in
    Ok (mkDecoder ev (dc_recovery_k_events d) e (dc_recovery_flush_events d) (dc_gens d) (dc_slots d) (dc_counters d)
          lat (dc_recovery_by_k d) v (dc_recovery_by_flush d))
  else
    let e := u64 (dc_recovery_flush_events d + 1) in
    let! v := sample (dc_recovery_by_flush d) latency e in
    Ok (mkDecoder ev (dc_recovery_k_events d) (dc_recovery_timeout_events d) e (dc_gens d) (dc_slots d) (dc_counters d)
          lat (dc_recovery_by_k d) (dc_recovery_by_timeout d) v).

Section Receive.
Context {P : Type}.
(** [publish(data, len, recovered, close_reason)]. *)
Variable publish : bytes -> bool -> Z -> P -> res (bool * P).

(** The second loop over the solutions. *)
Fixpoint publish_recovered (absent : list nat) (rhs : list bytes) (rs : list nat) (d : Decoder) (g : Generation) (p : P)
    : res (bool * Decoder * Generation * P) :=
  match rs with
  | [] => Ok (true, d, g, p)
  | r :: rs' =>
    let! recovered := vget rhs r in
    let! len := get_u16 recovered in
    let! '(ok, p) := publish (take (Z.to_nat len) (drop 2 recovered)) true (gn_close_reason g) p in
    if negb ok then Ok (false, d, g, p)
    else
      let! a := vget absent r in
      let! received := vset (gn_received g) a true in
      let! data := vset (gn_data g) a recovered in
      publish_recovered absent rhs rs' (with_counters d (count_recovered (dc_counters d) (gn_close_reason g)))
        (gn_with_data g (gn_k g) data received) p
  end.

Definition try_recover (d : Decoder) (g : Generation) (now_ns : Z) (p : P) : res (bool * Decoder * Generation * P) :=
  if negb (gn_parity_received g) || gn_recovered g || (gn_k g =? 0) then Ok (true, d, g, p)
  else
  let! missing := count_missing g in
  if missing =? 0 then Ok (true, d, g, p)
  else
  let missing := Z.to_nat missing in
  let! absent := list_absent g in
  let! rows := list_rows g in
  if (length rows <? missing)%nat then Ok (true, d, g, p)
  else
  let rows := vresize missing 0%nat rows in
  let! row0 := vget rows 0 in
  let! parity0 := vget (gn_parities g) row0 in
  let width := length parity0 in
  let! sys := build_system g rows absent missing width (List.seq 0 missing)
                (replicate missing (replicate missing b0)) [] in
  match sys with
  | None => Ok (false, d, g, p)
  | Some (matrix, rhs) =>
    let! solved := gauss missing width matrix rhs in
    match solved with
    | None => Ok (false, d, g, p)
    | Some (_, rhs) =>
      let! ok := lengths_ok width (List.seq 0 missing) rhs in
      if negb ok then Ok (false, d, g, p)
      else
        let! '(ok, d, g, p) := publish_recovered absent rhs (List.seq 0 missing) d g p in
        if negb ok then Ok (false, d, g, p)
        else
          let g := gn_mark_recovered g in
          let latency := if gn_first_ns g <=? now_ns then now_ns - gn_first_ns g else 0 in
          let! d := record_recovery d (gn_close_reason g) latency in
          Ok (true, d, g, p)
    end
  end.

(** [return try_recover(gen, now_ns, publish)]. *)
Definition recover_and_put (d : Decoder) (gen_id : Z) (g : Generation) (now_ns : Z) (p : P) : res (bool * Decoder * P) :=
  let! '(ok, d, g, p) := try_recover d g now_ns p in
  Ok (ok, put d gen_id g, p).

(** The branch of [receive] for [parity_count == 0]. *)
Definition receive_data (d : Decoder) (e : Envelope) (payload : bytes) (now_ns : Z) (p : P) : res (bool * Decoder * P) :=
  let payload_len := Z.of_nat (length payload) in
  if (payload_len =? 0) || negb (payload_len =? env_protected_len e) || (Z.of_nat max_frame <? env_protected_len e) ||
     (env_k e <=? env_index e) then Ok (false, d, p)
  else
  let! '(d, g) := slot d (env_gen_id e) (env_k e) now_ns in
  if (env_k e <? gn_k g) || (negb (gn_parity_received g) && negb (env_k e =? gn_k g))
  then Ok (false, put d (env_gen_id e) g, p)
  else
  let g := ensure g (env_k e) in
  if gn_k g <=? env_index e then Ok (false, put d (env_gen_id e) g, p)
  else
  let g := gn_touch g now_ns in
  let! '(ok, p) := publish payload false (gn_close_reason g) p in
  if negb ok then Ok (false, put d (env_gen_id e) g, p)
  else
  let! block := protected_frame payload (env_protected_len e) in
  let! data := vset (gn_data g) (Z.to_nat (env_index e)) block in
  let! received := vset (gn_received g) (Z.to_nat (env_index e)) true in
  recover_and_put d (env_gen_id e) (gn_with_data g (gn_k g) data received) now_ns p.

(** The branch for a parity datagram. *)
Definition receive_parity (d : Decoder) (e : Envelope) (payload : bytes) (now_ns : Z) (p : P) : res (bool * Decoder * P) :=
  let payload_len := Z.of_nat (length payload) in
  if (16 <? env_parity_count e) || (env_index e <? env_k e) || (env_k e + env_parity_count e <=? env_index e) ||
     negb (env_protected_len e =? payload_len) || (payload_len <? 2) || (Z.of_nat max_frame + 2 <? payload_len)
  then Ok (false, d, p)
  else
  let c := dc_counters d in
  let d := with_counters d (mkCounters (u64 (fc_parity_received c + 1)) (fc_recovered c) (fc_unrecoverable_gens c)
                              (fc_recovered_by_k c) (fc_recovered_by_timeout c) (fc_recovered_by_flush c)) in
  let! '(d, g) := slot d (env_gen_id e) (env_k e) now_ns in
  if gn_parity_received g && (negb (gn_k g =? env_k e) || negb (gn_parity_count g =? env_parity_count e) ||
                              negb (gn_close_reason g =? env_close_reason e))
  then Ok (false, put d (env_gen_id e) g, p)
  else if gn_k g <? env_k e then Ok (false, put d (env_gen_id e) g, p)
  else if existsb (fun r => r) (drop (Z.to_nat (env_k e)) (gn_received g)) then Ok (false, put d (env_gen_id e) g, p)
  else
  let g := gn_touch (ensure g (env_k e)) now_ns in
  let row := Z.to_nat (env_index e - env_k e) in
  let parities := if is_nil (gn_parities g) then replicate 16 [] else gn_parities g in
  let g := gn_with_parities g (gn_parity_received g) (env_parity_count e) (env_close_reason e) parities in
  if existsb (fun q => negb (is_nil q) && negb (length q =? length payload)%nat) parities
  then Ok (false, put d (env_gen_id e) g, p)
  else
  let! parities := vset parities row payload in
  recover_and_put d (env_gen_id e) (gn_with_parities g true (env_parity_count e) (env_close_reason e) parities) now_ns p.

Definition receive (d : Decoder) (data : bytes) (now_ns : Z) (p : P) : res (bool * Decoder * P) :=
  let raw := let! '(ok, p) := publish data false 0 p in Ok (ok, d, p) in
  if (length data <? kEnvelopeSize)%nat then raw
  else
  let! e := read_envelope data in
  if negb (env_magic e =? kMagic) then raw
  else if (env_k e =? 0) || (kMaxGeneration <? env_k e) || (2 <? env_close_reason e) then Ok (false, d, p)
  else
  let payload := drop kEnvelopeSize data in
  if env_parity_count e =? 0 then receive_data d e payload now_ns p
  else receive_parity d e payload now_ns p.
End Receive.

(** [for(auto& gen:slots_) ...], threading the counters. *)
Fixpoint sweep (f : Counters -> Generation -> Counters * Generation) (c : Counters) (gs : list Generation) : Counters * list Generation :=
  match gs with
  | [] => (c, [])
  | g :: gs' => let '(c, g) := f c g in let '(c, gs') := sweep f c gs' in (c, g :: gs')
  end.

Definition expire_one (now_ns ttl_ns : Z) (c : Counters) (g : Generation) : Counters * Generation :=
  if gn_active g && (ttl_ns <=? u64 (now_ns - gn_first_ns g))
  then (fst (finalize c g), fresh_generation) else (c, g).

Definition expire (d : Decoder) (now_ns ttl_ns : Z) : Decoder :=
  let '(c, s) := sweep (expire_one now_ns ttl_ns) (dc_counters d) (dc_slots d) in with_slots d s c.

Definition retire_all (d : Decoder) : Decoder :=
  let '(c, s) := sweep finalize (dc_counters d) (dc_slots d) in with_slots d s c.

(** ** The system [try_recover] builds *)
Definition recv (g : Generation) (i : nat) : bool := nth i (gn_received g) false.
Definition absent_of (g : Generation) : list nat :=
  List.filter (fun i => negb (recv g i)) (List.seq 0 (Z.to_nat (gn_k g))).
Definition rows_of (g : Generation) : list nat :=
  List.filter (fun i => negb (is_nil (nth i (gn_parities g) []))) (List.seq 0 (length (gn_parities g))).

(** A loop that collects the indices whose flag is down. *)
Lemma forM_filter {A} (f : nat -> res A) (v : nat -> A) (p : A -> bool) (l acc : list nat) :
  (forall i, In i l -> f i = Ok (v i)) ->
  forM l (fun i out => let! x := f i in Ok (if p x then out else out ++ [i])) acc =
  Ok (acc ++ List.filter (fun i => negb (p (v i))) l).
Proof.
  revert acc. induction l as [|i l IH]; intros acc H; cbn; [by rewrite app_nil_r|].
  rewrite (H i) by (cbn; auto). cbn [rbind]. destruct (p (v i)); cbn [negb];
    rewrite IH by (intros; apply H; cbn; auto); [done|]. by rewrite <- app_assoc.
Qed.

Section System.
Variable g : Generation.
Hypothesis Hk : 0 <= gn_k g <= 128.
Hypothesis Hlen : length (gn_received g) = length (gn_data g).
Hypothesis Hcap : gn_k g <= Z.of_nat (length (gn_data g)).

Lemma vget_recv (i : nat) : In i (List.seq 0 (Z.to_nat (gn_k g))) -> vget (gn_received g) i = Ok (recv g i).
Proof using Hk Hlen Hcap. intros Hi%in_seq. apply vget_nth. lia. Qed.

Lemma list_absent_ok : list_absent g = Ok (absent_of g).
Proof using Hk Hlen Hcap. unfold list_absent. rewrite (forM_filter _ (recv g) (fun r => r)); [done|]. apply vget_recv. Qed.

Lemma list_rows_ok : list_rows g = Ok (rows_of g).
Proof using.
  clear Hk Hlen Hcap. unfold list_rows. rewrite (forM_filter _ (fun i => nth i (gn_parities g) []) is_nil); [done|].
  intros i Hi%in_seq. apply vget_nth. lia.
Qed.

Lemma count_missing_ok : count_missing g = Ok (Z.of_nat (length (absent_of g))).
Proof using Hk Hlen Hcap.
  unfold count_missing, absent_of.
  assert (forall l m, (forall i, In i l -> vget (gn_received g) i = Ok (recv g i)) ->
    Z.of_nat (length l) <= m <= 128 ->
    forM l (fun i missing => let! r := vget (gn_received g) i in Ok (if r then u16 (missing - 1) else missing)) m =
    Ok (m - Z.of_nat (length l) + Z.of_nat (length (List.filter (fun i => negb (recv g i)) l)))) as H.
  { induction l as [|i l IH]; intros m Hv Hm; cbn [forM length List.filter]; [f_equal; cbn; lia|].
    rewrite Hv by (cbn; auto). cbn [rbind length] in *. rewrite IH; [..|intros; apply Hv; cbn; auto|].
    - f_equal. destruct (recv g i); cbn [negb length]; [rewrite wrap_small by (unfold in_range; lia)|]; lia.
    - destruct (recv g i); [rewrite wrap_small by (unfold in_range; lia)|]; lia. }
  rewrite H; [f_equal; rewrite length_seq; lia | apply vget_recv | rewrite length_seq; lia].
Qed.

Lemma absent_lt (i : nat) : In i (absent_of g) -> (i < Z.to_nat (gn_k g))%nat /\ recv g i = false.
Proof using. clear Hk Hlen Hcap. intros [Hi%in_seq Hn]%filter_In. split; [lia|]. by apply negb_true_iff. Qed.

Lemma rows_lt (i : nat) : In i (rows_of g) -> (i < length (gn_parities g))%nat /\ nth i (gn_parities g) [] <> [].
Proof using. clear Hk Hlen Hcap. intros [Hi%in_seq Hn]%filter_In. split; [lia|]. by destruct (nth i _ _). Qed.

Lemma matrix_row_ok (row : nat) (absent : list nat) :
  (row < 128)%nat -> (forall a, In a absent -> (a < 128)%nat) ->
  matrix_row row absent (length absent) = Ok (map (fun a => coef (Z.of_nat row) (Z.of_nat a)) absent).
Proof using.
  clear Hk Hlen Hcap. intros Hr Ha. unfold matrix_row. set (f := fun a => coef (Z.of_nat row) (Z.of_nat a)). set (n := length absent).
  destruct (forM_seq_invariant (fun i (out : bytes) => length out = n /\
      forall j, (j < i)%nat -> nth j out b0 = f (nth j absent 0%nat))
    (fun c out => let! a := vget absent c in let! x := coefficient (Z.of_nat row) (Z.of_nat a) in vset out c x) n (replicate n b0))
    as (out & -> & Hl & He).
  - split; [apply length_replicate | lia].
  - intros i out Hi [Hl He]. rewrite (vget_nth absent i 0%nat) by (unfold n in *; lia). cbn [rbind].
    assert (nth i absent 0%nat < 128)%nat by (apply Ha, nth_In; exact Hi).
    rewrite coefficient_ok by lia. cbn [rbind]. rewrite vset_lt by lia. eexists. split; [reflexivity|].
    split; [by rewrite length_insert|]. intros j Hj. rewrite nth_insert by lia.
    destruct (Nat.eqb_spec j i) as [->|]; [reflexivity|]. apply He. lia.
  - f_equal. apply (nth_ext _ _ b0 (f 0%nat)); [by rewrite length_map|].
    intros j Hj. rewrite He by lia. by rewrite map_nth.
Qed.

(** [v] is the parity minus the received frames among the first [c]. *)
Definition reduced (row width c : nat) (parity v : bytes) : Prop :=
  length v = width /\ forall j, (j < width)%nat -> nth j v b0 =
    bxor (nth j parity b0)
      (bsum (fun c => if recv g c then mul (coef (Z.of_nat row) (Z.of_nat c)) (nth j (nth c (gn_data g) []) b0) else b0) c).

Lemma reduce_rhs_ok (row width : nat) (parity : bytes) (n c : nat) (v : bytes) :
  (row < 128)%nat -> (c + n = Z.to_nat (gn_k g))%nat -> reduced row width c parity v ->
  exists o, reduce_rhs g row width (List.seq c n) v = Ok o /\
    (forall v', o = Some v' -> reduced row width (Z.to_nat (gn_k g)) parity v') /\
    ((forall i, recv g i = true -> (length (nth i (gn_data g) []) <= width)%nat) -> o <> None).
Proof using Hk Hlen Hcap.
  intros Hrow. revert c v. induction n as [|n IH]; intros c v Hc Hv; cbn [List.seq reduce_rhs].
  - exists (Some v). split; [done|]. split; [|done]. intros v' [= <-]. by replace (Z.to_nat (gn_k g)) with c by lia.
  - rewrite vget_recv by (apply in_seq; lia). cbn [rbind]. destruct Hv as [Hl He].
    destruct (recv g c) eqn:Hr.
    + rewrite (vget_nth (gn_data g) c []) by lia. cbn [rbind].
      destruct (Nat.ltb_spec width (length (nth c (gn_data g) []))) as [Hw|Hw].
      { exists None. split; [done|]. split; [done|]. intros Hall. specialize (Hall c Hr). lia. }
      rewrite coefficient_ok by lia. cbn [rbind].
      destruct (xor_scaled_ok (length (nth c (gn_data g) [])) (coef (Z.of_nat row) (Z.of_nat c)) v (nth c (gn_data g) []))
        as (out & -> & Hlo & Ho); [lia..|]. cbn [rbind]. apply IH; [lia|]. split; [lia|].
      intros j Hj. rewrite Ho. cbn [bsum]. rewrite Hr, He by exact Hj. rewrite bxor_assoc.
      destruct (Nat.ltb_spec j (length (nth c (gn_data g) []))) as [?|Hge]; [reflexivity|].
      rewrite (nth_overflow (nth c (gn_data g) [])) by exact Hge. rewrite mul_0_r. symmetry. apply bxor_0_r.
    + apply IH; [lia|]. split; [done|]. intros j Hj. cbn [bsum]. rewrite Hr, bxor_0_r. apply He. exact Hj.
Qed.

(** The rows of the system the solver is given. *)
Definition cauchy_row (row : nat) : bytes := map (fun a => coef (Z.of_nat row) (Z.of_nat a)) (absent_of g).

Definition system_ok (rows : list nat) (width r : nat) (mrow v : bytes) : Prop :=
  mrow = cauchy_row (nth r rows 0%nat) /\
  reduced (nth r rows 0%nat) width (Z.to_nat (gn_k g)) (nth (nth r rows 0%nat) (gn_parities g) []) v.

Definition rows_fit (rows : list nat) (width : nat) : Prop :=
  length rows = length (absent_of g) /\
  forall r, (r < length rows)%nat -> (nth r rows 0 < 128)%nat /\ (nth r rows 0 < length (gn_parities g))%nat /\
    length (nth (nth r rows 0%nat) (gn_parities g) []) = width.

Lemma build_system_ok (rows : list nat) (width k r : nat) (matrix rhs : list bytes) :
  rows_fit rows width -> (r + k = length (absent_of g))%nat ->
  length matrix = length (absent_of g) -> length rhs = r ->
  (forall i, (i < r)%nat -> system_ok rows width i (nth i matrix []) (nth i rhs [])) ->
  exists o, build_system g rows (absent_of g) (length (absent_of g)) width (List.seq r k) matrix rhs = Ok o /\
    (forall m b, o = Some (m, b) -> length m = length (absent_of g) /\ length b = length (absent_of g) /\
       forall i, (i < length (absent_of g))%nat -> system_ok rows width i (nth i m []) (nth i b [])) /\
    ((forall i, recv g i = true -> (length (nth i (gn_data g) []) <= width)%nat) -> o <> None).
Proof using Hk Hlen Hcap.
  intros [Hrl Hrows]. revert r matrix rhs. induction k as [|k IH]; intros r matrix rhs Hr Hlm Hlr Hdone; cbn [List.seq build_system].
  - exists (Some (matrix, rhs)). split; [done|]. split; [|done]. intros m b [= <- <-].
    split; [done|]. split; [lia|]. intros i Hi. apply Hdone. lia.
  - destruct (Hrows r ltac:(lia)) as (H128 & Hpar & Hw).
    rewrite (vget_nth rows r 0%nat) by lia. cbn [rbind].
    rewrite (vget_nth (gn_parities g) _ []) by exact Hpar. cbn [rbind].
    rewrite matrix_row_ok; [| exact H128 | intros a Ha%absent_lt; lia]. cbn [rbind].
    rewrite vset_lt by lia. cbn [rbind].
    destruct (reduce_rhs_ok (nth r rows 0%nat) width (nth (nth r rows 0%nat) (gn_parities g) []) (Z.to_nat (gn_k g)) 0
                (nth (nth r rows 0%nat) (gn_parities g) [])) as (o & -> & Ho & Hno).
    { exact H128. } { lia. }
    { split; [exact Hw|]. intros j Hj. cbn [bsum]. symmetry. apply bxor_0_r. }
    cbn [rbind]. destruct o as [v|]; [|exists None; split; [done|]; split; [done|]; intros H _; by destruct (Hno H)].
    apply IH; [lia | by rewrite length_insert | rewrite length_app; cbn; lia |].
    intros i Hi. rewrite nth_insert by lia. destruct (Nat.eqb_spec i r) as [->|].
    + split; [reflexivity|]. rewrite app_nth2, Hlr, Nat.sub_diag by lia. cbn [nth]. by apply Ho.
    + rewrite app_nth1 by lia. apply Hdone. lia.
Qed.
End System.

(** ** The invariant of the decoder *)
Record wf_gen (g : Generation) : Prop := {
  wg_k : 0 <= gn_k g <= 128;
  wg_len : length (gn_received g) = length (gn_data g);
  wg_cap : gn_parity_received g = true -> gn_k g <= Z.of_nat (length (gn_data g));
  wg_parities : gn_parities g = [] \/ length (gn_parities g) = 16%nat;
  wg_width : exists w, (2 <= w)%nat /\ forall q, In q (gn_parities g) -> q <> [] -> length q = w
}.

(** Every recovered frame is attributed to exactly one close reason. *)
Definition wf_counters (c : Counters) : Prop :=
  fc_recovered c = u64 (fc_recovered_by_k c + fc_recovered_by_timeout c + fc_recovered_by_flush c).

Definition sample_state (n events : Z) (values : list Z) : Prop :=
  0 <= events <= n /\ (length values <= kSampleLimit)%nat.

(** [n] bounds the number of recoveries so far. *)
Record wf_decoder (n : Z) (d : Decoder) : Prop := {
  wd_gens : 1 <= dc_gens d;
  wd_slots : Z.of_nat (length (dc_slots d)) = dc_gens d;
  wd_gen : Forall wf_gen (dc_slots d);
  wd_counters : wf_counters (dc_counters d);
  wd_all : sample_state n (dc_recovery_events d) (dc_recovery_latencies d);
  wd_by_k : sample_state n (dc_recovery_k_events d) (dc_recovery_by_k d);
  wd_by_timeout : sample_state n (dc_recovery_timeout_events d) (dc_recovery_by_timeout d);
  wd_by_flush : sample_state n (dc_recovery_flush_events d) (dc_recovery_by_flush d)
}.

Lemma sample_state_mono (n m ev : Z) (v : list Z) : n <= m -> sample_state n ev v -> sample_state m ev v.
Proof. unfold sample_state. intros H [? ?]. split; [lia|done]. Qed.

Lemma wf_decoder_mono (n m : Z) (d : Decoder) : n <= m -> wf_decoder n d -> wf_decoder m d.
Proof. intros H []. constructor; try done; by eapply sample_state_mono. Qed.

Lemma sample_state_step (n ev x : Z) (v : list Z) :
  sample_state n ev v -> n + 1 < 2 ^ 64 ->
  exists v', sample v x (u64 (ev + 1)) = Ok v' /\ sample_state (n + 1) (u64 (ev + 1)) v'.
Proof.
  intros [He Hl] Hn. rewrite wrap_small by (unfold in_range; lia).
  destruct (sample_ok v x (ev + 1)) as (v' & -> & Hl' & _); [done|lia|]. exists v'. split; [done|]. split; [lia|done].
Qed.

Lemma wf_fresh : wf_gen fresh_generation.
Proof. constructor; cbn; try done; try lia; auto. by exists 2%nat. Qed.

Lemma Decoder_make_wf (gens : Z) : 0 <= gens -> wf_decoder 0 (Decoder_make gens).
Proof.
  intros Hg. unfold Decoder_make. assert (1 <= (if gens =? 0 then 1 else gens)) by (destruct (Z.eqb_spec gens 0); lia).
  constructor; cbn; try done; try (split; [lia | apply Nat.le_0_l]).
  - rewrite length_replicate. lia.
  - apply Forall_replicate, wf_fresh.
Qed.

Lemma finalize_wf (c : Counters) (g : Generation) :
  wf_counters c -> wf_gen g -> wf_counters (fst (finalize c g)) /\ wf_gen (snd (finalize c g)).
Proof.
  intros Hc Hg. unfold finalize. destruct (_ || _ || _ || _ || _); [done|]. destruct (0 <? _); [|done].
  split; [exact Hc|]. destruct Hg. by constructor.
Qed.

Lemma put_wf (n : Z) (d : Decoder) (gid : Z) (g : Generation) : wf_decoder n d -> wf_gen g -> wf_decoder n (put d gid g).
Proof.
  intros [] Hg. constructor; cbn; try done; [by rewrite length_insert | by apply Forall_insert].
Qed.

Lemma with_counters_wf (n : Z) (d : Decoder) (c : Counters) : wf_decoder n d -> wf_counters c -> wf_decoder n (with_counters d c).
Proof. intros [] Hc. by constructor. Qed.

Lemma slot_index_lt (n : Z) (d : Decoder) (gid : Z) : wf_decoder n d -> (slot_index d gid < length (dc_slots d))%nat.
Proof.
  intros [Hg Hs]. unfold slot_index. pose proof (Z.mod_pos_bound gid (dc_gens d) ltac:(lia)). lia.
Qed.

Definition new_generation (gid k now_ns : Z) : Generation :=
  mkGeneration true false false false false gid k 0 0 now_ns [] [] [].

Lemma wf_new (gid k now : Z) : 0 <= k <= 128 -> wf_gen (new_generation gid k now).
Proof. intros Hk. constructor; cbn; try done; auto. by exists 2%nat. Qed.

Lemma slot_ok (n : Z) (d : Decoder) (gid k now : Z) :
  wf_decoder n d -> 0 <= k <= 128 ->
  exists c g, slot d gid k now = Ok (with_counters d c, g) /\ wf_counters c /\ wf_gen g /\
    (dc_slots d !! slot_index d gid = Some g \/ g = new_generation gid k now).
Proof.
  intros Hd Hk. unfold slot. destruct (Z.eqb_spec (dc_gens d) 0) as [E|_]; [pose proof (wd_gens _ _ Hd); lia|].
  destruct (vget_lt (dc_slots d) (slot_index d gid) (slot_index_lt n d gid Hd)) as (g & -> & Hl). cbn [rbind].
  pose proof (wd_gen _ _ Hd) as Hall. pose proof (Forall_lookup_1 _ _ _ _ Hall Hl) as Hg.
  pose proof (finalize_wf _ _ (wd_counters _ _ Hd) Hg) as [Hc _].
  destruct (negb _ || negb _).
  - destruct (finalize (dc_counters d) g) as [c g']. cbn in Hc. exists c, (new_generation gid k now).
    split; [done|]. split; [done|]. split; [by apply wf_new | by right].
  - exists (dc_counters d), g. split; [by destruct d|]. split; [apply Hd|]. auto.
Qed.

Lemma ensure_wf (g : Generation) (k : Z) :
  wf_gen g -> 0 <= k <= 128 ->
  wf_gen (ensure g k) /\ gn_k (ensure g k) <= Z.of_nat (length (gn_data (ensure g k))).
Proof.
  intros [Hk Hl Hc Hp Hw] Hk'. unfold ensure. set (k' := if _ || _ then k else gn_k g).
  assert (0 <= k' <= 128) by (unfold k'; destruct (_ || _); lia).
  destruct (Z.ltb_spec (Z.of_nat (length (gn_data g))) k').
  - split; [constructor|]; cbn; try done; rewrite ?length_vresize; lia.
  - split; [constructor|]; cbn; try done; lia.
Qed.

Lemma touch_wf (g : Generation) (now : Z) : wf_gen g -> wf_gen (gn_touch g now).
Proof. intros []. by constructor. Qed.

Lemma wf_gen_data (g : Generation) (i : nat) (b : bool) (x : bytes) :
  wf_gen g -> wf_gen (gn_with_data g (gn_k g) (<[i:=x]> (gn_data g)) (<[i:=b]> (gn_received g))).
Proof. intros []. constructor; cbn; rewrite ?length_insert; done. Qed.

(** ** Every path returns *)
Lemma get_u16_ok (v : bytes) : (2 <= length v)%nat -> exists x, get_u16 v = Ok x /\ 0 <= x.
Proof.
  intros H. destruct v as [|a [|b v]]; cbn in H; try lia. eexists. split; [reflexivity|].
  apply Z.lor_nonneg. split; [apply b2z_range|]. apply wrap_range. lia.
Qed.

Lemma lengths_ok_total (n w : nat) (rhs : list bytes) (rs : list nat) :
  shape n w rhs -> (2 <= w)%nat -> (forall r, In r rs -> (r < n)%nat) ->
  exists b, lengths_ok w rs rhs = Ok b.
Proof.
  intros [Hl Hw] H2. induction rs as [|r rs IH]; intros Hr; cbn [lengths_ok]; [by exists true|].
  assert (r < n)%nat by (apply Hr; cbn; auto).
  rewrite (vget_nth rhs r []) by lia. cbn [rbind].
  destruct (get_u16_ok (nth r rhs [])) as (x & -> & _); [rewrite Hw; lia|]. cbn [rbind].
  destruct (_ || _ || _); [by exists false|]. apply IH. intros; apply Hr; cbn; auto.
Qed.

Lemma count_recovered_wf (c : Counters) (reason : Z) : wf_counters c -> wf_counters (count_recovered c reason).
Proof.
  unfold wf_counters, count_recovered. intros ->. rewrite wrap_add_l.
  set (k := fc_recovered_by_k c). set (t := fc_recovered_by_timeout c). set (f := fc_recovered_by_flush c).
  destruct (reason =? 0); [|destruct (reason =? 1)]; cbn [fc_recovered fc_recovered_by_k fc_recovered_by_timeout fc_recovered_by_flush];
    fold k t f; [replace (u64 (k + 1) + t + f) with (u64 (k + 1) + (t + f)) by lia | replace (k + u64 (t + 1) + f) with (u64 (t + 1) + (k + f)) by lia
    | replace (k + t + u64 (f + 1)) with (u64 (f + 1) + (k + t)) by lia]; rewrite wrap_add_l; f_equal; lia.
Qed.

Lemma record_recovery_ok (n : Z) (d : Decoder) (reason latency : Z) :
  wf_decoder n d -> n + 1 < 2 ^ 64 ->
  exists d', record_recovery d reason latency = Ok d' /\ wf_decoder (n + 1) d' /\
    dc_gens d' = dc_gens d /\ dc_slots d' = dc_slots d /\ dc_counters d' = dc_counters d.
Proof.
  intros Hd Hn. pose proof (wf_decoder_mono n (n + 1) d ltac:(lia) Hd) as [? ? ? ? ? ? ? ?].
  destruct Hd as [? ? ? ? Ha Hk Ht Hf]. unfold record_recovery.
  destruct (sample_state_step _ _ latency _ Ha Hn) as (v & -> & Hv). cbn [rbind].
  destruct (reason =? 0); [|destruct (reason =? 1)];
    [destruct (sample_state_step _ _ latency _ Hk Hn) as (v' & -> & Hv')
    |destruct (sample_state_step _ _ latency _ Ht Hn) as (v' & -> & Hv')
    |destruct (sample_state_step _ _ latency _ Hf Hn) as (v' & -> & Hv')];
    cbn [rbind]; eexists; split; try reflexivity; split; try (by split_and!); by constructor.
Qed.

Section Total.
Context {P : Type} (publish : bytes -> bool -> Z -> P -> res (bool * P)).
(** The callback does not throw from the states [J] it keeps itself in. *)
Variable J : P -> Prop.
Hypothesis publish_total : forall f r c p, J p -> exists b p', publish f r c p = Ok (b, p') /\ J p'.

Lemma publish_recovered_total (n w : nat) (N : Z) (absent : list nat) (rhs : list bytes) (rs : list nat) d g p :
  shape n w rhs -> (2 <= w)%nat -> length absent = n -> (forall r, In r rs -> (r < n)%nat) ->
  wf_decoder N d -> wf_gen g -> (forall a, In a absent -> (a < length (gn_data g))%nat) -> J p ->
  exists b d' g' p', publish_recovered publish absent rhs rs d g p = Ok (b, d', g', p') /\
    wf_decoder N d' /\ wf_gen g' /\ dc_gens d' = dc_gens d /\ J p'.
Proof using publish_total.
  intros [Hl Hw] H2 Ha. revert d g p. induction rs as [|r rs IH]; intros d g p Hr Hd Hg Hlt HJ; cbn [publish_recovered].
  { by exists true, d, g, p. }
  assert (r < n)%nat by (apply Hr; cbn; auto).
  rewrite (vget_nth rhs r []) by lia. cbn [rbind].
  destruct (get_u16_ok (nth r rhs [])) as (x & -> & _); [rewrite Hw; lia|]. cbn [rbind].
  destruct (publish_total (take (Z.to_nat x) (drop 2 (nth r rhs []))) true (gn_close_reason g) p HJ) as (b & p' & -> & HJ'). cbn [rbind].
  destruct b; cbn [negb]; [|by exists false, d, g, p'].
  rewrite (vget_nth absent r 0%nat) by lia. cbn [rbind].
  assert (nth r absent 0 < length (gn_data g))%nat as Hlta by (apply Hlt, nth_In; lia).
  rewrite !vset_lt by (rewrite ?(wg_len _ Hg); exact Hlta). cbn [rbind].
  destruct (IH (with_counters d (count_recovered (dc_counters d) (gn_close_reason g)))
               (gn_with_data g (gn_k g) (<[nth r absent 0%nat := nth r rhs []]> (gn_data g)) (<[nth r absent 0%nat := true]> (gn_received g))) p')
    as (b & d' & g' & p2 & -> & H1 & H3 & H4 & H5).
  - intros; apply Hr; cbn; auto.
  - apply with_counters_wf; [done|]. apply count_recovered_wf, Hd.
  - by apply wf_gen_data.
  - cbn. intros a Hin. rewrite length_insert. auto.
  - done.
  - by exists b, d', g', p2.
Qed.

Lemma rows_of_fit (g : Generation) :
  wf_gen g -> (length (absent_of g) <= length (rows_of g))%nat -> absent_of g <> [] ->
  exists row0 parity0 , vget (vresize (length (absent_of g)) 0%nat (rows_of g)) 0 = Ok row0 /\
    vget (gn_parities g) row0 = Ok parity0 /\ (2 <= length parity0)%nat /\
    vresize (length (absent_of g)) 0%nat (rows_of g) = take (length (absent_of g)) (rows_of g) /\
    rows_fit g (take (length (absent_of g)) (rows_of g)) (length parity0).
Proof.
  intros Hg Hle Hne. set (n := length (absent_of g)) in *.
  assert (0 < n)%nat by (unfold n; destruct (absent_of g); [contradiction | cbn; lia]).
  destruct (wg_width _ Hg) as (w & H2 & Hw).
  assert (vresize n 0%nat (rows_of g) = take n (rows_of g)) as Hrs.
  { unfold vresize. replace (n - length (rows_of g))%nat with 0%nat by lia. apply app_nil_r. }
  assert (length (take n (rows_of g)) = n) as Hln by (rewrite length_take; lia).
  assert (forall r, (r < n)%nat -> (nth r (take n (rows_of g)) 0 < 128)%nat /\
     (nth r (take n (rows_of g)) 0 < length (gn_parities g))%nat /\
     length (nth (nth r (take n (rows_of g)) 0%nat) (gn_parities g) []) = w) as Hrows.
  { intros r Hr. set (q := nth r (take n (rows_of g)) 0%nat). assert (In q (take n (rows_of g))) as Hin by (apply nth_In; lia).
    apply list_elem_of_In, elem_of_take in Hin as (j & Hj & _). apply list_elem_of_lookup_2, list_elem_of_In, rows_lt in Hj as [Hlt Hn].
    split; [|split; [exact Hlt|]].
    - destruct (wg_parities _ Hg) as [E|E]; rewrite E in Hlt; cbn in Hlt; lia.
    - apply Hw; [|exact Hn]. apply nth_In. exact Hlt. }
  rewrite Hrs. destruct (Hrows 0%nat ltac:(lia)) as (_ & Hp & Hl0).
  exists (nth 0 (take n (rows_of g)) 0%nat), (nth (nth 0 (take n (rows_of g)) 0%nat) (gn_parities g) []).
  split; [apply vget_nth; lia|]. split; [by apply vget_nth|]. rewrite Hl0. split; [exact H2|]. split; [reflexivity|].
  split; [exact Hln|]. rewrite Hln. exact Hrows.
Qed.

Lemma try_recover_total (N : Z) (d : Decoder) (g : Generation) (now : Z) (p : P) :
  wf_decoder N d -> wf_gen g -> N + 1 < 2 ^ 64 -> J p ->
  exists b d' g' p', try_recover publish d g now p = Ok (b, d', g', p') /\ wf_decoder (N + 1) d' /\ wf_gen g' /\
    dc_gens d' = dc_gens d /\ J p'.
Proof using publish_total.
  intros Hd Hg HN HJ. pose proof (wf_decoder_mono N (N + 1) d ltac:(lia) Hd) as Hd1. unfold try_recover.
  destruct (gn_parity_received g) eqn:Hpr; cbn [negb orb]; [|by exists true, d, g, p].
  destruct (gn_recovered g) eqn:Hrec; cbn [negb orb]; [by exists true, d, g, p|].
  destruct (Z.eqb_spec (gn_k g) 0) as [|Hk0]; [by exists true, d, g, p|].
  pose proof (wg_k _ Hg) as Hk. pose proof (wg_len _ Hg) as Hlen. pose proof (wg_cap _ Hg Hpr) as Hcap.
  rewrite count_missing_ok, list_absent_ok, list_rows_ok by done. cbn [rbind].
  destruct (Z.eqb_spec (Z.of_nat (length (absent_of g))) 0) as [|Hm0]; [by exists true, d, g, p|].
  rewrite Nat2Z.id. destruct (Nat.ltb_spec (length (rows_of g)) (length (absent_of g))) as [|Hle]; [by exists true, d, g, p|].
  destruct (rows_of_fit g Hg Hle) as (row0 & par0 & Hr0 & Hp0 & H2 & Hres & Hfit); [by intros E; rewrite E in Hm0|].
  rewrite Hr0. cbn [rbind]. rewrite Hp0, Hres. cbn [rbind].
  destruct (build_system_ok g Hk Hlen Hcap _ _ (length (absent_of g)) 0 (replicate (length (absent_of g)) (replicate (length (absent_of g)) b0)) [] Hfit)
    as (o & -> & Ho & _); [lia | apply length_replicate | done | intros; lia |]. cbn [rbind].
  destruct o as [[m b]|]; [|by exists false, d, g, p]. destruct (Ho m b eq_refl) as (Hlm & Hlb & Hsys).
  destruct (gauss_safe (length (absent_of g)) (length par0) m b) as (o2 & -> & Ho2).
  { split; [done|]. intros r Hr. destruct (Hsys r Hr) as [-> _]. apply length_map. }
  { split; [done|]. intros r Hr. destruct (Hsys r Hr) as [_ [? _]]. done. }
  cbn [rbind]. destruct o2 as [[m' b']|]; [|by exists false, d, g, p].
  specialize (Ho2 m' b' eq_refl).
  destruct (lengths_ok_total _ _ b' (List.seq 0 (length (absent_of g))) Ho2 H2) as (ok & ->); [intros r Hr%in_seq; lia|]. cbn [rbind].
  destruct ok; cbn [negb]; [|by exists false, d, g, p].
  destruct (publish_recovered_total _ _ N (absent_of g) b' (List.seq 0 (length (absent_of g))) d g p Ho2 H2)
    as (ok & d' & g' & p' & -> & Hd' & Hg' & Hgens & HJ'); [done | intros r Hr%in_seq; lia | done | done | intros a Ha%absent_lt; lia | done |].
  cbn [rbind]. destruct ok; cbn [negb]; [|exists false, d', g', p'; split_and!; try done; apply (wf_decoder_mono N); [lia|done]].
  destruct (record_recovery_ok N d' (gn_close_reason (gn_mark_recovered g'))
     (if gn_first_ns (gn_mark_recovered g') <=? now then now - gn_first_ns (gn_mark_recovered g') else 0) Hd' HN)
    as (d2 & -> & Hd2 & Hge & _). cbn [rbind].
  exists true, d2, (gn_mark_recovered g'), p'. split_and!; [done..| |congruence|done]. destruct Hg'. by constructor.
Qed.

Lemma recover_and_put_total (N : Z) (d : Decoder) (gid : Z) (g : Generation) (now : Z) (p : P) :
  wf_decoder N d -> wf_gen g -> N + 1 < 2 ^ 64 -> J p ->
  exists b d' p', recover_and_put publish d gid g now p = Ok (b, d', p') /\ wf_decoder (N + 1) d' /\ J p'.
Proof using publish_total.
  intros Hd Hg HN HJ. unfold recover_and_put.
  destruct (try_recover_total N d g now p Hd Hg HN HJ) as (b & d' & g' & p' & -> & Hd' & Hg' & _ & HJ'). cbn [rbind].
  exists b, (put d' gid g'), p'. split; [done|]. split; [by apply put_wf|done].
Qed.

Lemma receive_data_total (N : Z) (d : Decoder) (e : Envelope) (payload : bytes) (now : Z) (p : P) :
  wf_decoder N d -> wf_envelope e -> 0 < env_k e <= 128 -> N + 1 < 2 ^ 64 -> J p ->
  exists b d' p', receive_data publish d e payload now p = Ok (b, d', p') /\ wf_decoder (N + 1) d' /\ J p'.
Proof using publish_total.
  intros Hd (_ & _ & [Hidx _] & _) Hk HN HJ. pose proof (wf_decoder_mono N (N + 1)) as Hmono. unfold receive_data.
  destruct (_ || _ || _ || _) eqn:Hc; [exists false, d, p; split; [done|]; split; [apply Hmono; [lia|done]|done]|]. zbool.
  destruct (slot_ok N d (env_gen_id e) (env_k e) now Hd ltac:(lia)) as (c & g & -> & Hwc & Hg & _). cbn [rbind].
  pose proof (with_counters_wf N d c Hd Hwc) as Hd1. set (d1 := with_counters d c) in *.
  assert (forall g (p : P), wf_gen g -> J p -> exists b d' p', Ok (false, put d1 (env_gen_id e) g, p) = Ok (b, d', p') /\ wf_decoder (N + 1) d' /\ J p') as Hret.
  { intros g1 p1 Hg1 HJ1. eexists _, _, _. split; [reflexivity|]. split; [|done]. apply Hmono; [lia|]. by apply put_wf. }
  destruct (_ || _); [by apply Hret|]. destruct (ensure_wf g (env_k e) Hg ltac:(lia)) as [Hg1 Hcap].
  destruct (Z.leb_spec (gn_k (ensure g (env_k e))) (env_index e)) as [|Hidx2]; [by apply Hret|].
  pose proof (touch_wf _ now Hg1) as Hg2.
  destruct (publish_total payload false (gn_close_reason (gn_touch (ensure g (env_k e)) now)) p HJ) as (b & p' & -> & HJ'). cbn [rbind].
  destruct b; cbn [negb]; [|by apply Hret].
  unfold max_frame in *. rewrite protected_frame_ok by lia. cbn [rbind].
  assert (Z.to_nat (env_index e) < length (gn_data (gn_touch (ensure g (env_k e)) now)))%nat as Hlt by (cbn; lia).
  rewrite !vset_lt by (rewrite ?(wg_len _ Hg2); exact Hlt). cbn [rbind].
  apply recover_and_put_total; [done | by apply wf_gen_data | done | done].
Qed.

Lemma wf_gen_parities (g : Generation) (b : bool) (pc cr : Z) (ps : list bytes) :
  wf_gen g -> gn_k g <= Z.of_nat (length (gn_data g)) -> length ps = 16%nat ->
  (exists w, (2 <= w)%nat /\ forall q, In q ps -> q <> [] -> length q = w) -> wf_gen (gn_with_parities g b pc cr ps).
Proof. intros [] ? ? ?. constructor; cbn; auto. Qed.

Lemma receive_parity_total (N : Z) (d : Decoder) (e : Envelope) (payload : bytes) (now : Z) (p : P) :
  wf_decoder N d -> wf_envelope e -> 0 < env_k e <= 128 -> N + 1 < 2 ^ 64 -> J p ->
  exists b d' p', receive_parity publish d e payload now p = Ok (b, d', p') /\ wf_decoder (N + 1) d' /\ J p'.
Proof using publish_total.
  intros Hd _ Hk HN HJ. pose proof (wf_decoder_mono N (N + 1)) as Hmono. unfold receive_parity.
  destruct (_ || _ || _ || _ || _ || _) eqn:Hc; [exists false, d, p; split; [done|]; split; [apply Hmono; [lia|done]|done]|]. zbool.
  set (d0 := with_counters d _).
  assert (wf_decoder N d0) as Hd0 by (apply with_counters_wf; [done|]; apply (wd_counters _ _ Hd)).
  destruct (slot_ok N d0 (env_gen_id e) (env_k e) now Hd0 ltac:(lia)) as (c & g & -> & Hwc & Hg & _). cbn [rbind].
  pose proof (with_counters_wf N d0 c Hd0 Hwc) as Hd1. set (d1 := with_counters d0 c) in *.
  assert (forall g (p : P), wf_gen g -> J p -> exists b d' p', Ok (false, put d1 (env_gen_id e) g, p) = Ok (b, d', p') /\ wf_decoder (N + 1) d' /\ J p') as Hret.
  { intros g1 p1 Hg1 HJ1. eexists _, _, _. split; [reflexivity|]. split; [|done]. apply Hmono; [lia|]. by apply put_wf. }
  destruct (gn_parity_received g && _); [by apply Hret|]. destruct (_ <? _); [by apply Hret|].
  destruct (existsb _ _); [by apply Hret|]. destruct (ensure_wf g (env_k e) Hg ltac:(lia)) as [Hg1 Hcap].
  pose proof (touch_wf _ now Hg1) as Hg2. set (g2 := gn_touch (ensure g (env_k e)) now) in *.
  set (ps := if is_nil (gn_parities g2) then replicate 16 [] else gn_parities g2).
  assert (length ps = 16%nat) as Hps.
  { unfold ps. destruct (wg_parities _ Hg2) as [-> | ->%symmetry]; [done|]. destruct (gn_parities g2) eqn:E; [done|]. cbn [is_nil]. congruence. }
  assert (exists w, (2 <= w)%nat /\ forall q, In q ps -> q <> [] -> length q = w) as Hw.
  { unfold ps. destruct (is_nil (gn_parities g2)); [|apply Hg2]. exists 2%nat. split; [done|]. intros q Hq%list_elem_of_In%elem_of_replicate_inv. done. }
  destruct (existsb _ ps) eqn:Hex; [apply Hret; [by apply wf_gen_parities|done]|].
  rewrite vset_lt by lia. cbn [rbind]. apply recover_and_put_total; [done | | done | done].
  apply (wf_gen_parities g2); [done | done | by rewrite length_insert |].
  exists (length payload). split; [lia|]. intros q Hq Hne.
  apply list_elem_of_In, list_elem_of_lookup in Hq as [i Hi]. rewrite list_lookup_insert in Hi. case_match; [congruence|].
  apply not_true_iff_false in Hex. destruct (Nat.eq_dec (length q) (length payload)) as [|Hneq]; [done|].
  destruct Hex. apply existsb_exists. exists q. split; [by apply list_elem_of_In, list_elem_of_lookup; exists i|].
  rewrite (proj2 (Nat.eqb_neq _ _) Hneq). by destruct q.
Qed.

Lemma receive_total (N : Z) (d : Decoder) (data : bytes) (now : Z) (p : P) :
  wf_decoder N d -> N + 1 < 2 ^ 64 -> J p ->
  exists b d' p', receive publish d data now p = Ok (b, d', p') /\ wf_decoder (N + 1) d' /\ J p'.
Proof using publish_total.
  intros Hd HN HJ. pose proof (wf_decoder_mono N (N + 1) d ltac:(lia) Hd) as Hd1. unfold receive.
  assert (exists b d' p', (let! '(ok, p) := publish data false 0 p in Ok (ok, d, p)) = Ok (b, d', p') /\ wf_decoder (N + 1) d' /\ J p') as Hraw.
  { destruct (publish_total data false 0 p HJ) as (b & p' & -> & HJ'). by exists b, d, p'. }
  destruct (Nat.ltb_spec (length data) kEnvelopeSize) as [|Hl]; [exact Hraw|].
  destruct (read_envelope_total data Hl) as (e & -> & Hwe & _). cbn [rbind].
  destruct (negb _); [exact Hraw|]. destruct (_ || _ || _) eqn:Hc; [by exists false, d, p|].
  unfold kMaxGeneration in Hc. zbool. destruct Hwe as (? & ? & ? & [? _] & ?).
  destruct (_ =? 0); [apply receive_data_total | apply receive_parity_total]; unfold wf_envelope, in_range in *; try done; lia.
Qed.
End Total.

(** ** What [receive] does to the callback's state

    Only calls of the callback change it, so a preorder that every call respects
    relates the states before and after. *)
Section PublishRel.
Context {P : Type} (publish : bytes -> bool -> Z -> P -> res (bool * P)) (R : P -> P -> Prop) `{!PreOrder R}.
Hypothesis publish_rel : forall f r c p b p', publish f r c p = Ok (b, p') -> R p p'.

Lemma publish_recovered_rel absent rhs rs d g p b d' g' p' :
  publish_recovered publish absent rhs rs d g p = Ok (b, d', g', p') -> R p p'.
Proof using All.
  revert d g p. induction rs as [|r rs IH]; intros d g p H; cbn [publish_recovered] in H; run_inv; try reflexivity.
  - by eapply publish_rel.
  - etransitivity; [by eapply publish_rel | by eapply IH].
Qed.

Lemma try_recover_rel d g now p b d' g' p' : try_recover publish d g now p = Ok (b, d', g', p') -> R p p'.
Proof using All. intros H. unfold try_recover in H. run_inv; try reflexivity; by eapply publish_recovered_rel. Qed.

Lemma recover_and_put_rel d gid g now p b d' p' : recover_and_put publish d gid g now p = Ok (b, d', p') -> R p p'.
Proof using All. intros H. unfold recover_and_put in H. run_inv. by eapply try_recover_rel. Qed.

Lemma receive_rel d data now p b d' p' : receive publish d data now p = Ok (b, d', p') -> R p p'.
Proof using All.
  intros H. unfold receive, receive_data, receive_parity in H. run_inv; try reflexivity; try (by eapply publish_rel);
    try (by eapply recover_and_put_rel); etransitivity; [by eapply publish_rel | by eapply recover_and_put_rel].
Qed.
End PublishRel.

(** ** Runs: datagrams, clock sweeps and the final retirement, in any order *)
Inductive decoder_event :=
| EvReceive (data : bytes) (now_ns : Z)
| EvExpire (now_ns ttl_ns : Z)
| EvRetire.

Fixpoint decoder_run {P} (publish : bytes -> bool -> Z -> P -> res (bool * P)) (evs : list decoder_event) (d : Decoder) (p : P)
    : res (Decoder * P) :=
  match evs with
  | [] => Ok (d, p)
  | EvReceive data now :: evs' => let! '(_, d, p) := receive publish d data now p in decoder_run publish evs' d p
  | EvExpire now ttl :: evs' => decoder_run publish evs' (expire d now ttl) p
  | EvRetire :: evs' => decoder_run publish evs' (retire_all d) p
  end.

(** A decoder that has received nothing has nothing to expire. *)
Lemma expire_fresh (gens now ttl : Z) : expire (Decoder_make gens) now ttl = Decoder_make gens.
Proof.
  unfold expire, Decoder_make. cbn [dc_counters dc_slots]. set (n := Z.to_nat _).
  assert (E : forall c, sweep (expire_one now ttl) c (replicate n fresh_generation) = (c, replicate n fresh_generation)).
  { clear. induction n as [|n IH]; intros c; [done|]. cbn [replicate sweep]. cbn [expire_one]. unfold expire_one at 1. cbn. by rewrite IH. }
  by rewrite E.
Qed.

Lemma sweep_wf (f : Counters -> Generation -> Counters * Generation) (c : Counters) (gs : list Generation) :
  (forall c g, wf_counters c -> wf_gen g -> wf_counters (fst (f c g)) /\ wf_gen (snd (f c g))) ->
  wf_counters c -> Forall wf_gen gs ->
  wf_counters (fst (sweep f c gs)) /\ Forall wf_gen (snd (sweep f c gs)) /\ length (snd (sweep f c gs)) = length gs.
Proof.
  intros Hf Hc Hgs. revert c Hc. induction Hgs as [|g gs Hg _ IH]; intros c Hc; cbn; [by split_and!|].
  destruct (Hf c g Hc Hg) as [Hc1 Hg1]. destruct (f c g) as [c1 g1]. cbn in *.
  destruct (IH c1 Hc1) as (H1 & H2 & H3). destruct (sweep f c1 gs) as [c2 gs2]. cbn in *. split_and!; auto.
Qed.

Lemma sweep_decoder_wf (N : Z) (d : Decoder) (f : Counters -> Generation -> Counters * Generation) :
  (forall c g, wf_counters c -> wf_gen g -> wf_counters (fst (f c g)) /\ wf_gen (snd (f c g))) ->
  wf_decoder N d -> wf_decoder N (let '(c, s) := sweep f (dc_counters d) (dc_slots d) in with_slots d s c).
Proof.
  intros Hf []. destruct (sweep_wf f (dc_counters d) (dc_slots d) Hf) as (H1 & H2 & H3); [done..|].
  destruct (sweep _ _ _) as [c s]. cbn in *. constructor; cbn; try done. by rewrite H3.
Qed.

Lemma expire_wf (N : Z) (d : Decoder) (now ttl : Z) : wf_decoder N d -> wf_decoder N (expire d now ttl).
Proof.
  apply sweep_decoder_wf. intros c g Hc Hg. unfold expire_one. destruct (_ && _); [|done].
  split; [by apply finalize_wf | apply wf_fresh].
Qed.

Lemma retire_all_wf (N : Z) (d : Decoder) : wf_decoder N d -> wf_decoder N (retire_all d).
Proof. apply sweep_decoder_wf. apply finalize_wf. Qed.

(** C15: Memory safety of the decoder.  Whatever bytes arrive, in whatever order and
    interleaved with whatever sweeps, a decoder that starts empty never indexes
    outside a vector, inverts zero or divides by zero: every call returns, and
    the invariant (vector sizes agree, counters add up) holds at the end. *)
Theorem fec_decoder_safe {P} (publish : bytes -> bool -> Z -> P -> res (bool * P)) (J : P -> Prop) (gens : Z)
    (evs : list decoder_event) (p : P) :
  (forall f r c p, J p -> exists b p', publish f r c p = Ok (b, p') /\ J p') ->
  in_range 32 gens -> Z.of_nat (length evs) < 2 ^ 64 -> J p ->
  exists d' p', decoder_run publish evs (Decoder_make gens) p = Ok (d', p') /\ wf_decoder (Z.of_nat (length evs)) d' /\ J p'.
Proof.
  intros Hpub [Hg _] Hl HJ. pose proof (Decoder_make_wf gens Hg) as Hd.
  replace (Z.of_nat (length evs)) with (0 + Z.of_nat (length evs)) by lia.
  assert (0 + Z.of_nat (length evs) < 2 ^ 64) as HN by lia. clear Hl.
  revert HN Hd p HJ. generalize 0 as N. generalize (Decoder_make gens). induction evs as [|ev evs IH]; intros d N HN Hd p HJ; cbn [decoder_run length] in *.
  - exists d, p. split; [done|]. split; [|done]. apply (wf_decoder_mono N); [lia|done].
  - replace (N + Z.of_nat (S (length evs))) with ((N + 1) + Z.of_nat (length evs)) in * by lia.
    pose proof (wf_decoder_mono N (N + 1) d ltac:(lia) Hd). destruct ev as [data now|now ttl|].
    + destruct (receive_total publish J Hpub N d data now p Hd ltac:(lia) HJ) as (b & d1 & p1 & -> & Hd1 & HJ1). cbn [rbind]. by apply IH.
    + apply IH; [done| |done]. by apply expire_wf.
    + apply IH; [done| |done]. by apply retire_all_wf.
Qed.

(** A callback that accepts and collects frames. *)
Definition collect (f : bytes) (_ : bool) (_ : Z) (q : list bytes) : res (bool * list bytes) := Ok (true, q ++ [f]).

Lemma fec_decoder_safe_witness :
  exists d' p', decoder_run collect [EvReceive [b1] 5; EvReceive (bg_parity demo_built) 6; EvExpire 7 1; EvRetire] (Decoder_make 2) [] = Ok (d', p') /\
    wf_decoder 4 d' /\ True.
Proof.
  apply (fec_decoder_safe collect (fun _ => True) 2); [intros f r c p _; exists true, (p ++ [f]); split; [reflexivity|exact I] | unfold in_range; lia | cbn; lia | exact I].
Defined.
