(* ===== verification/FecRecovery.v ===== *)
(** * End-to-end recovery: [fec::Encoder] against [fec::Decoder]

    The datagrams of a closed generation, delivered to the decoder in any order
    and with any duplication, publish every frame as soon as as many of them have
    arrived as the generation has frames: the code is a maximum-distance-separable
    erasure code and the decoder achieves its bound. *)
From S2P Require Import Prelude Message Wire Samples GF256 Gauss Fec FecDecoder.
From Stdlib Require Import Ring Field.

(** ** Sums over a filtered range *)
Fixpoint lsum (l : list nat) (f : nat -> byte) : byte :=
  match l with [] => b0 | i :: l' => bxor (f i) (lsum l' f) end.

Lemma lsum_app (l l' : list nat) f : lsum (l ++ l') f = bxor (lsum l f) (lsum l' f).
Proof. induction l as [|i l IH]; cbn; [by rewrite bxor_0_l|]. rewrite IH. ring. Qed.

Lemma bsum_lsum f (n : nat) : bsum f n = lsum (List.seq 0 n) f.
Proof. induction n as [|n IH]; [done|]. rewrite seq_S, lsum_app. cbn. rewrite IH, bxor_0_r. done. Qed.

Lemma bsum_nth (l : list nat) f : bsum (fun i => f (nth i l 0%nat)) (length l) = lsum l f.
Proof.
  induction l as [|i l IH] using rev_ind; [done|]. rewrite length_app, Nat.add_1_r, lsum_app. cbn [bsum lsum].
  rewrite app_nth2, Nat.sub_diag by lia. cbn [nth]. rewrite bxor_0_r, <- IH. f_equal. apply bsum_ext.
  intros k Hk. by rewrite app_nth1.
Qed.

Lemma lsum_filter (l : list nat) (p : nat -> bool) f :
  lsum l f = bxor (lsum (List.filter (fun i => negb (p i)) l) f) (lsum l (fun i => if p i then f i else b0)).
Proof. induction l as [|i l IH]; cbn; [by rewrite bxor_0_l|]. rewrite IH. destruct (p i); cbn; ring. Qed.

Lemma NoDup_absent (g : Generation) : List.NoDup (absent_of g).
Proof. apply List.NoDup_filter, seq_NoDup. Qed.
Lemma NoDup_rows (g : Generation) : List.NoDup (rows_of g).
Proof. apply List.NoDup_filter, seq_NoDup. Qed.

Lemma NoDup_firstn {A} (l : list A) (n : nat) : List.NoDup l -> List.NoDup (take n l).
Proof. intros H. rewrite <- (take_drop n l) in H. by apply NoDup_app_remove_r in H. Qed.

(** ** The submatrix of the absent columns has a trivial kernel *)
Lemma cauchy_rows_kernel (rows absent : list nat) (v : nat -> byte) :
  List.NoDup rows -> List.NoDup absent -> length rows = length absent ->
  (forall r, In r rows -> (r < 128)%nat) -> (forall a, In a absent -> (a < 128)%nat) ->
  (forall r, (r < length absent)%nat ->
     bsum (fun c => mul (coef (Z.of_nat (nth r rows 0%nat)) (Z.of_nat (nth c absent 0%nat))) (v c)) (length absent) = b0) ->
  forall c, (c < length absent)%nat -> v c = b0.
Proof.
  intros Hnr Hna Hl Hr Ha Hs c Hc.
  set (x := fun r => xpt (Z.of_nat (nth r rows 0%nat))). set (y := fun c => ypt (Z.of_nat (nth c absent 0%nat))).
  assert (forall r, (r < length absent)%nat -> (nth r rows 0 < 128)%nat) as Hr' by (intros; apply Hr, nth_In; lia).
  assert (forall a, (a < length absent)%nat -> (nth a absent 0 < 128)%nat) as Ha' by (intros; by apply Ha, nth_In).
  assert (mul (bxor (y c) (xpt 0)) (v c) = b0) as Hw.
  { apply (cauchy_kernel x y (length absent) (fun c => mul (bxor (y c) (xpt 0)) (v c))); [..|exact Hc].
    - intros r s Hrn Hsn E. apply xpt_inj in E; [| pose proof (Hr' r Hrn); lia | pose proof (Hr' s Hsn); lia].
      apply Nat2Z.inj in E. apply (proj1 (NoDup_nth rows 0%nat) Hnr); lia.
    - intros r s Hrn Hsn E. apply ypt_inj in E; [| pose proof (Ha' r Hrn); lia | pose proof (Ha' s Hsn); lia].
      apply Nat2Z.inj in E. apply (proj1 (NoDup_nth absent 0%nat) Hna); lia.
    - intros r s Hrn Hsn. rewrite bxor_comm. pose proof (Hr' r Hrn). pose proof (Ha' s Hsn). apply xy_distinct; lia.
    - intros r Hrn. rewrite <- (Hs r Hrn). apply bsum_ext. intros k Hk. rewrite coef_cauchy. unfold bdiv.
      rewrite (bxor_comm (x r)). unfold x, y. ring. }
  apply mul_integral in Hw as [Hw|Hw]; [|exact Hw]. exfalso. revert Hw. pose proof (Ha' c Hc). apply xy_distinct; lia.
Qed.

Set Default Proof Using "All".

Section Recovery.
(** One closed generation. *)
Variables (frames : list bytes) (K p gid reason : Z) (M : nat).
Hypothesis Hn : 1 <= Z.of_nat (length frames) <= K.
Hypothesis HK : K <= 128.
Hypothesis Hp : 1 <= p <= 16.
Hypothesis HM : (M <= 1024)%nat.
Hypothesis Hframes : forall f, In f frames -> (1 <= length f <= M)%nat.

Definition shard (i : nat) : bytes := block M (nth i frames []).

(** A generation in the decoder that holds only genuine shards of this one. *)
Record tracks (g : Generation) : Prop := {
  tk_wf : wf_gen g;
  tk_active : gn_active g = true;
  tk_id : gn_gen_id g = gid;
  tk_k : Z.of_nat (length frames) <= gn_k g <= K;
  tk_parity : gn_parity_received g = true ->
    gn_k g = Z.of_nat (length frames) /\ gn_parity_count g = p /\ gn_close_reason g = reason /\ length (gn_parities g) = 16%nat;
  tk_noparity : gn_parity_received g = false -> gn_parities g = [] /\ gn_recovered g = false;
  tk_data i : recv g i = true -> (i < length frames)%nat /\ (length (nth i (gn_data g) []) <= M + 2)%nat /\
    forall j, nth j (nth i (gn_data g) []) b0 = nth j (shard i) b0;
  tk_par row : nth row (gn_parities g) [] <> [] ->
    (Z.of_nat row < p) /\ nth row (gn_parities g) [] = parity_payload frames M (Z.of_nat row);
  tk_recovered : gn_recovered g = true -> absent_of g = []
}.

Lemma frame_len (i : nat) : (i < length frames)%nat -> (1 <= length (nth i frames []) <= M)%nat.
Proof. intros Hi. by apply Hframes, nth_In. Qed.

Lemma length_shard (i : nat) : (i < length frames)%nat -> length (shard i) = (M + 2)%nat.
Proof. intros Hi. apply length_block. apply frame_len, Hi. Qed.

Lemma tracks_absent_lt (g : Generation) (a : nat) :
  tracks g -> gn_parity_received g = true -> In a (absent_of g) -> (a < length frames)%nat.
Proof. intros Hg Hpr [Ha _]%absent_lt. destruct (tk_parity _ Hg Hpr) as [E _]. lia. Qed.

(** The unknowns. *)
Definition unknowns (g : Generation) : list bytes := map shard (absent_of g).

Lemma nth_unknowns (g : Generation) (i : nat) :
  (i < length (absent_of g))%nat -> nth i (unknowns g) [] = shard (nth i (absent_of g) 0%nat).
Proof.
  intros Hi. unfold unknowns. rewrite (nth_indep _ [] (shard 0%nat)) by (by rewrite length_map). apply map_nth.
Qed.

Lemma unknowns_shape (g : Generation) :
  tracks g -> gn_parity_received g = true -> shape (length (absent_of g)) (M + 2) (unknowns g).
Proof.
  intros Hg Hpr. split; [apply length_map|]. intros r Hr. rewrite nth_unknowns by exact Hr.
  apply length_shard, (tracks_absent_lt g); [done..|]. by apply nth_In.
Qed.

(** The parity minus the received shards is the sum over the absent ones. *)
Lemma reduced_sum (g : Generation) (row : nat) (v : bytes) (j : nat) :
  tracks g -> gn_parity_received g = true -> (j < M + 2)%nat ->
  reduced g row (M + 2) (Z.to_nat (gn_k g)) (parity_payload frames M (Z.of_nat row)) v ->
  nth j v b0 = lsum (absent_of g) (fun a => mul (coef (Z.of_nat row) (Z.of_nat a)) (nth j (shard a) b0)).
Proof.
  intros Hg Hpr Hj [_ Hv]. rewrite Hv by exact Hj. destruct (tk_parity _ Hg Hpr) as [Ek _].
  unfold parity_payload. rewrite nth_map_seq by exact Hj. rewrite !bsum_lsum.
  rewrite (lsum_filter _ (recv g)). unfold absent_of. rewrite Ek, Nat2Z.id. fold shard.
  set (S1 := lsum (List.filter _ _) _). set (S2 := lsum _ (fun i => if recv g i then _ else b0)).
  set (S3 := lsum _ (fun c => if recv g c then _ else b0)).
  assert (S2 = S3) as ->; [|rewrite <- bxor_assoc, bxor_nilpotent; apply bxor_0_r].
  unfold S2, S3. rewrite <- !bsum_lsum. apply bsum_ext. intros c _. destruct (recv g c) eqn:Hr; [|reflexivity].
  destruct (tk_data _ Hg c Hr) as (_ & _ & Hd). rewrite Hd. reflexivity.
Qed.

Lemma system_good (g : Generation) (rows : list nat) (m b : list bytes) :
  tracks g -> gn_parity_received g = true ->
  rows_fit g rows (M + 2) -> List.NoDup rows -> (forall r, In r rows -> In r (rows_of g)) ->
  length m = length (absent_of g) -> length b = length (absent_of g) ->
  (forall i, (i < length (absent_of g))%nat -> system_ok g rows (M + 2) i (nth i m []) (nth i b [])) ->
  good (length (absent_of g)) (M + 2) (unknowns g) (m, b).
Proof.
  intros Hg Hpr [Hrl Hrows] Hnd Hin Hlm Hlb Hsys.
  assert (forall r k, (r < length (absent_of g))%nat -> (k < length (absent_of g))%nat ->
    ent m r k = coef (Z.of_nat (nth r rows 0%nat)) (Z.of_nat (nth k (absent_of g) 0%nat))) as Hent.
  { intros r k Hr Hkk. unfold ent. destruct (Hsys r Hr) as [-> _]. unfold cauchy_row.
    set (f := fun a => coef _ (Z.of_nat a)). rewrite (nth_indep _ b0 (f 0%nat)) by (by rewrite length_map). apply (map_nth f). }
  constructor; cbn [fst snd].
  - split; [done|]. intros r Hr. destruct (Hsys r Hr) as [-> _]. apply length_map.
  - split; [done|]. intros r Hr. apply (Hsys r Hr).
  - intros r j Hr Hj. destruct (Hsys r Hr) as [_ Hred].
    destruct (tk_par _ Hg (nth r rows 0%nat)) as [_ Epar].
    { apply rows_lt, Hin, nth_In. lia. }
    rewrite Epar in Hred. unfold ent at 2. rewrite (reduced_sum g _ _ j Hg Hpr Hj Hred).
    rewrite <- bsum_nth. apply bsum_ext. intros k Hkk. rewrite Hent by done. unfold ent. by rewrite nth_unknowns.
  - intros v Hv. apply (cauchy_rows_kernel rows (absent_of g) v); try done.
    + apply NoDup_absent.
    + intros r Hr. apply (In_nth _ _ 0%nat) in Hr as (i & Hi & <-). apply Hrows. exact Hi.
    + intros a Ha%absent_lt. pose proof (wg_k _ (tk_wf _ Hg)). lia.
    + intros r Hr. rewrite <- (Hv r Hr). apply bsum_ext. intros k Hkk. rewrite Hent by done. reflexivity.
Qed.

(** ** Publishing the solution *)
Context {P : Type} (publish : bytes -> bool -> Z -> P -> res (bool * P)) (deliver : bytes -> bool -> Z -> P -> P) (J : P -> Prop).
(** The callback accepts the frames of this generation and keeps its invariant. *)
Hypothesis accepts : forall f r c q, In f frames -> J q -> publish f r c q = Ok (true, deliver f r c q) /\ J (deliver f r c q).

Definition deliver_all (log : list (bytes * bool * Z)) (q : P) : P :=
  fold_left (fun q x => deliver (fst (fst x)) (snd (fst x)) (snd x) q) log q.

Lemma take_shard (i : nat) : take (length (nth i frames [])) (drop 2 (shard i)) = nth i frames [].
Proof. unfold shard, block, prefix16. cbn [app drop]. rewrite drop_0, take_app_le, take_ge by lia. done. Qed.

Lemma get_u16_shard (i : nat) : (i < length frames)%nat -> get_u16 (shard i) = Ok (Z.of_nat (length (nth i frames []))).
Proof.
  intros Hi. rewrite <- (app_nil_r (shard i)). apply get_u16_block. pose proof (frame_len i Hi). lia.
Qed.

Lemma lengths_ok_shards (A rs : list nat) :
  (forall a, In a A -> (a < length frames)%nat) -> (forall r, In r rs -> (r < length A)%nat) ->
  lengths_ok (M + 2) rs (map shard A) = Ok true.
Proof.
  intros HA. induction rs as [|r rs IH]; intros Hr; cbn [lengths_ok]; [done|].
  assert (r < length A)%nat as Hlt by (apply Hr; cbn; auto).
  assert (nth r A 0 < length frames)%nat as Ha by (apply HA, nth_In, Hlt). pose proof (frame_len _ Ha).
  rewrite (vget_nth (map shard A) r (shard 0%nat)) by (by rewrite length_map). cbn [rbind].
  rewrite map_nth, get_u16_shard by exact Ha. cbn [rbind]. unfold max_frame.
  destruct (Z.eqb_spec (Z.of_nat (length (nth (nth r A 0%nat) frames []))) 0); [lia|].
  destruct (Z.ltb_spec (Z.of_nat 1024) (Z.of_nat (length (nth (nth r A 0%nat) frames [])))); [lia|].
  destruct (Z.ltb_spec (Z.of_nat (M + 2)) (Z.of_nat (length (nth (nth r A 0%nat) frames [])) + 2)); [lia|].
  apply IH. intros; apply Hr; cbn; auto.
Qed.

Definition mem (i : nat) (l : list nat) : bool := existsb (Nat.eqb i) l.
Lemma mem_In (i : nat) (l : list nat) : mem i l = true <-> In i l.
Proof.
  unfold mem. rewrite existsb_exists. split.
  - intros (x & Hx & E). apply Nat.eqb_eq in E. by rewrite E.
  - intros H. exists i. split; [done|]. apply Nat.eqb_refl.
Qed.

Lemma mem_cons (i a : nat) (l : list nat) : mem i (a :: l) = (i =? a)%nat || mem i l.
Proof. reflexivity. Qed.

(** What the loop leaves in the generation. *)
Definition filled (A : list nat) (g g' : Generation) : Prop :=
  (exists data received, g' = gn_with_data g (gn_k g) data received) /\
  length (gn_data g') = length (gn_data g) /\ length (gn_received g') = length (gn_received g) /\
  (forall i, recv g' i = mem i A || recv g i) /\
  (forall i, nth i (gn_data g') [] = if mem i A then shard i else nth i (gn_data g) []).

Lemma publish_shards (A : list nat) (k r : nat) (d : Decoder) (g : Generation) (q : P) (N : Z) :
  (forall a, In a A -> (a < length frames)%nat /\ (a < length (gn_data g))%nat) ->
  (r + k = length A)%nat -> length (gn_received g) = length (gn_data g) -> wf_decoder N d -> J q ->
  exists d' g', publish_recovered publish A (map shard A) (List.seq r k) d g q =
    Ok (true, d', g', deliver_all (map (fun a => (nth a frames [], true, gn_close_reason g)) (drop r A)) q) /\
    wf_decoder N d' /\ dc_gens d' = dc_gens d /\ dc_slots d' = dc_slots d /\ filled (drop r A) g g'.
Proof.
  revert r d g q. induction k as [|k IH]; intros r d g q HA Hr Hl Hd HJ; cbn [List.seq publish_recovered].
  - rewrite drop_ge by lia. exists d, g. split; [done|]. unfold filled. split_and!; try done. exists (gn_data g), (gn_received g). by destruct g.
  - destruct (HA (nth r A 0%nat)) as [Ha Had]; [apply nth_In; lia|].
    rewrite (vget_nth (map shard A) r (shard 0%nat)) by (rewrite length_map; lia). cbn [rbind].
    rewrite map_nth, get_u16_shard by exact Ha. cbn [rbind]. rewrite Nat2Z.id, take_shard.
    destruct (accepts (nth (nth r A 0%nat) frames []) true (gn_close_reason g) q) as [-> HJ']; [by apply nth_In|done|]. cbn [rbind negb].
    rewrite (vget_nth A r 0%nat) by lia. cbn [rbind]. rewrite !vset_lt by lia. cbn [rbind].
    set (a := nth r A 0%nat) in *.
    destruct (IH (S r) (with_counters d (count_recovered (dc_counters d) (gn_close_reason g)))
        (gn_with_data g (gn_k g) (<[a := shard a]> (gn_data g)) (<[a := true]> (gn_received g)))
        (deliver (nth a frames []) true (gn_close_reason g) q)) as (d' & g' & Heq & Hd' & Hge & Hsl & Hfill).
    + cbn. intros x Hx. rewrite length_insert. by apply HA.
    + lia.
    + cbn. by rewrite !length_insert.
    + apply with_counters_wf; [done|]. apply count_recovered_wf, Hd.
    + exact HJ'.
    + exists d', g'. rewrite Heq. cbn [gn_close_reason gn_with_data].
      assert (drop r A = a :: drop (S r) A) as ->.
      { apply drop_S. destruct (nth_lookup_or_length A r 0%nat); [done|lia]. }
      split; [done|]. split_and!; try done. destruct Hfill as ((data & rcv & ->) & H1 & H2 & H3 & H4). cbn in H1, H2.
      unfold filled. split_and!.
      * by exists data, rcv.
      * cbn. rewrite H1. apply length_insert.
      * cbn. rewrite H2. apply length_insert.
      * intros i. rewrite mem_cons. specialize (H3 i). unfold recv in H3 |- *. cbn in H3 |- *. rewrite nth_insert in H3 by lia. rewrite H3.
        destruct (i =? a)%nat, (mem i (drop (S r) A)); done.
      * intros i. rewrite mem_cons. specialize (H4 i). cbn in H4 |- *. rewrite nth_insert in H4 by lia. rewrite H4.
        destruct (mem i (drop (S r) A)); destruct (Nat.eqb_spec i a) as [E|]; rewrite ?E; done.
Qed.

(** ** [try_recover] on genuine shards *)
Definition settled (g : Generation) : Prop :=
  gn_parity_received g = true -> (length (absent_of g) <= length (rows_of g))%nat -> absent_of g = [].

Definition logged (log : list (bytes * bool * Z)) (f : bytes) : Prop := In f (map (fun x => fst (fst x)) log).

Record progress (g g' : Generation) (log : list (bytes * bool * Z)) : Prop := {
  pg_keeps i : recv g i = true -> recv g' i = true;
  pg_new i : recv g' i = true -> recv g i = true \/ logged log (nth i frames []);
  pg_k : gn_k g' = gn_k g;
  pg_parities : gn_parities g' = gn_parities g;
  pg_parity_received : gn_parity_received g' = gn_parity_received g;
  pg_first : gn_first_ns g' = gn_first_ns g;
  pg_log f : logged log f -> In f frames
}.

Lemma progress_refl (g : Generation) : progress g g [].
Proof. constructor; auto. intros f []. Qed.

Lemma absent_nil (g : Generation) : absent_of g = [] <-> forall i, (i < Z.to_nat (gn_k g))%nat -> recv g i = true.
Proof.
  split.
  - intros E i Hi. destruct (recv g i) eqn:Hr; [done|]. exfalso.
    assert (In i (absent_of g)) as Hin by (apply filter_In; rewrite Hr; split; [apply in_seq; lia|done]). by rewrite E in Hin.
  - intros H. destruct (absent_of g) as [|a l] eqn:E; [done|]. exfalso.
    assert (In a (absent_of g)) as [Ha Hr]%absent_lt by (rewrite E; cbn; auto). rewrite H in Hr; done.
Qed.

Lemma parity_row_length (row : nat) (g : Generation) :
  tracks g -> nth row (gn_parities g) [] <> [] -> length (nth row (gn_parities g) []) = (M + 2)%nat.
Proof. intros Hg Hne. destruct (tk_par _ Hg row Hne) as [_ ->]. apply length_parity_payload. Qed.

Lemma filled_tracks (g g' : Generation) :
  tracks g -> gn_parity_received g = true -> filled (absent_of g) g g' ->
  tracks (gn_mark_recovered g') /\ settled (gn_mark_recovered g') /\
  progress g (gn_mark_recovered g') (map (fun a => (nth a frames [], true, gn_close_reason g)) (absent_of g)).
Proof.
  intros Hg Hpr ((data & rcv & ->) & Hld & Hlr & Hrecv & Hdata).
  assert (absent_of (gn_mark_recovered (gn_with_data g (gn_k g) data rcv)) = []) as Hnil.
  { apply absent_nil. intros i Hi. change (recv (gn_with_data g (gn_k g) data rcv) i = true). rewrite Hrecv.
    destruct (recv g i) eqn:Hr; [apply orb_true_r|]. rewrite orb_false_r. apply mem_In, filter_In. rewrite Hr. split; [|done].
    apply in_seq. cbn in Hi. lia. }
  split; [|split; [by intros _ _|]].
  - destruct Hg as [[] ? ? ? Hpar ? Hd ? ?]. destruct (Hpar Hpr) as [? _]. cbn in Hld, Hlr. cbn [gn_data gn_with_data] in Hdata.
    constructor; try done; [constructor; cbn; try done; try congruence; rewrite Hld; auto | |].
    + cbn. congruence.
    + intros i Hi. change (recv (gn_with_data g (gn_k g) data rcv) i = true) in Hi. rewrite Hrecv in Hi. cbn [gn_data gn_mark_recovered gn_with_data]. rewrite Hdata.
      destruct (mem i (absent_of g)) eqn:Hm; [|by apply Hd].
      apply mem_In, absent_lt in Hm as [Hm _]. assert (i < length frames)%nat by lia.
      split; [done|]. split; [by rewrite length_shard|done].
  - constructor; try done.
    + intros i Hi. change (recv (gn_with_data g (gn_k g) data rcv) i = true). rewrite Hrecv, Hi. apply orb_true_r.
    + intros i Hi. change (recv (gn_with_data g (gn_k g) data rcv) i = true) in Hi. rewrite Hrecv in Hi.
      apply orb_true_iff in Hi as [Hi|Hi]; [right|by left]. apply mem_In in Hi. unfold logged. rewrite map_map. cbn.
      apply in_map_iff. by exists i.
    + intros f Hf. unfold logged in Hf. rewrite map_map in Hf. apply in_map_iff in Hf as (a & <- & Ha). cbn.
      apply nth_In. by apply (tracks_absent_lt g).
Qed.

Lemma try_recover_tracks (N : Z) (d : Decoder) (g : Generation) (now : Z) (q : P) :
  tracks g -> wf_decoder N d -> N + 1 < 2 ^ 64 -> J q ->
  exists d' g' log, try_recover publish d g now q = Ok (true, d', g', deliver_all log q) /\
    wf_decoder (N + 1) d' /\ dc_gens d' = dc_gens d /\ dc_slots d' = dc_slots d /\
    tracks g' /\ settled g' /\ progress g g' log.
Proof.
  intros Hg Hd HN HJ. pose proof (wf_decoder_mono N (N + 1) d ltac:(lia) Hd) as Hd1. pose proof (progress_refl g) as Href.
  assert (settled g -> exists d' g' log, Ok (true, d, g, q) = Ok (true, d', g', deliver_all log q) /\
    wf_decoder (N + 1) d' /\ dc_gens d' = dc_gens d /\ dc_slots d' = dc_slots d /\ tracks g' /\ settled g' /\ progress g g' log) as Hret.
  { intros Hs. by exists d, g, []. }
  unfold try_recover. destruct (gn_parity_received g) eqn:Hpr; cbn [negb orb]; [|by apply Hret; intros ?; congruence].
  destruct (gn_recovered g) eqn:Hrec; cbn [negb orb]; [by apply Hret; intros _ _; apply (tk_recovered _ Hg)|].
  pose proof (tk_wf _ Hg) as Hwf. pose proof (wg_k _ Hwf) as Hk. pose proof (wg_len _ Hwf) as Hlen. pose proof (wg_cap _ Hwf Hpr) as Hcap.
  destruct (tk_parity _ Hg Hpr) as (Ek & _). destruct (Z.eqb_spec (gn_k g) 0) as [|Hk0]; [lia|].
  rewrite count_missing_ok, list_absent_ok, list_rows_ok by done. cbn [rbind].
  destruct (Z.eqb_spec (Z.of_nat (length (absent_of g))) 0) as [E0|Hm0].
  { apply Hret. intros _ _. destruct (absent_of g); [done|cbn in E0; lia]. }
  rewrite Nat2Z.id. destruct (Nat.ltb_spec (length (rows_of g)) (length (absent_of g))) as [Hlt|Hle].
  { apply Hret. intros _ ?. lia. }
  destruct (rows_of_fit g Hwf Hle) as (row0 & par0 & Hr0 & Hp0 & H2 & Hres & Hfit); [by intros E; rewrite E in Hm0|].
  rewrite Hr0. cbn [rbind]. rewrite Hp0, Hres. cbn [rbind].
  set (rows := take (length (absent_of g)) (rows_of g)) in *.
  assert (forall r, In r rows -> In r (rows_of g)) as Hsub.
  { intros r Hr. apply list_elem_of_In in Hr. apply list_elem_of_In. unfold rows in Hr. apply elem_of_take in Hr as (j & Hj & _).
    by apply list_elem_of_lookup_2 in Hj. }
  assert (length par0 = M + 2)%nat as Hw.
  { destruct Hfit as [Hl1 Hf]. destruct (Hf 0%nat ltac:(lia)) as (_ & _ & <-).
    apply parity_row_length; [done|]. apply rows_lt, Hsub, nth_In. lia. }
  rewrite Hw in *.
  destruct (build_system_ok g Hk Hlen Hcap rows (M + 2) (length (absent_of g)) 0 (replicate (length (absent_of g)) (replicate (length (absent_of g)) b0)) [] Hfit)
    as (o & -> & Ho & Hno); [lia | apply length_replicate | done | intros; lia |]. cbn [rbind].
  destruct o as [[m b]|]; [|exfalso; apply Hno; [|done]; intros i Hi; apply (tk_data _ Hg i Hi)].
  destruct (Ho m b eq_refl) as (Hlm & Hlb & Hsys).
  destruct (gauss_solves (length (absent_of g)) (M + 2) (unknowns g) m b) as (m' & ->).
  { apply (system_good g rows); try done. apply NoDup_firstn, NoDup_rows. }
  { by apply unknowns_shape. }
  cbn [rbind]. assert (forall a, In a (absent_of g) -> (a < length frames)%nat /\ (a < length (gn_data g))%nat) as HA.
  { intros a Ha. pose proof (tracks_absent_lt g a Hg Hpr Ha). split; [done|]. lia. }
  unfold unknowns. rewrite lengths_ok_shards; [| intros a Ha; by apply HA | intros r Hr%in_seq; lia]. cbn [rbind negb].
  destruct (publish_shards (absent_of g) (length (absent_of g)) 0 d g q N HA ltac:(lia) Hlen Hd HJ) as (d' & g' & -> & Hd' & Hge & Hsl & Hfill).
  cbn [rbind negb]. rewrite drop_0 in *.
  destruct (filled_tracks g g' Hg Hpr Hfill) as (Ht & Hs & Hpg).
  destruct (record_recovery_ok N d' (gn_close_reason (gn_mark_recovered g'))
     (if gn_first_ns (gn_mark_recovered g') <=? now then now - gn_first_ns (gn_mark_recovered g') else 0) Hd' HN)
    as (d2 & -> & Hd2 & Hge2 & Hsl2 & _). cbn [rbind].
  exists d2, (gn_mark_recovered g'), (map (fun a => (nth a frames [], true, gn_close_reason g)) (absent_of g)).
  split_and!; try done; congruence.
Qed.

(** ** One datagram *)
Hypothesis Hgid : in_range 32 gid.
Hypothesis Hreason : 0 <= reason <= 2.

Definition has_row (g : Generation) (row : nat) : Prop := nth row (gn_parities g) [] <> [].

Lemma new_tracks (k now : Z) : Z.of_nat (length frames) <= k <= K -> tracks (new_generation gid k now).
Proof.
  intros Hk. constructor; try done; cbn; try lia.
  - apply wf_new. lia.
  - intros i Hi. unfold recv in Hi. cbn in Hi. by destruct i.
  - intros [|row]; done.
Qed.

Lemma nth_vresize {A} (n i : nat) (x : A) (v : list A) : (length v <= n)%nat -> nth i (vresize n x v) x = nth i v x.
Proof.
  intros Hl. unfold vresize. rewrite take_ge by done. destruct (Nat.lt_ge_cases i (length v)).
  - by rewrite app_nth1.
  - rewrite app_nth2, (nth_overflow v) by done. rewrite nth_lookup. destruct (_ !! _) eqn:E; [|done].
    by apply lookup_replicate in E as [-> _].
Qed.

Lemma ensure_tracks (g : Generation) (k : Z) :
  tracks g -> Z.of_nat (length frames) <= k <= K ->
  tracks (ensure g k) /\ gn_k (ensure g k) = Z.min k (gn_k g) /\
  gn_k (ensure g k) <= Z.of_nat (length (gn_data (ensure g k))) /\ (forall i, recv (ensure g k) i = recv g i) /\
  gn_parities (ensure g k) = gn_parities g /\ gn_parity_received (ensure g k) = gn_parity_received g.
Proof.
  intros Hg Hk. pose proof (tk_k _ Hg) as Hkg. destruct (ensure_wf g k (tk_wf _ Hg) ltac:(lia)) as [Hwf Hcap].
  assert (gn_k (ensure g k) = Z.min k (gn_k g)) as Hmin.
  { unfold ensure. destruct (Z.eqb_spec (gn_k g) 0); [lia|]. cbn [orb].
    destruct (Z.ltb_spec k (gn_k g)); destruct (_ <? _); cbn; lia. }
  assert (forall i, recv (ensure g k) i = recv g i /\ nth i (gn_data (ensure g k)) [] = nth i (gn_data g) []) as Hsame.
  { intros i. pose proof (wg_len _ (tk_wf _ Hg)). unfold ensure. set (k' := if _ || _ then _ else _).
    destruct (Z.ltb_spec (Z.of_nat (length (gn_data g))) k'); [|done]. unfold recv. cbn. split; apply nth_vresize; lia. }
  assert (gn_parities (ensure g k) = gn_parities g /\ gn_parity_received (ensure g k) = gn_parity_received g /\
    gn_active (ensure g k) = gn_active g /\ gn_gen_id (ensure g k) = gn_gen_id g /\ gn_parity_count (ensure g k) = gn_parity_count g /\
    gn_close_reason (ensure g k) = gn_close_reason g /\ gn_recovered (ensure g k) = gn_recovered g) as (E1 & E2 & E3 & E4 & E5 & E6 & E7).
  { unfold ensure. by destruct (_ <? _). }
  split; [|split_and!; try done; intros i; apply Hsame]. destruct Hg as [? ? ? ? Hpar Hno Hd Hpr Hre].
  constructor; rewrite ?E1, ?E2, ?E3, ?E4, ?E5, ?E6, ?E7; try done; try lia.
  - intros Hp1. destruct (Hpar Hp1) as (? & ? & ? & ?). split_and!; try done. lia.
  - intros i Hi. destruct (Hsame i) as [Hr ->]. rewrite Hr in Hi. by apply Hd.
  - intros Hr. apply absent_nil. intros i Hi. destruct (Hsame i) as [-> _].
    apply (proj1 (absent_nil g) (Hre Hr)). lia.
Qed.

Lemma ensure_first (g : Generation) (k : Z) : gn_first_ns (ensure g k) = gn_first_ns g.
Proof. unfold ensure. by destruct (_ <? _). Qed.

Lemma touch_tracks (g : Generation) (now : Z) : tracks g -> tracks (gn_touch g now).
Proof. intros []. constructor; try done. by apply touch_wf. Qed.

Lemma nth_own_block (i j : nat) : nth j (block (length (nth i frames [])) (nth i frames [])) b0 = nth j (shard i) b0.
Proof.
  unfold shard, block. rewrite Nat.sub_diag. cbn [replicate]. rewrite app_nil_r, app_assoc.
  set (l := prefix16 _ ++ _). destruct (Nat.lt_ge_cases j (length l)).
  - by rewrite app_nth1.
  - rewrite app_nth2, nth_overflow by done. rewrite nth_lookup. destruct (_ !! _) eqn:E; [|done].
    by apply lookup_replicate in E as [-> _].
Qed.

Lemma add_data_tracks (g : Generation) (i : nat) :
  tracks g -> gn_k g <= Z.of_nat (length (gn_data g)) -> (i < length frames)%nat ->
  tracks (gn_with_data g (gn_k g) (<[i := block (length (nth i frames [])) (nth i frames [])]> (gn_data g))
                                (<[i := true]> (gn_received g))).
Proof.
  intros Hg Hcap Hi. pose proof (tk_k _ Hg). pose proof (wg_len _ (tk_wf _ Hg)). pose proof (frame_len i Hi).
  assert (forall x, recv (gn_with_data g (gn_k g) (<[i := block (length (nth i frames [])) (nth i frames [])]> (gn_data g))
                                (<[i := true]> (gn_received g))) x = (x =? i)%nat || recv g x) as Hr.
  { intros x. unfold recv. cbn [gn_received gn_with_data]. rewrite nth_insert by lia. by destruct (x =? i)%nat. }
  destruct Hg as [? ? ? ? Hpar Hno Hd Hpr Hre]. constructor; try done.
  - by apply wf_gen_data.
  - intros x Hx. rewrite Hr in Hx. cbn [gn_data gn_with_data]. rewrite nth_insert by lia.
    destruct (Nat.eqb_spec x i) as [E|]; [|by apply Hd]. rewrite E. split; [done|].
    split; [rewrite length_block by lia; lia|]. intros j. apply nth_own_block.
  - intros Hrec. apply absent_nil. intros x Hx. rewrite Hr. rewrite (proj1 (absent_nil g) (Hre Hrec) x Hx). apply orb_true_r.
Qed.

Definition parity_table (g : Generation) : list bytes :=
  if is_nil (gn_parities g) then replicate 16 [] else gn_parities g.

Lemma parity_table_ok (g : Generation) :
  tracks g -> length (parity_table g) = 16%nat /\ forall r, nth r (parity_table g) [] = nth r (gn_parities g) [].
Proof.
  intros Hg. unfold parity_table. destruct (wg_parities _ (tk_wf _ Hg)) as [E|E].
  - rewrite E. cbn [is_nil]. split; [done|]. intros r. rewrite nth_lookup. rewrite (nth_overflow []) by (cbn; lia).
    destruct (_ !! r) eqn:El; [|done]. by apply lookup_replicate in El as [-> _].
  - destruct (gn_parities g); [discriminate|]. done.
Qed.

Lemma parity_sizes (g : Generation) :
  tracks g -> existsb (fun q => negb (is_nil q) && negb (length q =? M + 2)%nat) (parity_table g) = false.
Proof.
  intros Hg. destruct (parity_table_ok g Hg) as [_ Hnth]. apply not_true_iff_false. intros (q' & Hin & Hq)%existsb_exists.
  apply (In_nth _ _ []) in Hin as (r & _ & <-). rewrite Hnth in Hq. apply andb_prop in Hq as [Hne Hlen].
  rewrite parity_row_length, Nat.eqb_refl in Hlen; [done|done|]. by destruct (nth r (gn_parities g) []).
Qed.

Lemma add_parity_tracks (g : Generation) (row : nat) :
  tracks g -> gn_k g = Z.of_nat (length frames) -> gn_k g <= Z.of_nat (length (gn_data g)) -> Z.of_nat row < p ->
  tracks (gn_with_parities g true p reason (<[row := parity_payload frames M (Z.of_nat row)]> (parity_table g))).
Proof.
  intros Hg Ek Hcap Hrow. destruct (parity_table_ok g Hg) as [Hl Hnth].
  assert (forall r, nth r (<[row := parity_payload frames M (Z.of_nat row)]> (parity_table g)) [] =
    if (r =? row)%nat then parity_payload frames M (Z.of_nat row) else nth r (gn_parities g) []) as Hn'.
  { intros r. rewrite nth_insert by lia. by rewrite Hnth. }
  assert (forall r, nth r (<[row := parity_payload frames M (Z.of_nat row)]> (parity_table g)) [] <> [] ->
    Z.of_nat r < p /\ nth r (<[row := parity_payload frames M (Z.of_nat row)]> (parity_table g)) [] = parity_payload frames M (Z.of_nat r)) as Hpars.
  { intros r Hne. rewrite Hn' in Hne |- *. destruct (Nat.eqb_spec r row) as [E|]; [by rewrite E|]. by apply (tk_par _ Hg). }
  assert (wf_gen (gn_with_parities g true p reason (<[row := parity_payload frames M (Z.of_nat row)]> (parity_table g)))) as Hwf.
  { apply wf_gen_parities; [apply Hg | done | by rewrite length_insert |]. exists (M + 2)%nat. split; [lia|].
    intros x Hx Hne. apply (In_nth _ _ []) in Hx as (r & _ & <-). destruct (Hpars r Hne) as [_ ->]. apply length_parity_payload. }
  destruct Hg. constructor; cbn [gn_with_parities gn_parities gn_parity_received gn_k gn_parity_count gn_close_reason]; try done.
  intros _. split_and!; try done. by rewrite length_insert.
Qed.

(** [stepped now g g' log]: what one datagram, handled at [now], may change. *)
Record stepped (now : Z) (g g' : Generation) (log : list (bytes * bool * Z)) : Prop := {
  sp_tracks : tracks g';
  sp_settled : settled g';
  sp_k : gn_parity_received g' = false -> gn_k g' = K;
  sp_keeps i : recv g i = true -> recv g' i = true;
  sp_rows r : has_row g r -> has_row g' r;
  sp_new i : recv g' i = true -> recv g i = true \/ logged log (nth i frames []);
  sp_first : gn_first_ns g' = if gn_first_ns g =? 0 then now else gn_first_ns g;
  sp_log f : logged log f -> In f frames
}.

Lemma logged_cons x log f : logged (x :: log) f <-> fst (fst x) = f \/ logged log f.
Proof. reflexivity. Qed.

Lemma data_env_wf (i : nat) : (i < length frames)%nat -> wf_envelope (data_env K gid i (nth i frames [])).
Proof.
  intros Hi. pose proof (frame_len i Hi). unfold wf_envelope, data_env, in_range, kMagic in *. cbn. lia.
Qed.
Lemma parity_env_wf (row : nat) : Z.of_nat row < p -> wf_envelope (parity_env (Z.of_nat (length frames)) p gid reason M row).
Proof. intros Hr. unfold wf_envelope, parity_env, in_range, kMagic in *. cbn. lia. Qed.

(** The first checks of [receive] on a genuine datagram. *)
Lemma receive_genuine (d : Decoder) (e : Envelope) (payload : bytes) (now : Z) (q : P) :
  wf_envelope e -> env_magic e = kMagic -> 0 < env_k e <= 128 -> env_close_reason e <= 2 ->
  receive publish d (envelope_bytes e ++ payload) now q =
  if env_parity_count e =? 0 then receive_data publish d e payload now q else receive_parity publish d e payload now q.
Proof.
  intros Hw Hm Hk Hc. unfold receive. rewrite length_app, length_envelope_bytes.
  destruct (Nat.ltb_spec (kEnvelopeSize + length payload) kEnvelopeSize); [lia|].
  rewrite read_envelope_app by exact Hw. cbn [rbind]. rewrite Hm, Z.eqb_refl. cbn [negb]. unfold kMaxGeneration.
  destruct (Z.eqb_spec (env_k e) 0); [lia|]. destruct (Z.ltb_spec 128 (env_k e)); [lia|]. destruct (Z.ltb_spec 2 (env_close_reason e)); [lia|].
  cbn [orb]. by rewrite drop_app_length' by (by rewrite length_envelope_bytes).
Qed.

(** The decoder's slot for this generation gives [g]. *)
Definition view (d : Decoder) (k now : Z) (g : Generation) : Prop :=
  exists c, slot d gid k now = Ok (with_counters d c, g) /\ wf_counters c.
Definition holds (d : Decoder) (g : Generation) : Prop := dc_slots d !! slot_index d gid = Some g.
(** [d'] is [d] with [g] in the slot of this generation, but for the telemetry. *)
Definition writes (d d' : Decoder) (g : Generation) : Prop :=
  dc_gens d' = dc_gens d /\ dc_slots d' = <[slot_index d gid := g]> (dc_slots d).

Lemma writes_holds (N : Z) (d d' : Decoder) (g : Generation) : wf_decoder N d -> writes d d' g -> holds d' g.
Proof using Type.
  intros Hd [E1 E2]. unfold holds, slot_index. rewrite E1, E2. apply list_lookup_insert_eq. apply (slot_index_lt N d gid Hd).
Qed.

(** Running [try_recover] and writing the generation back. *)
Lemma finish_step (N : Z) (d : Decoder) (g : Generation) (now : Z) (q : P) :
  tracks g -> wf_decoder N d -> N + 1 < 2 ^ 64 -> J q ->
  exists d' g' log, recover_and_put publish d gid g now q = Ok (true, d', deliver_all log q) /\
    wf_decoder (N + 1) d' /\ writes d d' g' /\ tracks g' /\ settled g' /\ progress g g' log.
Proof.
  intros Hg Hd HN HJ. unfold recover_and_put.
  destruct (try_recover_tracks N d g now q Hg Hd HN HJ) as (d' & g' & log & -> & Hd' & Hge & Hsl & Ht & Hs & Hp'). cbn [rbind].
  exists (put d' gid g'), g', log. split_and!; try done; [apply put_wf; [done|apply Ht]|].
  split; [done|]. unfold put, slot_index. cbn. by rewrite Hge, Hsl.
Qed.

Lemma data_step (N : Z) (d : Decoder) (g : Generation) (now : Z) (q : P) (i : nat) :
  wf_decoder N d -> N + 1 < 2 ^ 64 -> view d K now g -> tracks g ->
  (gn_parity_received g = false -> gn_k g = K) -> (i < length frames)%nat -> J q ->
  exists d' g' log, receive publish d (data_pkt K gid frames i) now q = Ok (true, d', deliver_all log q) /\
    wf_decoder (N + 1) d' /\ writes d d' g' /\ stepped now g g' log /\ recv g' i = true.
Proof.
  intros Hd HN (c & Hslot & Hc) Hg HgK Hi HJ. pose proof (frame_len i Hi) as Hfl.
  unfold data_pkt. rewrite receive_genuine by (cbn; first [apply data_env_wf, Hi | done | lia]).
  cbn [env_parity_count data_env]. change (0 =? 0) with true. cbn iota. unfold receive_data.
  cbn [data_env env_protected_len env_index env_k env_gen_id]. rewrite Z.eqb_refl. unfold max_frame.
  destruct (Z.eqb_spec (Z.of_nat (length (nth i frames []))) 0); [lia|].
  destruct (Z.ltb_spec (Z.of_nat 1024) (Z.of_nat (length (nth i frames [])))); [lia|].
  destruct (Z.leb_spec K (Z.of_nat i)); [lia|]. cbn [orb negb]. rewrite Hslot. cbn [rbind].
  pose proof (tk_k _ Hg) as Hkg. destruct (Z.ltb_spec K (gn_k g)); [lia|]. cbn [orb].
  assert (negb (gn_parity_received g) && negb (K =? gn_k g) = false) as ->.
  { destruct (gn_parity_received g); [done|]. rewrite HgK by done. by rewrite Z.eqb_refl. }
  destruct (ensure_tracks g K Hg ltac:(lia)) as (Ht & Hk & Hcap & Hr & Hps & Hpr).
  destruct (Z.leb_spec (gn_k (ensure g K)) (Z.of_nat i)); [lia|].
  pose proof (touch_tracks _ now Ht) as Ht2. set (g2 := gn_touch (ensure g K) now) in *.
  destruct (accepts (nth i frames []) false (gn_close_reason g2) q) as [-> HJ']; [by apply nth_In|done|]. cbn [rbind negb]. rewrite protected_frame_ok by lia. cbn [rbind].
  rewrite !Nat2Z.id. pose proof (wg_len _ (tk_wf _ Ht2)) as Hlen.
  assert (i < length (gn_data g2))%nat by (cbn; lia). rewrite !vset_lt by lia. cbn [rbind].
  pose proof (add_data_tracks g2 i Ht2 Hcap Hi) as Ht3. set (g3 := gn_with_data g2 _ _ _) in *.
  assert (forall x, recv g3 x = (x =? i)%nat || recv g x) as Hr3.
  { intros x. rewrite <- Hr. unfold recv, g3. cbn [gn_received gn_with_data]. rewrite nth_insert by lia. by destruct (x =? i)%nat. }
  destruct (finish_step N (with_counters d c) g3 now (deliver (nth i frames []) false (gn_close_reason g2) q) Ht3
              (with_counters_wf N d c Hd Hc) HN HJ') as (d' & g' & log & Hrec & Hd' & Hh & Htr & Hs & [P1 P2 P0 P3 P4 P6 P5]).
  exists d', g', ((nth i frames [], false, gn_close_reason g2) :: log). split; [exact Hrec|]. split; [done|]. split; [done|].
  split; [|apply P1; rewrite Hr3; by rewrite Nat.eqb_refl].
  constructor; try done.
  - intros Hnp. rewrite P4 in Hnp. change (gn_parity_received (ensure g K) = false) in Hnp. rewrite Hpr in Hnp.
    rewrite P0. change (gn_k (ensure g K) = K). rewrite Hk, (HgK Hnp). lia.
  - intros x Hx. apply P1. rewrite Hr3, Hx. apply orb_true_r.
  - intros r Hrow. unfold has_row in *. rewrite P3. change (nth r (gn_parities (ensure g K)) [] <> []). by rewrite Hps.
  - intros x Hx. destruct (P2 x Hx) as [Hx3|Hx3]; [|right; apply logged_cons; auto].
    rewrite Hr3 in Hx3. apply orb_true_iff in Hx3 as [E|]; [|by left]. apply Nat.eqb_eq in E. rewrite E. right. apply logged_cons. auto.
  - rewrite P6. unfold g3, g2. cbn. by rewrite ensure_first.
  - intros f [<-|Hf]%logged_cons; [by apply nth_In | auto].
Qed.

Lemma parity_step (N : Z) (d : Decoder) (g : Generation) (now : Z) (q : P) (row : nat) :
  wf_decoder N d -> N + 1 < 2 ^ 64 ->
  (forall c, wf_counters c -> view (with_counters d c) (Z.of_nat (length frames)) now g) -> tracks g -> Z.of_nat row < p -> J q ->
  exists d' g' log, receive publish d (parity_pkt p gid reason frames M row) now q = Ok (true, d', deliver_all log q) /\
    wf_decoder (N + 1) d' /\ writes d d' g' /\ stepped now g g' log /\ has_row g' row.
Proof.
  intros Hd HN Hview Hg Hrow HJ. unfold parity_pkt.
  rewrite receive_genuine by (cbn; first [apply parity_env_wf, Hrow | done | lia]).
  cbn [env_parity_count parity_env]. destruct (Z.eqb_spec p 0); [lia|]. unfold receive_parity.
  cbn [parity_env env_protected_len env_index env_k env_gen_id env_parity_count env_close_reason].
  rewrite length_parity_payload, Z.eqb_refl. unfold max_frame.
  destruct (Z.ltb_spec 16 p); [lia|]. destruct (Z.ltb_spec (Z.of_nat (length frames) + Z.of_nat row) (Z.of_nat (length frames))); [lia|].
  destruct (Z.leb_spec (Z.of_nat (length frames) + p) (Z.of_nat (length frames) + Z.of_nat row)); [lia|].
  destruct (Z.ltb_spec (Z.of_nat (M + 2)) 2); [lia|]. destruct (Z.ltb_spec (Z.of_nat 1024 + 2) (Z.of_nat (M + 2))); [lia|].
  cbn [orb negb]. set (c0 := mkCounters _ _ _ _ _ _).
  assert (wf_counters c0) as Hc0 by (pose proof (wd_counters _ _ Hd); done).
  destruct (Hview c0 Hc0) as (c & -> & Hc). cbn [rbind].
  assert (gn_parity_received g && (negb (gn_k g =? Z.of_nat (length frames)) || negb (gn_parity_count g =? p) || negb (gn_close_reason g =? reason)) = false) as ->.
  { destruct (gn_parity_received g) eqn:Hpr; [|done]. destruct (tk_parity _ Hg Hpr) as (-> & -> & -> & _). by rewrite !Z.eqb_refl. }
  pose proof (tk_k _ Hg) as Hkg. destruct (Z.ltb_spec (gn_k g) (Z.of_nat (length frames))); [lia|].
  assert (existsb (fun r => r) (drop (Z.to_nat (Z.of_nat (length frames))) (gn_received g)) = false) as ->.
  { apply not_true_iff_false. intros (r & Hin & ->)%existsb_exists. rewrite Nat2Z.id in Hin.
    apply list_elem_of_In, list_elem_of_lookup in Hin as [j Hj]. rewrite lookup_drop in Hj.
    destruct (tk_data _ Hg (length frames + j)%nat) as [Hlt _]; [|lia]. unfold recv. by apply nth_lookup_Some. }
  destruct (ensure_tracks g (Z.of_nat (length frames)) Hg ltac:(lia)) as (Ht & Hk & Hcap & Hr & Hps & Hpr).
  pose proof (touch_tracks _ now Ht) as Ht2. set (g2 := gn_touch (ensure g (Z.of_nat (length frames))) now) in *.
  fold (parity_table g2). rewrite parity_sizes by exact Ht2.
  replace (Z.to_nat (Z.of_nat (length frames) + Z.of_nat row - Z.of_nat (length frames))) with row by lia.
  destruct (parity_table_ok g2 Ht2) as [Hl Hnth]. rewrite vset_lt by lia. cbn [rbind].
  assert (gn_k g2 = Z.of_nat (length frames)) as Hk2 by (change (gn_k (ensure g (Z.of_nat (length frames))) = Z.of_nat (length frames)); lia).
  pose proof (add_parity_tracks g2 row Ht2 Hk2 Hcap Hrow) as Ht3.
  set (g3 := gn_with_parities g2 true p reason _) in *.
  destruct (finish_step N (with_counters (with_counters d c0) c) g3 now q Ht3) as (d' & g' & log & Hrec & Hd' & Hh & Htr & Hs & [P1 P2 P0 P3 P4 P6 P5]).
  { apply with_counters_wf; [by apply with_counters_wf|done]. } { done. } { done. }
  exists d', g', log. split; [exact Hrec|]. split; [done|]. split; [done|].
  assert (forall r, nth r (gn_parities g') [] = if (r =? row)%nat then parity_payload frames M (Z.of_nat row) else nth r (gn_parities g) []) as Hrows.
  { intros r. rewrite P3. unfold g3. cbn [gn_with_parities gn_parities]. rewrite nth_insert by lia. rewrite Hnth.
    change (gn_parities g2) with (gn_parities (ensure g (Z.of_nat (length frames)))). by rewrite Hps. }
  assert (parity_payload frames M (Z.of_nat row) <> []) as Hne.
  { intros E. apply (f_equal length) in E. rewrite length_parity_payload in E. cbn in E. lia. }
  split; [|unfold has_row; by rewrite Hrows, Nat.eqb_refl].
  constructor; try done.
  - intros Hnp. rewrite P4 in Hnp. discriminate.
  - intros x Hx. apply P1. rewrite <- Hr in Hx. exact Hx.
  - intros r Hh'. unfold has_row. rewrite Hrows. by destruct (r =? row)%nat.
  - intros x Hx. destruct (P2 x Hx) as [Hx3|]; [left|by right]. rewrite <- Hr. exact Hx3.
  - rewrite P6. unfold g3, g2. cbn. by rewrite ensure_first.
Qed.

(** ** Any sequence of datagrams *)
Inductive shard_id := Sdata (i : nat) | Spar (row : nat).
Definition packet (s : shard_id) : bytes :=
  match s with Sdata i => data_pkt K gid frames i | Spar row => parity_pkt p gid reason frames M row end.
Definition valid (s : shard_id) : Prop :=
  match s with Sdata i => (i < length frames)%nat | Spar row => Z.of_nat row < p end.
Definition has (g : Generation) (s : shard_id) : Prop :=
  match s with Sdata i => recv g i = true | Spar row => has_row g row end.

Definition fresh_slot (d : Decoder) : Prop :=
  forall g, holds d g -> gn_active g = false \/ gn_gen_id g <> gid.

Lemma view_held (N : Z) (d : Decoder) (g : Generation) (k now : Z) : wf_decoder N d -> holds d g -> tracks g -> view d k now g.
Proof.
  intros Hd Hh Hg. exists (dc_counters d). split; [|apply Hd]. unfold slot. destruct (Z.eqb_spec (dc_gens d) 0) as [E|_]; [pose proof (wd_gens _ _ Hd); lia|].
  unfold holds in Hh. rewrite (proj2 (vget_lookup _ _ _) Hh). cbn [rbind]. rewrite (tk_active _ Hg), (tk_id _ Hg), Z.eqb_refl. by destruct d.
Qed.

Lemma view_fresh (N : Z) (d : Decoder) (k now : Z) : wf_decoder N d -> fresh_slot d -> view d k now (new_generation gid k now).
Proof.
  intros Hd Hf. unfold view, slot. destruct (Z.eqb_spec (dc_gens d) 0) as [E|_]; [pose proof (wd_gens _ _ Hd); lia|].
  destruct (vget_lt (dc_slots d) (slot_index d gid) (slot_index_lt N d gid Hd)) as (g & -> & Hl). cbn [rbind].
  pose proof (Forall_lookup_1 _ _ _ _ (wd_gen _ _ Hd) Hl) as Hg.
  pose proof (finalize_wf _ _ (wd_counters _ _ Hd) Hg) as [Hc _].
  assert (negb (gn_active g) || negb (gn_gen_id g =? gid) = true) as ->.
  { destruct (Hf g Hl) as [->|Hne]; [done|]. rewrite (proj2 (Z.eqb_neq _ _) Hne). apply orb_true_r. }
  destruct (finalize (dc_counters d) g) as [c g']. by exists c.
Qed.

(** One genuine datagram, from a slot that is fresh or already holds genuine shards. *)
Lemma shard_step (N : Z) (d : Decoder) (s : shard_id) (now : Z) (q : P) (og : option Generation) :
  wf_decoder N d -> N + 1 < 2 ^ 64 -> valid s -> J q ->
  match og with
  | None => fresh_slot d
  | Some g => holds d g /\ tracks g /\ (gn_parity_received g = false -> gn_k g = K)
  end ->
  exists d' g0 g' log, receive publish d (packet s) now q = Ok (true, d', deliver_all log q) /\
    wf_decoder (N + 1) d' /\ writes d d' g' /\ stepped now g0 g' log /\ has g' s /\
    match og with None => gn_first_ns g0 = now /\ forall i, recv g0 i = false | Some g => g0 = g end.
Proof.
  intros Hd HN Hs HJ Hog.
  set (k := match s with Sdata _ => K | Spar _ => Z.of_nat (length frames) end).
  set (g0 := match og with None => new_generation gid k now | Some g => g end).
  assert (tracks g0 /\ (gn_parity_received g0 = false -> match s with Sdata _ => gn_k g0 = K | _ => True end) /\
    (forall c, wf_counters c -> view (with_counters d c) k now g0)) as (Ht & HtK & Hview).
  { destruct og as [g|]; unfold g0.
    - destruct Hog as (Hh & Ht & HtK). split; [done|]. split; [intros; destruct s; auto|].
      intros c Hc. apply (view_held N); try done. by apply with_counters_wf.
    - split; [apply new_tracks; destruct s; cbn; lia|]. split; [by destruct s|].
      intros c Hc. apply (view_fresh N); try done. by apply with_counters_wf. }
  assert (match og with None => gn_first_ns g0 = now /\ forall i, recv g0 i = false | Some g => g0 = g end) as Hg0.
  { destruct og; unfold g0; [done|]. split; [done|]. intros [|i]; done. }
  destruct s as [i|row]; cbn [valid packet has] in *.
  - assert (view d K now g0) as Hv.
    { specialize (Hview (dc_counters d) (wd_counters _ _ Hd)). by destruct d. }
    destruct (data_step N d g0 now q i Hd HN Hv Ht HtK Hs HJ) as (d' & g' & log & ? & ? & ? & ? & ?).
    exists d', g0, g', log. by split_and!.
  - destruct (parity_step N d g0 now q row Hd HN Hview Ht Hs HJ) as (d' & g' & log & ? & ? & ? & ? & ?).
    exists d', g0, g', log. by split_and!.
Qed.

Lemma deliver_all_app log1 log2 q : deliver_all (log1 ++ log2) q = deliver_all log2 (deliver_all log1 q).
Proof using Type. apply fold_left_app. Qed.

Lemma logged_app log1 log2 f : logged (log1 ++ log2) f <-> logged log1 f \/ logged log2 f.
Proof using Type. unfold logged. by rewrite map_app, in_app_iff. Qed.

(** Deliveries of genuine frames keep the invariant of the callback. *)
Lemma deliver_all_inv (log : list (bytes * bool * Z)) (q : P) : (forall f, logged log f -> In f frames) -> J q -> J (deliver_all log q).
Proof.
  revert q. induction log as [|[[f r] c] log IH]; intros q Hf HJ; [done|]. cbn. apply IH.
  - intros f' Hf'. apply Hf. by right.
  - apply accepts; [|done]. apply Hf. by left.
Qed.

(** The state after the datagrams [S], with the frames of [log] published. *)
Definition received_set (d : Decoder) (S : list shard_id) (log : list (bytes * bool * Z)) : Prop :=
  (forall f, logged log f -> In f frames) /\
  ((S = [] /\ fresh_slot d) \/
   exists g, holds d g /\ tracks g /\ settled g /\ (gn_parity_received g = false -> gn_k g = K) /\
     (forall s, In s S -> has g s) /\ (forall i, recv g i = true -> logged log (nth i frames []))).

Lemma run_shards (arrivals : list (shard_id * Z)) (N : Z) (d : Decoder) (q : P) (S : list shard_id) (log : list (bytes * bool * Z)) :
  wf_decoder N d -> N + Z.of_nat (length arrivals) < 2 ^ 64 -> (forall a, In a arrivals -> valid (fst a)) -> J q ->
  received_set d S log ->
  exists d' log', decoder_run publish (map (fun a => EvReceive (packet (fst a)) (snd a)) arrivals) d (deliver_all log q) = Ok (d', deliver_all log' q) /\
    received_set d' (S ++ map fst arrivals) log'.
Proof.
  revert N d S log. induction arrivals as [|[s now] arr IH]; intros N d S log Hd HN Hval HJ HS; cbn [map decoder_run length] in *.
  { exists d, log. split; [done|]. by rewrite app_nil_r. }
  destruct HS as [Hlf HS].
  assert (exists og, match og with None => S = [] /\ fresh_slot d | Some g => (holds d g /\ tracks g /\ (gn_parity_received g = false -> gn_k g = K)) /\
      (forall s, In s S -> has g s) /\ (forall i, recv g i = true -> logged log (nth i frames [])) end) as (og & Hog).
  { destruct HS as [HS|(g & ? & ? & ? & ? & ? & ?)]; [by exists None | exists (Some g); by split_and!]. }
  destruct (shard_step N d s now (deliver_all log q) og Hd ltac:(lia)) as (d' & g0 & g' & log' & Hrec & Hd' & Hh & [T1 T2 T3 T4 T5 T6 _ T7] & Hhas & Hg0).
  { apply (Hval (s, now)). cbn; auto. }
  { by apply deliver_all_inv. }
  { destruct og; [apply Hog | apply Hog]. }
  cbn [fst snd]. rewrite Hrec. cbn [rbind]. rewrite <- deliver_all_app.
  destruct (IH (N + 1) d' (S ++ [s]) (log ++ log')) as (d2 & log2 & Hrun & Hset); [done | lia | intros; apply Hval; cbn; auto | done | |].
  - split; [intros f [Hf|Hf]%logged_app; auto|]. right. exists g'. split_and!; try done; [by apply (writes_holds N d)| |].
    + intros x [Hx|[->|[]]]%in_app_iff; [|done]. destruct og as [g|]; [|destruct Hog as [-> _]; done].
      destruct Hog as (_ & Hold & _). rewrite Hg0 in T4, T5. specialize (Hold x Hx). destruct x; cbn in *; auto.
    + intros i Hi. apply logged_app. destruct (T6 i Hi) as [Ho|]; [left|by right].
      destruct og as [g|]; [|by rewrite (proj2 Hg0) in Ho]. rewrite Hg0 in Ho. by apply Hog.
  - exists d2, log2. split; [exact Hrun|]. by rewrite <- app_assoc in Hset.
Qed.

(** ** Counting *)
Definition data_ids (S : list shard_id) : list nat := omap (fun s => match s with Sdata i => Some i | _ => None end) S.
Definition row_ids (S : list shard_id) : list nat := omap (fun s => match s with Spar r => Some r | _ => None end) S.

Lemma in_data_ids (S : list shard_id) (i : nat) : In i (data_ids S) <-> In (Sdata i) S.
Proof using Type.
  unfold data_ids. rewrite <- !list_elem_of_In, list_elem_of_omap. split.
  - intros ([j|] & Hs & [= <-]). done.
  - intros H. by exists (Sdata i).
Qed.
Lemma in_row_ids (S : list shard_id) (i : nat) : In i (row_ids S) <-> In (Spar i) S.
Proof using Type.
  unfold row_ids. rewrite <- !list_elem_of_In, list_elem_of_omap. split.
  - intros ([|j] & Hs & [= <-]). done.
  - intros H. by exists (Spar i).
Qed.

Lemma ids_NoDup (S : list shard_id) : List.NoDup S ->
  List.NoDup (data_ids S) /\ List.NoDup (row_ids S) /\ length S = (length (data_ids S) + length (row_ids S))%nat.
Proof using Type.
  induction 1 as [|s S Hnin _ (H1 & H2 & H3)]; [split_and!; constructor|].
  destruct s as [i|r]; cbn; rewrite H3; split_and!; try done; try lia; constructor; try done; by rewrite ?in_data_ids, ?in_row_ids.
Qed.

(** Enough distinct datagrams: nothing is absent. *)
Lemma enough_complete (g : Generation) (S : list shard_id) :
  tracks g -> settled g -> (forall s, In s S -> has g s) -> (forall s, In s S -> valid s) ->
  List.NoDup S -> (length frames <= length S)%nat -> forall i, (i < length frames)%nat -> recv g i = true.
Proof using Type.
  clear Hn HK Hp HM Hframes accepts Hgid Hreason. intros Hg Hs Hhas Hval Hnd Hlen. destruct (ids_NoDup S Hnd) as (Hd & Hr & Hsum).
  set (A := List.filter (fun i => negb (recv g i)) (List.seq 0 (length frames))).
  assert (length A + length (data_ids S) <= length frames)%nat as HA.
  { rewrite <- length_app. rewrite <- (length_seq (length frames) 0). apply NoDup_incl_length.
    - apply List.NoDup_app; [apply List.NoDup_filter, seq_NoDup | exact Hd |].
      intros x [_ Hx]%filter_In Hx2%in_data_ids. specialize (Hhas _ Hx2). cbn in Hhas. by rewrite Hhas in Hx.
    - intros x [[Hx _]%filter_In|Hx%in_data_ids]%in_app_iff; [done|]. specialize (Hval _ Hx). cbn in Hval. apply in_seq. lia. }
  assert (length (row_ids S) <= length (rows_of g))%nat as HR.
  { apply NoDup_incl_length; [done|]. intros r Hr2%in_row_ids. specialize (Hhas _ Hr2). cbn in Hhas. unfold has_row in Hhas.
    apply filter_In. split; [|by destruct (nth r (gn_parities g) [])]. apply in_seq. split; [lia|]. cbn.
    destruct (Nat.lt_ge_cases r (length (gn_parities g))); [done|]. by rewrite nth_overflow in Hhas. }
  intros i Hi. destruct (recv g i) eqn:Hri; [done|]. exfalso.
  assert (In i A) as HiA by (apply filter_In; rewrite Hri; split; [apply in_seq; lia|done]).
  assert (1 <= length A)%nat by (destruct A; [done|cbn; lia]).
  destruct (gn_parity_received g) eqn:Hpr.
  - destruct (tk_parity _ Hg Hpr) as (Ek & _). assert (absent_of g = A) as HeqA by (unfold absent_of; by rewrite Ek, Nat2Z.id).
    specialize (Hs Hpr). rewrite HeqA in Hs. rewrite Hs in HiA by lia. done.
  - destruct (tk_noparity _ Hg Hpr) as [Hnil _]. unfold rows_of in HR. rewrite Hnil in HR. cbn in HR. lia.
Qed.
End Recovery.

Lemma map_fst_combine {A B} (l : list A) (l' : list B) : length l = length l' -> map fst (combine l l') = l.
Proof. revert l'. induction l as [|x l IH]; intros [|y l'] H; try done. cbn in *. rewrite IH by lia. done. Qed.

Lemma incl_map_inv {A B} (f : A -> B) (l : list B) (xs : list A) :
  incl l (map f xs) -> exists ys, l = map f ys /\ incl ys xs.
Proof.
  induction l as [|b l IH]; intros H; [exists []; split; [done|]; intros x []|]. destruct IH as (ys & -> & Hy); [intros x Hx; apply H; cbn; auto|].
  destruct (proj1 (in_map_iff f xs b)) as (x & <- & Hx); [apply H; cbn; auto|].
  exists (x :: ys). split; [done|]. intros z [<-|Hz]; auto.
Qed.

Lemma arrivals_shards (frames : list bytes) (K p gid reason : Z) (M : nat) (S : list bytes) :
  1 <= p ->
  (forall d, In d S -> In d (map (data_pkt K gid frames) (List.seq 0 (length frames)) ++
     parity_pkt p gid reason frames M 0 :: map (parity_pkt p gid reason frames M) (List.seq 1 (Z.to_nat p - 1)))) ->
  exists ids, S = map (packet frames K p gid reason M) ids /\ forall s, In s ids -> valid frames p s.
Proof.
  intros Hp. induction S as [|d S IH]; intros HS; [by exists []|].
  destruct IH as (ids & -> & Hval); [intros; apply HS; cbn; auto|].
  assert (exists s, d = packet frames K p gid reason M s /\ valid frames p s) as (s & -> & Hs).
  { specialize (HS d (or_introl eq_refl)). apply in_app_iff in HS as [Hd|[<-|Hd]].
    - apply in_map_iff in Hd as (i & <- & Hi%in_seq). exists (Sdata i). split; [done|]. cbn. lia.
    - exists (Spar 0). split; [done|]. cbn. lia.
    - apply in_map_iff in Hd as (i & <- & Hi%in_seq). exists (Spar i). split; [done|]. cbn. lia. }
  exists (s :: ids). split; [done|]. intros x [<-|Hx]; auto.
Qed.

(** C5: The erasure-code guarantee, end to end.  Take any encoder the program can
    reach and close a generation of [n] frames.  Deliver any of its datagrams to
    a decoder whose slot for that generation is free, in any order, with any
    duplicates, at any times: if at least [n] distinct datagrams (data or parity)
    are among them, every call of [receive] returns, every frame of the
    generation is published, and nothing but frames of the generation is. *)
Theorem fec_any_n_datagrams_recover {P} (publish : bytes -> bool -> Z -> P -> res (bool * P))
    (deliver : bytes -> bool -> Z -> P -> P) (e e' : Encoder) (gid reason : Z) (built : BuiltGeneration)
    (N : Z) (d : Decoder) (q : P) (arrivals : list (bytes * Z)) (distinct : list bytes) :
  enc_reach e -> in_range 32 gid -> 0 <= reason <= 2 ->
  Encoder_close e gid reason = Ok (built, e') ->
  (forall f r c q, In f (en_frames e) -> publish f r c q = Ok (true, deliver f r c q)) ->
  wf_decoder N d -> fresh_slot gid d -> N + Z.of_nat (length arrivals) < 2 ^ 64 ->
  (forall a, In a arrivals -> In (fst a) (all_datagrams built)) ->
  List.NoDup distinct -> incl distinct (map fst arrivals) -> (length (en_frames e) <= length distinct)%nat ->
  exists d' log, decoder_run publish (map (fun a => EvReceive (fst a) (snd a)) arrivals) d q = Ok (d', deliver_all deliver log q) /\
    (forall f, In f (en_frames e) <-> logged log f).
Proof.
  intros Hr%enc_reach_wf Hgid Hreason Hclose Hacc Hd Hfresh HN Harr Hnd Hincl Hlen.
  destruct (Encoder_close_wf e e' gid reason built Hr Hclose) as [_ Hne].
  rewrite Encoder_close_ok in Hclose by done. injection Hclose as <- _. unfold all_datagrams in Harr. cbn [bg_data bg_parity bg_extra_parity] in Harr.
  destruct Hr as [Hk Hp Hn Hmax Hf]. rewrite Forall_forall in Hf.
  set (frames := en_frames e) in *. set (M := Z.to_nat (en_max_len e)) in *.
  assert (1 <= Z.of_nat (length frames) <= en_k e) as Hn1 by (destruct frames; [done|cbn [length] in *; lia]).
  assert (forall f, In f frames -> (1 <= length f <= M)%nat) as Hfl by (intros f Hin%list_elem_of_In; specialize (Hf f Hin); lia).
  destruct (arrivals_shards frames (en_k e) (en_parity_count e) gid reason M (map fst arrivals)) as (ids & Hids & Hval); [lia| |].
  { intros x (a & <- & Ha)%in_map_iff. by apply Harr. }
  set (pkt := packet frames (en_k e) (en_parity_count e) gid reason M) in *.
  set (arr := combine ids (map snd arrivals)).
  assert (length ids = length arrivals) as Hli by (apply (f_equal length) in Hids; by rewrite !length_map in Hids).
  assert (map (fun a => EvReceive (fst a) (snd a)) arrivals = map (fun a => EvReceive (pkt (fst a)) (snd a)) arr) as ->.
  { unfold arr. clear -Hids Hli. revert ids Hids Hli. induction arrivals as [|[x t] arr IH]; intros [|s ids] Hids Hli; try done.
    cbn in *. injection Hids as -> Hids. injection Hli as Hli. by rewrite IH with (ids := ids). }
  assert (map fst arr = ids) as Hfst by (unfold arr; apply map_fst_combine; rewrite length_map; lia).
  assert (length arr = length arrivals) as Hla by (rewrite <- Hli, <- Hfst; symmetry; apply length_map).
  assert (M <= 1024)%nat as HM by lia.
  assert (forall f r c q, In f frames -> True -> publish f r c q = Ok (true, deliver f r c q) /\ True) as Hacc' by (intros; split; [by apply Hacc|done]).
  destruct (run_shards frames (en_k e) (en_parity_count e) gid reason M Hn1 ltac:(lia) Hp HM Hfl publish deliver (fun _ => True) Hacc' Hgid Hreason
              arr N d q [] []) as (d' & log & Hrun & Hlf & Hset).
  { done. } { by rewrite Hla. }
  { intros [s t] Hin. apply Hval. rewrite <- Hfst. by apply in_map. }
  { done. }
  { split; [by intros f []|]. left. done. }
  exists d', log. split; [exact Hrun|]. rewrite Hfst in Hset. cbn [app] in Hset.
  rewrite Hids in Hincl. destruct (incl_map_inv pkt distinct ids Hincl) as (ids2 & Hd2 & Hincl2).
  rewrite Hd2 in Hnd, Hlen. rewrite length_map in Hlen. apply NoDup_map_inv in Hnd.
  intros f. split; [|apply Hlf]. intros Hin. apply (In_nth _ _ []) in Hin as (i & Hi & <-).
  destruct Hset as [[-> _]|(g & Hh & Ht & Hs & _ & Hhas & Hlog)].
  - apply incl_l_nil in Hincl2. subst ids2. cbn in Hlen. lia.
  - apply Hlog. apply (enough_complete frames (en_k e) (en_parity_count e) gid reason M g ids2); auto.
Qed.

(** Two of the three data datagrams of [demo_built] are lost; the two parity
    datagrams, one of them duplicated, make up for them. *)
Definition demo_arrivals : list (bytes * Z) :=
  [(bg_parity demo_built, 10); (nth 1 (bg_data demo_built) [], 20); (bg_parity demo_built, 25); (nth 0 (bg_extra_parity demo_built) [], 30)].

Example demo_recovers :
  match decoder_run collect (map (fun a => EvReceive (fst a) (snd a)) demo_arrivals) (Decoder_make 64) [] with
  | Ok (d, q) => (q, fc_recovered (dc_counters d)) = ([map z2b [7]; map z2b [1; 2]; map z2b [9; 8; 9]], 2)
  | Throw _ => False
  end.
Proof. vm_compute. reflexivity. Qed.

Lemma fec_any_n_datagrams_recover_witness :
  exists d' log, decoder_run collect (map (fun a => EvReceive (fst a) (snd a)) demo_arrivals) (Decoder_make 64) [] =
      Ok (d', deliver_all (fun f _ _ q => q ++ [f]) log []) /\
    (forall f, In f demo_frames <-> logged log f).
Proof.
  apply (fec_any_n_datagrams_recover collect (fun f _ _ q => q ++ [f]) demo_encoder (mkEncoder 3 2 0 []) 77 1 demo_built 0
    (Decoder_make 64) [] demo_arrivals (map fst [nth 0 demo_arrivals ([], 0); nth 1 demo_arrivals ([], 0); nth 3 demo_arrivals ([], 0)])).
  - exact demo_encoder_reach.
  - unfold in_range; lia.
  - lia.
  - vm_compute. reflexivity.
  - intros; reflexivity.
  - apply Decoder_make_wf. lia.
  - intros g Hg. left. unfold holds in Hg. apply lookup_replicate in Hg as [-> _]. reflexivity.
  - cbn. lia.
  - intros a [<-|[<-|[<-|[<-|[]]]]]; vm_compute; tauto.
  - apply NoDup_ListNoDup, (bool_decide_unpack _). vm_compute. exact I.
  - intros x [<-|[<-|[<-|[]]]]; vm_compute; tauto.
  - vm_compute. lia.
Defined.
