(* ===== verification/FecStream.v ===== *)
(** * A stream of FEC generations against one decoder

    [FecRecovery] follows one generation; here a sender's whole sequence of
    generations meets a decoder that keeps only [gens_] slots, evicts a
    generation when another one needs its slot and expires old ones.  Whatever
    arrives, in whatever order, the decoder stays genuine: each slot is free or
    holds shards of one generation of the stream, and only frames of the stream are
    handed on.  A generation is recovered if enough of its datagrams arrive
    between an eviction and an expiry. *)
From S2P Require Import Prelude Message Wire Samples GF256 Gauss Fec FecDecoder FecRecovery.
From Stdlib Require Import Sorting.Sorted.

(** ** Expiry, slot by slot *)
Definition survives (now ttl : Z) (g : Generation) : bool := negb (gn_active g && (ttl <=? u64 (now - gn_first_ns g))).

Lemma sweep_expire (now ttl : Z) (gs : list Generation) (c : Counters) :
  snd (sweep (expire_one now ttl) c gs) = map (fun g => if survives now ttl g then g else fresh_generation) gs.
Proof.
  revert c. induction gs as [|g gs IH]; intros c; [done|]. cbn [sweep map]. unfold survives, expire_one at 1.
  destruct (gn_active g && _); cbn [negb]; [specialize (IH (fst (finalize c g)))|specialize (IH c)];
    destruct (sweep _ _ gs) as [c' gs']; cbn in *; by rewrite IH.
Qed.

Lemma expire_slots (d : Decoder) (now ttl : Z) :
  dc_gens (expire d now ttl) = dc_gens d /\ dc_slots (expire d now ttl) = map (fun g => if survives now ttl g then g else fresh_generation) (dc_slots d).
Proof.
  unfold expire. pose proof (sweep_expire now ttl (dc_slots d) (dc_counters d)) as E. by destruct (sweep _ _ _) as [c s].
Qed.

(** ** The stream *)
Record GenSpec := mkGenSpec { gs_frames : list bytes; gs_reason : Z; gs_max : nat }.

Section Stream.
Variables (K p : Z) (gens : list GenSpec).
Hypothesis HK : K <= 128.
Hypothesis Hp : 1 <= p <= 16.
Hypothesis Hcount : Z.of_nat (length gens) <= 2 ^ 32.
Hypothesis Hgens : forall i G, gens !! i = Some G ->
  1 <= Z.of_nat (length (gs_frames G)) <= K /\ (gs_max G <= 1024)%nat /\ 0 <= gs_reason G <= 2 /\
  forall f, In f (gs_frames G) -> (1 <= length f <= gs_max G)%nat.

#[local] Abbreviation of_gen i G := (tracks (gs_frames G) K p (Z.of_nat i) (gs_reason G) (gs_max G)).
Definition packet_of (i : nat) (G : GenSpec) (s : shard_id) : bytes := packet (gs_frames G) K p (Z.of_nat i) (gs_reason G) (gs_max G) s.
Definition valid_in (G : GenSpec) (s : shard_id) : Prop := valid (gs_frames G) p s.
Definition in_stream (f : bytes) : Prop := exists i G, gens !! i = Some G /\ In f (gs_frames G).

(** What a slot may hold of generation [i]. *)
Definition holding (i : nat) (G : GenSpec) (g : Generation) : Prop :=
  of_gen i G g /\ settled g /\ (gn_parity_received g = false -> gn_k g = K).

Definition genuine (d : Decoder) : Prop :=
  forall j g, dc_slots d !! j = Some g -> gn_active g = false \/ exists i G, gens !! i = Some G /\ slot_index d (Z.of_nat i) = j /\ holding i G g.

Lemma genuine_make (n : Z) : genuine (Decoder_make n).
Proof. intros j g Hg. left. unfold Decoder_make in Hg. cbn in Hg. by apply lookup_replicate in Hg as [-> _]. Qed.

Lemma genuine_expire (d : Decoder) (now ttl : Z) : genuine d -> genuine (expire d now ttl).
Proof.
  intros Hd j g Hg. destruct (expire_slots d now ttl) as [E1 E2]. unfold slot_index. rewrite E1. rewrite E2 in Hg.
  change (map ?h ?l) with (h <$> l) in Hg. apply list_lookup_fmap_Some in Hg as (g0 & -> & Hg0). destruct (survives now ttl g0); [|by left]. by apply Hd.
Qed.

Context {P : Type} (publish : bytes -> bool -> Z -> P -> res (bool * P)) (deliver : bytes -> bool -> Z -> P -> P) (J : P -> Prop).
Hypothesis accepts : forall f r c q, in_stream f -> J q -> publish f r c q = Ok (true, deliver f r c q) /\ J (deliver f r c q).

(** One datagram of generation [i]. *)
Lemma stream_step (N : Z) (d : Decoder) (i : nat) (G : GenSpec) (s : shard_id) (now : Z) (q : P) :
  wf_decoder N d -> N + 1 < 2 ^ 64 -> genuine d -> gens !! i = Some G -> valid_in G s -> J q ->
  exists d' g0 g' log, receive publish d (packet_of i G s) now q = Ok (true, d', deliver_all deliver log q) /\
    wf_decoder (N + 1) d' /\ genuine d' /\ writes (Z.of_nat i) d d' g' /\ holding i G g' /\
    stepped (gs_frames G) K p (Z.of_nat i) (gs_reason G) (gs_max G) now g0 g' log /\ has g' s /\
    ((fresh_slot (Z.of_nat i) d /\ gn_first_ns g0 = now /\ forall j, recv g0 j = false) \/ (holds (Z.of_nat i) d g0 /\ of_gen i G g0)).
Proof.
  intros Hd HN Hgen HG Hs HJ. destruct (Hgens i G HG) as (Hn & HM & Hr & Hf). pose proof (lookup_lt_Some _ _ _ HG) as Hi.
  assert (Hgid : in_range 32 (Z.of_nat i)) by (unfold in_range; lia).
  assert (Hacc : forall f r c q, In f (gs_frames G) -> J q -> publish f r c q = Ok (true, deliver f r c q) /\ J (deliver f r c q)).
  { intros f r c q0 Hin. apply accepts. by exists i, G. }
  destruct (vget_lt (dc_slots d) (slot_index d (Z.of_nat i)) (slot_index_lt N d (Z.of_nat i) Hd)) as (g & _ & Hg).
  assert (exists og, match og with
    | None => fresh_slot (Z.of_nat i) d
    | Some g0 => holds (Z.of_nat i) d g0 /\ of_gen i G g0 /\ (gn_parity_received g0 = false -> gn_k g0 = K) end) as (og & Hog).
  { destruct (Hgen _ g Hg) as [Hin|(i' & G' & HG' & _ & Ht & Hset & Hk)].
    - exists None. intros g1 Hg1. unfold holds in Hg1. rewrite Hg in Hg1. injection Hg1 as <-. by left.
    - destruct (decide (i' = i)) as [->|Hne].
      + rewrite HG in HG'. injection HG' as <-. exists (Some g). by split_and!.
      + exists None. intros g1 Hg1. unfold holds in Hg1. rewrite Hg in Hg1. injection Hg1 as <-. right. rewrite (tk_id _ _ _ _ _ _ _ Ht). lia. }
  destruct (shard_step (gs_frames G) K p (Z.of_nat i) (gs_reason G) (gs_max G) Hn HK Hp HM Hf publish deliver J Hacc Hgid Hr N d s now q og Hd HN Hs HJ Hog)
    as (d' & g0 & g' & log & Hrec & Hd' & Hw & Hst & Hhas & Hg0).
  exists d', g0, g', log. split; [exact Hrec|]. split; [done|].
  assert (Hhold : holding i G g') by (split_and!; apply Hst). split_and!; try done.
  - destruct Hw as [E1 E2]. intros j g1 Hg1. unfold slot_index. rewrite E1. rewrite E2 in Hg1.
    destruct (decide (j = slot_index d (Z.of_nat i))) as [->|Hne].
    + rewrite list_lookup_insert_eq in Hg1 by (by eapply lookup_lt_Some). injection Hg1 as <-. right. by exists i, G.
    + rewrite list_lookup_insert_ne in Hg1 by done. by apply Hgen.
  - destruct og as [g1|]; [right; subst g0; split; apply Hog|left]. split; [exact Hog|exact Hg0].
Qed.

(** ** One generation among the others

    [collected i G d S log lo hi]: of generation [i], the shards [S] have arrived
    since its slot was last free; what is known of it has been handed on; and the
    first of them came between [lo] and [hi]. *)
Definition collected (i : nat) (G : GenSpec) (d : Decoder) (S : list shard_id) (log : list (bytes * bool * Z)) (lo hi : Z) : Prop :=
  (S = [] /\ fresh_slot (Z.of_nat i) d) \/
  exists g, holds (Z.of_nat i) d g /\ holding i G g /\ (forall s, In s S -> has g s) /\
    (forall j, recv g j = true -> logged log (nth j (gs_frames G) [])) /\ lo <= gn_first_ns g <= hi.

Lemma collected_same (i : nat) (G : GenSpec) (d d' : Decoder) (S : list shard_id) (log log' : list (bytes * bool * Z)) (lo hi hi' : Z) :
  dc_gens d' = dc_gens d -> dc_slots d' !! slot_index d (Z.of_nat i) = dc_slots d !! slot_index d (Z.of_nat i) -> hi <= hi' ->
  collected i G d S log lo hi -> collected i G d' S (log ++ log') lo hi'.
Proof.
  intros E1 E2 Hhi Hc. assert (Hh : forall g, holds (Z.of_nat i) d' g <-> holds (Z.of_nat i) d g) by (intros g; unfold holds, slot_index in *; by rewrite E1, E2).
  destruct Hc as [[-> Hf]|(g & H1 & H2 & H3 & H4 & H5)].
  - left. split; [done|]. intros g Hg%Hh. by apply Hf.
  - right. exists g. split_and!; try done; [by apply Hh| |lia|lia]. intros j Hj. apply logged_app. left. by apply H4.
Qed.

(** A datagram of a generation in another slot. *)
Lemma collected_other (i i' : nat) (G : GenSpec) (d d' : Decoder) (g' : Generation) (S : list shard_id) (log log' : list (bytes * bool * Z)) (lo hi hi' : Z) :
  writes (Z.of_nat i') d d' g' -> slot_index d (Z.of_nat i') <> slot_index d (Z.of_nat i) -> hi <= hi' ->
  collected i G d S log lo hi -> collected i G d' S (log ++ log') lo hi'.
Proof. intros [E1 E2] Hne Hhi. apply collected_same; [done| |done]. rewrite E2. by apply list_lookup_insert_ne. Qed.

(** A datagram of this generation. *)
Lemma collected_own (i : nat) (G : GenSpec) (d d' : Decoder) (g0 g' : Generation) (s : shard_id) (S : list shard_id) (log log' : list (bytes * bool * Z)) (now lo hi N : Z) :
  wf_decoder N d -> writes (Z.of_nat i) d d' g' -> holding i G g' ->
  stepped (gs_frames G) K p (Z.of_nat i) (gs_reason G) (gs_max G) now g0 g' log' -> has g' s ->
  ((fresh_slot (Z.of_nat i) d /\ gn_first_ns g0 = now /\ forall j, recv g0 j = false) \/ (holds (Z.of_nat i) d g0 /\ of_gen i G g0)) ->
  0 < lo -> lo <= hi <= now -> collected i G d S log lo hi -> collected i G d' (S ++ [s]) (log ++ log') lo now.
Proof using Type.
  clear HK Hp Hcount Hgens accepts. intros Hd Hw Hh Hst Hhas Hg0 Hlo Hhi Hc.
  assert (Hfr : forall g, fresh_slot (Z.of_nat i) d -> holds (Z.of_nat i) d g -> of_gen i G g -> False).
  { intros g Hf Hg Ht. destruct (Hf g Hg) as [Hin|Hid]; [by rewrite (tk_active _ _ _ _ _ _ _ Ht) in Hin|by destruct (Hid (tk_id _ _ _ _ _ _ _ Ht))]. }
  assert (Hcase : (S = [] /\ gn_first_ns g0 = now /\ forall j, recv g0 j = false) \/
    ((forall s, In s S -> has g0 s) /\ (forall j, recv g0 j = true -> logged log (nth j (gs_frames G) [])) /\ lo <= gn_first_ns g0 <= hi)).
  { destruct Hg0 as [(Hf & Hz)|[Hg0 Ht0]], Hc as [[-> Hf']|(g & Hg & Ht & HS & Hl & Hn)].
    - by left.
    - by destruct (Hfr g Hf Hg (proj1 Ht)).
    - by destruct (Hfr g0 Hf' Hg0 Ht0).
    - unfold holds in *. rewrite Hg in Hg0. injection Hg0 as <-. right. done. }
  right. exists g'. split_and!; [by apply (writes_holds (Z.of_nat i) N d d')|done| | | |].
  - intros x [Hx|[<-|[]]]%in_app_iff; [|done]. destruct Hcase as [[-> _]|(HS & _)]; [done|]. specialize (HS x Hx).
    destruct x; cbn in *; [by apply (sp_keeps _ _ _ _ _ _ _ _ _ _ Hst)|by apply (sp_rows _ _ _ _ _ _ _ _ _ _ Hst)].
  - intros j Hj. apply logged_app. destruct (sp_new _ _ _ _ _ _ _ _ _ _ Hst j Hj) as [Ho|]; [|by right]. left.
    destruct Hcase as [(_ & _ & Hz)|(_ & Hl & _)]; [by rewrite Hz in Ho|by apply Hl].
  - rewrite (sp_first _ _ _ _ _ _ _ _ _ _ Hst). destruct (Z.eqb_spec (gn_first_ns g0) 0); destruct Hcase as [(_ & E & _)|(_ & _ & E)]; lia.
  - rewrite (sp_first _ _ _ _ _ _ _ _ _ _ Hst). destruct (Z.eqb_spec (gn_first_ns g0) 0); destruct Hcase as [(_ & E & _)|(_ & _ & E)]; lia.
Qed.

(** Expiry leaves alone a generation that is young enough. *)
Lemma collected_expire (i : nat) (G : GenSpec) (d : Decoder) (S : list shard_id) (log : list (bytes * bool * Z)) (lo hi now ttl : Z) :
  0 <= lo -> hi <= now -> now < 2 ^ 64 -> now - lo < ttl ->
  collected i G d S log lo hi -> collected i G (expire d now ttl) S log lo hi.
Proof using Type.
  clear HK Hp Hcount Hgens accepts. intros Hlo Hhi Hnow Httl Hc. destruct (expire_slots d now ttl) as [E1 E2].
  assert (Hs : forall g, holds (Z.of_nat i) (expire d now ttl) g <-> exists g0, holds (Z.of_nat i) d g0 /\ g = if survives now ttl g0 then g0 else fresh_generation).
  { intros g. unfold holds, slot_index. rewrite E1, E2. change (map ?h ?l) with (h <$> l). rewrite list_lookup_fmap_Some. split; intros (g0 & ? & ?); by exists g0. }
  destruct Hc as [[-> Hf]|(g & Hg & H2 & H3 & H4 & H5)].
  - left. split; [done|]. intros g Hg. apply Hs in Hg as (g0 & Hg0 & ->). destruct (survives now ttl g0); [by apply Hf|by left].
  - right. exists g. split_and!; try done; [|lia|lia]. apply Hs. exists g. split; [done|].
    unfold survives. rewrite (tk_active _ _ _ _ _ _ _ (proj1 H2)). rewrite (wrap_small 64) by (unfold in_range; lia).
    by destruct (Z.leb_spec ttl (now - gn_first_ns g)); [lia|].
Qed.

(** As many distinct shards as frames: every frame has been handed on. *)
Lemma collected_complete (i : nat) (G : GenSpec) (d : Decoder) (S : list shard_id) (log : list (bytes * bool * Z)) (lo hi : Z) (ids : list shard_id) :
  collected i G d S log lo hi -> (forall s, In s S -> valid_in G s) -> List.NoDup ids -> incl ids S -> (1 <= length (gs_frames G) <= length ids)%nat ->
  forall f, In f (gs_frames G) -> logged log f.
Proof using Type.
  clear HK Hp Hcount Hgens accepts. intros [[-> _]|(g & _ & (Ht & Hset & _) & Hhas & Hlog & _)] Hval Hnd Hincl Hlen f Hf.
  { apply incl_l_nil in Hincl. subst ids. cbn in Hlen. lia. }
  apply (In_nth _ _ []) in Hf as (j & Hj & <-). apply Hlog.
  apply (enough_complete (gs_frames G) K p (Z.of_nat i) (gs_reason G) (gs_max G) g ids); [done|done| | |done|lia|done]; intros x Hx%Hincl; [by apply Hhas|by apply Hval].
Qed.

(** ** Traces

    What a stream's decoder goes through: shards of the generations and sweeps,
    each with the clock. *)
Inductive arrival := Arrive (i : nat) (s : shard_id) (now : Z) | Sweep (now : Z).
Definition gen_at (i : nat) : GenSpec := nth i gens (mkGenSpec [] 0 0).
Definition event_of (ttl : Z) (a : arrival) : decoder_event :=
  match a with Arrive i s now => EvReceive (packet_of i (gen_at i) s) now | Sweep now => EvExpire now ttl end.
Definition clock_of (a : arrival) : Z := match a with Arrive _ _ now => now | Sweep now => now end.
Definition sent_in (a : arrival) : Prop := match a with Arrive i s _ => (i < length gens)%nat /\ valid_in (gen_at i) s | Sweep _ => True end.
(** The shard of generation [i] the arrival brings, if it brings one. *)
Definition shard_of (i : nat) (a : arrival) : option shard_id := match a with Arrive i' s _ => if decide (i' = i) then Some s else None | Sweep _ => None end.
(** Not a shard of another generation that lives in the slot of [i]. *)
Definition spares (n : Z) (i : nat) (a : arrival) : Prop := match a with Arrive i' _ _ => i' = i \/ Z.of_nat i' mod n <> Z.of_nat i mod n | Sweep _ => True end.

Lemma gen_at_lookup (i : nat) : (i < length gens)%nat -> gens !! i = Some (gen_at i).
Proof using Type. clear - gens. intros Hi. unfold gen_at. destruct (lookup_lt_is_Some_2 gens i Hi) as [G HG]. by rewrite (nth_lookup_Some _ _ _ _ HG). Qed.

Lemma slots_apart (N : Z) (d : Decoder) (i i' : nat) : wf_decoder N d -> Z.of_nat i' mod dc_gens d <> Z.of_nat i mod dc_gens d ->
  slot_index d (Z.of_nat i') <> slot_index d (Z.of_nat i).
Proof using Type.
  clear HK Hp Hcount Hgens accepts. intros Hd Hne. pose proof (wd_gens _ _ Hd). unfold slot_index.
  pose proof (Z.mod_pos_bound (Z.of_nat i) (dc_gens d) ltac:(lia)). pose proof (Z.mod_pos_bound (Z.of_nat i') (dc_gens d) ltac:(lia)). lia.
Qed.

(** One event: what it does to the decoder, to a generation that has not begun,
    and to one that is being collected. *)
Record advances (ttl : Z) (a : arrival) (d d' : Decoder) (log : list (bytes * bool * Z)) : Prop := {
  ad_genuine : genuine d';
  ad_gens : dc_gens d' = dc_gens d;
  ad_log f : logged log f -> in_stream f;
  ad_fresh i : shard_of i a = None -> fresh_slot (Z.of_nat i) d -> fresh_slot (Z.of_nat i) d';
  ad_collected i S log0 lo hi : spares (dc_gens d) i a -> 0 < lo -> lo <= hi <= clock_of a -> clock_of a < 2 ^ 64 -> clock_of a - lo < ttl ->
    collected i (gen_at i) d S log0 lo hi -> collected i (gen_at i) d' (S ++ option_list (shard_of i a)) (log0 ++ log) lo (clock_of a)
}.

Lemma arrive_step (ttl N : Z) (d : Decoder) (i : nat) (s : shard_id) (now : Z) (q : P) :
  wf_decoder N d -> N + 1 < 2 ^ 64 -> genuine d -> sent_in (Arrive i s now) -> J q ->
  exists d' log, receive publish d (packet_of i (gen_at i) s) now q = Ok (true, d', deliver_all deliver log q) /\
    wf_decoder (N + 1) d' /\ advances ttl (Arrive i s now) d d' log.
Proof using All.
  intros Hd HN Hgen [Hi Hs] HJ. pose proof (gen_at_lookup i Hi) as HG.
  destruct (stream_step N d i (gen_at i) s now q Hd HN Hgen HG Hs HJ) as (d' & g0 & g' & log & Hrec & Hd' & Hgen' & Hw & Hh & Hst & Hhas & Hg0).
  exists d', log. split_and!; [done|done|]. constructor; [done|apply Hw| | |].
  - intros f Hf. exists i, (gen_at i). split; [done|]. by apply (sp_log _ _ _ _ _ _ _ _ _ _ Hst).
  - cbn [shard_of]. intros i' Hne Hf g Hg. destruct (decide (i = i')) as [|Hii]; [done|]. unfold holds in Hg.
    destruct Hw as [E1 E2]. unfold slot_index in Hg. rewrite E1, E2 in Hg. fold (slot_index d (Z.of_nat i')) in Hg.
    destruct (decide (slot_index d (Z.of_nat i) = slot_index d (Z.of_nat i'))) as [Es|Es].
    + rewrite Es, list_lookup_insert_eq in Hg by (by eapply slot_index_lt). injection Hg as <-. right. rewrite (tk_id _ _ _ _ _ _ _ (proj1 Hh)). lia.
    + rewrite list_lookup_insert_ne in Hg by done. by apply Hf.
  - cbn [spares clock_of shard_of]. intros i' S log0 lo hi Hsp Hlo Hhi Hnow Httl Hc. destruct (decide (i = i')) as [<-|Hne]; cbn [option_list].
    + by apply (collected_own i (gen_at i) d d' g0 g' s S log0 log now lo hi N).
    + rewrite app_nil_r. destruct Hsp as [|Hsp]; [done|]. apply (collected_other i' i (gen_at i') d d' g' S log0 log lo hi now); [done|by apply (slots_apart N)|lia|done].
Qed.

Lemma sweep_step (ttl : Z) (d : Decoder) (now : Z) : genuine d -> advances ttl (Sweep now) d (expire d now ttl) [].
Proof using Type.
  intros Hd. destruct (expire_slots d now ttl) as [E1 E2]. constructor; [by apply genuine_expire|done|by intros f []| |].
  - intros i _ Hf g Hg. unfold holds, slot_index in Hg. rewrite E1, E2 in Hg. change (map ?h ?l) with (h <$> l) in Hg.
    apply list_lookup_fmap_Some in Hg as (g0 & -> & Hg0). destruct (survives now ttl g0); [by apply Hf|by left].
  - cbn [clock_of shard_of option_list]. intros i S log0 lo hi _ Hlo Hhi Hnow Httl Hc. rewrite !app_nil_r.
    apply (collected_expire i (gen_at i) d S log0 lo hi now ttl) in Hc; [|lia|lia|done|done].
    destruct Hc as [Hc|(g & H1 & H2 & H3 & H4 & H5)]; [by left|right]. exists g. split_and!; try done; lia.
Qed.

Lemma deliver_stream_inv (log : list (bytes * bool * Z)) (q : P) : (forall f, logged log f -> in_stream f) -> J q -> J (deliver_all deliver log q).
Proof using accepts.
  revert q. induction log as [|[[f r] c] log IH]; intros q Hf HJ; [done|]. cbn. apply IH; [intros f' Hf'; apply Hf; by right|].
  apply accepts; [apply Hf; by left|done].
Qed.

(** A trace is the composition of its events. *)
Record traverses (ttl : Z) (tr : list arrival) (d d' : Decoder) (log : list (bytes * bool * Z)) : Prop := {
  tv_genuine : genuine d';
  tv_gens : dc_gens d' = dc_gens d;
  tv_log f : logged log f -> in_stream f;
  tv_fresh i : Forall (fun a => shard_of i a = None) tr -> fresh_slot (Z.of_nat i) d -> fresh_slot (Z.of_nat i) d';
  tv_collected i S log0 lo hi : Forall (spares (dc_gens d) i) tr -> 0 < lo <= hi -> Sorted Z.le (hi :: map clock_of tr) ->
    Forall (fun a => clock_of a < 2 ^ 64 /\ clock_of a - lo < ttl) tr -> collected i (gen_at i) d S log0 lo hi ->
    exists hi', collected i (gen_at i) d' (S ++ omap (shard_of i) tr) (log0 ++ log) lo hi'
}.

Lemma traverses_nil (ttl : Z) (d : Decoder) : genuine d -> traverses ttl [] d d [].
Proof using Type. intros Hd. constructor; [done|done|by intros f []|done|]. intros i S log0 lo hi _ _ _ _ Hc. exists hi. cbn. by rewrite !app_nil_r. Qed.

Lemma traverses_cons (ttl : Z) (a : arrival) (tr : list arrival) (d d1 d2 : Decoder) (log1 log2 : list (bytes * bool * Z)) :
  advances ttl a d d1 log1 -> traverses ttl tr d1 d2 log2 -> traverses ttl (a :: tr) d d2 (log1 ++ log2).
Proof using Type.
  clear HK Hp Hcount Hgens accepts. intros [A1 A2 A3 A4 A5] [T1 T2 T3 T4 T5]. constructor; [done|congruence| | |].
  - intros f [Hf|Hf]%logged_app; auto.
  - intros i [Ha Htr]%Forall_cons Hf. apply T4; [done|]. by apply A4.
  - intros i S log0 lo hi [Hsp Hsps]%Forall_cons Hlo Hs [[Ht1 Ht2] Hts]%Forall_cons Hc. cbn [map] in Hs. apply Sorted_inv in Hs as [Hs Hh].
    apply HdRel_inv in Hh. destruct (T5 i (S ++ option_list (shard_of i a)) (log0 ++ log1) lo (clock_of a)) as (hi' & Hc'); [by rewrite A2|lia|done|done| |].
    + apply (A5 i S log0 lo hi); [done|lia|lia|done|done|done].
    + exists hi'. rewrite <- !app_assoc in Hc'. cbn [omap list_omap]. by destruct (shard_of i a).
Qed.

Lemma stream_run (ttl : Z) (tr : list arrival) (N : Z) (d : Decoder) (q : P) :
  wf_decoder N d -> N + Z.of_nat (length tr) < 2 ^ 64 -> genuine d -> Forall sent_in tr -> J q ->
  exists d' log, decoder_run publish (map (event_of ttl) tr) d q = Ok (d', deliver_all deliver log q) /\
    wf_decoder (N + Z.of_nat (length tr)) d' /\ traverses ttl tr d d' log.
Proof using All.
  revert N d q. induction tr as [|a tr IH]; intros N d q Hd HN Hgen Hsent HJ; cbn [map length] in *.
  { exists d, []. rewrite Z.add_0_r. split_and!; [done|done|by apply traverses_nil]. }
  apply Forall_cons in Hsent as [Ha Hsent].
  assert (exists d1 log1, decoder_run publish (event_of ttl a :: map (event_of ttl) tr) d q = decoder_run publish (map (event_of ttl) tr) d1 (deliver_all deliver log1 q) /\
    wf_decoder (N + 1) d1 /\ advances ttl a d d1 log1) as (d1 & log1 & E1 & Hd1 & Had).
  { destruct a as [i s now|now]; cbn [event_of decoder_run].
    - destruct (arrive_step ttl N d i s now q Hd ltac:(lia) Hgen Ha HJ) as (d1 & log1 & Hrec & Hd1 & Had). exists d1, log1. by rewrite Hrec.
    - exists (expire d now ttl), []. split_and!; [done| |by apply sweep_step]. apply (wf_decoder_mono N); [lia|]. by apply expire_wf. }
  destruct (IH (N + 1) d1 (deliver_all deliver log1 q) Hd1 ltac:(lia) (ad_genuine _ _ _ _ _ Had) Hsent) as (d2 & log2 & E2 & Hd2 & Htv).
  { apply deliver_stream_inv; [apply Had|done]. }
  exists d2, (log1 ++ log2). rewrite E1, E2, deliver_all_app. split; [done|]. split; [|by eapply traverses_cons].
  by replace (N + Z.of_nat (S (length tr))) with (N + 1 + Z.of_nat (length tr)) by lia.
Qed.

Lemma decoder_run_app (evs1 evs2 : list decoder_event) (d : Decoder) (q : P) :
  decoder_run publish (evs1 ++ evs2) d q = (let! '(d, q) := decoder_run publish evs1 d q in decoder_run publish evs2 d q).
Proof using Type.
  revert d q. induction evs1 as [|[data now|now ttl|] evs1 IH]; intros d q; cbn [app decoder_run]; [done| |apply IH|apply IH].
  destruct (receive publish d data now q) as [[[b d1] q1]|]; [apply IH|done].
Qed.

(** A generation that begins in [mid] and of which as many distinct shards as it
    has frames arrive there: everything is handed on. *)
Lemma stream_recovers (ttl n : Z) (before mid after : list arrival) (i : nat) (ids : list shard_id) (lo : Z) (q : P) :
  1 <= n -> Z.of_nat (length (before ++ mid ++ after)) < 2 ^ 64 -> Forall sent_in (before ++ mid ++ after) -> J q ->
  Forall (fun a => shard_of i a = None) before -> Forall (spares n i) mid -> 0 < lo -> Sorted Z.le (lo :: map clock_of mid) ->
  Forall (fun a => clock_of a < 2 ^ 64 /\ clock_of a - lo < ttl) mid ->
  List.NoDup ids -> incl ids (omap (shard_of i) mid) -> (1 <= length (gs_frames (gen_at i)) <= length ids)%nat ->
  exists d' log, decoder_run publish (map (event_of ttl) (before ++ mid ++ after)) (Decoder_make n) q = Ok (d', deliver_all deliver log q) /\
    (forall f, logged log f -> in_stream f) /\ forall f, In f (gs_frames (gen_at i)) -> logged log f.
Proof using All.
  intros Hn HN Hsent HJ Hbefore Hmid Hlo Hsort Hclock Hnd Hincl Hlen. rewrite !length_app in HN. rewrite !Forall_app in Hsent. destruct Hsent as (Hs1 & Hs2 & Hs3).
  assert (Hmake : dc_gens (Decoder_make n) = n) by (cbn; by destruct (Z.eqb_spec n 0); [lia|]).
  destruct (stream_run ttl before 0 (Decoder_make n) q (Decoder_make_wf n ltac:(lia)) ltac:(lia) (genuine_make n) Hs1 HJ) as (d1 & l1 & E1 & Hd1 & T1).
  destruct (stream_run ttl mid _ d1 (deliver_all deliver l1 q) Hd1 ltac:(lia) (tv_genuine _ _ _ _ _ T1) Hs2) as (d2 & l2 & E2 & Hd2 & T2); [by apply deliver_stream_inv; [apply T1|]|].
  destruct (stream_run ttl after _ d2 (deliver_all deliver l2 (deliver_all deliver l1 q)) Hd2 ltac:(lia) (tv_genuine _ _ _ _ _ T2) Hs3) as (d3 & l3 & E3 & _ & T3).
  { apply deliver_stream_inv; [apply T2|]. apply deliver_stream_inv; [apply T1|done]. }
  exists d3, (l1 ++ l2 ++ l3). split_and!.
  - rewrite !map_app, !decoder_run_app, E1. cbn [rbind]. rewrite decoder_run_app, E2. cbn [rbind]. by rewrite E3, !deliver_all_app.
  - intros f [Hf|[Hf|Hf]%logged_app]%logged_app; [by apply T1|by apply T2|by apply T3].
  - destruct (tv_collected _ _ _ _ _ T2 i [] [] lo lo) as (hi & Hc); [by rewrite (tv_gens _ _ _ _ _ T1), Hmake|lia|done|done| |].
    { left. split; [done|]. apply (tv_fresh _ _ _ _ _ T1 i Hbefore). intros g Hg. left. unfold holds in Hg. cbn in Hg. by apply lookup_replicate in Hg as [-> _]. }
    cbn [app] in Hc. intros f Hf. apply logged_app. right. apply logged_app. left.
    apply (collected_complete i (gen_at i) d2 _ l2 lo hi ids Hc); [|done|done|done|done].
    intros s Hs%list_elem_of_In%list_elem_of_omap. destruct Hs as ([i' s' now|now] & Hin & Es); cbn [shard_of] in Es; [|done].
    destruct (decide (i' = i)) as [->|]; [|done]. injection Es as ->. rewrite Forall_forall in Hs2. by apply (Hs2 _ Hin).
Qed.
End Stream.
