(* ===== verification/Multiplex.v ===== *)
(** * Stream multiplexing: [harness/include/multiplex.h]

    The 20-byte header that carries the stream identity of a datagram, and the
    bounded table of per-stream receivers ([fec::Decoder], [dedupe::Window],
    [last_seq]).  The table is a [gmap] keyed by (stream, epoch). *)
From S2P Require Import Prelude Message Wire Dedupe Fec FecDecoder.

Definition mux_magic : Z := 0x50465333.
Definition header_size : nat := 20.

Record Key := mkKey { key_stream : Z; key_epoch : Z }.
#[global] Instance Key_eq_dec : EqDecision Key.
Proof. solve_decision. Defined.
#[global] Instance Key_countable : Countable Key.
Proof. apply (inj_countable' (fun k => (key_stream k, key_epoch k)) (fun p => mkKey p.1 p.2)). by intros []. Defined.

Definition key_bytes (key : Key) : bytes := be_put 4 mux_magic ++ be_put 8 (key_stream key) ++ be_put 8 (key_epoch key).
Definition mux_wrap (key : Key) (data : bytes) : bytes := key_bytes key ++ data.

Definition get_key : rd (Z * Key) :=
  tag <~ @get_uint wire_io 4 ;; s <~ @get_uint wire_io 8 ;; e <~ @get_uint wire_io 8 ;; rd_ret (tag, mkKey s e).

(** [unwrap(data, len, key)]: the result, and the values the reference parameters
    [data]/[len] and [key] are left with. *)
Definition mux_unwrap (data : bytes) (key : Key) : res (bool * bytes * Key) :=
  if (length data <? header_size)%nat then Ok (false, data, key)
  else
    let! x := get_key (mkReader data 0) in
    let '(tag, key) := fst x in
    if negb (tag =? mux_magic) || (key_stream key =? 0) || (key_epoch key =? 0) then Ok (false, data, key)
    else Ok (true, drop header_size data, key).

(** ** Streams *)
Record Stream := mkStream { st_decoder : Decoder; st_dedupe : Window; st_last_seq : Z }.

(** [std::abort] in the constructor of [dedupe::Window]. *)
Definition Stream_make (generations window : Z) : res Stream :=
  match Dedupe.make window with
  | Some w => Ok (mkStream (Decoder_make generations) w 0)
  | None => Throw Aborted
  end.

Record Streams := mkStreams { ss_values : gmap Key Stream; ss_limit : Z; ss_generations : Z; ss_window : Z }.

Definition Streams_make (limit generations window : Z) : Streams := mkStreams ∅ limit generations window.

(** [get]: the stream found or created; [None] is [nullptr]. *)
Definition Streams_get (ss : Streams) (key : Key) : res (option Stream * Streams) :=
  match ss_values ss !! key with
  | Some s => Ok (Some s, ss)
  | None =>
    if ss_limit ss <=? Z.of_nat (size (ss_values ss)) then Ok (None, ss)
    else
      let! s := Stream_make (ss_generations ss) (ss_window ss) in
      Ok (Some s, mkStreams (<[key := s]> (ss_values ss)) (ss_limit ss) (ss_generations ss) (ss_window ss))
  end.

(** A write through the pointer [get] returned. *)
Definition Streams_put (ss : Streams) (key : Key) (s : Stream) : Streams :=
  mkStreams (<[key := s]> (ss_values ss)) (ss_limit ss) (ss_generations ss) (ss_window ss).

(** ** Lemmas *)
Definition wf_key (k : Key) : Prop := in_range 64 (key_stream k) /\ in_range 64 (key_epoch k).

Lemma length_key_bytes (k : Key) : length (key_bytes k) = header_size.
Proof. unfold key_bytes. by autorewrite with lendb. Qed.

Lemma get_key_reads (k : Key) : wf_key k -> reads get_key (key_bytes k) (mux_magic, k).
Proof.
  intros [Hs He]. unfold get_key, key_bytes. destruct k as [s e]. cbn [key_stream key_epoch] in *.
  assert (in_range 32 mux_magic) by (unfold in_range, mux_magic; lia).
  change be_put with (@io_put wire_io). reads_fields.
Qed.

Lemma total_get_key : total get_key 20.
Proof. unfold get_key. total_fields. Qed.

Lemma get_key_consumes : consumes get_key
  (fun x e => wf_key (snd x) /\ in_range 32 (fst x) /\ (fst x = mux_magic -> e = key_bytes (snd x))).
Proof.
  unfold get_key. change be_put with (@io_put wire_io). consumes_fields. cbn [fst snd]. split; [|split].
  - unfold wf_key. cbn. tauto.
  - tauto.
  - intros ->. reflexivity.
Qed.

Lemma unwrap_wrap (k k0 : Key) (data : bytes) :
  wf_key k -> mux_unwrap (mux_wrap k data) k0 =
  Ok (if (key_stream k =? 0) || (key_epoch k =? 0) then (false, mux_wrap k data, k) else (true, data, k)).
Proof.
  intros Hk. unfold mux_unwrap, mux_wrap. rewrite length_app, length_key_bytes.
  destruct (Nat.ltb_spec (header_size + length data) header_size); [lia|].
  rewrite (get_key_reads k Hk _ O data) by (by rewrite drop_0). cbn [rbind fst].
  rewrite Z.eqb_refl. cbn [negb orb]. destruct (_ || _); [done|].
  by rewrite drop_app_length' by (by rewrite length_key_bytes).
Qed.

(** What [unwrap] accepts is a wrapped payload. *)
Lemma unwrap_total (data : bytes) (k0 : Key) :
  exists b d k, mux_unwrap data k0 = Ok (b, d, k) /\
    (b = true -> data = mux_wrap k d /\ wf_key k /\ key_stream k <> 0 /\ key_epoch k <> 0).
Proof.
  unfold mux_unwrap. destruct (Nat.ltb_spec (length data) header_size) as [|Hl]; [by exists false, data, k0|].
  destruct (total_get_key data O) as [[tag k] Hg]; [cbn; unfold header_size in *; lia|].
  destruct (get_key_consumes _ _ _ _ (Nat.le_0_l _) Hg) as (e & rest & Hd & _ & Hw & _ & Hm).
  rewrite Hg. cbn [rbind fst]. destruct (_ || _ || _) eqn:Hc; [by exists false, data, k|]. zbool.
  exists true, (drop header_size data), k. split; [done|]. intros _. split_and!; try done.
  unfold mux_wrap. rewrite drop_0 in Hd. rewrite Hd. cbn [fst snd] in Hm. rewrite Hm by done.
  by rewrite drop_app_length' by (by rewrite length_key_bytes).
Qed.

(** ** Properties *)

(** Demultiplexing inverts multiplexing for every identity with nonzero parts,
    and accepts nothing else: the identity [unwrap] reports is the one the sender
    wrapped, and a datagram that is short, carries another tag or a zero
    identity is refused with the payload pointer left alone. *)
Theorem mux_round_trip (k k0 : Key) (data payload : bytes) :
  wf_key k ->
  (mux_unwrap data k0 = Ok (true, payload, k) <-> data = mux_wrap k payload /\ key_stream k <> 0 /\ key_epoch k <> 0) /\
  exists b d k', mux_unwrap data k0 = Ok (b, d, k') /\ (b = false -> d = data).
Proof.
  intros Hk. split; [split|].
  - intros Hu. destruct (unwrap_total data k0) as (b & d & k' & Hu' & Hb). rewrite Hu in Hu'. injection Hu' as <- <- <-.
    destruct (Hb eq_refl) as (? & _ & ? & ?). done.
  - intros (-> & Hs & He). rewrite unwrap_wrap by exact Hk. apply Z.eqb_neq in Hs, He. by rewrite Hs, He.
  - unfold mux_unwrap. destruct (_ <? _)%nat eqn:Hlt; [by exists false, data, k0|].
    apply Nat.ltb_ge in Hlt. destruct (total_get_key data O) as [[tag k'] Hg]; [cbn; unfold header_size in *; lia|].
    rewrite Hg. cbn [rbind fst]. destruct (_ || _ || _); [by exists false, data, k' | by exists true, (drop header_size data), k'].
Qed.

Lemma mux_round_trip_witness :
  (mux_unwrap (mux_wrap (mkKey 7 9) [Corelib.Init.Byte.x01]) (mkKey 0 0) = Ok (true, [Corelib.Init.Byte.x01], mkKey 7 9) <->
   mux_wrap (mkKey 7 9) [Corelib.Init.Byte.x01] = mux_wrap (mkKey 7 9) [Corelib.Init.Byte.x01] /\ 7 <> 0 /\ 9 <> 0) /\
  exists b d k', mux_unwrap (mux_wrap (mkKey 7 9) [Corelib.Init.Byte.x01]) (mkKey 0 0) = Ok (b, d, k') /\
    (b = false -> d = mux_wrap (mkKey 7 9) [Corelib.Init.Byte.x01]).
Proof. apply (mux_round_trip (mkKey 7 9)). unfold wf_key, in_range. cbn. lia. Defined.

(** C36: The table never evicts and never outgrows its limit: a stream that exists is
    returned as it is, whatever is asked for meanwhile; a new identity gets a
    fresh stream while there is room and is refused at the limit; no other entry
    changes. *)
Theorem streams_never_evict (ss : Streams) (key : Key) (o : option Stream) (ss' : Streams) :
  Streams_get ss key = Ok (o, ss') ->
  Z.of_nat (size (ss_values ss)) <= ss_limit ss ->
  Z.of_nat (size (ss_values ss')) <= ss_limit ss' /\ ss_limit ss' = ss_limit ss /\
  (forall k s, ss_values ss !! k = Some s -> ss_values ss' !! k = Some s) /\
  (forall k, k <> key -> ss_values ss' !! k = ss_values ss !! k) /\
  ss_values ss' !! key = o /\
  (o = None <-> ss_values ss !! key = None /\ Z.of_nat (size (ss_values ss)) = ss_limit ss).
Proof.
  intros Hg Hl. unfold Streams_get in Hg. destruct (ss_values ss !! key) as [s|] eqn:Hk.
  - injection Hg as <- <-. split_and!; try done. split; [done|]. by intros [? _].
  - destruct (Z.leb_spec (ss_limit ss) (Z.of_nat (size (ss_values ss)))).
    + injection Hg as <- <-. split_and!; try done. split; [|done]. intros _. split; [done|lia].
    + rbind_inv. cbn. rewrite map_size_insert_None by done. split_and!; try done; try lia.
      * intros k s Hs. rewrite lookup_insert_ne; [done|congruence].
      * intros k Hne. by rewrite lookup_insert_ne.
      * apply lookup_insert_eq.
      * split; [done|]. intros [_ ?]. lia.
Qed.

Lemma streams_never_evict_witness :
  exists o ss', Streams_get (Streams_make 1 4 64) (mkKey 7 9) = Ok (o, ss') /\ Z.of_nat (size (ss_values ss')) <= ss_limit ss' /\ o <> None.
Proof.
  destruct (Streams_get (Streams_make 1 4 64) (mkKey 7 9)) as [[o ss']|f] eqn:E; [|vm_compute in E; discriminate E].
  exists o, ss'. split; [reflexivity|].
  destruct (streams_never_evict _ _ _ _ E) as (H1 & _ & _ & _ & _ & H2); [vm_compute; discriminate|].
  split; [exact H1|]. intros Hn. apply H2 in Hn as [_ Hn]. vm_compute in Hn. discriminate Hn.
Defined.
