(* ===== verification/Sink.v ===== *)
(** * The interface between a frame source and the shared-memory ring

    The receiver hands frames to a ring through [publish]; what it relies on is
    that a call that returns has appended exactly that frame. *)
From S2P Require Import Prelude.

Class Sink (R : Type) := {
  sink_publish : R -> bytes -> res R;
  (** the frames published so far, oldest first *)
  sink_log : R -> list bytes
}.

Class SinkLaws (R : Type) `{Sink R} := {
  sink_publish_log (r r' : R) (f : bytes) : sink_publish r f = Ok r' -> sink_log r' = sink_log r ++ [f]
}.

(** The simplest sink: the log itself. *)
#[global] Instance list_sink : Sink (list bytes) := {| sink_publish l f := Ok (l ++ [f]); sink_log l := l |}.
#[global] Instance list_sink_laws : SinkLaws (list bytes).
Proof. constructor. cbn. intros r r' f [= <-]. done. Qed.
