(* ===== verification/Mutex.v ===== *)
(** * The process-shared robust mutex: [harness/include/shm_ring.h]

    [init_mutex] and the guard [Lock] over what POSIX says of robust mutexes:
    [pthread_mutex_trylock] answers [EBUSY] while a live thread holds the mutex,
    [EOWNERDEAD] to the first that asks after the holder died, and
    [ENOTRECOVERABLE] for ever once such a mutex was unlocked without
    [pthread_mutex_consistent].  The threads of all processes interleave, one
    call of the library at a time, and any of them may die between two calls.
    [Ring] and [RingConc] use the outcome: a lock is taken unless somebody alive
    holds it. *)
From S2P Require Import Prelude.

(** ** The library *)

(** The members of [pthread_mutexattr_t] that are set. *)
Record MutexAttr := mkMutexAttr { at_shared : bool; at_robust : bool }.

(** Who holds it and whether its data are marked consistent. *)
Inductive hold := Unlocked | Held (t : nat) (consistent : bool) | NotRecoverable.
Record Mutex := mkMutex { mx_attr : MutexAttr; mx_hold : hold }.
Definition with_hold (m : Mutex) (h : hold) : Mutex := mkMutex (mx_attr m) h.

Inductive trylock_rc := TryOk | TryOwnerDead | TryBusy | TryNotRecoverable.

Definition pthread_mutex_trylock (dead : nat -> bool) (t : nat) (m : Mutex) : trylock_rc * Mutex :=
  match mx_hold m with
  | Unlocked => (TryOk, with_hold m (Held t true))
  | Held o _ => if dead o && at_robust (mx_attr m) then (TryOwnerDead, with_hold m (Held t false)) else (TryBusy, m)
  | NotRecoverable => (TryNotRecoverable, m)
  end.

(** Fails with [EINVAL] unless the mutex is robust and inconsistent. *)
Definition pthread_mutex_consistent (m : Mutex) : bool * Mutex :=
  match mx_hold m with
  | Held o false => if at_robust (mx_attr m) then (true, with_hold m (Held o true)) else (false, m)
  | _ => (false, m)
  end.

Definition pthread_mutex_unlock (m : Mutex) : Mutex :=
  match mx_hold m with Held _ true => with_hold m Unlocked | Held _ false => with_hold m NotRecoverable | _ => m end.

(** ** Creation *)

(** Which of the four calls return 0. *)
Record MutexEnv := mkMutexEnv { me_attr : bool; me_shared : bool; me_robust : bool; me_init : bool }.

(** All of them. *)
Definition library_ok : MutexEnv := mkMutexEnv true true true true.

(** The mutex, and the number of attribute objects alive. *)
Definition init_mutex (env : MutexEnv) (attrs : Z) : res Mutex * Z :=
  if negb (me_attr env) then (Throw RuntimeError, attrs)
  else
    let attrs := attrs + 1 in
    let attr := mkMutexAttr (me_shared env) false in
    let rc := me_shared env in
    let attr := if rc then mkMutexAttr (at_shared attr) (me_robust env) else attr in
    let rc := if rc then me_robust env else rc in
    let rc := if rc then me_init env else rc in
    let attrs := attrs - 1 in
    (if rc then Ok (mkMutex attr Unlocked) else Throw RuntimeError, attrs).

(** The mutexes of the registry and of the slots, in the order [attach] makes them. *)
Fixpoint init_mutexes (envs : nat -> MutexEnv) (i n : nat) : res (list Mutex) :=
  match n with
  | O => Ok []
  | S n' => let! m := fst (init_mutex (envs i) 0) in let! ms := init_mutexes envs (S i) n' in Ok (m :: ms)
  end.

(** ** [Lock] *)

Inductive lock_error := Unrecoverable | MutexFailed | DeadlineExceeded.
#[global] Instance lock_error_eq_dec : EqDecision lock_error.
Proof. solve_decision. Defined.

(** Where a thread is: before or after the life of a guard; in the loop of the
    constructor; between [EOWNERDEAD] and [pthread_mutex_consistent]; with a
    guard that holds, or (when not told to wait) one that is empty; after an
    exception of the constructor; dead. *)
Inductive lpoint := LIdle | LTry (wait : bool) | LRecover | LHeld | LEmpty | LThrown (e : lock_error) | LDead.
#[global] Instance lpoint_eq_dec : EqDecision lpoint.
Proof. solve_decision. Defined.

(** One call of the library.  [late]: [should_stop()] or the two seconds have
    passed.  A guard that holds is destroyed by its step. *)
Definition lock_step (dead : nat -> bool) (t : nat) (late : bool) (m : Mutex) (pt : lpoint) : option (Mutex * lpoint) :=
  match pt with
  | LTry wait =>
    let '(rc, m) := pthread_mutex_trylock dead t m in
    Some (m, match rc with
             | TryOk => LHeld
             | TryOwnerDead => LRecover
             | TryNotRecoverable => LThrown MutexFailed
             | TryBusy => if negb wait then LEmpty else if late then LThrown DeadlineExceeded else LTry wait
             end)
  | LRecover =>
    let '(ok, m) := pthread_mutex_consistent m in
    Some (if ok then (m, LHeld) else (pthread_mutex_unlock m, LThrown Unrecoverable))
  | LHeld => Some (pthread_mutex_unlock m, LIdle)
  | _ => None
  end.

(** The mutex and the threads that ever used it. *)
Record LockConf := mkLockConf { lc_mutex : Mutex; lc_points : gmap nat lpoint }.
Definition point_of (c : LockConf) (t : nat) : lpoint := default LIdle (lc_points c !! t).
Definition is_dead (c : LockConf) (t : nat) : bool := bool_decide (point_of c t = LDead).
Definition lock_init (m : Mutex) : LockConf := mkLockConf m ∅.

Inductive laction := LStart (t : nat) (wait : bool) | LStep (t : nat) (late : bool) | LDie (t : nat).
Definition set_point (c : LockConf) (t : nat) (m : Mutex) (pt : lpoint) : LockConf := mkLockConf m (<[t := pt]> (lc_points c)).

Definition lock_exec (c : LockConf) (a : laction) : option LockConf :=
  match a with
  | LStart t wait =>
    match point_of c t with LIdle | LEmpty | LThrown _ => Some (set_point c t (lc_mutex c) (LTry wait)) | _ => None end
  | LStep t late =>
    match lock_step (is_dead c) t late (lc_mutex c) (point_of c t) with Some (m, pt) => Some (set_point c t m pt) | None => None end
  | LDie t => Some (set_point c t (lc_mutex c) LDead)
  end.

Definition lock_trans (c c' : LockConf) : Prop := exists a, lock_exec c a = Some c'.

(** ** Invariant *)
Definition holding (pt : lpoint) : bool := match pt with LHeld | LRecover => true | _ => false end.

Record lock_inv (c : LockConf) : Prop := {
  li_robust : at_robust (mx_attr (lc_mutex c)) = true;
  li_holder : forall t, holding (point_of c t) = true -> mx_hold (lc_mutex c) = Held t (bool_decide (point_of c t = LHeld));
  li_held : forall o b, mx_hold (lc_mutex c) = Held o b -> holding (point_of c o) = true \/ point_of c o = LDead;
  li_usable : mx_hold (lc_mutex c) <> NotRecoverable;
  li_thrown : forall t e, point_of c t = LThrown e -> e = DeadlineExceeded
}.

Lemma point_set (c : LockConf) (t u : nat) (m : Mutex) (pt : lpoint) : point_of (set_point c t m pt) u = if decide (u = t) then pt else point_of c u.
Proof. unfold point_of, set_point. cbn. destruct (decide (u = t)) as [->|Hn]; [by rewrite lookup_insert_eq|by rewrite lookup_insert_ne by congruence]. Qed.

Lemma lock_init_inv (m : Mutex) : at_robust (mx_attr m) = true -> mx_hold m = Unlocked -> lock_inv (lock_init m).
Proof. intros Hr Hu. constructor; cbn; [done|done|congruence|congruence|done]. Qed.

(** Nobody but [t] is in the critical section. *)
Definition alone (c : LockConf) (t : nat) : Prop := forall u, u <> t -> holding (point_of c u) = false.

Lemma unlocked_alone (c : LockConf) (t : nat) : lock_inv c -> mx_hold (lc_mutex c) = Unlocked -> alone c t.
Proof. intros Hi Hu u _. destruct (holding (point_of c u)) eqn:E; [|done]. apply (li_holder _ Hi) in E. congruence. Qed.

Lemma held_alone (c : LockConf) (t o : nat) (b : bool) : lock_inv c -> mx_hold (lc_mutex c) = Held o b -> o = t \/ point_of c o = LDead -> alone c t.
Proof.
  intros Hi Hh Ho u Hu. destruct (holding (point_of c u)) eqn:E; [|done]. pose proof (li_holder _ Hi u E) as Hx. rewrite Hh in Hx. injection Hx as -> _.
  destruct Ho as [Ho|Ho]; [congruence|]. by rewrite Ho in E.
Qed.

(** [t] moves; the mutex is unchanged, or is its own. *)
Lemma set_point_keeps (c : LockConf) (t : nat) (h : hold) (pt : lpoint) :
  lock_inv c -> h <> NotRecoverable -> (forall e, pt = LThrown e -> e = DeadlineExceeded) ->
  (holding pt = true -> h = Held t (bool_decide (pt = LHeld))) ->
  (h = mx_hold (lc_mutex c) \/ alone c t) ->
  (forall o b, h = Held o b -> (o = t /\ (holding pt = true \/ pt = LDead)) \/ (o <> t /\ mx_hold (lc_mutex c) = Held o b)) ->
  lock_inv (set_point c t (with_hold (lc_mutex c) h) pt).
Proof.
  intros Hi Hn He Hme Hoth Hheld. constructor.
  - apply Hi.
  - intros u. rewrite point_set. destruct (decide (u = t)) as [->|Hu]; [done|]. intros E. cbn. destruct Hoth as [->|Ha]; [by apply Hi|]. by rewrite (Ha u Hu) in E.
  - intros o b Ho. rewrite point_set. destruct (decide (o = t)) as [->|Hu]; (destruct (Hheld _ _ Ho) as [[? ?]|[? Hc]]; [done|]); [done|]. by apply (li_held _ Hi o b).
  - done.
  - intros u e. rewrite point_set. destruct (decide (u = t)); [by apply He|by apply Hi].
Qed.

Lemma same_hold (m : Mutex) : with_hold m (mx_hold m) = m.
Proof. by destruct m. Qed.

(** A step outside of the critical section that leaves the mutex alone. *)
Lemma outside_keeps (c : LockConf) (t : nat) (pt : lpoint) :
  lock_inv c -> holding (point_of c t) = false -> point_of c t <> LDead -> holding pt = false -> (forall e, pt = LThrown e -> e = DeadlineExceeded) -> lock_inv (set_point c t (lc_mutex c) pt).
Proof.
  intros Hi Ht Hl Hp He. rewrite <- (same_hold (lc_mutex c)). apply set_point_keeps; [done|apply Hi|done|by rewrite Hp|by left|].
  intros o b Ho. destruct (decide (o = t)) as [->|]; [|by right]. by destruct (li_held _ Hi t b Ho) as [?|?]; [congruence|].
Qed.

Lemma lock_step_keeps (c : LockConf) (t : nat) (late : bool) (m : Mutex) (pt : lpoint) :
  lock_inv c -> lock_step (is_dead c) t late (lc_mutex c) (point_of c t) = Some (m, pt) -> lock_inv (set_point c t m pt).
Proof.
  intros Hi. pose proof (li_holder _ Hi t) as Ht. unfold lock_step. destruct (point_of c t) as [|w| | | |e|] eqn:Ep; try done.
  - unfold pthread_mutex_trylock. destruct (mx_hold (lc_mutex c)) as [|o b|] eqn:Eh; [| |by destruct (li_usable _ Hi)].
    + intros [= <- <-]. apply set_point_keeps; [done|done|done|done|right; by apply unlocked_alone|]. intros o b [= <- <-]. left. auto.
    + rewrite (li_robust _ Hi), andb_true_r. unfold is_dead. destruct (bool_decide_reflect (point_of c o = LDead)) as [Hd|Hd]; intros [= <- <-].
      * apply set_point_keeps; [done|done|done|done|right; eapply held_alone; eauto|]. intros o' b' [= <- <-]. left. auto.
      * apply outside_keeps; [done|by rewrite Ep|by rewrite Ep|by destruct w, late|]. intros e. destruct w, late; cbn; congruence.
  - specialize (Ht eq_refl). cbn in Ht. unfold pthread_mutex_consistent. rewrite Ht, (li_robust _ Hi). intros [= <- <-].
    apply set_point_keeps; [done|done|done|done|right; eapply held_alone; eauto|]. intros o b [= <- <-]. left. auto.
  - specialize (Ht eq_refl). cbn in Ht. unfold pthread_mutex_unlock. rewrite Ht. intros [= <- <-].
    apply set_point_keeps; [done|done|done|done|right; eapply held_alone; eauto|done].
Qed.

Lemma lock_trans_keeps (c c' : LockConf) : lock_inv c -> lock_trans c c' -> lock_inv c'.
Proof.
  intros Hi [[t w|t late|t] E]; cbn in E.
  - destruct (point_of c t) eqn:Ep; try done; injection E as <-; apply outside_keeps; rewrite ?Ep; done.
  - destruct (lock_step _ _ _ _ _) as [[m pt]|] eqn:Es; [|done]. injection E as <-. by eapply lock_step_keeps.
  - injection E as <-. rewrite <- (same_hold (lc_mutex c)). apply set_point_keeps; [done|apply Hi|done|done|by left|].
    intros o b Ho. destruct (decide (o = t)) as [->|]; [left; auto|by right].
Qed.

Lemma lock_reachable_inv (m : Mutex) (c : LockConf) : at_robust (mx_attr m) = true -> mx_hold m = Unlocked -> rtc lock_trans (lock_init m) c -> lock_inv c.
Proof.
  intros Hr Hu Hc. pose proof (lock_init_inv m Hr Hu) as Hi. induction Hc as [|c1 c2 c3 Hs _ IH]; [done|]. apply IH. by eapply lock_trans_keeps.
Qed.

Lemma init_mutex_robust (env : MutexEnv) (n n' : Z) (m : Mutex) : init_mutex env n = (Ok m, n') -> mx_attr m = mkMutexAttr true true /\ mx_hold m = Unlocked.
Proof. destruct env as [[] [] [] []]; unfold init_mutex; cbn; by intros [= <- _]. Qed.

Lemma init_mutexes_ok (i n : nat) : exists ms, init_mutexes (fun _ => library_ok) i n = Ok ms /\ length ms = n /\ Forall (fun m => at_robust (mx_attr m) = true) ms.
Proof.
  revert i. induction n as [|n IH]; intros i; cbn [init_mutexes]; [by exists []|]. destruct (IH (S i)) as (ms & E & Hl & Hf). rewrite E. cbn. eexists. split_and!; [done|cbn; lia|by constructor].
Qed.

(** ** Properties *)

(** [init_mutex] throws [runtime_error] unless every call of the library
    succeeded, and otherwise makes an unlocked mutex that is both shared between
    processes and robust, never one that is only one of the two; whatever
    happens, the attribute object is gone when it returns or throws. *)
Theorem init_mutex_exact (env : MutexEnv) (attrs : Z) :
  init_mutex env attrs =
    (if me_attr env && me_shared env && me_robust env && me_init env then Ok (mkMutex (mkMutexAttr true true) Unlocked) else Throw RuntimeError, attrs).
Proof. destruct env as [[] [] [] []]; unfold init_mutex; cbn; f_equal; lia. Qed.

(** C10: Mutual exclusion that survives crashes.  In every interleaving of any
    number of threads that use a mutex [init_mutex] made through [Lock], each of
    which may die between any two calls: at most one live thread is in the
    critical section, the mutex records it as the owner, the mutex never becomes
    unrecoverable, and the constructor throws for no reason but the deadline.
    And whenever no other live thread is in the critical section, a thread in the
    constructor's loop gets the lock at its next attempt, repairing it first if
    its last owner died, also if that owner died repairing it. *)
Theorem lock_exclusive_and_available (env : MutexEnv) (n n' : Z) (m : Mutex) (c : LockConf) :
  init_mutex env n = (Ok m, n') -> rtc lock_trans (lock_init m) c ->
  (forall t u, holding (point_of c t) = true -> holding (point_of c u) = true -> t = u) /\
  (forall t, point_of c t = LHeld -> mx_hold (lc_mutex c) = Held t true) /\
  mx_hold (lc_mutex c) <> NotRecoverable /\ (forall t e, point_of c t = LThrown e -> e = DeadlineExceeded) /\
  forall t w late, point_of c t = LTry w -> alone c t ->
    exists c1, lock_exec c (LStep t late) = Some c1 /\
      (point_of c1 t = LHeld \/ point_of c1 t = LRecover /\ exists c2, lock_exec c1 (LStep t late) = Some c2 /\ point_of c2 t = LHeld).
Proof.
  intros [Ha Hu]%init_mutex_robust Hc. assert (Hi : lock_inv c) by (apply (lock_reachable_inv m); [by rewrite Ha|done|done]). split_and!.
  - intros t u Ht Hv. apply (li_holder _ Hi) in Ht, Hv. rewrite Ht in Hv. by injection Hv.
  - intros t Ht. rewrite (li_holder _ Hi t) by (by rewrite Ht). by rewrite bool_decide_true.
  - apply Hi.
  - apply Hi.
  - intros t w late Ht Halone. cbn. rewrite Ht. cbn. unfold pthread_mutex_trylock. destruct (mx_hold (lc_mutex c)) as [|o b|] eqn:Eh; [| |by destruct (li_usable _ Hi)].
    + eexists. split; [done|]. left. by rewrite point_set, decide_True.
    + assert (Hd : point_of c o = LDead).
      { destruct (li_held _ Hi o b Eh) as [Ho|?]; [|done]. destruct (decide (o = t)) as [->|Hn]; [by rewrite Ht in Ho|by rewrite (Halone o Hn) in Ho]. }
      unfold is_dead at 1. rewrite bool_decide_true by done. rewrite (li_robust _ Hi). cbn. eexists. split; [done|]. right. rewrite point_set, decide_True by done. split; [done|].
      cbn. rewrite (li_robust _ Hi). eexists. split; [done|]. by rewrite point_set, decide_True.
Qed.

(** ** Witness: the owner dies in the critical section, the next one dies while
    repairing it, and a third has the lock. *)
Definition demo_mutex : Mutex := mkMutex (mkMutexAttr true true) Unlocked.
Fixpoint run_locks (c : LockConf) (acts : list laction) : option LockConf :=
  match acts with [] => Some c | a :: acts' => match lock_exec c a with Some c => run_locks c acts' | None => None end end.
Lemma run_locks_reachable (acts : list laction) (c c' : LockConf) : run_locks c acts = Some c' -> rtc lock_trans c c'.
Proof.
  revert c. induction acts as [|a acts IH]; intros c E; cbn in E; [injection E as <-; constructor|].
  destruct (lock_exec c a) as [c1|] eqn:Ea; [|done]. econstructor; [by exists a|by apply IH].
Qed.
Definition demo_locks : list laction :=
  [LStart 1 true; LStep 1 false; LStart 2 false; LStep 2 false; LStart 3 true; LStep 3 false; LDie 1; LStep 3 false; LDie 3; LStart 4 true].
Definition demo_lock_conf : LockConf := match run_locks (lock_init demo_mutex) demo_locks with Some c => c | None => lock_init demo_mutex end.

Lemma lock_exclusive_and_available_witness :
  point_of demo_lock_conf 2 = LEmpty /\ exists c1 c2, lock_exec demo_lock_conf (LStep 4 true) = Some c1 /\ lock_exec c1 (LStep 4 true) = Some c2 /\ point_of c2 4 = LHeld.
Proof.
  assert (Hr : rtc lock_trans (lock_init demo_mutex) demo_lock_conf) by (apply (run_locks_reachable demo_locks); vm_compute; reflexivity).
  destruct (lock_exclusive_and_available library_ok 0 0 demo_mutex demo_lock_conf eq_refl Hr) as (_ & _ & _ & _ & Hav).
  split; [vm_compute; reflexivity|]. assert (Ht : point_of demo_lock_conf 4 = LTry true) by (vm_compute; reflexivity).
  assert (Ha : alone demo_lock_conf 4).
  { intros u Hu. unfold point_of. destruct (lc_points demo_lock_conf !! u) as [pt|] eqn:E; [|reflexivity].
    apply elem_of_map_to_list in E. vm_compute in E. repeat (apply elem_of_cons in E as [[= -> ->]|E]; [first [reflexivity|congruence]|]). by apply elem_of_nil in E. }
  destruct (Hav 4%nat true true Ht Ha) as (c1 & E1 & [Hh|(_ & c2 & E2 & Hh)]); [|by exists c1, c2].
  vm_compute in E1. injection E1 as <-. vm_compute in Hh. discriminate Hh.
Defined.
