(* ===== verification/Ring.v ===== *)
(** * Shared-memory ring, one call at a time: [harness/include/shm_ring.h]

    The layout of the segment and the operations of [shm::Ring] as functions on
    it, for a caller that is not preempted: the mutex of a slot is then free and
    the backpressure loop either passes at once or ends at its deadline.
    [RingConc] gives the interleaved semantics of the same operations. *)
From S2P Require Import Prelude Util Message Sink Mutex.

Definition kFrameCap : nat := kMaxFrame.
Definition kMaxReaders : nat := 64.
Definition ring_magic : Z := 0x53484d31.
Definition layout_version : Z := 3.

Record Slot := mkSlot { sl_seq : Z; sl_frame_len : Z; sl_frame : bytes }.
Record ReaderState := mkReaderState { rs_pid : Z; rs_cursor : Z }.
Record Shm := mkShm {
  sh_magic : Z; sh_layout_version : Z; sh_epoch : Z; sh_readers : list ReaderState;
  sh_slot_count : Z; sh_slot_size : Z; sh_backpressure : bool; sh_write_index : Z; sh_slots : list Slot
}.

(** [Slot{}]. *)
Definition empty_slot : Slot := mkSlot 0 0 (replicate kFrameCap Corelib.Init.Byte.x00).

(** The members [mask_] and [reader_] of a [Ring]; [None] is [reader_ == -1]. *)
Record Handle := mkHandle { hn_mask : Z; hn_reader : option nat }.

Definition with_readers (sh : Shm) (rs : list ReaderState) : Shm :=
  mkShm (sh_magic sh) (sh_layout_version sh) (sh_epoch sh) rs (sh_slot_count sh) (sh_slot_size sh)
    (sh_backpressure sh) (sh_write_index sh) (sh_slots sh).
Definition with_data (sh : Shm) (wi : Z) (slots : list Slot) : Shm :=
  mkShm (sh_magic sh) (sh_layout_version sh) (sh_epoch sh) (sh_readers sh) (sh_slot_count sh) (sh_slot_size sh)
    (sh_backpressure sh) wi slots.

Section Attach.
(** [sizeof(Slot)] depends on the platform's [pthread_mutex_t]. *)
Variable sizeof_Slot : Z.

(** [attach(base, count, true)]; [base_ok] is a non-null, aligned [base],
    [overwrite] the value of [PULSEFANOUT_RING_POLICY], and [mutexes] what the
    library answers for the mutex of the registry and of each slot. *)
Definition attach_create (base_ok : bool) (count : Z) (overwrite : bool) (now_ns : Z) (mutexes : nat -> MutexEnv) : res (Shm * Handle) :=
  if negb base_ok || negb (is_power_of_two count) then Throw InvalidArgument
  else
    let! _ := init_mutexes mutexes 0 (S (Z.to_nat count)) in
    Ok (mkShm ring_magic layout_version now_ns (replicate kMaxReaders (mkReaderState 0 0)) count sizeof_Slot
          (negb overwrite) 0 (replicate (Z.to_nat count) empty_slot),
        mkHandle (u64 (u32 (count - 1))) None).

(** The search for a free registry entry. *)
Fixpoint claim_reader (rs : list ReaderState) (pid : Z) (i : nat) : option (list ReaderState * nat) :=
  match rs with
  | [] => None
  | r :: rs' =>
    if rs_pid r =? 0 then Some (mkReaderState pid 0 :: rs', i)
    else match claim_reader rs' pid (S i) with Some (l, j) => Some (r :: l, j) | None => None end
  end.

(** [attach(base, count, false)]. *)
Definition attach_reader (sh : Shm) (base_ok : bool) (count pid : Z) : res (Shm * Handle) :=
  if negb base_ok || negb (is_power_of_two count) then Throw InvalidArgument
  else if negb (sh_magic sh =? ring_magic) || negb (sh_layout_version sh =? layout_version) ||
          negb (sh_slot_count sh =? count) || negb (sh_slot_size sh =? sizeof_Slot) then Throw RuntimeError
  else match claim_reader (sh_readers sh) pid 0 with
       | None => Throw RuntimeError
       | Some (rs, i) => Ok (with_readers sh rs, mkHandle (u64 (u32 (count - 1))) (Some i))
       end.
End Attach.

(** [~Ring]. *)
Definition detach (sh : Shm) (h : Handle) : res Shm :=
  match hn_reader h with
  | None => Ok sh
  | Some i => let! r := vget (sh_readers sh) i in
              let! rs := vset (sh_readers sh) i (mkReaderState 0 (rs_cursor r)) in Ok (with_readers sh rs)
  end.

Definition reader_count (sh : Shm) : Z :=
  Z.of_nat (length (List.filter (fun r => negb (rs_pid r =? 0)) (sh_readers sh))).

Definition set_backpressure (sh : Shm) (h : Handle) (enabled : bool) : res Shm :=
  match hn_reader h with
  | Some _ => Throw LogicError
  | None => Ok (mkShm (sh_magic sh) (sh_layout_version sh) (sh_epoch sh) (sh_readers sh) (sh_slot_count sh) (sh_slot_size sh)
                  enabled (sh_write_index sh) (sh_slots sh))
  end.

Definition live_edge (sh : Shm) : Z := sh_write_index sh.

(** One pass over the registry: [any] and [blocked]. *)
Fixpoint scan_readers (rs : list ReaderState) (limit : Z) (any blocked : bool) : bool * bool :=
  match rs with
  | [] => (any, blocked)
  | r :: rs' =>
    if rs_pid r =? 0 then scan_readers rs' limit any blocked
    else scan_readers rs' limit true (if rs_cursor r <=? limit then true else blocked)
  end.

(** The body under the slot's lock. *)
Definition fill_slot (s : Slot) (frame : bytes) (idx : Z) : res Slot :=
  let! f := overwrite (sl_frame s) 0 frame in
  Ok (mkSlot (u64 (idx + 1)) (Z.of_nat (length frame)) f).

Definition publish (sh : Shm) (h : Handle) (frame : bytes) : res Shm :=
  if (length frame =? 0)%nat || (kFrameCap <? length frame)%nat then Throw LengthError
  else match hn_reader h with
  | Some _ => Throw LogicError
  | None =>
    let idx := live_edge sh in
    let blocked :=
      if sh_backpressure sh && (sh_slot_count sh <=? idx) then
        let '(any, blocked) := scan_readers (sh_readers sh) (idx - sh_slot_count sh) false false in
        negb (any && negb blocked)
      else false in
    if blocked then Throw RuntimeError
    else
      let p := Z.to_nat (Z.land idx (hn_mask h)) in
      let! s := vget (sh_slots sh) p in
      let! s := fill_slot s frame idx in
      let! slots := vset (sh_slots sh) p s in
      Ok (with_data sh (u64 (idx + 1)) slots)
  end.

Inductive FrameStatus := kOk | kEmpty | kLapped | kCorrupt.
#[global] Instance FrameStatus_eq_dec : EqDecision FrameStatus.
Proof. solve_decision. Defined.

(** [read(index, out, len, resume)]: the status, the bytes written to [out], the
    value of [*resume], and the segment with the reader's cursor moved. *)
Definition read (sh : Shm) (h : Handle) (index : Z) : res (FrameStatus * bytes * Z * Shm) :=
  let! s := vget (sh_slots sh) (Z.to_nat (Z.land index (hn_mask h))) in
  if sl_seq s <? u64 (index + 1) then Ok (kEmpty, [], 0, sh)
  else if u64 (index + 1) <? sl_seq s then
    let edge := live_edge sh in
    Ok (kLapped, [], if sh_slot_count sh <? edge then edge - sh_slot_count sh else 0, sh)
  else if (sl_frame_len s =? 0) || (Z.of_nat kFrameCap <? sl_frame_len s) then Ok (kCorrupt, [], 0, sh)
  else
    let out := take (Z.to_nat (sl_frame_len s)) (sl_frame s) in
    match hn_reader h with
    | None => Ok (kOk, out, 0, sh)
    | Some i => let! r := vget (sh_readers sh) i in
                let! rs := vset (sh_readers sh) i (mkReaderState (rs_pid r) (u64 (index + 1))) in
                Ok (kOk, out, 0, with_readers sh rs)
    end.

(** ** Invariant: which frame each slot holds

    [log] is the list of frames published since the segment was created. *)
Definition slot_ok (count : Z) (log : list bytes) (p : nat) (s : Slot) : Prop :=
  length (sl_frame s) = kFrameCap /\
  ((sl_seq s = 0 /\ Z.of_nat (length log) <= Z.of_nat p) \/
   exists i f, sl_seq s = Z.of_nat i + 1 /\ Z.of_nat i mod count = Z.of_nat p /\ log !! i = Some f /\
     Z.of_nat (length log) <= Z.of_nat i + count /\
     sl_frame_len s = Z.of_nat (length f) /\ (1 <= length f <= kFrameCap)%nat /\ take (length f) (sl_frame s) = f).

Record ring_inv (log : list bytes) (sh : Shm) (mask : Z) : Prop := {
  rg_count : is_power_of_two (sh_slot_count sh) = true /\ in_range 32 (sh_slot_count sh);
  rg_mask : mask = sh_slot_count sh - 1;
  rg_slots : Z.of_nat (length (sh_slots sh)) = sh_slot_count sh;
  rg_readers : length (sh_readers sh) = kMaxReaders;
  rg_index : sh_write_index sh = Z.of_nat (length log);
  rg_slot p s : sh_slots sh !! p = Some s -> slot_ok (sh_slot_count sh) log p s
}.

(** ** Lemmas *)
Lemma ring_count_pow (sh : Shm) log mask : ring_inv log sh mask -> exists k, 0 <= k < 32 /\ sh_slot_count sh = 2 ^ k.
Proof.
  intros [[Hp [H0 H1]] _ _ _ _ _]. destruct (proj1 (is_power_of_two_iff (sh_slot_count sh) ltac:(unfold in_range; lia)) Hp) as (k & Hk & E).
  exists k. split; [|done]. rewrite E in H1. split; [lia|]. apply (Z.pow_lt_mono_r_iff 2); lia.
Qed.

(** The mask selects the position, and every position is inside the segment. *)
Lemma land_mask (count mask idx : Z) (k : Z) : 0 <= k -> count = 2 ^ k -> mask = count - 1 -> Z.land idx mask = idx mod count.
Proof. intros Hk -> ->. rewrite <- Z.land_ones by done. f_equal. rewrite Z.ones_equiv. lia. Qed.

Lemma mod_close (n i j : Z) : 0 < n -> i mod n = j mod n -> i < j + n -> i <= j.
Proof.
  intros Hn E Hlt. pose proof (Z.div_mod i n ltac:(lia)). pose proof (Z.div_mod j n ltac:(lia)).
  assert (i / n - j / n < 1) by nia. nia.
Qed.

Section Ring.
Context {log : list bytes} {sh : Shm} {mask : Z}.
Hypothesis Hinv : ring_inv log sh mask.

Lemma ring_slot (idx : Z) : 0 <= idx ->
  exists s, vget (sh_slots sh) (Z.to_nat (Z.land idx mask)) = Ok s /\ sh_slots sh !! Z.to_nat (idx mod sh_slot_count sh) = Some s /\
    slot_ok (sh_slot_count sh) log (Z.to_nat (idx mod sh_slot_count sh)) s /\ Z.land idx mask = idx mod sh_slot_count sh /\
    0 < sh_slot_count sh /\ (Z.to_nat (idx mod sh_slot_count sh) < length (sh_slots sh))%nat.
Proof using Hinv.
  intros Hi. destruct (ring_count_pow _ _ _ Hinv) as (k & Hk & E). pose proof (land_mask _ _ idx k ltac:(lia) E (rg_mask _ _ _ Hinv)) as Hm.
  assert (0 < sh_slot_count sh) by (rewrite E; apply Z.pow_pos_nonneg; lia).
  pose proof (Z.mod_pos_bound idx (sh_slot_count sh) ltac:(lia)). pose proof (rg_slots _ _ _ Hinv).
  rewrite Hm. destruct (vget_lt (sh_slots sh) (Z.to_nat (idx mod sh_slot_count sh))) as (s & Hs & Hl); [lia|].
  exists s. split_and!; try done; [|lia]. by apply (rg_slot _ _ _ Hinv).
Qed.

(** Publishing appends to the log and keeps the invariant. *)
Lemma publish_inv (f : bytes) (sh' : Shm) :
  Z.of_nat (length log) + 1 < 2 ^ 64 -> publish sh (mkHandle mask None) f = Ok sh' ->
  ring_inv (log ++ [f]) sh' mask /\ sh_readers sh' = sh_readers sh /\ sh_slot_count sh' = sh_slot_count sh /\
  sh_backpressure sh' = sh_backpressure sh.
Proof using Hinv.
  intros HL Hp. unfold publish in Hp. destruct (_ || _) eqn:Hlen; [discriminate|]. zbool. cbn [hn_reader hn_mask] in Hp.
  destruct (if sh_backpressure sh && _ then _ else false); [discriminate|]. unfold live_edge in Hp.
  pose proof (rg_index _ _ _ Hinv) as Hwi. destruct (ring_slot (sh_write_index sh) ltac:(lia)) as (s & Hs & Hl & Hok & Hm & Hc & Hlt).
  rewrite Hs in Hp. cbn [rbind] in Hp. unfold fill_slot, overwrite in Hp. destruct Hok as [Hfl Hok].
  destruct (Nat.leb_spec (0 + length f) (length (sl_frame s))) as [_|?]; [|lia]. cbn [rbind] in Hp.
  rewrite Hm, vset_lt in Hp by exact Hlt. cbn [rbind] in Hp. injection Hp as <-.
  rewrite Hwi, (wrap_small 64 (Z.of_nat (length log) + 1)) in * by (unfold in_range; lia).
  split; [|done]. destruct Hinv as [H1 H2 H3 H4 H5 H6]. constructor; cbn; try done.
  - by rewrite length_insert.
  - rewrite length_app. cbn. lia.
  - intros p s' Hps. rewrite list_lookup_insert in Hps. destruct (decide _) as [[Heq _]|Hne].
    + injection Hps as <-. split; cbn [sl_frame].
      * rewrite ?take_0. cbn [app]. rewrite ?length_app, ?length_drop. cbn in *. lia.
      * right. exists (length log), f. cbn. split_and!; try done; try lia.
        -- rewrite <- Heq. rewrite Z2Nat.id by (apply Z.mod_pos_bound; lia). done.
        -- rewrite lookup_app_r, Nat.sub_diag by lia. done.
        -- rewrite length_app. cbn. lia.
        -- rewrite ?take_0. cbn. by rewrite take_app_le, take_ge by lia.
    + destruct (H6 p s' Hps) as [Hfl' [[Hz Hle]|(i & fi & Hi1 & Hi2 & Hi3 & Hi4 & Hi5)]]; (split; [done|]).
      * left. split; [done|]. rewrite length_app. cbn. destruct (Z.eq_dec (Z.of_nat (length log)) (Z.of_nat p)) as [E|]; [|lia].
        exfalso. apply Hne. split; [|done]. pose proof (lookup_lt_Some _ _ _ Hps). rewrite E, Z.mod_small by lia. lia.
      * right. exists i, fi. pose proof (lookup_lt_Some _ _ _ Hi3). split_and!; try done; try (apply Hi5).
        -- by rewrite lookup_app_l.
        -- rewrite length_app. cbn. destruct (Z.eq_dec (Z.of_nat (length log)) (Z.of_nat i + sh_slot_count sh)) as [E|]; [|lia].
           exfalso. apply Hne. split; [|done]. rewrite E. rewrite <- (Z.mul_1_l (sh_slot_count sh)) at 1. rewrite Z.mod_add by lia. lia.
Qed.
End Ring.

(** Creating a segment establishes the invariant with an empty log. *)
Lemma attach_create_inv (sizeof_Slot : Z) (base_ok overwrite : bool) (count now : Z) (mutexes : nat -> MutexEnv) (sh : Shm) (h : Handle) :
  in_range 32 count -> attach_create sizeof_Slot base_ok count overwrite now mutexes = Ok (sh, h) ->
  ring_inv [] sh (hn_mask h) /\ hn_reader h = None /\ sh_slot_count sh = count /\ sh_backpressure sh = negb overwrite.
Proof.
  intros Hc Ha. unfold attach_create in Ha. destruct (_ || _) eqn:Hp; [discriminate|]. zbool. destruct (init_mutexes _ _ _); [|discriminate]. cbn [rbind] in Ha. injection Ha as <- <-.
  destruct (proj1 (is_power_of_two_iff count ltac:(unfold in_range in *; lia)) ltac:(done)) as (k & Hk & E).
  assert (0 < count) by (rewrite E; apply Z.pow_pos_nonneg; lia). unfold in_range in Hc.
  split; [|done]. constructor; cbn [sh_slot_count sh_slots sh_readers sh_write_index hn_mask]; try done.
  - rewrite (wrap_small 32), wrap_small by (unfold in_range; lia). done.
  - rewrite length_replicate. lia.
  - intros p s Hs. apply lookup_replicate in Hs as [-> Hlt]. split; [reflexivity|]. left. split; [reflexivity|cbn [length]; lia].
Qed.

(** ** Properties *)

(** C26: Reads are exact.  After any sequence of publishes, reading index [i] of a
    ring of [n] slots with edge [e] returns: nothing yet if [i >= e]; the [i]-th
    published frame, byte for byte, if [e - n <= i < e]; and a lap, with the
    oldest index still held as the place to resume, if [i < e - n].  The frame
    is never reported corrupt. *)
Theorem ring_read_exact (log : list bytes) (sh : Shm) (mask : Z) (r : nat) (index : Z) :
  ring_inv log sh mask -> (r < kMaxReaders)%nat -> in_range 64 (index + 1) -> 0 <= index ->
  exists st out resume sh', read sh (mkHandle mask (Some r)) index = Ok (st, out, resume, sh') /\
    ring_inv log sh' mask /\
    ((Z.of_nat (length log) <= index /\ st = kEmpty /\ sh' = sh) \/
     (index < Z.of_nat (length log) - sh_slot_count sh /\ st = kLapped /\ resume = Z.of_nat (length log) - sh_slot_count sh /\ sh' = sh) \/
     (Z.of_nat (length log) - sh_slot_count sh <= index < Z.of_nat (length log) /\ st = kOk /\
      log !! Z.to_nat index = Some out /\ rs_cursor <$> sh_readers sh' !! r = Some (index + 1))).
Proof.
  intros Hinv Hr Hi H0. destruct (ring_slot Hinv index H0) as (s & Hs & _ & Hok & Hm & Hc & _). unfold read. cbn [hn_mask].
  rewrite Hs. cbn [rbind]. rewrite wrap_small by done. pose proof (Z.mod_pos_bound index (sh_slot_count sh) Hc).
  pose proof (rg_index _ _ _ Hinv) as Hwi. unfold live_edge. rewrite Hwi.
  destruct Hok as [_ [[Hz Hle]|(i & f & Hseq & Hmod & Hlog & Hold & Hlen & Hcap & Htake)]].
  - rewrite Hz. destruct (Z.ltb_spec 0 (index + 1)); [|lia]. eexists _, _, _, _. split; [done|]. split; [done|]. left.
    split; [|done]. pose proof (Z.mod_le index (sh_slot_count sh) H0 Hc). lia.
  - rewrite Hseq. pose proof (lookup_lt_Some _ _ _ Hlog). rewrite Z2Nat.id in Hmod by lia.
    destruct (Z.ltb_spec (Z.of_nat i + 1) (index + 1)).
    { eexists _, _, _, _. split; [done|]. split; [done|]. left. split; [|done].
      destruct (Z.lt_ge_cases index (Z.of_nat (length log))); [|done]. pose proof (mod_close (sh_slot_count sh) index (Z.of_nat i) Hc ltac:(done) ltac:(lia)). lia. }
    destruct (Z.ltb_spec (index + 1) (Z.of_nat i + 1)).
    { eexists _, _, _, _. split; [done|]. split; [done|]. right. left.
      assert (index < Z.of_nat (length log) - sh_slot_count sh) as Hlap.
      { destruct (Z.lt_ge_cases index (Z.of_nat (length log) - sh_slot_count sh)); [done|].
        pose proof (mod_close (sh_slot_count sh) (Z.of_nat i) index Hc ltac:(done) ltac:(lia)). lia. }
      split; [done|]. split; [done|]. split; [|done]. destruct (Z.ltb_spec (sh_slot_count sh) (Z.of_nat (length log))); lia. }
    assert (index = Z.of_nat i) as -> by lia. rewrite Hlen.
    destruct (Z.eqb_spec (Z.of_nat (length f)) 0); [lia|]. destruct (Z.ltb_spec (Z.of_nat kFrameCap) (Z.of_nat (length f))); [lia|]. cbn [orb hn_reader].
    pose proof (rg_readers _ _ _ Hinv) as Hrl.
    destruct (vget_lt (sh_readers sh) r) as (rs & -> & Hrs); [lia|]. cbn [rbind]. rewrite vset_lt by lia. cbn [rbind].
    eexists _, _, _, _. split; [done|]. split.
    + destruct Hinv as [? ? ? ? ? ?]. constructor; cbn; try done. by rewrite length_insert.
    + right. right. split; [lia|]. split; [done|]. rewrite !Nat2Z.id, Htake. split; [done|]. cbn. by rewrite list_lookup_insert_eq by lia.
Qed.

(** Backpressure: a publish that returns has not overwritten a frame that some
    attached reader still has to read: from its cursor on, every published frame
    is still in the ring. *)
Theorem ring_backpressure_keeps_unread (log : list bytes) (sh sh' : Shm) (mask : Z) (f : bytes) (r : nat) (rs : ReaderState) :
  ring_inv log sh mask -> Z.of_nat (length log) + 1 < 2 ^ 64 -> sh_backpressure sh = true ->
  sh_readers sh !! r = Some rs -> rs_pid rs <> 0 -> 0 <= rs_cursor rs ->
  publish sh (mkHandle mask None) f = Ok sh' ->
  ring_inv (log ++ [f]) sh' mask /\ Z.of_nat (length (log ++ [f])) - sh_slot_count sh' <= rs_cursor rs.
Proof.
  intros Hinv HL Hbp Hr Hpid Hcur Hp. destruct (publish_inv Hinv f sh' HL Hp) as (Hinv' & _ & Hc & _). split; [done|]. rewrite Hc, length_app. cbn [length].
  pose proof (rg_index _ _ _ Hinv) as Hwi. unfold publish in Hp. destruct (_ || _) eqn:Hlen; [discriminate|]. cbn [hn_reader] in Hp.
  rewrite Hbp in Hp. cbn [andb] in Hp. unfold live_edge in Hp. rewrite Hwi in Hp.
  destruct (Z.leb_spec (sh_slot_count sh) (Z.of_nat (length log))); [|lia].
  destruct (scan_readers _ _ _ _) as [any blocked] eqn:Hscan. destruct (any && negb blocked) eqn:Hgo; [|discriminate].
  apply andb_prop in Hgo as [_ Hb]. apply negb_true_iff in Hb. subst blocked.
  assert (forall l any0 b0 a b, scan_readers l (Z.of_nat (length log) - sh_slot_count sh) any0 b0 = (a, b) -> b = false ->
    b0 = false /\ forall i x, l !! i = Some x -> rs_pid x <> 0 -> Z.of_nat (length log) - sh_slot_count sh < rs_cursor x) as Hall.
  { clear. induction l as [|x l IH]; intros any0 b0 a b Hs Hb; cbn in Hs; [injection Hs as <- <-; done|].
    destruct (Z.eqb_spec (rs_pid x) 0) as [E|E]; destruct (IH _ _ _ _ Hs Hb) as [Hb0 Hl].
    - split; [done|]. intros [|i] y Hy Hy0; cbn in Hy; [congruence|eauto].
    - destruct (Z.leb_spec (rs_cursor x) (Z.of_nat (length log) - sh_slot_count sh)); [done|]. split; [done|].
      intros [|i] y Hy Hy0; cbn in Hy; [injection Hy as <-; lia|eauto]. }
  destruct (Hall _ _ _ _ _ Hscan eq_refl) as [_ Hall']. specialize (Hall' r rs Hr Hpid). lia.
Qed.

(** ** The ring as a sink

    The writer's view, with the log kept as a history variable. *)
Record RingSink := mkRingSink { rk_shm : Shm; rk_handle : Handle; rk_log : list bytes }.
#[global] Instance ring_sink : Sink RingSink := {|
  sink_publish r f := let! sh := publish (rk_shm r) (rk_handle r) f in Ok (mkRingSink sh (rk_handle r) (rk_log r ++ [f]));
  sink_log := rk_log
|}.
#[global] Instance ring_sink_laws : SinkLaws RingSink.
Proof. constructor. cbn. intros r r' f Hp. run_inv. done. Qed.

(** The history variable is what a reader can read back. *)
Lemma ring_sink_inv (r r' : RingSink) (f : bytes) :
  ring_inv (rk_log r) (rk_shm r) (hn_mask (rk_handle r)) -> hn_reader (rk_handle r) = None ->
  Z.of_nat (length (rk_log r)) + 1 < 2 ^ 64 -> sink_publish r f = Ok r' ->
  ring_inv (rk_log r') (rk_shm r') (hn_mask (rk_handle r')) /\ hn_reader (rk_handle r') = None.
Proof.
  intros Hinv Hn HL Hp. destruct r as [sh [m o] log]. cbn in *. subst o. run_inv. cbn. split; [|done]. by eapply publish_inv.
Qed.

(** ** Witnesses: two slots, one attached reader. *)
Definition demo_create : Shm * Handle :=
  match attach_create 640 true 2 false 7 (fun _ => library_ok) with Ok x => x | Throw _ => (mkShm 0 0 0 [] 0 0 false 0 [], mkHandle 0 None) end.
Definition demo_shm : Shm :=
  match attach_reader 640 (fst demo_create) true 2 99 with Ok (sh, _) => sh | Throw _ => fst demo_create end.
Definition demo_msg : bytes := [Corelib.Init.Byte.x05; Corelib.Init.Byte.x06].
Definition demo_shm1 : Shm := match publish demo_shm (mkHandle 1 None) demo_msg with Ok sh => sh | Throw _ => demo_shm end.

Lemma demo_inv : ring_inv [] demo_shm 1.
Proof.
  destruct (attach_create_inv 640 true false 2 7 (fun _ => library_ok) (fst demo_create) (snd demo_create)) as ([? ? ? ? ? H] & _); [unfold in_range; lia | reflexivity |].
  by constructor.
Qed.

Lemma demo_inv1 : ring_inv [demo_msg] demo_shm1 1.
Proof. apply (publish_inv demo_inv demo_msg demo_shm1); [cbn; lia | reflexivity]. Qed.

Lemma ring_read_exact_witness :
  exists st out resume sh', read demo_shm1 (mkHandle 1 (Some 0%nat)) 0 = Ok (st, out, resume, sh') /\ ring_inv [demo_msg] sh' 1 /\
    ((1 <= 0 /\ st = kEmpty /\ sh' = demo_shm1) \/ (0 < 1 - 2 /\ st = kLapped /\ resume = 1 - 2 /\ sh' = demo_shm1) \/
     (1 - 2 <= 0 < 1 /\ st = kOk /\ [demo_msg] !! 0%nat = Some out /\ rs_cursor <$> sh_readers sh' !! 0%nat = Some (0 + 1))).
Proof. apply (ring_read_exact [demo_msg] demo_shm1 1 0 0 demo_inv1); [unfold kMaxReaders; lia | unfold in_range; lia | lia]. Defined.

Lemma ring_backpressure_keeps_unread_witness :
  ring_inv ([] ++ [demo_msg]) demo_shm1 1 /\ Z.of_nat (length ([] ++ [demo_msg])) - sh_slot_count demo_shm1 <= rs_cursor (mkReaderState 99 0).
Proof.
  apply (ring_backpressure_keeps_unread [] demo_shm demo_shm1 1 demo_msg 0 (mkReaderState 99 0) demo_inv);
    [cbn; lia | reflexivity | reflexivity | cbn; lia | cbn; lia | reflexivity].
Defined.
