(* ===== verification/RingConc.v ===== *)
(** * Shared-memory ring, interleaved: [harness/include/shm_ring.h]

    The writer and the readers are separate processes that share the segment.
    Each atomic access of the code is one step here: the loads of the registry
    scan, taking and releasing a slot's robust mutex, every byte of the two
    [memcpy]s, the stores of [seq], [frame_len], [write_index] and the cursor.
    A process may die at any point, holding a lock or half way through a copy;
    the lock of a dead owner can be taken ([EOWNERDEAD]).

    Two history variables are kept: [cf_log], the frames in the order their
    [seq] was stored, and for each reader the frames it was given. *)
From Stdlib Require Import Sorted.
From stdpp Require Import sorting.
From S2P Require Import Prelude Util Message Sink Ring.

Inductive owner := OWriter | OReader (r : nat).
#[global] Instance owner_eq_dec : EqDecision owner.
Proof. solve_decision. Defined.

(** A slot with its mutex. *)
Record CSlot := mkCSlot { cs_lock : option owner; cs_seq : Z; cs_len : Z; cs_frame : bytes }.

(** Where the writer is inside [publish]. *)
Inductive wpc :=
| WIdle
| WScan (f : bytes) (i : nat) (any blocked : bool)     (* next: load pid of entry i *)
| WCursor (f : bytes) (i : nat) (blocked : bool)       (* next: load cursor of entry i *)
| WLock (f : bytes)                                    (* next: take the slot's lock *)
| WInvalidate (f : bytes)
| WCopy (f : bytes) (j : nat)                          (* j bytes copied *)
| WSeq (f : bytes)
| WIndex (f : bytes)
| WUnlock (f : bytes)
| WDead.

(** Where a reader is inside [read], with the index it reads. *)
Inductive rpc :=
| RStart                                               (* attached, start not chosen *)
| RIdle (next : Z)
| RCheck (next : Z)                                    (* lock taken *)
| RCopy (next : Z) (out : bytes)
| RUnlock (next next' : Z)                             (* lock of slot [next] still held *)
| RCorrupt (next : Z).

(** A live reader: its position, the frames it was given and whether it was lapped. *)
Record rproc := mkR { r_pc : rpc; r_got : list (Z * bytes); r_laps : nat }.

Record conf := mkConf {
  cf_slots : Z -> CSlot; cf_pid : nat -> Z; cf_cursor : nat -> Z; cf_index : Z;
  cf_w : wpc; cf_r : nat -> option rproc; cf_log : list bytes
}.

Definition upd {K V} `{EqDecision K} (m : K -> V) (k : K) (v : V) : K -> V := fun x => if decide (x = k) then v else m x.

Section Steps.
(** The policy and the size of the ring. *)
Variables (count : Z) (backpressure : bool).

Definition pos (idx : Z) : Z := Z.land idx (count - 1).

(** Nobody alive holds the lock: [pthread_mutex_trylock] returns 0 or [EOWNERDEAD]. *)
Definition lock_free (c : conf) (s : CSlot) : Prop :=
  match cs_lock s with
  | None => True
  | Some OWriter => cf_w c = WDead
  | Some (OReader r) => cf_r c r = None
  end.

Definition set_lock (s : CSlot) (o : option owner) : CSlot := mkCSlot o (cs_seq s) (cs_len s) (cs_frame s).

Definition with_w (c : conf) (w : wpc) : conf :=
  mkConf (cf_slots c) (cf_pid c) (cf_cursor c) (cf_index c) w (cf_r c) (cf_log c).
Definition with_slot_w (c : conf) (p : Z) (s : CSlot) (w : wpc) : conf :=
  mkConf (upd (cf_slots c) p s) (cf_pid c) (cf_cursor c) (cf_index c) w (cf_r c) (cf_log c).
Definition with_r (c : conf) (r : nat) (x : option rproc) : conf :=
  mkConf (cf_slots c) (cf_pid c) (cf_cursor c) (cf_index c) (cf_w c) (upd (cf_r c) r x) (cf_log c).
Definition with_slot_r (c : conf) (p : Z) (s : CSlot) (r : nat) (x : rproc) : conf :=
  mkConf (upd (cf_slots c) p s) (cf_pid c) (cf_cursor c) (cf_index c) (cf_w c) (upd (cf_r c) r (Some x)) (cf_log c).

(** ** The writer: [publish] *)
Inductive wstep (c : conf) : conf -> Prop :=
| w_start f : cf_w c = WIdle -> (1 <= length f <= kFrameCap)%nat ->
    wstep c (with_w c (if backpressure && (count <=? cf_index c) then WScan f 0 false false else WLock f))
| w_scan_pid f i any blocked : cf_w c = WScan f i any blocked -> (i < kMaxReaders)%nat ->
    wstep c (with_w c (if cf_pid c i =? 0 then WScan f (S i) any blocked else WCursor f i blocked))
| w_scan_cursor f i blocked : cf_w c = WCursor f i blocked ->
    wstep c (with_w c (WScan f (S i) true (if cf_cursor c i <=? cf_index c - count then true else blocked)))
| w_scan_pass f : cf_w c = WScan f kMaxReaders true false -> wstep c (with_w c (WLock f))
| w_scan_retry f any blocked : cf_w c = WScan f kMaxReaders any blocked -> any && negb blocked = false ->
    wstep c (with_w c (WScan f 0 false false))
| w_scan_deadline f any blocked : cf_w c = WScan f kMaxReaders any blocked -> any && negb blocked = false ->
    wstep c (with_w c WIdle)
| w_lock f : cf_w c = WLock f -> lock_free c (cf_slots c (pos (cf_index c))) ->
    wstep c (with_slot_w c (pos (cf_index c)) (set_lock (cf_slots c (pos (cf_index c))) (Some OWriter)) (WInvalidate f))
| w_lock_deadline f : cf_w c = WLock f -> wstep c (with_w c WIdle)
| w_invalidate f s : cf_w c = WInvalidate f -> s = cf_slots c (pos (cf_index c)) ->
    wstep c (with_slot_w c (pos (cf_index c)) (mkCSlot (cs_lock s) 0 0 (cs_frame s)) (WCopy f 0))
| w_copy f j b s : cf_w c = WCopy f j -> f !! j = Some b -> s = cf_slots c (pos (cf_index c)) ->
    wstep c (with_slot_w c (pos (cf_index c)) (mkCSlot (cs_lock s) (cs_seq s) (cs_len s) (<[j := b]> (cs_frame s))) (WCopy f (S j)))
| w_len f s : cf_w c = WCopy f (length f) -> s = cf_slots c (pos (cf_index c)) ->
    wstep c (with_slot_w c (pos (cf_index c)) (mkCSlot (cs_lock s) (cs_seq s) (Z.of_nat (length f)) (cs_frame s)) (WSeq f))
| w_seq f s : cf_w c = WSeq f -> s = cf_slots c (pos (cf_index c)) ->
    wstep c (mkConf (upd (cf_slots c) (pos (cf_index c)) (mkCSlot (cs_lock s) (cf_index c + 1) (cs_len s) (cs_frame s)))
               (cf_pid c) (cf_cursor c) (cf_index c) (WIndex f) (cf_r c) (cf_log c ++ [f]))
| w_index f : cf_w c = WIndex f ->
    wstep c (mkConf (cf_slots c) (cf_pid c) (cf_cursor c) (cf_index c + 1) (WUnlock f) (cf_r c) (cf_log c))
| w_unlock f s : cf_w c = WUnlock f -> s = cf_slots c (pos (cf_index c - 1)) ->
    wstep c (with_slot_w c (pos (cf_index c - 1)) (set_lock s None) WIdle)
| w_die : wstep c (with_w c WDead).

(** ** Reader [r]: [attach], [read], [~Ring] *)
Inductive rstep (c : conf) (r : nat) : conf -> Prop :=
| r_attach pid : (r < kMaxReaders)%nat -> cf_pid c r = 0 -> cf_r c r = None -> pid <> 0 ->
    rstep c r (mkConf (cf_slots c) (upd (cf_pid c) r pid) (upd (cf_cursor c) r 0) (cf_index c) (cf_w c)
                 (upd (cf_r c) r (Some (mkR RStart [] 0))) (cf_log c))
| r_choose (from_edge : bool) : cf_r c r = Some (mkR RStart [] 0) ->
    rstep c r (with_r c r (Some (mkR (RIdle (if from_edge then cf_index c else 0)) [] 0)))
| r_lock next got laps : cf_r c r = Some (mkR (RIdle next) got laps) -> lock_free c (cf_slots c (pos next)) ->
    rstep c r (with_slot_r c (pos next) (set_lock (cf_slots c (pos next)) (Some (OReader r))) r (mkR (RCheck next) got laps))
| r_empty next got laps : cf_r c r = Some (mkR (RCheck next) got laps) -> cs_seq (cf_slots c (pos next)) < next + 1 ->
    rstep c r (with_r c r (Some (mkR (RUnlock next next) got laps)))
| r_lapped next got laps : cf_r c r = Some (mkR (RCheck next) got laps) -> next + 1 < cs_seq (cf_slots c (pos next)) ->
    rstep c r (with_r c r (Some (mkR (RUnlock next (if count <? cf_index c then cf_index c - count else 0)) got (S laps))))
| r_corrupt next got laps s : cf_r c r = Some (mkR (RCheck next) got laps) -> s = cf_slots c (pos next) -> cs_seq s = next + 1 ->
    (cs_len s = 0 \/ Z.of_nat kFrameCap < cs_len s) ->
    rstep c r (with_r c r (Some (mkR (RCorrupt next) got laps)))
| r_begin next got laps s : cf_r c r = Some (mkR (RCheck next) got laps) -> s = cf_slots c (pos next) -> cs_seq s = next + 1 ->
    0 < cs_len s <= Z.of_nat kFrameCap ->
    rstep c r (with_r c r (Some (mkR (RCopy next []) got laps)))
| r_copy next got laps out b : cf_r c r = Some (mkR (RCopy next out) got laps) ->
    Z.of_nat (length out) < cs_len (cf_slots c (pos next)) -> cs_frame (cf_slots c (pos next)) !! length out = Some b ->
    rstep c r (with_r c r (Some (mkR (RCopy next (out ++ [b])) got laps)))
| r_store next got laps out : cf_r c r = Some (mkR (RCopy next out) got laps) ->
    Z.of_nat (length out) = cs_len (cf_slots c (pos next)) ->
    rstep c r (mkConf (cf_slots c) (cf_pid c) (upd (cf_cursor c) r (next + 1)) (cf_index c) (cf_w c)
                 (upd (cf_r c) r (Some (mkR (RUnlock next (next + 1)) (got ++ [(next, out)]) laps))) (cf_log c))
| r_unlock next next' got laps : cf_r c r = Some (mkR (RUnlock next next') got laps) ->
    rstep c r (with_slot_r c (pos next) (set_lock (cf_slots c (pos next)) None) r (mkR (RIdle next') got laps))
| r_detach next got laps : cf_r c r = Some (mkR (RIdle next) got laps) ->
    rstep c r (mkConf (cf_slots c) (upd (cf_pid c) r 0) (cf_cursor c) (cf_index c) (cf_w c) (upd (cf_r c) r None) (cf_log c))
| r_die x : cf_r c r = Some x -> rstep c r (with_r c r None).

Inductive step (c : conf) : conf -> Prop :=
| step_w c' : wstep c c' -> step c c'
| step_r r c' : rstep c r c' -> step c c'.

(** The segment after [attach(base, count, true)]. *)
Definition conf_init : conf :=
  mkConf (fun _ => mkCSlot None 0 0 (sl_frame empty_slot)) (fun _ => 0) (fun _ => 0) 0 WIdle (fun _ => None) [].

Inductive reach : conf -> Prop :=
| reach_init : reach conf_init
| reach_step c c' : reach c -> step c c' -> reach c'.
End Steps.

(** The room the writer still owes reader [r] for the frame in hand: one slot
    once the scan has passed its entry unblocked, until [seq] is stored. *)
Definition promised (w : wpc) (r : nat) : Z :=
  match w with
  | WLock _ | WInvalidate _ | WCopy _ _ | WSeq _ => 1
  | WScan _ i _ blocked | WCursor _ i blocked => if negb blocked && (r <? i)%nat then 1 else 0
  | _ => 0
  end.

Lemma promised_le (w : wpc) (r : nat) : 0 <= promised w r <= 1.
Proof. destruct w; cbn; try lia; destruct (_ && _); lia. Qed.

(** ** The invariant *)
Section Invariant.
Variables (count k : Z) (backpressure : bool).
Hypothesis Hk : 0 <= k < 32.
Hypothesis Hcount : count = 2 ^ k.

#[local] Abbreviation ps := (pos count).

Lemma count_pos : 0 < count.
Proof. rewrite Hcount. apply Z.pow_pos_nonneg; lia. Qed.

Lemma pos_mod (idx : Z) : ps idx = idx mod count.
Proof. unfold pos. apply (land_mask count (count - 1) idx k); [lia|done|done]. Qed.

(** The content of a slot: empty, being written, or one frame of the log which
    is the latest for this position. *)
Definition slot_good (log : list bytes) (p : Z) (s : CSlot) : Prop :=
  length (cs_frame s) = kFrameCap /\
  (cs_seq s = 0 \/
   exists i f, log !! i = Some f /\ cs_seq s = Z.of_nat i + 1 /\ ps (Z.of_nat i) = p /\ Z.of_nat (length log) <= Z.of_nat i + count /\
     cs_len s = Z.of_nat (length f) /\ (1 <= length f <= kFrameCap)%nat /\ take (length f) (cs_frame s) = f).

Definition flen (f : bytes) : Prop := (1 <= length f <= kFrameCap)%nat.

Definition w_ok (sl : Z -> CSlot) (idx : Z) (w : wpc) : Prop :=
  match w with
  | WIdle | WDead => True
  | WScan f _ _ _ | WCursor f _ _ | WLock f => flen f
  | WInvalidate f => flen f /\ cs_lock (sl (ps idx)) = Some OWriter
  | WCopy f j => flen f /\ cs_lock (sl (ps idx)) = Some OWriter /\ cs_seq (sl (ps idx)) = 0 /\ (j <= length f)%nat /\
      take j (cs_frame (sl (ps idx))) = take j f
  | WSeq f => flen f /\ cs_lock (sl (ps idx)) = Some OWriter /\ cs_seq (sl (ps idx)) = 0 /\
      cs_len (sl (ps idx)) = Z.of_nat (length f) /\ take (length f) (cs_frame (sl (ps idx))) = f
  | WIndex f => cs_lock (sl (ps idx)) = Some OWriter
  | WUnlock f => cs_lock (sl (ps (idx - 1))) = Some OWriter
  end.

Definition w_slot (idx : Z) (w : wpc) : option Z :=
  match w with
  | WInvalidate _ | WCopy _ _ | WSeq _ | WIndex _ => Some (ps idx)
  | WUnlock _ => Some (ps (idx - 1))
  | _ => None
  end.

Definition r_ok (sl : Z -> CSlot) (r : nat) (pc : rpc) : Prop :=
  match pc with
  | RStart => True
  | RIdle n => 0 <= n
  | RCheck n => 0 <= n /\ cs_lock (sl (ps n)) = Some (OReader r)
  | RCopy n out => 0 <= n /\ cs_lock (sl (ps n)) = Some (OReader r) /\ cs_seq (sl (ps n)) = n + 1 /\
      Z.of_nat (length out) <= cs_len (sl (ps n)) <= Z.of_nat kFrameCap /\ out = take (length out) (cs_frame (sl (ps n)))
  | RUnlock n n' => 0 <= n /\ 0 <= n' /\ cs_lock (sl (ps n)) = Some (OReader r)
  | RCorrupt n => False
  end.

Definition r_slot (pc : rpc) : option Z :=
  match pc with
  | RStart | RIdle _ => None
  | RCheck n | RCopy n _ | RUnlock n _ | RCorrupt n => Some (ps n)
  end.

Definition got_ok (log : list bytes) (x : rproc) : Prop :=
  forall i f, In (i, f) (r_got x) -> 0 <= i /\ log !! Z.to_nat i = Some f.

Record inv (c : conf) : Prop := {
  iv_index : 0 <= cf_index c /\
    match cf_w c with
    | WIndex _ => Z.of_nat (length (cf_log c)) = cf_index c + 1
    | WDead => Z.of_nat (length (cf_log c)) = cf_index c \/ Z.of_nat (length (cf_log c)) = cf_index c + 1
    | WUnlock _ => Z.of_nat (length (cf_log c)) = cf_index c /\ 1 <= cf_index c
    | _ => Z.of_nat (length (cf_log c)) = cf_index c
    end;
  iv_slot p : slot_good (cf_log c) p (cf_slots c p);
  iv_w : w_ok (cf_slots c) (cf_index c) (cf_w c);
  iv_r r x : cf_r c r = Some x -> (r < kMaxReaders)%nat /\ cf_pid c r <> 0 /\ r_ok (cf_slots c) r (r_pc x) /\ got_ok (cf_log c) x
}.

Lemma r_ok_lock (sl : Z -> CSlot) (r : nat) (pc : rpc) (p : Z) : r_ok sl r pc -> r_slot pc = Some p -> cs_lock (sl p) = Some (OReader r).
Proof. intros H E. destruct pc; cbn in *; try discriminate; injection E as <-; tauto. Qed.

Lemma r_ok_ext (sl sl' : Z -> CSlot) (r : nat) (pc : rpc) :
  r_ok sl r pc -> (forall p, r_slot pc = Some p -> sl' p = sl p) -> r_ok sl' r pc.
Proof. intros H E. destruct pc; cbn in *; try rewrite (E _ eq_refl); done. Qed.

Lemma w_ok_lock (sl : Z -> CSlot) (idx : Z) (w : wpc) (p : Z) : w_ok sl idx w -> w_slot idx w = Some p -> cs_lock (sl p) = Some OWriter.
Proof. intros H E. destruct w; cbn in *; try discriminate; injection E as <-; tauto. Qed.

Lemma w_ok_ext (sl sl' : Z -> CSlot) (idx : Z) (w : wpc) :
  w_ok sl idx w -> (forall p, w_slot idx w = Some p -> sl' p = sl p) -> w_ok sl' idx w.
Proof. intros H E. destruct w; cbn in *; try rewrite (E _ eq_refl); done. Qed.

Lemma upd_same {K V} `{EqDecision K} (m : K -> V) (x : K) (v : V) : upd m x v x = v.
Proof. unfold upd. by rewrite decide_True. Qed.
Lemma upd_other {K V} `{EqDecision K} (m : K -> V) (x y : K) (v : V) : y <> x -> upd m x v y = m y.
Proof. intros H. unfold upd. by rewrite decide_False. Qed.

(** Readers do not notice a change of a slot they do not hold. *)
Lemma readers_keep (c : conf) (p : Z) (s : CSlot) :
  inv c -> (forall r, cs_lock (cf_slots c p) <> Some (OReader r) \/ cf_r c r = None) ->
  forall r x, cf_r c r = Some x -> r_ok (upd (cf_slots c) p s) r (r_pc x).
Proof.
  intros Hc Hp r x Hx. destruct (iv_r c Hc r x Hx) as (_ & _ & Hr & _). apply (r_ok_ext (cf_slots c)); [done|].
  intros q Hq. apply upd_other. intros ->. pose proof (r_ok_lock _ _ _ _ Hr Hq). destruct (Hp r); congruence.
Qed.

Lemma slots_keep (c : conf) (p : Z) (s : CSlot) :
  inv c -> slot_good (cf_log c) p s -> forall q, slot_good (cf_log c) q (upd (cf_slots c) p s q).
Proof. intros Hc Hs q. unfold upd. destruct (decide (q = p)) as [->|]; [done|]. apply (iv_slot c Hc). Qed.

Lemma inv_init : inv conf_init.
Proof.
  constructor; cbn; try done. intros p. split; [reflexivity|]. by left.
Qed.

(** The relation of [write_index] to the log at each point of [publish]. *)
Definition index_ok (idx len : Z) (w : wpc) : Prop :=
  match w with
  | WIndex _ => len = idx + 1
  | WDead => len = idx \/ len = idx + 1
  | WUnlock _ => len = idx /\ 1 <= idx
  | _ => len = idx
  end.

(** A step of the writer that only moves its program counter. *)
Lemma writer_moves (c : conf) (w : wpc) :
  inv c -> index_ok (cf_index c) (Z.of_nat (length (cf_log c))) w -> w_ok (cf_slots c) (cf_index c) w -> inv (with_w c w).
Proof.
  intros Hc Hi Hw. constructor; cbn; [split; [apply Hc|done] | apply Hc | done | apply Hc].
Qed.

(** A step of the writer on the slot it holds. *)
Lemma writer_writes (c : conf) (p : Z) (s : CSlot) (w : wpc) :
  inv c -> cs_lock (cf_slots c p) = Some OWriter -> slot_good (cf_log c) p s ->
  index_ok (cf_index c) (Z.of_nat (length (cf_log c))) w -> w_ok (upd (cf_slots c) p s) (cf_index c) w -> inv (with_slot_w c p s w).
Proof.
  intros Hc Hl Hg Hi Hw. constructor; cbn [cf_w cf_log cf_index cf_slots cf_r cf_pid with_slot_w].
  - split; [apply Hc|done].
  - by apply slots_keep.
  - done.
  - intros r x Hx. destruct (iv_r c Hc r x Hx) as (? & ? & Hok & ?). split_and!; try done. apply readers_keep; [done| |done].
    intros r'. left. congruence.
Qed.

Lemma w_lock_inv (c : conf) (f : bytes) :
  inv c -> cf_w c = WLock f -> lock_free c (cf_slots c (ps (cf_index c))) ->
  inv (with_slot_w c (ps (cf_index c)) (set_lock (cf_slots c (ps (cf_index c))) (Some OWriter)) (WInvalidate f)).
Proof.
  intros Hc Ew Hfree. pose proof (iv_index c Hc) as Hidx. pose proof (iv_w c Hc) as Hw. rewrite Ew in Hidx, Hw.
  constructor; cbn [cf_w cf_log cf_index cf_slots cf_r cf_pid with_slot_w w_ok]; [done | | |].
  - apply slots_keep; [done|]. destruct (iv_slot c Hc (ps (cf_index c))) as [? ?]. by split.
  - split; [done|]. by rewrite upd_same.
  - intros r x Hx. destruct (iv_r c Hc r x Hx) as (? & ? & Hok & ?). split_and!; try done. apply readers_keep; [done| |done].
    intros r'. destruct (decide (cs_lock (cf_slots c (ps (cf_index c))) = Some (OReader r'))) as [E|]; [|by left].
    right. unfold lock_free in Hfree. by rewrite E in Hfree.
Qed.

(** Storing [seq] makes the frame the latest one of its position. *)
Lemma w_seq_inv (c : conf) (f : bytes) (s : CSlot) :
  inv c -> cf_w c = WSeq f -> s = cf_slots c (ps (cf_index c)) ->
  inv (mkConf (upd (cf_slots c) (ps (cf_index c)) (mkCSlot (cs_lock s) (cf_index c + 1) (cs_len s) (cs_frame s)))
         (cf_pid c) (cf_cursor c) (cf_index c) (WIndex f) (cf_r c) (cf_log c ++ [f])).
Proof.
  intros Hc Ew ->. pose proof (iv_index c Hc) as [Hi0 Hidx]. pose proof (iv_w c Hc) as Hw. rewrite Ew in Hidx, Hw. pose proof count_pos as Hcp.
  destruct Hw as (Hf & Hl & Hz & Hlen & Ht). destruct (iv_slot c Hc (ps (cf_index c))) as [Hfr _].
  constructor; cbn [cf_w cf_log cf_index cf_slots cf_r cf_pid w_ok].
  - split; [done|]. rewrite length_app. cbn. lia.
  - intros q. unfold upd. destruct (decide (q = ps (cf_index c))) as [->|Hne].
    + split; [done|]. right. exists (length (cf_log c)), f. cbn [cs_seq cs_len cs_frame]. rewrite Hidx.
      split_and!; try done; try apply Hf; [by rewrite lookup_app_r, Nat.sub_diag by lia | rewrite length_app; cbn; lia].
    + destruct (iv_slot c Hc q) as [Hq [Hq0|(i & g & Hg & Hseq & Hpos & Hold & Hrest)]]; (split; [done|]); [by left|right].
      exists i, g. pose proof (lookup_lt_Some _ _ _ Hg). split_and!; try done; try apply Hrest; [by rewrite lookup_app_l|].
      rewrite length_app. cbn. destruct (Z.eq_dec (Z.of_nat (length (cf_log c))) (Z.of_nat i + count)) as [E|]; [|lia].
      exfalso. apply Hne. rewrite <- Hpos, <- Hidx, E, !pos_mod. rewrite <- (Z.mul_1_l count) at 2. by rewrite Z.mod_add by lia.
  - by rewrite upd_same.
  - intros r x Hx. destruct (iv_r c Hc r x Hx) as (? & ? & Hok & Hgot). split_and!; try done.
    + apply readers_keep; [done| |done]. intros r'. left. congruence.
    + intros i g Hin. destruct (Hgot i g Hin) as [? Hlk]. split; [done|]. by rewrite lookup_app_l by (apply lookup_lt_Some in Hlk; done).
Qed.

Lemma wstep_inv (c c' : conf) : inv c -> wstep count backpressure c c' -> inv c'.
Proof.
  intros Hc Hs. pose proof (iv_index c Hc) as [Hi0 Hidx]. pose proof (iv_w c Hc) as Hw.
  destruct (iv_slot c Hc (ps (cf_index c))) as [Hfr _].
  destruct Hs as [f Ew Hf|f i any bl Ew Hi|f i bl Ew|f Ew|f any bl Ew Hb|f any bl Ew Hb|f Ew Hfree|f Ew|f s Ew Es|f j b s Ew Hb Es|f s Ew Es|f s Ew Es|f Ew|f s Ew Es|];
    try rewrite Ew in *; cbn [w_ok] in Hw; try (apply writer_moves; [done|done|done]).
  - apply writer_moves; [done|..]; by destruct (_ && _).
  - apply writer_moves; [done|..]; by destruct (_ =? _).
  - by apply w_lock_inv.
  - destruct Hw as [Hf Hl]. subst s. apply writer_writes; try done; [split; [done|by left]|].
    cbn [w_ok]. rewrite upd_same. cbn. split_and!; try done; lia.
  - destruct Hw as (Hf & Hl & Hz & Hj & Ht). subst s. pose proof (lookup_lt_Some _ _ _ Hb) as Hlt. unfold flen in Hf.
    apply writer_writes; try done; [split; cbn; [by rewrite length_insert|by left]|].
    cbn [w_ok]. rewrite upd_same. cbn [cs_lock cs_seq cs_frame]. split_and!; try done; try lia.
    rewrite (take_S_r _ _ b) by (rewrite list_lookup_insert_eq; [done|lia]). rewrite (take_S_r f j b Hb).
    by rewrite take_insert_ge, Ht by lia.
  - destruct Hw as (Hf & Hl & Hz & Hj & Ht). subst s. apply writer_writes; try done; [split; [done|by left]|].
    cbn [w_ok]. rewrite upd_same. cbn [cs_lock cs_seq cs_frame cs_len]. split_and!; try done. rewrite Ht. by rewrite take_ge by lia.
  - by apply w_seq_inv.
  - constructor; cbn [cf_w cf_log cf_index cf_slots cf_r cf_pid w_ok]; [lia | apply Hc | | apply Hc].
    by replace (cf_index c + 1 - 1) with (cf_index c) by lia.
  - subst s. destruct (iv_slot c Hc (ps (cf_index c - 1))) as [Hfr' Hgd]. apply writer_writes; try done; cbn; tauto.
  - apply writer_moves; [done| |done]. cbn. destruct (cf_w c); tauto.
Qed.

(** A reader that changes only its own program counter and history. *)
Lemma reader_moves (c : conf) (r : nat) (x x' : rproc) :
  inv c -> cf_r c r = Some x -> r_ok (cf_slots c) r (r_pc x') -> got_ok (cf_log c) x' -> inv (with_r c r (Some x')).
Proof.
  intros Hc Hx Hok Hgot. constructor; cbn; [apply Hc..|]. intros q y. unfold upd. destruct (decide (q = r)) as [->|].
  - intros [= <-]. destruct (iv_r c Hc r x Hx) as (? & ? & _ & _). done.
  - apply (iv_r c Hc).
Qed.

(** The writer does not notice a change of a slot it does not hold. *)
Lemma writer_keeps (c : conf) (p : Z) (s : CSlot) :
  inv c -> (cs_lock (cf_slots c p) <> Some OWriter \/ cf_w c = WDead) -> w_ok (upd (cf_slots c) p s) (cf_index c) (cf_w c).
Proof.
  intros Hc Hp. apply (w_ok_ext (cf_slots c)); [apply Hc|]. intros q Hq. apply upd_other. intros ->.
  pose proof (w_ok_lock _ _ _ _ (iv_w c Hc) Hq). destruct Hp as [?|E]; [congruence|]. by rewrite E in Hq.
Qed.

(** A reader that takes or releases the lock of slot [p]. *)
Lemma reader_locks (c : conf) (r : nat) (p : Z) (o : option owner) (x x' : rproc) :
  inv c -> cf_r c r = Some x ->
  (lock_free c (cf_slots c p) \/ cs_lock (cf_slots c p) = Some (OReader r)) ->
  (forall sl, cs_lock (sl p) = o -> r_ok sl r (r_pc x')) -> r_got x' = r_got x ->
  inv (with_slot_r c p (set_lock (cf_slots c p) o) r x').
Proof.
  intros Hc Hx Hp Hok Hgot. constructor; cbn [cf_w cf_log cf_index cf_slots cf_r cf_pid with_slot_r].
  - apply Hc.
  - apply slots_keep; [done|]. destruct (iv_slot c Hc p). by split.
  - apply writer_keeps; [done|]. destruct Hp as [Hp|Hp]; [|left; congruence]. unfold lock_free in Hp.
    destruct (cs_lock (cf_slots c p)) as [[|q]|]; [by right|by left..].
  - intros q y. destruct (decide (q = r)) as [->|Hne].
    + rewrite upd_same. intros [= <-]. destruct (iv_r c Hc r x Hx) as (? & ? & _ & Hg). split_and!; try done.
      * apply Hok. by rewrite upd_same.
      * intros i f Hin. rewrite Hgot in Hin. by apply Hg.
    + rewrite upd_other by done. intros Hy. destruct (iv_r c Hc q y Hy) as (? & ? & Hq & ?). split_and!; try done.
      apply (r_ok_ext (cf_slots c)); [done|]. intros t Ht. apply upd_other. intros ->. pose proof (r_ok_lock _ _ _ _ Hq Ht) as Hl.
      destruct Hp as [Hp|Hp]; [|congruence]. unfold lock_free in Hp. rewrite Hl in Hp. congruence.
Qed.

(** A completed copy is the frame of the log at the index read. *)
Lemma read_is_logged (c : conf) (n : Z) (out : bytes) :
  inv c -> 0 <= n -> cs_seq (cf_slots c (ps n)) = n + 1 -> Z.of_nat (length out) = cs_len (cf_slots c (ps n)) ->
  out = take (length out) (cs_frame (cf_slots c (ps n))) -> cf_log c !! Z.to_nat n = Some out.
Proof.
  intros Hc Hn Hs Hl Ho. destruct (iv_slot c Hc (ps n)) as [_ [?|(i & f & Hf & Hi & _ & _ & Hlen & _ & Ht)]]; [lia|].
  replace (Z.to_nat n) with i by lia. rewrite Hf. f_equal. rewrite Ho, <- Ht. f_equal. lia.
Qed.

Lemma got_ok_snoc (log : list bytes) (n : Z) (out : bytes) (got : list (Z * bytes)) (pc pc' : rpc) (a b : nat) :
  got_ok log (mkR pc got a) -> 0 <= n -> log !! Z.to_nat n = Some out -> got_ok log (mkR pc' (got ++ [(n, out)]) b).
Proof.
  intros Hg Hn Hl i f Hin. cbn in Hin. apply in_app_iff in Hin as [Hin|[[= <- <-]|[]]]; [by apply Hg|done].
Qed.

Lemma rstep_inv (c c' : conf) (r : nat) : inv c -> rstep count c r c' -> inv c'.
Proof.
  intros Hc Hs. destruct Hs as [pid Hr Hp0 Hx Hp|fe Hx|n g l Hx Hfree|n g l Hx Hq|n g l Hx Hq|n g l s Hx Es Hq Hl|n g l s Hx Es Hq Hl
    |n g l out b Hx Hl Hb|n g l out Hx Hl|n n' g l Hx|n g l Hx|x Hx];
    try (destruct (iv_r c Hc r _ Hx) as (Hr & Hpid & Hok & Hgot); cbn [r_ok r_pc] in Hok).
  - constructor; cbn; [apply Hc..|]. intros q y. unfold upd. destruct (decide (q = r)) as [->|]; [|apply (iv_r c Hc)].
    by intros [= <-].
  - eapply reader_moves; [done|done| |done]. cbn. destruct (iv_index c Hc). destruct fe; lia.
  - eapply reader_locks; [done|done|by left| |done]. intros sl Hsl. cbn. done.
  - eapply reader_moves; [done|done| |done]. cbn. tauto.
  - eapply reader_moves; [done|done| |done]. cbn. split_and!; try tauto. destruct (Z.ltb_spec count (cf_index c)); lia.
  - subst s. destruct (iv_slot c Hc (ps n)) as [_ [?|(i & f & Hf & Hi & _ & _ & Hlen & Hfl & Ht)]]; lia.
  - subst s. eapply reader_moves; [done|done| |done]. cbn. split_and!; try tauto; try lia.
  - eapply reader_moves; [done|done| |done]. destruct Hok as (? & ? & ? & ? & Ho). cbn [r_ok r_pc]. rewrite length_app. cbn [length].
    split_and!; try done; try lia. rewrite Nat.add_1_r. rewrite (take_S_r _ _ b Hb). by f_equal.
  - destruct Hok as (? & ? & ? & ? & Ho). constructor; cbn; [apply Hc..|]. intros q y. unfold upd.
    destruct (decide (q = r)) as [->|]; [|apply (iv_r c Hc)]. intros [= <-]. split_and!; try done; cbn; [split_and!; try done; lia|].
    eapply got_ok_snoc; [exact Hgot|done|]. by apply read_is_logged.
  - eapply reader_locks; [done|done|right; tauto| |done]. intros sl Hsl. cbn. tauto.
  - constructor; cbn; [apply Hc..|]. intros q y. unfold upd. destruct (decide (q = r)) as [->|]; [done|apply (iv_r c Hc)].
  - constructor; cbn; [apply Hc..|]. intros q y. unfold upd. destruct (decide (q = r)) as [->|]; [done|apply (iv_r c Hc)].
Qed.

Lemma reach_inv (c : conf) : reach count backpressure c -> inv c.
Proof. induction 1 as [|c c' Hr IH [c'' Hs|r c'' Hs]]; [apply inv_init|by eapply wstep_inv|by eapply rstep_inv]. Qed.

(** ** What each reader is given *)

(** The index a reader reads next. *)
Definition r_next (pc : rpc) : Z :=
  match pc with
  | RStart => 0
  | RIdle n | RCheck n | RCopy n _ | RCorrupt n => n
  | RUnlock _ n' => n'
  end.

(** The indices given so far increase strictly and lie below the next one. *)
Definition ordered (x : rproc) : Prop :=
  StronglySorted Z.lt (map fst (r_got x)) /\ Forall (fun e => e.1 < r_next (r_pc x)) (r_got x).

Lemma ordered_moves (pc pc' : rpc) (got : list (Z * bytes)) (a b : nat) :
  ordered (mkR pc got a) -> r_next pc <= r_next pc' -> ordered (mkR pc' got b).
Proof. intros [Hs Hf] Hn. split; [done|]. cbn in *. eapply Forall_impl; [exact Hf|]. cbn. lia. Qed.

Lemma ordered_snoc (n n' : Z) (out : bytes) (pc : rpc) (got : list (Z * bytes)) (a b : nat) :
  ordered (mkR pc got a) -> r_next pc = n -> n < n' -> forall m, ordered (mkR (RUnlock m n') (got ++ [(n, out)]) b).
Proof.
  intros [Hs Hf] <- Hn m. cbn in *. split; cbn.
  - rewrite map_app. apply StronglySorted_app. split_and!; [|done|repeat constructor]. intros i j Hi Hj.
    apply list_elem_of_In in Hi, Hj. apply in_map_iff in Hi as (e & <- & He). destruct Hj as [<-|[]]. rewrite Forall_forall in Hf. apply Hf.
    by apply list_elem_of_In.
  - apply Forall_app. split; [|by repeat constructor]. eapply Forall_impl; [exact Hf|]. cbn. lia.
Qed.

(** A slot ahead of the index read is ahead by at least one whole lap. *)
Lemma lapped_by_count (c : conf) (n : Z) :
  inv c -> 0 <= n -> n + 1 < cs_seq (cf_slots c (ps n)) -> n + count < Z.of_nat (length (cf_log c)).
Proof.
  intros Hc Hn Hs. pose proof count_pos. destruct (iv_slot c Hc (ps n)) as [_ [?|(i & f & Hf & Hi & Hp & _)]]; [lia|].
  apply lookup_lt_Some in Hf. rewrite !pos_mod in Hp. pose proof (Z.div_mod (Z.of_nat i) count ltac:(lia)) as E1. pose proof (Z.div_mod n count ltac:(lia)) as E2.
  rewrite Hp in E1. assert (n / count < Z.of_nat i / count) by nia. nia.
Qed.

(** The slot read holds a frame that no later frame has replaced. *)
Lemma read_not_old (c : conf) (n : Z) :
  inv c -> 0 <= n -> cs_seq (cf_slots c (ps n)) = n + 1 -> Z.of_nat (length (cf_log c)) <= n + count.
Proof. intros Hc Hn Hs. destruct (iv_slot c Hc (ps n)) as [_ [?|(i & f & Hf & Hi & Hp & ? & _)]]; lia. Qed.

Lemma log_index (c : conf) : inv c -> Z.of_nat (length (cf_log c)) <= cf_index c + 1.
Proof. intros Hc. destruct (iv_index c Hc) as [? H]. destruct (cf_w c); lia. Qed.

Lemma rstep_ordered (c c' : conf) (r : nat) :
  inv c -> (forall q x, cf_r c q = Some x -> ordered x) -> rstep count c r c' -> forall q x, cf_r c' q = Some x -> ordered x.
Proof.
  intros Hc Ho Hs q x'. pose proof count_pos as Hcp. pose proof (log_index c Hc) as Hli.
  destruct Hs as [pid Hr Hp0 Hx Hp|fe Hx|n g l Hx Hfree|n g l Hx Hq|n g l Hx Hq|n g l s Hx Es Hq Hl|n g l s Hx Es Hq Hl
    |n g l out b Hx Hl Hb|n g l out Hx Hl|n n' g l Hx|n g l Hx|x Hx]; cbn; unfold upd;
    (destruct (decide (q = r)) as [->|]; [|apply Ho]); intros [= <-];
    try (eapply ordered_moves; [exact (Ho r _ Hx)|cbn; lia]).
  - split; constructor.
  - split; constructor.
  - destruct (iv_r c Hc r _ Hx) as (_ & _ & Hok & _). cbn in Hok. eapply ordered_moves; [exact (Ho r _ Hx)|].
    pose proof (lapped_by_count c n Hc (proj1 Hok) Hq). cbn. destruct (Z.ltb_spec count (cf_index c)); lia.
  - eapply ordered_snoc; [exact (Ho r _ Hx)|done|lia].
Qed.

Lemma wstep_readers (c c' : conf) : wstep count backpressure c c' -> cf_r c' = cf_r c /\ cf_cursor c' = cf_cursor c /\ cf_pid c' = cf_pid c.
Proof. by destruct 1. Qed.

Lemma reach_ordered (c : conf) : reach count backpressure c -> forall q x, cf_r c q = Some x -> ordered x.
Proof.
  induction 1 as [|c c' Hr IH [c'' Hs|r c'' Hs]]; [done| |].
  - apply wstep_readers in Hs as (-> & _). done.
  - eapply rstep_ordered; [by apply reach_inv|done|done].
Qed.

(** ** Backpressure: nothing a reader is waiting for is overwritten *)

(** A reader that was given a frame: its cursor is the index it reads next, that
    index is still in the ring, and what it was given has no gap. *)
Definition kept (c : conf) (r : nat) (x : rproc) : Prop :=
  r_got x <> [] ->
  cf_cursor c r = r_next (r_pc x) /\
  Z.of_nat (length (cf_log c)) + promised (cf_w c) r <= cf_cursor c r + count /\
  exists first, map fst (r_got x) = seqZ first (Z.of_nat (length (r_got x))) /\
    r_next (r_pc x) = first + Z.of_nat (length (r_got x)).

Definition lossless (c : conf) : Prop := forall r x, cf_r c r = Some x -> kept c r x.

(** A reader that moves without taking a frame or being lapped. *)
Lemma kept_moves (c c' : conf) (r : nat) (pc pc' : rpc) (got : list (Z * bytes)) (a b : nat) :
  kept c r (mkR pc got a) -> cf_cursor c' r = cf_cursor c r -> cf_log c' = cf_log c -> cf_w c' = cf_w c ->
  r_next pc' = r_next pc -> kept c' r (mkR pc' got b).
Proof. intros H E1 E2 E3 E4 Hg. rewrite E1, E2, E3. cbn in *. rewrite E4. by apply H. Qed.

Lemma kept_other (c c' : conf) (r : nat) (x : rproc) :
  kept c r x -> cf_cursor c' r = cf_cursor c r -> cf_log c' = cf_log c -> cf_w c' = cf_w c -> kept c' r x.
Proof. destruct x. intros. by eapply kept_moves. Qed.

(** Taking the next frame extends the run by one, whatever the reader had. *)
Lemma kept_takes (c c' : conf) (r : nat) (n : Z) (out o : bytes) (got : list (Z * bytes)) (a b : nat) :
  inv c -> kept c r (mkR (RCopy n o) got a) -> 0 <= n -> cs_seq (cf_slots c (ps n)) = n + 1 ->
  cf_cursor c' r = n + 1 -> cf_log c' = cf_log c -> cf_w c' = cf_w c -> kept c' r (mkR (RUnlock n (n + 1)) (got ++ [(n, out)]) b).
Proof.
  intros Hc Hk0 Hn Hs E1 E2 E3 _. rewrite E1, E2, E3. cbn [r_next r_pc r_got]. pose proof (read_not_old c n Hc Hn Hs).
  pose proof (promised_le (cf_w c) r). split; [done|]. split; [lia|]. rewrite length_app, map_app. cbn [length map fst].
  destruct got as [|e got].
  - exists n. cbn. split; [done|lia].
  - destruct Hk0 as (_ & _ & first & Hf & Hnext); [done|]. cbn [r_got r_next r_pc] in *. exists first. rewrite Hf, Hnext, Nat2Z.inj_add. split; [|lia].
    rewrite seqZ_app by lia. by f_equal.
Qed.

Lemma rstep_lossless (c c' : conf) (r : nat) : inv c -> lossless c -> rstep count c r c' -> lossless c'.
Proof.
  intros Hc Hk' Hs q x'. 
  destruct Hs as [pid Hr Hp0 Hx Hp|fe Hx|n g l Hx Hfree|n g l Hx Hq|n g l Hx Hq|n g l s Hx Es Hq Hl|n g l s Hx Es Hq Hl
    |n g l out b Hx Hl Hb|n g l out Hx Hl|n n' g l Hx|n g l Hx|x Hx]; cbn; intros Hq';
    (destruct (decide (q = r)) as [->|Hne]; [rewrite upd_same in Hq'|rewrite upd_other in Hq' by done;
       eapply kept_other; [by apply Hk'|cbn; by rewrite ?upd_other by done|done|done]]);
    try discriminate; injection Hq' as <-; try (by eapply kept_moves; [exact (Hk' r _ Hx)|..]).
  - done.
  - done.
  - intros Hg. exfalso. destruct (iv_r c Hc r _ Hx) as (_ & _ & Hok & _). destruct (Hk' r _ Hx Hg) as (Hcur & Hroom & _). cbn in *.
    pose proof (lapped_by_count c n Hc (proj1 Hok) Hq). pose proof (promised_le (cf_w c) r). lia.
  - destruct (iv_r c Hc r _ Hx) as (_ & _ & Hok & _). cbn in Hok.
    eapply kept_takes; try done; [exact (Hk' r _ Hx)|tauto|tauto|cbn; by rewrite upd_same].
Qed.

(** The writer keeps its promise: a step of it may only promise more where the
    room was checked, and uses up what was promised. *)
Lemma writer_keeps_room (c c' : conf) :
  lossless c -> cf_r c' = cf_r c -> cf_cursor c' = cf_cursor c ->
  (forall r x, cf_r c r = Some x -> r_got x <> [] ->
     Z.of_nat (length (cf_log c)) + promised (cf_w c) r <= cf_cursor c r + count ->
     Z.of_nat (length (cf_log c')) + promised (cf_w c') r <= cf_cursor c r + count) -> lossless c'.
Proof.
  intros Hl Er Ec H r x Hx Hg. rewrite Er in Hx. destruct (Hl r x Hx Hg) as (Hcur & Hroom & Hrun). rewrite Ec.
  split; [done|]. split; [|done]. by eapply H.
Qed.

End Invariant.

Section Lossless.
Variables (count k : Z).
Hypothesis Hk : 0 <= k < 32.
Hypothesis Hcount : count = 2 ^ k.

Lemma wstep_lossless (c c' : conf) : inv count c -> lossless count c -> wstep count true c c' -> lossless count c'.
Proof.
  intros Hc Hl Hs. destruct (iv_index count c Hc) as [Hi0 Hidx].
  pose proof (fun r x Hx Hg => proj1 (Hl r x Hx Hg)) as Hcur.
  apply (writer_keeps_room count c); [done|by destruct Hs..|]. intros r x Hx Hg Hroom. pose proof (promised_le (cf_w c) r) as Hp.
  destruct (iv_r count c Hc r x Hx) as (Hr & Hpid & Hok & _).
  destruct Hs as [f Ew Hf|f i any bl Ew Hi|f i bl Ew|f Ew|f any bl Ew Hb|f any bl Ew Hb|f Ew Hfree|f Ew|f s Ew Es|f j b s Ew Hb Es|f s Ew Es|f s Ew Es|f Ew|f s Ew Es|];
    try rewrite Ew in *; cbn [cf_w cf_log with_w with_slot_w promised] in *; try lia.
  - destruct (Z.leb_spec count (cf_index c)); cbn [andb promised negb]; [change (r <? 0)%nat with false; cbn; lia|].
    pose proof (Hcur r x Hx Hg). assert (0 <= r_next (r_pc x)) by (destruct (r_pc x); cbn in *; tauto || lia). lia.
  - destruct (Z.eqb_spec (cf_pid c i) 0) as [E|]; [|done]. cbn [promised]. assert (r <> i) by congruence.
    destruct bl; cbn [negb andb] in *; [lia|]. destruct (Nat.ltb_spec r (S i)), (Nat.ltb_spec r i); lia.
  - destruct (Z.leb_spec (cf_cursor c i) (cf_index c - count)) as [|Hlt]; cbn [negb andb]; [lia|].
    destruct bl; cbn [negb andb] in *; [lia|]. destruct (Nat.ltb_spec r (S i)), (Nat.ltb_spec r i); try lia.
    replace i with r in * by lia. lia.
  - cbn [negb andb] in *. destruct (Nat.ltb_spec r kMaxReaders); lia.
  - change (r <? 0)%nat with false. cbn. lia.
  - rewrite length_app. cbn. lia.
Qed.

Lemma reach_lossless (c : conf) : reach count true c -> inv count c /\ lossless count c.
Proof.
  induction 1 as [|c c' Hr [IHi IHl] [c'' Hs|r c'' Hs]]; [split; [apply inv_init|done]| |].
  - split; [by apply (wstep_inv count k true Hk Hcount c)|by apply (wstep_lossless c)].
  - split; [by apply (rstep_inv count k Hk c c'' r)|by apply (rstep_lossless count k Hk Hcount c c'' r)].
Qed.
End Lossless.

(** A run of pairs with consecutive indices into [log] is a segment of it. *)
Lemma consecutive_segment (log : list bytes) (got : list (Z * bytes)) (first : Z) :
  0 <= first -> map fst got = seqZ first (Z.of_nat (length got)) ->
  (forall i f, In (i, f) got -> 0 <= i /\ log !! Z.to_nat i = Some f) ->
  map snd got = take (length got) (drop (Z.to_nat first) log).
Proof.
  revert first. induction got as [|[i f] got IH]; intros first H0 Hs Hin; [done|]. cbn [length map] in *.
  rewrite seqZ_cons in Hs by lia. injection Hs as -> Hs. destruct (Hin first f) as [_ Hl]; [by left|].
  rewrite (drop_S log f) by done. cbn [firstn snd take]. f_equal. rewrite (IH (Z.succ first)); [|lia| |].
  - do 2 f_equal. lia.
  - rewrite Hs. f_equal. lia.
  - intros j g Hj. apply Hin. by right.
Qed.

(** ** A reader that starts at the edge *)
Section Starved.
Variables (count k : Z).
Hypothesis Hk : 0 <= k < 32.
Hypothesis Hcount : count = 2 ^ k.

(** Reader [r] waits for the next frame with its cursor still 0, and the
    writer is not past the scan. *)
Definition starved (r : nat) (c : conf) : Prop :=
  (r < kMaxReaders)%nat /\ cf_pid c r <> 0 /\ cf_cursor c r <= cf_index c - count /\ count <= cf_index c /\
  Z.of_nat (length (cf_log c)) = cf_index c /\
  match cf_w c with
  | WIdle | WDead => True
  | WScan _ i _ blocked | WCursor _ i blocked => (r < i)%nat -> blocked = true
  | _ => False
  end /\
  match cf_r c r with
  | None => True
  | Some x => r_got x = [] /\ match r_pc x with RIdle n | RCheck n => n = cf_index c | RUnlock _ n => n = cf_index c | _ => False end
  end.

Lemma starved_wstep (r : nat) (c c' : conf) : starved r c -> wstep count true c c' -> starved r c' /\ cf_log c' = cf_log c.
Proof.
  intros (Hr & Hp & Hcur & Hi & HL & Hw & Hx) Hs.
  destruct Hs as [f Ew Hf|f i any bl Ew Hi'|f i bl Ew|f Ew|f any bl Ew Hb|f any bl Ew Hb|f Ew Hfree|f Ew|f s Ew Es|f j b s Ew Hb Es|f s Ew Es|f s Ew Es|f Ew|f s Ew Es|];
    try rewrite Ew in Hw; try done; (split; [|done]); unfold starved; cbn; split_and!; try done.
  - replace (count <=? cf_index c) with true by lia. cbn. lia.
  - destruct (Z.eqb_spec (cf_pid c i) 0) as [E|]; [|done]. intros ?. apply Hw. assert (r <> i) by congruence. lia.
  - intros ?. destruct (Z.leb_spec (cf_cursor c i) (cf_index c - count)); [done|]. apply Hw. assert (r <> i) by (intros ->; lia). lia.
  - specialize (Hw Hr). discriminate.
  - lia.
Qed.

Lemma starved_rstep (r q : nat) (c c' : conf) :
  inv count c -> starved r c -> rstep count c q c' -> cf_pid c' r <> 0 -> starved r c' /\ cf_log c' = cf_log c.
Proof.
  intros Hc (Hr & Hp & Hcur & Hi & HL & Hw & Hx) Hs. destruct (decide (r = q)) as [<-|Hne].
  - assert (Hseq : forall p, cs_seq (cf_slots c p) <= cf_index c).
    { intros p. destruct (iv_slot count c Hc p) as [_ [->|(i & f & Hf & -> & _)]]; [lia|]. apply lookup_lt_Some in Hf. lia. }
    destruct Hs as [pid Hr' Hp0 Hx' Hp'|fe Hx'|n g l Hx' Hfree|n g l Hx' Hq|n g l Hx' Hq|n g l s Hx' Es Hq Hl|n g l s Hx' Es Hq Hl
      |n g l out b Hx' Hl Hb|n g l out Hx' Hl|n n' g l Hx'|n g l Hx'|x Hx']; try done; rewrite Hx' in Hx; cbn in Hx;
      try (exfalso; tauto); try (subst s; specialize (Hseq (pos count n)); lia); try (specialize (Hseq (pos count n)); lia);
      cbn; rewrite ?upd_same; intros Hp2; try done; (split; [|done]); unfold starved; cbn; rewrite ?upd_same; split_and!; try done; tauto.
  - destruct Hs; cbn; rewrite ?upd_other by congruence; intros _; (split; [|done]); unfold starved; cbn; rewrite ?upd_other by congruence; done.
Qed.

(** Executions in which reader [r] stays registered. *)
Inductive registered_run (r : nat) (c : conf) : conf -> Prop :=
| rr_refl : registered_run r c c
| rr_step c' c'' : registered_run r c c' -> step count true c' c'' -> cf_pid c'' r <> 0 -> registered_run r c c''.

Lemma starved_run (r : nat) (c c' : conf) :
  inv count c -> starved r c -> registered_run r c c' -> inv count c' /\ starved r c' /\ cf_log c' = cf_log c.
Proof.
  intros Hc Hs. induction 1 as [|c' c'' Hr (IHi & IHs & IHl) [d Hd|q d Hd] Hp]; [done| |].
  - destruct (starved_wstep r c' d IHs Hd) as [? ?]. split_and!; [by apply (wstep_inv count k true Hk Hcount c')|done|congruence].
  - destruct (starved_rstep r q c' d IHi IHs Hd Hp) as [? ?]. split_and!; [by apply (rstep_inv count k Hk c' d q)|done|congruence].
Qed.
End Starved.

(** ** Properties *)




(** ** A concrete run: one frame through a ring of one slot *)
Definition demo_frame1 : bytes := [Corelib.Init.Byte.x2a].

Lemma demo_frame1_fits : (1 <= length demo_frame1 <= kFrameCap)%nat.
Proof. split; apply Nat.leb_le; vm_compute; reflexivity. Qed.

(** Extend a reachable configuration by one named step. *)
Ltac advance R stp :=
  match type of R with
  | reach ?n ?b ?c =>
      let s := stp c in
      match type of s with
      | step _ _ _ ?c' =>
          let d := fresh "c" in let R' := fresh in
          pose (d := c'); pose proof (reach_step n b c d R s) as R'; clear R; rename R' into R
      end
  end.

(** [publish] of the frame from the initial state, then [attach] of reader 0. *)
Ltac publish_and_attach R :=
  advance R ltac:(fun c => constr:(step_w 1 true c _ (w_start 1 true c demo_frame1 eq_refl demo_frame1_fits)));
  advance R ltac:(fun c => constr:(step_w 1 true c _ (w_lock 1 true c demo_frame1 eq_refl I)));
  advance R ltac:(fun c => constr:(step_w 1 true c _ (w_invalidate 1 true c demo_frame1 _ eq_refl eq_refl)));
  advance R ltac:(fun c => constr:(step_w 1 true c _ (w_copy 1 true c demo_frame1 0%nat Corelib.Init.Byte.x2a _ eq_refl eq_refl eq_refl)));
  advance R ltac:(fun c => constr:(step_w 1 true c _ (w_len 1 true c demo_frame1 _ eq_refl eq_refl)));
  advance R ltac:(fun c => constr:(step_w 1 true c _ (w_seq 1 true c demo_frame1 _ eq_refl eq_refl)));
  advance R ltac:(fun c => constr:(step_w 1 true c _ (w_index 1 true c demo_frame1 eq_refl)));
  advance R ltac:(fun c => constr:(step_w 1 true c _ (w_unlock 1 true c demo_frame1 _ eq_refl eq_refl)));
  advance R ltac:(fun c => constr:(step_r 1 true c 0%nat _ (r_attach 1 c 0%nat 7 ltac:(unfold kMaxReaders; lia) eq_refl eq_refl ltac:(done)))).

Lemma demo_published :
  exists c, reach 1 true c /\ cf_w c = WIdle /\ cf_index c = 1 /\ cf_log c = [demo_frame1] /\ cf_r c 0%nat = Some (mkR RStart [] 0) /\
    cf_cursor c 0%nat = 0 /\ cs_lock (cf_slots c 0) = None /\ cs_seq (cf_slots c 0) = 1 /\ cs_len (cf_slots c 0) = 1 /\
    cs_frame (cf_slots c 0) !! 0%nat = Some Corelib.Init.Byte.x2a.
Proof.
  pose proof (reach_init 1 true) as R. publish_and_attach R.
  eexists. split; [exact R|]. split_and!; vm_compute; reflexivity.
Qed.

(** The reader then starts at 0 and takes the frame. *)
Lemma demo_taken :
  exists c x, reach 1 true c /\ cf_r c 0%nat = Some x /\ r_got x = [(0, demo_frame1)] /\ cf_log c = [demo_frame1].
Proof.
  pose proof (reach_init 1 true) as R. publish_and_attach R.
  advance R ltac:(fun c => constr:(step_r 1 true c 0%nat _ (r_choose 1 c 0%nat false eq_refl))).
  advance R ltac:(fun c => constr:(step_r 1 true c 0%nat _ (r_lock 1 c 0%nat 0 [] 0%nat eq_refl I))).
  advance R ltac:(fun c => constr:(step_r 1 true c 0%nat _ (r_begin 1 c 0%nat 0 [] 0%nat _ eq_refl eq_refl eq_refl ltac:(vm_compute; done)))).
  advance R ltac:(fun c => constr:(step_r 1 true c 0%nat _ (r_copy 1 c 0%nat 0 [] 0%nat [] Corelib.Init.Byte.x2a eq_refl ltac:(vm_compute; done) ltac:(vm_compute; done)))).
  advance R ltac:(fun c => constr:(step_r 1 true c 0%nat _ (r_store 1 c 0%nat 0 [] 0%nat demo_frame1 eq_refl ltac:(vm_compute; done)))).
  eexists _, _. split; [exact R|]. split_and!; reflexivity.
Qed.



