(* ===== verification/Receiver.v ===== *)
(** * Receiver: the datagram path of [harness/src/receiver.cpp]

    [publish_frame] is the callback the FEC decoder calls; [rx_datagram] is the
    body of the loop over a received batch, [rx_iteration] one turn of the main
    loop and [rx_run] the loop.  Sockets, the clock and signals are inputs. *)
From S2P Require Import Prelude Message Wire Dedupe Fec FecDecoder Multiplex Sink.

Record RxConfig := mkRxConfig { cfg_count : Z; cfg_dedupe_enabled : bool; cfg_echo : bool }.

(** What [publish_frame] captures by reference: the current stream (but for its
    decoder), the ring and the counters.  [ps_observed] is a history variable:
    the sequence numbers given to [observe], with their stream. *)
Record PubState (R : Type) := mkPub {
  ps_dedupe : Window; ps_last_seq : Z; ps_ring : R;
  ps_published : Z; ps_old_duplicates : Z; ps_late_too_old : Z; ps_observed : list (Key * Z)
}.
Arguments mkPub {R}. Arguments ps_dedupe {R}. Arguments ps_last_seq {R}. Arguments ps_ring {R}.
Arguments ps_published {R}. Arguments ps_old_duplicates {R}. Arguments ps_late_too_old {R}. Arguments ps_observed {R}.

Definition is_too_old (r : ObserveResult) : bool := match r with kTooOld => true | _ => false end.

Record Receiver (R : Type) := mkReceiver {
  rx_streams : Streams; rx_current_key : Key; rx_ring : R;
  rx_received : Z; rx_published : Z; rx_echoed : Z; rx_old_duplicates : Z; rx_rejected : Z; rx_late_too_old : Z;
  rx_observed : list (Key * Z)
}.
Arguments mkReceiver {R}. Arguments rx_streams {R}. Arguments rx_current_key {R}. Arguments rx_ring {R}.
Arguments rx_received {R}. Arguments rx_published {R}. Arguments rx_echoed {R}. Arguments rx_old_duplicates {R}.
Arguments rx_rejected {R}. Arguments rx_late_too_old {R}. Arguments rx_observed {R}.

Section Receiver.
Context {R : Type} `{Sink R}.
Variable cfg : RxConfig.

Definition publish_frame (key : Key) (frame : bytes) (recovered : bool) (_ : Z) (s : PubState R) : res (bool * PubState R) :=
  match decode frame with
  | None => Ok (false, s)
  | Some native =>
    let! hdr := native_read (@get_Header) native in
    if negb (stream_id hdr =? key_stream key) || negb (stream_epoch hdr =? key_epoch key) then Ok (false, s)
    else if negb (cfg_dedupe_enabled cfg) then
      if ps_last_seq s <? seq_id hdr then
        let! ring := sink_publish (ps_ring s) native in
        Ok (true, mkPub (ps_dedupe s) (seq_id hdr) ring (u64 (ps_published s + 1)) (ps_old_duplicates s) (ps_late_too_old s) (ps_observed s))
      else Ok (true, mkPub (ps_dedupe s) (ps_last_seq s) (ps_ring s) (ps_published s) (u64 (ps_old_duplicates s + 1)) (ps_late_too_old s) (ps_observed s))
    else
      let! '(result, w) := observe (ps_dedupe s) (seq_id hdr) in
      let late := if recovered && is_too_old result then u64 (ps_late_too_old s + 1) else ps_late_too_old s in
      let observed := ps_observed s ++ [(key, seq_id hdr)] in
      if is_accept result then
        let! ring := sink_publish (ps_ring s) native in
        Ok (true, mkPub w (ps_last_seq s) ring (u64 (ps_published s + 1)) (ps_old_duplicates s) late observed)
      else Ok (true, mkPub w (ps_last_seq s) (ps_ring s) (ps_published s) (ps_old_duplicates s) late observed)
  end.

Definition rx_reject (rx : Receiver R) (streams : Streams) (key : Key) : Receiver R :=
  mkReceiver streams key (rx_ring rx) (u64 (rx_received rx + 1)) (rx_published rx) (rx_echoed rx) (rx_old_duplicates rx)
    (u64 (rx_rejected rx + 1)) (rx_late_too_old rx) (rx_observed rx).

(** One received message: [trunc] is [MSG_TRUNC], [raw] the bytes received.  The
    result is [accepted], the byte acknowledged on a stream socket, or [None] for
    a message that [continue] skips, which is not acknowledged. *)
Definition rx_datagram (rx : Receiver R) (trunc : bool) (raw : bytes) (now_ns : Z) : res (option bool * Receiver R) :=
  if trunc then Ok (None, rx_reject rx (rx_streams rx) (rx_current_key rx))
  else
  let! '(ok, payload, key) := mux_unwrap raw (rx_current_key rx) in
  if negb ok then Ok (None, rx_reject rx (rx_streams rx) key)
  else
  let! '(current, streams) := Streams_get (rx_streams rx) key in
  match current with
  | None => Ok (None, rx_reject rx streams key)
  | Some stream =>
    let! '(accepted, d, p) := receive (publish_frame key) (st_decoder stream) payload now_ns
      (mkPub (st_dedupe stream) (st_last_seq stream) (rx_ring rx) (rx_published rx) (rx_old_duplicates rx) (rx_late_too_old rx) (rx_observed rx)) in
    Ok (Some accepted, mkReceiver (Streams_put streams key (mkStream d (ps_dedupe p) (ps_last_seq p))) key (ps_ring p)
          (u64 (rx_received rx + 1)) (ps_published p) (rx_echoed rx) (ps_old_duplicates p)
          (if accepted then rx_rejected rx else u64 (rx_rejected rx + 1)) (ps_late_too_old p) (ps_observed p))
  end.

(** One message of a batch: the flag, the bytes and the clock at its handling. *)
Record rx_message := mkMessage { m_trunc : bool; m_raw : bytes; m_now : Z }.

Fixpoint rx_batch (rx : Receiver R) (ms : list rx_message) : res (Receiver R) :=
  match ms with
  | [] => Ok rx
  | m :: ms' => let! '(_, rx) := rx_datagram rx (m_trunc m) (m_raw m) (m_now m) in rx_batch rx ms'
  end.

(** [for(auto& item:streams.values()) item.second->decoder.expire(steady_now_ns())]:
    the clock is read once per stream. *)
Definition expire_streams (ss : Streams) (now_ns : Key -> Z) : Streams :=
  mkStreams (map_imap (fun k s => Some (mkStream (expire (st_decoder s) (now_ns k) 1000000000) (st_dedupe s) (st_last_seq s))) (ss_values ss))
    (ss_limit ss) (ss_generations ss) (ss_window ss).

(** Echo mode counts the batch and forwards it unread. *)
Definition rx_echo (rx : Receiver R) (n : nat) : Receiver R :=
  mkReceiver (rx_streams rx) (rx_current_key rx) (rx_ring rx) (u64 (rx_received rx + Z.of_nat n)) (rx_published rx)
    (u64 (rx_echoed rx + Z.of_nat n)) (rx_old_duplicates rx) (rx_rejected rx) (rx_late_too_old rx) (rx_observed rx).

Definition rx_expire (rx : Receiver R) (now_ns : Key -> Z) : Receiver R :=
  mkReceiver (expire_streams (rx_streams rx) now_ns) (rx_current_key rx) (rx_ring rx) (rx_received rx) (rx_published rx)
    (rx_echoed rx) (rx_old_duplicates rx) (rx_rejected rx) (rx_late_too_old rx) (rx_observed rx).

Definition rx_iteration (rx : Receiver R) (now_ns : Key -> Z) (batch : list rx_message) : res (Receiver R) :=
  let rx := rx_expire rx now_ns in
  if cfg_echo cfg then Ok (rx_echo rx (length batch)) else rx_batch rx batch.

(** The loop condition on the counts. *)
Definition rx_continue (rx : Receiver R) : bool :=
  (cfg_count cfg =? 0) || ((if cfg_echo cfg then rx_echoed rx else rx_published rx) <? cfg_count cfg).

Fixpoint rx_run (rx : Receiver R) (its : list ((Key -> Z) * list rx_message)) : res (Receiver R) :=
  match its with
  | [] => Ok rx
  | (now, batch) :: its' =>
    if rx_continue rx then let! rx := rx_iteration rx now batch in rx_run rx its' else Ok rx
  end.

(** The iterations alone, without the test of the loop. *)
Fixpoint rx_iterate (rx : Receiver R) (its : list ((Key -> Z) * list rx_message)) : res (Receiver R) :=
  match its with
  | [] => Ok rx
  | (now, batch) :: its' => let! rx := rx_iteration rx now batch in rx_iterate rx its'
  end.

Lemma rx_run_iterate (rx : Receiver R) (its : list ((Key -> Z) * list rx_message)) : cfg_count cfg = 0 -> rx_run rx its = rx_iterate rx its.
Proof.
  intros Hc. revert rx. induction its as [|[now batch] its IH]; intros rx; [done|]. cbn [rx_run rx_iterate]. unfold rx_continue. rewrite Hc. cbn [Z.eqb orb].
  destruct (rx_iteration rx now batch) as [rx1|]; [apply IH|done].
Qed.

Definition rx_init (ring : R) (max_streams fec_gens dedupe_window : Z) : Receiver R :=
  mkReceiver (Streams_make max_streams fec_gens dedupe_window) (mkKey 0 0) ring 0 0 0 0 0 0 [].
End Receiver.

(** Expiry reaches the stream of [key], or it is not in the table and its decoder
    will be a new one. *)
Lemma rx_expire_get {R : Type} (rx : Receiver R) (now : Key -> Z) (key : Key) (st : Stream) (ss : Streams) :
  Streams_get (rx_streams rx) key = Ok (Some st, ss) ->
  exists ss', Streams_get (rx_streams (rx_expire rx now)) key =
    Ok (Some (mkStream (expire (st_decoder st) (now key) 1000000000) (st_dedupe st) (st_last_seq st)), ss').
Proof.
  unfold Streams_get. cbn [rx_streams rx_expire expire_streams ss_values ss_limit ss_generations ss_window].
  rewrite map_lookup_imap. intros Hget. destruct (ss_values (rx_streams rx) !! key) as [s|]; cbn [mbind option_bind].
  - injection Hget as -> ->. by eexists.
  - set (vs := map_imap _ _). assert (Hsize : size vs = size (ss_values (rx_streams rx))).
    { rewrite <- !size_dom. f_equal. apply set_eq. intros k. unfold vs. rewrite !elem_of_dom, map_lookup_imap. destruct (ss_values (rx_streams rx) !! k); cbn; [split; eauto|done]. }
    rewrite Hsize. destruct (_ <=? _); [done|]. destruct (Stream_make _ _) as [s|] eqn:Es; [|done]. cbn [rbind] in *.
    injection Hget as -> _. eexists. do 3 f_equal. unfold Stream_make in Es. destruct (Dedupe.make _); [|done]. cbn in Es. injection Es as <-. cbn. by rewrite expire_fresh.
Qed.

(** ** Frames in the ring *)
Definition header_of (f : bytes) : option Header := match native_read (@get_Header) f with Ok h => Some h | Throw _ => None end.

(** The sequence numbers of the frames of stream [k], in the order published. *)
Definition frame_seq (k : Key) (f : bytes) : option Z :=
  match header_of f with
  | Some h => if decide (mkKey (stream_id h) (stream_epoch h) = k) then Some (seq_id h) else None
  | None => None
  end.
Definition seqs_of (k : Key) (log : list bytes) : list Z := omap (frame_seq k) log.

Definition frame_ok (k : Key) (f : bytes) : Prop :=
  validate_frame f = true /\ exists h, header_of f = Some h /\ mkKey (stream_id h) (stream_epoch h) = k.

Lemma seqs_of_app (k : Key) (l l' : list bytes) : seqs_of k (l ++ l') = seqs_of k l ++ seqs_of k l'.
Proof. apply omap_app. Qed.

Lemma seqs_of_other (k k' : Key) (l : list bytes) : k <> k' -> Forall (frame_ok k) l -> seqs_of k' l = [].
Proof.
  intros Hne. induction 1 as [|f l (_ & h & Hh & Hk) _ IH]; [done|]. unfold seqs_of in *. cbn. unfold frame_seq at 1.
  rewrite Hh, decide_False by congruence. exact IH.
Qed.

(** A frame [decode] accepts has a header with 64-bit fields. *)
Lemma decoded_header (frame native : bytes) :
  decode frame = Some native ->
  exists h, native_read (@get_Header) native = Ok h /\ in_range 64 (seq_id h) /\ validate_frame native = true.
Proof.
  intros Hd. destruct (decode_holds _ _ Hd) as [Hv _]. destruct (validate_frame_inv native Hv) as (h & Hh & _).
  exists h. split; [done|]. split; [|done]. unfold native_read in Hh.
  destruct (@get_Header native_io {| rd_data := native; rd_pos := 0 |}) as [[h' r]|] eqn:Hg; [|discriminate]. cbn in Hh. injection Hh as ->.
  destruct (get_Header_consumes _ _ _ _ (Nat.le_0_l _) Hg) as (e & rest & _ & _ & _ & Hw). apply Hw.
Qed.

Section Invariant.
Context {R : Type} `{SinkLaws R}.
Variables (cfg : RxConfig) (sz : Z).
Hypothesis Hsz : in_range 64 sz.

Definition window_safe (w : Window) : Prop := Dedupe.shape w /\ in_range 64 (base_seq_ w) /\ size_ w = sz.

(** What the window of stream [k] knows about the frames of [k] in the ring. *)
Definition stream_ok (k : Key) (w : Window) (last : Z) (log : list bytes) : Prop :=
  if cfg_dedupe_enabled cfg then
    (Dedupe.make sz = Some w /\ seqs_of k log = []) \/
    exists st, rep w st /\ (forall x, x ∈ seqs_of k log -> x ∈ Spec.seen st) /\ NoDup (seqs_of k log)
  else NoDup (seqs_of k log) /\ forall x, x ∈ seqs_of k log -> x <= last.

Definition observed_ok (o : list (Key * Z)) : Prop := Forall (fun x => ok_seq sz (snd x)) o.

(** What a call of [publish_frame] for stream [k] may do. *)
Record pub_rel (k : Key) (p p' : PubState R) : Prop := {
  pr_safe : window_safe (ps_dedupe p) -> window_safe (ps_dedupe p');
  pr_observed : exists o, ps_observed p' = ps_observed p ++ o;
  pr_log : exists l, sink_log (ps_ring p') = sink_log (ps_ring p) ++ l /\ Forall (frame_ok k) l;
  pr_ok : window_safe (ps_dedupe p) ->
    (observed_ok (ps_observed p) -> stream_ok k (ps_dedupe p) (ps_last_seq p) (sink_log (ps_ring p))) ->
    observed_ok (ps_observed p') -> stream_ok k (ps_dedupe p') (ps_last_seq p') (sink_log (ps_ring p'))
}.

#[local] Instance pub_rel_preorder (k : Key) : PreOrder (pub_rel k).
Proof.
  split.
  - intros p. constructor; try tauto; [exists []; by rewrite app_nil_r | exists []; by rewrite app_nil_r].
  - intros p1 p2 p3 [S1 (o1 & O1) (l1 & L1 & F1) K1] [S2 (o2 & O2) (l2 & L2 & F2) K2]. constructor; [tauto|..].
    + exists (o1 ++ o2). by rewrite O2, O1, app_assoc.
    + exists (l1 ++ l2). split; [by rewrite L2, L1, app_assoc | by apply Forall_app].
    + intros Hs Hk. apply K2; [tauto|]. intros Ho. apply K1; [tauto|done|done].
Qed.

(** One observation, seen from the contract. *)
Lemma observe_stream (k : Key) (w w' : Window) (seq : Z) (r : ObserveResult) (last : Z) (log : list bytes) :
  cfg_dedupe_enabled cfg = true -> window_safe w -> ok_seq sz seq -> stream_ok k w last log -> observe w seq = Ok (r, w') ->
  exists st', rep w' st' /\ (forall x, x ∈ seqs_of k log -> x ∈ Spec.seen st') /\ NoDup (seqs_of k log) /\
    (is_accept r = true -> seq ∈ Spec.seen st' /\ seq ∉ seqs_of k log).
Proof.
  intros Hen (_ & _ & Hz) Hseq Hk Ho. unfold stream_ok in Hk. rewrite Hen in Hk.
  assert (exists st, (exists st', Spec.step sz st seq r st' /\ rep w' st') /\
     (forall x, x ∈ seqs_of k log -> x ∈ Spec.seen st) /\ NoDup (seqs_of k log)) as (st & (st' & Hstep & Hrep') & Hin & Hnd).
  { destruct Hk as [[Hmk Hnil]|(st & Hrep & Hin & Hnd)].
    - destruct (fresh_observe_init sz w seq Hsz Hseq Hmk) as [Hrep1 Hz1].
      destruct (observe_core_refines _ _ seq Hrep1) as (r1 & w1 & st1 & Ho1 & Hs1 & Hr1 & _); [by rewrite Hz1|].
      unfold observe in Ho. rewrite Ho in Ho1. injection Ho1 as <- <-. rewrite Hz1 in Hs1.
      eexists. split; [by exists st1|]. rewrite Hnil. split; [set_solver|constructor].
    - destruct (observe_refines w st seq Hrep) as (r1 & w1 & st1 & Ho1 & Hs1 & Hr1 & _); [by rewrite Hz|].
      rewrite Ho in Ho1. injection Ho1 as <- <-. rewrite Hz in Hs1. exists st. split; [by exists st1|done]. }
  destruct (step_seen _ _ _ _ _ Hstep) as (Hseen & Hacc & _). exists st'. split; [done|]. rewrite Hseen. split_and!.
  - intros x Hx. destruct (is_accept r); [apply elem_of_union_r|]; by apply Hin.
  - done.
  - intros Ha. rewrite Ha. split; [by apply elem_of_union_l, elem_of_singleton|]. intros Hx. by apply (Hacc Ha), Hin.
Qed.

Lemma seqs_of_snoc (k : Key) (log : list bytes) (f : bytes) (h : Header) :
  header_of f = Some h -> mkKey (stream_id h) (stream_epoch h) = k -> seqs_of k (log ++ [f]) = seqs_of k log ++ [seq_id h].
Proof. intros Hh Hk. rewrite seqs_of_app. unfold seqs_of at 2. cbn. unfold frame_seq. by rewrite Hh, decide_True. Qed.

Lemma publish_frame_rel (k : Key) (f : bytes) (r : bool) (c : Z) (p p' : PubState R) (b : bool) :
  publish_frame cfg k f r c p = Ok (b, p') -> pub_rel k p p'.
Proof using All.
  intros Hp. unfold publish_frame in Hp. destruct (decode f) as [native|] eqn:Hd; [|injection Hp as <- <-; reflexivity].
  destruct (decoded_header f native Hd) as (h & Hh & Hseq & Hv). rewrite Hh in Hp. cbn [rbind] in Hp.
  destruct (negb (stream_id h =? _) || _) eqn:Hkey; [injection Hp as <- <-; reflexivity|]. zbool.
  assert (header_of native = Some h) as Hho by (unfold header_of; by rewrite Hh).
  assert (mkKey (stream_id h) (stream_epoch h) = k) as Hk by (destruct k; cbn in *; congruence).
  assert (frame_ok k native) as Hfok by (split; [done|]; by exists h).
  destruct (cfg_dedupe_enabled cfg) eqn:Hen; cbn [negb] in Hp.
  - destruct (observe (ps_dedupe p) (seq_id h)) as [[res w]|] eqn:Ho; [|discriminate]. cbn [rbind] in Hp.
    assert (window_safe (ps_dedupe p) -> window_safe w) as Hsafe.
    { intros (Hs & Hb & Hz). destruct (observe_total _ _ Hs Hb Hseq) as (r1 & w1 & Ho1 & ? & Hz1 & ?). rewrite Ho in Ho1.
      injection Ho1 as <- <-. split_and!; try done. congruence. }
    assert (forall ring last, window_safe (ps_dedupe p) -> (observed_ok (ps_observed p) -> stream_ok k (ps_dedupe p) last (sink_log (ps_ring p))) ->
      observed_ok (ps_observed p ++ [(k, seq_id h)]) ->
      sink_log ring = sink_log (ps_ring p) ++ (if is_accept res then [native] else []) -> stream_ok k w last (sink_log ring)) as Hstep.
    { intros ring last Hs Hst Hobs Hring. apply Forall_app in Hobs as [Hob Hq]. apply Forall_cons in Hq as [Hok _]. cbn in Hok.
      destruct (observe_stream k _ w (seq_id h) res last _ Hen Hs Hok (Hst Hob) Ho) as (st' & Hrep & Hin & Hnd & Hacc).
      unfold stream_ok. rewrite Hen. right. exists st'. split; [done|]. rewrite Hring. destruct (is_accept res).
      - destruct (Hacc eq_refl) as [Hs1 Hs2]. rewrite (seqs_of_snoc _ _ _ h) by done. split.
        + intros x [Hx | ->%list_elem_of_singleton]%elem_of_app; auto.
        + apply NoDup_app. split_and!; [done | | apply NoDup_singleton]. intros x Hx ->%list_elem_of_singleton. done.
      - rewrite app_nil_r. done. }
    destruct (is_accept res).
    + destruct (sink_publish (ps_ring p) native) as [ring|] eqn:Hpub; [|discriminate]. cbn [rbind] in Hp. injection Hp as <- <-.
      pose proof (sink_publish_log _ _ _ Hpub) as Hlog. constructor; cbn; [done | by eexists | exists [native]; split; [done|by apply Forall_singleton] |].
      intros. by apply Hstep.
    + injection Hp as <- <-. constructor; cbn; [done | by eexists | exists []; by rewrite app_nil_r |].
      intros. apply Hstep; try done. by rewrite app_nil_r.
  - destruct (Z.ltb_spec (ps_last_seq p) (seq_id h)) as [Hlt|Hge].
    + destruct (sink_publish (ps_ring p) native) as [ring|] eqn:Hpub; [|discriminate]. cbn [rbind] in Hp. injection Hp as <- <-.
      pose proof (sink_publish_log _ _ _ Hpub) as Hlog.
      constructor; cbn; [done | exists []; by rewrite app_nil_r | exists [native]; split; [done|by apply Forall_singleton] |].
      intros _ Hst Hob. specialize (Hst Hob). unfold stream_ok in *. rewrite Hen in *. destruct Hst as [Hnd Hle].
      rewrite Hlog, (seqs_of_snoc _ _ _ h) by done. split.
      * apply NoDup_app. split_and!; [done | | apply NoDup_singleton]. intros x Hx%Hle ->%list_elem_of_singleton. lia.
      * intros x [Hx%Hle | ->%list_elem_of_singleton]%elem_of_app; lia.
    + injection Hp as <- <-. constructor; cbn; [done | exists []; by rewrite app_nil_r | exists []; by rewrite app_nil_r | tauto].
Qed.

(** The callback returns from every state with a sound window. *)
Lemma publish_frame_total (k : Key) (f : bytes) (r : bool) (c : Z) (p : PubState R) :
  (forall (ring : R) fr, exists ring', sink_publish ring fr = Ok ring') -> window_safe (ps_dedupe p) ->
  exists b p', publish_frame cfg k f r c p = Ok (b, p') /\ window_safe (ps_dedupe p').
Proof using All.
  intros Hsink Hs. assert (exists b p', publish_frame cfg k f r c p = Ok (b, p')) as (b & p' & Hp).
  { unfold publish_frame. destruct (decode f) as [native|] eqn:Hd; [|by eexists _, _].
    destruct (decoded_header f native Hd) as (h & -> & Hseq & _). cbn [rbind].
    destruct (Hsink (ps_ring p) native) as [ring' ->]. destruct Hs as (Hsh & Hb & _).
    destruct (observe_total _ _ Hsh Hb Hseq) as (res & w & -> & _). cbn [rbind].
    repeat case_match; by eexists _, _. }
  exists b, p'. split; [done|]. by apply (pr_safe _ _ _ (publish_frame_rel k f r c p p' b Hp)).
Qed.

(** ** The invariant of the receiver *)
Variable w0 : Window.
Hypothesis Hw0 : Dedupe.make sz = Some w0.
Hypothesis sink_total : forall (ring : R) fr, exists ring', sink_publish ring fr = Ok ring'.

Definition real_frame (f : bytes) : Prop := exists k, frame_ok k f /\ key_stream k <> 0 /\ key_epoch k <> 0.

Definition table_ok (log : list bytes) (ss : Streams) : Prop :=
  forall k, match ss_values ss !! k with
            | Some s => stream_ok k (st_dedupe s) (st_last_seq s) log
            | None => seqs_of k log = []
            end.

Record rx_inv (N : Z) (rx : Receiver R) : Prop := {
  ri_stream k s : ss_values (rx_streams rx) !! k = Some s -> wf_decoder N (st_decoder s) /\ window_safe (st_dedupe s);
  ri_window : ss_window (rx_streams rx) = sz;
  ri_gens : 0 <= ss_generations (rx_streams rx);
  ri_table : observed_ok (rx_observed rx) -> table_ok (sink_log (rx_ring rx)) (rx_streams rx);
  ri_frames : Forall real_frame (sink_log (rx_ring rx))
}.

Lemma rx_inv_mono (N M : Z) (rx : Receiver R) : N <= M -> rx_inv N rx -> rx_inv M rx.
Proof using All.
  intros HNM [H1 H2 H3 H4 H5]. constructor; try done. intros k s Hs. destruct (H1 k s Hs) as [Hd Hw].
  split; [by apply (wf_decoder_mono N) | done].
Qed.

Lemma w0_safe : window_safe w0.
Proof using All. destruct (make_shape sz w0 Hsz Hw0) as (? & ? & E). split_and!; [done|subst w0; unfold in_range; cbn; lia|by subst w0]. Qed.

(** A fresh stream fits the table. *)
Lemma get_inv (N : Z) (rx : Receiver R) (key : Key) :
  0 <= N -> rx_inv N rx ->
  exists o ss, Streams_get (rx_streams rx) key = Ok (o, ss) /\
    (forall k s, ss_values ss !! k = Some s -> wf_decoder N (st_decoder s) /\ window_safe (st_dedupe s)) /\
    ss_window ss = sz /\ 0 <= ss_generations ss /\ ss_values ss !! key = o /\
    (observed_ok (rx_observed rx) -> table_ok (sink_log (rx_ring rx)) ss).
Proof using All.
  intros HN [H1 H2 H3 H4 H5]. unfold Streams_get. destruct (ss_values (rx_streams rx) !! key) as [s|] eqn:Hs.
  { eexists _, _. split; [done|]. by split_and!. }
  destruct (_ <=? _); [eexists _, _; split; [done|]; by split_and!|].
  unfold Stream_make. rewrite H2, Hw0. cbn [rbind]. eexists _, _. split; [done|]. cbn. split_and!; try done.
  - intros k s Hk. destruct (decide (k = key)) as [->|Hne].
    + rewrite lookup_insert_eq in Hk. injection Hk as <-. cbn. split; [|apply w0_safe].
      apply (wf_decoder_mono 0); [done|]. by apply Decoder_make_wf.
    + rewrite lookup_insert_ne in Hk by done. by apply (H1 k).
  - apply lookup_insert_eq.
  - intros Ho k. specialize (H4 Ho k). cbn. destruct (decide (k = key)) as [->|Hne].
    + rewrite lookup_insert_eq. rewrite Hs in H4. unfold stream_ok. cbn. destruct (cfg_dedupe_enabled cfg); [by left|].
      rewrite H4. split; [constructor|]. intros x Hx. by apply elem_of_nil in Hx.
    + by rewrite lookup_insert_ne.
Qed.

Lemma rx_reject_inv (N : Z) (rx : Receiver R) (ss : Streams) (key : Key) :
  rx_inv N rx ->
  (forall k s, ss_values ss !! k = Some s -> wf_decoder N (st_decoder s) /\ window_safe (st_dedupe s)) ->
  ss_window ss = sz -> 0 <= ss_generations ss -> (observed_ok (rx_observed rx) -> table_ok (sink_log (rx_ring rx)) ss) ->
  rx_inv N (rx_reject rx ss key).
Proof using All. intros [] H1 H2 H3 H4. by constructor. Qed.

Lemma rx_datagram_inv (N : Z) (rx : Receiver R) (trunc : bool) (raw : bytes) (now : Z) :
  rx_inv N rx -> 0 <= N -> N + 1 < 2 ^ 64 ->
  exists b rx', rx_datagram cfg rx trunc raw now = Ok (b, rx') /\ rx_inv (N + 1) rx'.
Proof using All.
  intros Hrx H0N HN. pose proof (rx_inv_mono N (N + 1) rx ltac:(lia) Hrx) as Hrx1. unfold rx_datagram.
  destruct trunc; [eexists _, _; split; [done|]; apply rx_reject_inv; try apply Hrx1; done|].
  destruct (unwrap_total raw (rx_current_key rx)) as (ok & payload & key & -> & Hok). cbn [rbind].
  destruct ok; cbn [negb]; [|eexists _, _; split; [done|]; apply rx_reject_inv; try apply Hrx1; done].
  destruct (Hok eq_refl) as (_ & _ & Hks & Hke).
  destruct (get_inv N rx key H0N Hrx) as (o & ss & -> & G1 & G2 & G3 & G4 & G5). cbn [rbind].
  destruct o as [stream|].
  2: { eexists _, _. split; [done|]. apply rx_reject_inv; try done.
       intros k s Hk. destruct (G1 k s Hk) as [Hd Hw]. split; [by apply (wf_decoder_mono N); [lia|]|done]. }
  destruct (G1 key stream G4) as [Hdec Hwin].
  set (p := mkPub _ _ _ _ _ _ _).
  destruct (receive_total (publish_frame cfg key) (fun p => window_safe (ps_dedupe p))
     (fun f r c p Hp => publish_frame_total key f r c p sink_total Hp) N (st_decoder stream) payload now p Hdec HN Hwin)
    as (b & d' & p' & Hrec & Hd' & Hw'). rewrite Hrec. cbn [rbind].
  pose proof (receive_rel (publish_frame cfg key) (pub_rel key) (fun f r c p b p' Hp => publish_frame_rel key f r c p p' b Hp) _ _ _ _ _ _ _ Hrec)
    as [_ (o & Hobs) (l & Hlog & Hl) Hstep]. cbn in Hobs, Hlog.
  eexists _, _. split; [done|]. constructor; cbn; try done.
  - intros k s Hk. destruct (decide (k = key)) as [->|Hne].
    + rewrite lookup_insert_eq in Hk. injection Hk as <-. done.
    + rewrite lookup_insert_ne in Hk by done. destruct (G1 k s Hk) as [Hd Hw]. split; [by apply (wf_decoder_mono N); [lia|]|done].
  - intros Hob. assert (observed_ok (rx_observed rx)) as Hob0 by (rewrite Hobs in Hob; by apply Forall_app in Hob as [? _]).
    specialize (G5 Hob0). intros k. cbn. destruct (decide (k = key)) as [->|Hne].
    + rewrite lookup_insert_eq. cbn. apply Hstep; [done| |done]. intros _. cbn. specialize (G5 key). by rewrite G4 in G5.
    + rewrite lookup_insert_ne by done. specialize (G5 k). rewrite Hlog. unfold stream_ok in *.
      rewrite seqs_of_app, (seqs_of_other key k l) by done. by rewrite app_nil_r.
  - rewrite Hlog. apply Forall_app. split; [apply Hrx|]. eapply Forall_impl; [exact Hl|]. intros f Hf. by exists key.
Qed.

Lemma rx_batch_inv (ms : list rx_message) (N : Z) (rx : Receiver R) :
  rx_inv N rx -> 0 <= N -> N + Z.of_nat (length ms) < 2 ^ 64 ->
  exists rx', rx_batch cfg rx ms = Ok rx' /\ rx_inv (N + Z.of_nat (length ms)) rx'.
Proof using All.
  revert N rx. induction ms as [|m ms IH]; intros N rx Hrx Hpos HN; cbn [rx_batch length] in *.
  - exists rx. split; [done|]. by rewrite Z.add_0_r.
  - destruct (rx_datagram_inv N rx (m_trunc m) (m_raw m) (m_now m) Hrx Hpos ltac:(lia)) as (b & rx1 & -> & H1). cbn [rbind].
    destruct (IH (N + 1) rx1 H1 ltac:(lia) ltac:(lia)) as (rx2 & -> & H2). exists rx2. split; [done|].
    by replace (N + Z.of_nat (S (length ms))) with (N + 1 + Z.of_nat (length ms)) by lia.
Qed.

Lemma rx_expire_inv (N : Z) (rx : Receiver R) (now : Key -> Z) : rx_inv N rx -> rx_inv N (rx_expire rx now).
Proof using All.
  intros [H1 H2 H3 H4 H5]. constructor; cbn; try done.
  - intros k s Hs. rewrite map_lookup_imap in Hs. destruct (ss_values (rx_streams rx) !! k) as [s0|] eqn:E; [|done].
    cbn in Hs. injection Hs as <-. cbn. destruct (H1 k s0 E). split; [by apply expire_wf|done].
  - intros Ho k. specialize (H4 Ho k). cbn. rewrite map_lookup_imap. by destruct (ss_values (rx_streams rx) !! k).
Qed.

Lemma rx_iteration_inv (N : Z) (rx : Receiver R) (now : Key -> Z) (batch : list rx_message) :
  rx_inv N rx -> 0 <= N -> N + Z.of_nat (length batch) < 2 ^ 64 ->
  exists rx', rx_iteration cfg rx now batch = Ok rx' /\ rx_inv (N + Z.of_nat (length batch)) rx'.
Proof using All.
  intros Hrx Hpos HN. unfold rx_iteration. apply (rx_expire_inv N rx now) in Hrx.
  destruct (cfg_echo cfg); [|by apply rx_batch_inv]. eexists. split; [done|].
  apply (rx_inv_mono N); [lia|]. destruct Hrx. by constructor.
Qed.

Lemma rx_run_inv (its : list ((Key -> Z) * list rx_message)) (N : Z) (rx : Receiver R) :
  rx_inv N rx -> 0 <= N -> N + Z.of_nat (length (concat (map snd its))) < 2 ^ 64 ->
  exists rx' M, rx_run cfg rx its = Ok rx' /\ rx_inv M rx'.
Proof using All.
  revert N rx. induction its as [|[now batch] its IH]; intros N rx Hrx Hpos HN; cbn [rx_run map concat snd] in *.
  - by exists rx, N.
  - destruct (rx_continue cfg rx); [|by exists rx, N]. rewrite length_app in HN.
    destruct (rx_iteration_inv N rx now batch Hrx Hpos ltac:(lia)) as (rx1 & -> & H1). cbn [rbind].
    apply (IH (N + Z.of_nat (length batch)) rx1 H1); lia.
Qed.

Lemma rx_init_inv (ring : R) (max_streams gens : Z) :
  0 <= gens -> sink_log ring = [] -> rx_inv 0 (rx_init ring max_streams gens sz).
Proof using All.
  intros Hg Hl. constructor; cbn; rewrite ?Hl; try done; by constructor.
Qed.
End Invariant.


(** The same datagram twice, a truncated one and garbage: one frame comes out. *)
Definition demo_cfg : RxConfig := mkRxConfig 0 true false.
Definition demo_datagram : bytes := mux_wrap (mkKey 7 9) demo_wire.
Definition demo_its : list ((Key -> Z) * list rx_message) :=
  [((fun _ => 1), [mkMessage false demo_datagram 2; mkMessage true demo_datagram 3; mkMessage false demo_wire 4]);
   ((fun _ => 5), [mkMessage false demo_datagram 6])].

Example demo_receiver :
  match rx_run demo_cfg (rx_init ([] : list bytes) 4 64 64) demo_its with
  | Ok rx => (rx_ring rx, rx_received rx, rx_published rx, rx_rejected rx) = ([demo_frame], 4, 1, 2)
  | Throw _ => False
  end.
Proof. vm_compute. reflexivity. Qed.

