(* ===== verification/Transport.v ===== *)
(** * Length-prefixed frames over a stream socket: [harness/include/stream_transport.h]

    [transfer] moves a buffer through a non-blocking socket in as many pieces as
    the kernel chooses.  What the kernel and the clock answer in one iteration of
    its loop is a [tick]; a run is driven by a list of them, so the theorems
    hold for every way a transfer can be cut up, interrupted or timed out. *)
From S2P Require Import Prelude.

(** One iteration of the loop, by what decides it. *)
Inductive tick :=
| TStop                    (* should_stop() *)
| TDeadline                (* steady_now_ns() >= deadline *)
| TPollIntr                (* poll < 0, EINTR *)
| TPollFail                (* poll < 0, another error *)
| TPollTimeout             (* poll = 0 *)
| TAgain                   (* send/recv < 0: EAGAIN, EWOULDBLOCK or EINTR *)
| TFail                    (* send/recv < 0, another error *)
| TMoved (n : nat).        (* send/recv = n *)

(** Iterations that change nothing and try again. *)
Definition retries (t : tick) : bool :=
  match t with TPollIntr | TPollTimeout | TAgain => true | _ => false end.

(** [transfer(fd, data, size, true, deadline)]: the bytes handed to the kernel,
    the answer and the iterations left for the next call.  A run whose ticks are
    used up is one the process has not finished: it counts as stopped. *)
Fixpoint transfer_send (ts : list tick) (data : bytes) : bytes * bool * list tick :=
  match data, ts with
  | [], _ => ([], true, ts)
  | _, [] => ([], false, [])
  | _, TMoved n :: ts' =>
      let n := Nat.min n (length data) in
      if (n =? 0)%nat then ([], false, ts')
      else let '(out, ok, rest) := transfer_send ts' (drop n data) in (take n data ++ out, ok, rest)
  | _, t :: ts' => if retries t then transfer_send ts' data else ([], false, ts')
  end.

(** [transfer(fd, data, size, false, deadline)]: the bytes received, the bytes
    left in the channel, the answer and the iterations left. *)
Fixpoint transfer_recv (ts : list tick) (size : nat) (chan : bytes) : bytes * bytes * bool * list tick :=
  match size, ts with
  | O, _ => ([], chan, true, ts)
  | _, [] => ([], chan, false, [])
  | _, TMoved n :: ts' =>
      let n := Nat.min n (Nat.min size (length chan)) in
      if (n =? 0)%nat then ([], chan, false, ts')
      else let '(got, chan', ok, rest) := transfer_recv ts' (size - n) (drop n chan) in (take n chan ++ got, chan', ok, rest)
  | _, t :: ts' => if retries t then transfer_recv ts' size chan else ([], chan, false, ts')
  end.

Definition prefix2 (len : Z) : bytes := [z2b (Z.shiftr len 8); z2b len].

(** [send_frame]: what reaches the channel and the answer. *)
Definition send_frame (ts : list tick) (data : bytes) : bytes * bool * list tick :=
  let '(out, ok, ts1) := transfer_send ts (prefix2 (Z.of_nat (length data))) in
  if ok then let '(out2, ok2, ts2) := transfer_send ts1 data in (out ++ out2, ok2, ts2)
  else (out, false, ts1).

(** [receive_frame]: [None] is -1. *)
Definition receive_frame (ts : list tick) (cap : Z) (chan : bytes) : option bytes * bytes * list tick :=
  let '(prefix, chan1, ok, ts1) := transfer_recv ts 2 chan in
  if negb ok then (None, chan1, ts1)
  else
    let len := Z.lor (Z.shiftl (b2z (nth 0 prefix Corelib.Init.Byte.x00)) 8) (b2z (nth 1 prefix Corelib.Init.Byte.x00)) in
    if (len =? 0) || (cap <? len) then (None, chan1, ts1)
    else let '(data, chan2, ok2, ts2) := transfer_recv ts1 (Z.to_nat len) chan1 in
         ((if ok2 then Some data else None), chan2, ts2).

(** ** Lemmas *)

Lemma transfer_send_prefix (ts : list tick) (data : bytes) :
  let '(out, ok, _) := transfer_send ts data in
  exists rest, data = out ++ rest /\ (ok = true <-> rest = []).
Proof.
  revert data. induction ts as [|t ts IH]; intros [|b data]; try (exists []; done); try (eexists; split; [done|split; congruence]).
  assert (Hretry : let '(out, ok, _) := transfer_send ts (b :: data) in exists rest, b :: data = out ++ rest /\ (ok = true <-> rest = [])) by apply IH.
  destruct t as [| | | | | | |n]; cbn [transfer_send retries]; try exact Hretry; try (eexists; split; [done|split; congruence]).
  destruct (Nat.eqb_spec (Nat.min n (length (b :: data))) 0); [eexists; split; [done|split; congruence]|].
  specialize (IH (drop (Nat.min n (length (b :: data))) (b :: data))). destruct (transfer_send ts (drop _ _)) as [[out ok] ts'].
  destruct IH as (rest & He & Hok). exists rest. split; [|done]. by rewrite <- app_assoc, <- He, take_drop.
Qed.

(** A successful send has moved exactly the data. *)
Lemma transfer_send_exact (ts : list tick) (data out : bytes) (ts' : list tick) :
  transfer_send ts data = (out, true, ts') -> out = data.
Proof.
  intros E. pose proof (transfer_send_prefix ts data) as H. rewrite E in H. destruct H as (rest & -> & Hok).
  by rewrite (proj1 Hok eq_refl), app_nil_r.
Qed.

Lemma transfer_recv_split (ts : list tick) (size : nat) (chan : bytes) :
  let '(got, chan', ok, _) := transfer_recv ts size chan in
  chan = got ++ chan' /\ (length got <= size)%nat /\ (ok = true <-> length got = size).
Proof.
  revert size chan. induction ts as [|t ts IH]; intros [|size] chan; try done; try (cbn; split_and!; [done|lia|split; [done|lia]]).
  assert (Hretry : let '(got, chan', ok, _) := transfer_recv ts (S size) chan in
    chan = got ++ chan' /\ (length got <= S size)%nat /\ (ok = true <-> length got = S size)) by apply IH.
  destruct t as [| | | | | | |n]; cbn [transfer_recv retries]; try exact Hretry; try (cbn; split_and!; [done|lia|split; [done|lia]]).
  destruct (Nat.eqb_spec (Nat.min n (Nat.min (S size) (length chan))) 0) as [|Hn]; [cbn; split_and!; [done|lia|split; [done|lia]]|].
  set (m := Nat.min n (Nat.min (S size) (length chan))) in *. specialize (IH (S size - m)%nat (drop m chan)).
  destruct (transfer_recv ts (S size - m) (drop m chan)) as [[[got chan'] ok] ts']. destruct IH as (He & Hl & Hok).
  rewrite length_app, length_take. split_and!; [by rewrite <- app_assoc, <- He, take_drop|lia|rewrite Hok; lia].
Qed.

(** A successful receive has taken exactly [size] bytes off the channel. *)
Lemma transfer_recv_exact (ts : list tick) (want rest got chan' : bytes) (ts' : list tick) :
  transfer_recv ts (length want) (want ++ rest) = (got, chan', true, ts') -> got = want /\ chan' = rest.
Proof.
  intros E. pose proof (transfer_recv_split ts (length want) (want ++ rest)) as H. rewrite E in H.
  destruct H as (He & _ & Hok). apply (app_inj_1 got want chan' rest); [by apply Hok|done].
Qed.

(** Iterations that let a transfer go on. *)
Definition helpful (t : tick) : bool := match t with TMoved n => (0 <? n)%nat | _ => retries t end.
Definition moves (ts : list tick) : nat := length (List.filter (fun t => negb (retries t)) ts).

Lemma transfer_recv_completes (ts : list tick) (size : nat) (chan : bytes) :
  forallb helpful ts = true -> (size <= moves ts)%nat -> (size <= length chan)%nat ->
  exists got chan' ts', transfer_recv ts size chan = (got, chan', true, ts') /\ forallb helpful ts' = true /\ (moves ts <= size + moves ts')%nat.
Proof.
  revert size chan. induction ts as [|t ts IH]; intros [|size] chan Hh Hm Hc; try (cbn in Hm; lia); try (eexists _, _, _; split; [done|split; [done|lia]]).
  cbn in Hh. apply andb_true_iff in Hh as [Ht Hh].
  destruct t as [| | | | | | |n]; cbn [transfer_recv retries helpful] in *; try discriminate; try (by apply IH).
  apply Nat.ltb_lt in Ht. unfold moves in Hm |- *. cbn [List.filter retries negb length] in *.
  set (m := Nat.min n (Nat.min (S size) (length chan))). replace (m =? 0)%nat with false by (symmetry; apply Nat.eqb_neq; lia).
  destruct (IH (S size - m)%nat (drop m chan)) as (got & chan' & ts' & E & Hh' & Hm'); [done|unfold moves; lia|rewrite length_drop; lia|].
  rewrite E. eexists _, _, _. split; [done|]. split; [done|]. unfold moves in *. lia.
Qed.

Lemma prefix2_value (len : Z) : 0 <= len < 65536 ->
  Z.lor (Z.shiftl (b2z (z2b (Z.shiftr len 8))) 8) (b2z (z2b len)) = len.
Proof.
  intros H. rewrite lor_shift8, !b2z_z2b, Z.shiftr_div_pow2 by lia. change (2 ^ 8) with 256.
  rewrite (Z.mod_small (len / 256)) by (split; [apply Z.div_pos; lia|apply Z.div_lt_upper_bound; lia]).
  pose proof (Z.div_mod len 256). lia.
Qed.

(** ** Properties *)

Lemma send_frame_bytes (ts : list tick) (data out : bytes) (ts' : list tick) :
  send_frame ts data = (out, true, ts') -> out = prefix2 (Z.of_nat (length data)) ++ data.
Proof.
  unfold send_frame. destruct (transfer_send ts _) as [[o ok] t1] eqn:E1. destruct ok; [|discriminate].
  destruct (transfer_send t1 data) as [[o2 ok2] t2] eqn:E2. intros [= <- -> <-].
  apply transfer_send_exact in E1 as ->. by apply transfer_send_exact in E2 as ->.
Qed.

(** Once the prefix has arrived, [receive_frame] is one transfer of the body. *)
Lemma receive_frame_body (rs rs' : list tick) (cap : Z) (data rest chan : bytes) :
  (1 <= length data)%nat -> Z.of_nat (length data) < 65536 -> Z.of_nat (length data) <= cap ->
  transfer_recv rs 2 (prefix2 (Z.of_nat (length data)) ++ chan) = (prefix2 (Z.of_nat (length data)), chan, true, rs') ->
  receive_frame rs cap (prefix2 (Z.of_nat (length data)) ++ chan) =
    let '(got, chan2, ok, rs2) := transfer_recv rs' (length data) chan in ((if ok then Some got else None), chan2, rs2).
Proof.
  intros H1 H2 H3 E. unfold receive_frame. rewrite E. cbn [negb]. unfold prefix2. cbn [nth]. rewrite prefix2_value by lia.
  replace (Z.of_nat (length data) =? 0) with false by lia. replace (cap <? Z.of_nat (length data)) with false by lia.
  cbn [orb]. by rewrite Nat2Z.id.
Qed.

(** C20: A frame that [send_frame] reports as sent is, however the two
    transfers are cut up, interrupted or retried, exactly what [receive_frame]
    returns from the channel, leaving the channel at the next frame; and the
    receive does return it whenever each of its iterations makes progress or
    retries and enough of them make progress. *)
Theorem stream_frame_round_trip (ts ts' rs : list tick) (data out rest : bytes) (cap : Z) :
  (1 <= length data)%nat -> Z.of_nat (length data) < 65536 -> Z.of_nat (length data) <= cap ->
  send_frame ts data = (out, true, ts') ->
  (forall d chan rs', receive_frame rs cap (out ++ rest) = (Some d, chan, rs') -> d = data /\ chan = rest) /\
  (forallb helpful rs = true -> (2 + length data <= moves rs)%nat ->
     exists rs', receive_frame rs cap (out ++ rest) = (Some data, rest, rs')).
Proof.
  intros H1 H2 H3 Hs. apply send_frame_bytes in Hs as ->. rewrite <- app_assoc.
  set (pre := prefix2 (Z.of_nat (length data))). split.
  - intros d chan rs' E. destruct (transfer_recv rs 2 (pre ++ data ++ rest)) as [[[p c1] ok] rs1] eqn:E1.
    destruct ok; [|unfold receive_frame in E; by rewrite E1 in E].
    destruct (transfer_recv_exact rs pre (data ++ rest) p c1 rs1 E1) as [-> ->].
    rewrite (receive_frame_body rs rs1 cap data rest) in E by done.
    destruct (transfer_recv rs1 (length data) (data ++ rest)) as [[[g c2] ok2] rs2] eqn:E2. destruct ok2; [|done].
    destruct (transfer_recv_exact rs1 data rest g c2 rs2 E2) as [-> ->]. by injection E.
  - intros Hh Hm.
    destruct (transfer_recv_completes rs 2 (pre ++ data ++ rest)) as (p & c1 & rs1 & E1 & Hh1 & Hm1); [done|lia|rewrite length_app; cbn; lia|].
    destruct (transfer_recv_exact rs pre (data ++ rest) p c1 rs1 E1) as [-> ->].
    destruct (transfer_recv_completes rs1 (length data) (data ++ rest)) as (g & c2 & rs2 & E2 & _); [done|lia|rewrite length_app; lia|].
    destruct (transfer_recv_exact rs1 data rest g c2 rs2 E2) as [-> ->].
    exists rs2. rewrite (receive_frame_body rs rs1 cap data rest) by done. by rewrite E2.
Qed.

Lemma stream_frame_round_trip_witness :
  let data := map z2b [1; 2; 3] in
  send_frame [TMoved 1; TAgain; TMoved 5; TMoved 1; TMoved 9] data = (prefix2 3 ++ data, true, []) /\
  exists rs', receive_frame [TMoved 1; TPollTimeout; TMoved 1; TMoved 1; TMoved 1; TMoved 1; TMoved 1] 2048 (prefix2 3 ++ data ++ [z2b 9])
    = (Some data, [z2b 9], rs').
Proof.
  split; [reflexivity|]. change (prefix2 3 ++ map z2b [1; 2; 3] ++ [z2b 9]) with ((prefix2 3 ++ map z2b [1; 2; 3]) ++ [z2b 9]).
  apply (stream_frame_round_trip [TMoved 1; TAgain; TMoved 5; TMoved 1; TMoved 9] [] _ (map z2b [1; 2; 3]) _ [z2b 9] 2048);
    try reflexivity; vm_compute; try congruence; lia.
Defined.
