(* ===== verification/Batch.v ===== *)
(** * Datagram batches and their transmission: [harness/src/sender.cpp]

    [Batch], [make_batch], [queue_datagram] and [flush_batch_direct].  The
    answers of the kernel ([sendmmsg], the stream transfers, the durable
    acknowledgements) and the clock readings are consumed from the [World];
    what the kernel took is recorded there, per socket and in order. *)
From S2P Require Import Prelude Message Wire Fec Multiplex Transport.

(** The answer of one [sendmmsg]: interrupted (with the value [should_stop] then
    has), an error, or the messages it took with the [msg_len] it stored for each
    ([None] is the length of the message, all of which was sent). *)
Inductive send_event :=
| SIntr (stopping : bool)
| SFail
| STook (lens : list (option Z)).

Record World := mkWorld {
  wd_clock : list Z;                    (* successive values of steady_now_ns() *)
  wd_sends : list send_event;           (* answers of sendmmsg *)
  wd_ticks : list tick;                 (* iterations of transport::transfer *)
  wd_acks : list (option Z);            (* acknowledgement bytes; None: transfer failed *)
  wd_wire : list (nat * bytes)          (* datagrams taken, with their socket *)
}.

Definition steady_now_ns (w : World) : Z * World :=
  match wd_clock w with
  | [] => (0, w)
  | t :: ts => (t, mkWorld ts (wd_sends w) (wd_ticks w) (wd_acks w) (wd_wire w))
  end.

Record SendCounters := mkCounters { sc_packets : Z; sc_sendmmsg_calls : Z; sc_send_calls : Z; sc_max_batch : Z }.

(** [bt_iov_len] is [iovecs[i].iov_len]; the other fields of [iovec] and
    [mmsghdr] are set once to point into [bt_frames]. *)
Record Batch := mkBatch {
  bt_frames : list bytes; bt_iov_len : list Z; bt_lengths : list Z; bt_size : nat; bt_first_ns : Z
}.

Definition datagram_cap : nat := max_frame + kEnvelopeSize + 2 + header_size.

Definition make_batch (batch_size : nat) : Batch :=
  mkBatch (replicate batch_size (replicate datagram_cap Corelib.Init.Byte.x00)) (replicate batch_size 0) (replicate batch_size 0) 0 0.

Definition queue_datagram (b : Batch) (data : bytes) (w : World) : res (Batch * World) :=
  let! buf := vget (bt_frames b) (bt_size b) in
  let! buf := overwrite buf 0 data in
  let! frames := vset (bt_frames b) (bt_size b) buf in
  let! lengths := vset (bt_lengths b) (bt_size b) (Z.of_nat (length data)) in
  let '(first, w) := if (bt_size b =? 0)%nat then steady_now_ns w else (bt_first_ns b, w) in
  Ok (mkBatch frames (bt_iov_len b) lengths (S (bt_size b)) first, w).

(** The first [n] bytes of buffer [i]. *)
Definition message (frames : list bytes) (lens : list Z) (i : nat) : res bytes :=
  let! buf := vget frames i in
  let! n := vget lens i in
  if (length buf <? Z.to_nat n)%nat then Throw OutOfBounds else Ok (take (Z.to_nat n) buf).

(** [batch.iovecs[i].iov_len = batch.lengths[i]] for [i < size]. *)
Definition set_iov_len (b : Batch) : res Batch :=
  let! iov := forM (List.seq 0 (bt_size b)) (fun i iov => let! n := vget (bt_lengths b) i in vset iov i n) (bt_iov_len b) in
  Ok (mkBatch (bt_frames b) iov (bt_lengths b) (bt_size b) (bt_first_ns b)).

Section Flush.
Variables (repeat : nat) (durable_acks : bool).

(** The check that no message of this call was cut short. *)
Fixpoint not_short (b : Batch) (offset : nat) (lens : list (option Z)) : res bool :=
  match lens with
  | [] => Ok true
  | l :: lens' => let! n := vget (bt_lengths b) offset in
                  if default n l =? n then not_short b (S offset) lens' else Ok false
  end.

(** Messages [offset] to [offset + n - 1] of the batch, with the lengths [lens]. *)
Fixpoint messages_at (b : Batch) (lens : list Z) (offset n : nat) : res (list bytes) :=
  match n with
  | O => Ok []
  | S n' => let! m := message (bt_frames b) lens offset in
            let! ms := messages_at b lens (S offset) n' in Ok (m :: ms)
  end.

(** [while (offset < batch.size)] around [sendmmsg]; a run of answers that ends
    is a process that was killed, an error to the caller. *)
Fixpoint sendmmsg_loop (sock : nat) (b : Batch) (evs : list send_event) (offset : nat) (c : SendCounters) (wire : list (nat * bytes))
    : res (bool * SendCounters * list send_event * list (nat * bytes)) :=
  if (offset <? bt_size b)%nat then
    match evs with
    | [] => Ok (false, c, [], wire)
    | SIntr stopping :: evs' => if stopping then Ok (false, c, evs', wire) else sendmmsg_loop sock b evs' offset c wire
    | SFail :: evs' => Ok (false, c, evs', wire)
    | STook lens :: evs' =>
        let lens := take (bt_size b - offset) lens in
        let n := length lens in
        if (n =? 0)%nat then Ok (false, c, evs', wire)
        else
          let! ms := messages_at b (bt_iov_len b) offset n in
          let wire := wire ++ map (pair sock) ms in
          let c := mkCounters (u64 (sc_packets c + Z.of_nat n)) (u64 (sc_sendmmsg_calls c + 1)) (sc_send_calls c)
                     (if sc_max_batch c <? Z.of_nat n then Z.of_nat n else sc_max_batch c) in
          let! ok := not_short b offset lens in
          if negb ok then Ok (false, c, evs', wire)
          else sendmmsg_loop sock b evs' (offset + n) c wire
    end
  else Ok (true, c, evs, wire).

(** One frame on a stream socket, with its acknowledgement. *)
Definition stream_send (sock i : nat) (b : Batch) (st : bool * SendCounters * World) : res (bool * SendCounters * World) :=
  let '(ok, c, w) := st in
  if negb ok then Ok st
  else
    let! m := message (bt_frames b) (bt_lengths b) i in
    let '(_, sent, ts) := send_frame (wd_ticks w) m in
    let w := mkWorld (wd_clock w) (wd_sends w) ts (wd_acks w) (if sent then wd_wire w ++ [(sock, m)] else wd_wire w) in
    if negb sent then Ok (false, c, w)
    else
      let '(acked, w) :=
        if durable_acks then
          match wd_acks w with
          | Some a :: acks => (a =? 1, mkWorld (wd_clock w) (wd_sends w) (wd_ticks w) acks (wd_wire w))
          | None :: acks => (false, mkWorld (wd_clock w) (wd_sends w) (wd_ticks w) acks (wd_wire w))
          | [] => (false, w)
          end
        else (true, w) in
      if negb acked then Ok (false, c, w)
      else Ok (true, mkCounters (u64 (sc_packets c + 1)) (sc_sendmmsg_calls c) (u64 (sc_send_calls c + 1)) (sc_max_batch c), w).

Definition stream_repeat (sock : nat) (b : Batch) (_ : nat) (st : bool * SendCounters * World) : res (bool * SendCounters * World) :=
  forM (List.seq 0 (bt_size b)) (fun i st => stream_send sock i b st) st.

Definition udp_repeat (sock : nat) (b : Batch) (_ : nat) (st : bool * SendCounters * World) : res (bool * SendCounters * World) :=
  let '(ok, c, w) := st in
  if negb ok then Ok st
  else
    let! '(ok, c, evs, wire) := sendmmsg_loop sock b (wd_sends w) 0 c (wd_wire w) in
    Ok (ok, c, mkWorld (wd_clock w) evs (wd_ticks w) (wd_acks w) wire).

(** A socket with what [getsockopt(SO_TYPE)] says of it: [None] an error,
    [Some true] a stream socket. *)
Definition send_to (b : Batch) (sock : nat * option bool) (st : bool * SendCounters * World) : res (bool * SendCounters * World) :=
  let '(ok, c, w) := st in
  if negb ok then Ok st
  else match snd sock with
  | None => Ok (false, c, w)
  | Some true => forM (List.seq 0 repeat) (stream_repeat (fst sock) b) st
  | Some false => forM (List.seq 0 repeat) (udp_repeat (fst sock) b) st
  end.

Definition flush_batch_direct (sockets : list (nat * option bool)) (b : Batch) (c : SendCounters) (w : World)
    : res (bool * Batch * SendCounters * World) :=
  if (bt_size b =? 0)%nat then Ok (true, b, c, w)
  else
    let! b := set_iov_len b in
    let! '(ok, c, w) := forM sockets (send_to b) (true, c, w) in
    if ok then Ok (true, mkBatch (bt_frames b) (bt_iov_len b) (bt_lengths b) 0 0, c, w)
    else Ok (false, b, c, w).
End Flush.

(** ** What a batch holds *)

Definition contents (b : Batch) : list bytes :=
  zip_with (fun n buf => take (Z.to_nat n) buf) (take (bt_size b) (bt_lengths b)) (take (bt_size b) (bt_frames b)).

(** Every buffer is allocated and every queued length fits it. *)
Record wf_batch (n : nat) (b : Batch) : Prop := {
  wb_frames : length (bt_frames b) = n;
  wb_caps : Forall (fun buf => length buf = datagram_cap) (bt_frames b);
  wb_iov : length (bt_iov_len b) = n;
  wb_lengths : length (bt_lengths b) = n;
  wb_size : (bt_size b <= n)%nat;
  wb_fits : Forall (fun l => 0 <= l <= Z.of_nat datagram_cap) (take (bt_size b) (bt_lengths b))
}.

Lemma make_batch_wf (n : nat) : wf_batch n (make_batch n) /\ contents (make_batch n) = [].
Proof.
  split; [|done]. constructor; cbn [make_batch bt_frames bt_iov_len bt_lengths bt_size]; rewrite ?length_replicate; try lia; try done.
  - by apply Forall_replicate; rewrite length_replicate.
Qed.

Lemma length_contents (n : nat) (b : Batch) : wf_batch n b -> length (contents b) = bt_size b.
Proof.
  intros [? _ _ ? ? _]. unfold contents. rewrite length_zip_with, !length_take. lia.
Qed.

Lemma contents_lookup (n i : nat) (b : Batch) :
  wf_batch n b -> (i < bt_size b)%nat ->
  exists l buf, bt_lengths b !! i = Some l /\ bt_frames b !! i = Some buf /\ length buf = datagram_cap /\
    0 <= l <= Z.of_nat datagram_cap /\ contents b !! i = Some (take (Z.to_nat l) buf).
Proof.
  intros [Hf Hc _ Hl Hs Hfit] Hi.
  destruct (lookup_lt_is_Some_2 (bt_lengths b) i) as [l El]; [lia|]. destruct (lookup_lt_is_Some_2 (bt_frames b) i) as [buf Eb]; [lia|].
  exists l, buf. split_and!; try done.
  - by eapply (Forall_lookup_1 _ _ _ _ Hc).
  - eapply (Forall_lookup_1 _ _ i _ Hfit). by rewrite lookup_take_lt.
  - eapply (Forall_lookup_1 _ _ i _ Hfit). by rewrite lookup_take_lt.
  - unfold contents. rewrite lookup_zip_with, !lookup_take_lt by done. by rewrite El, Eb.
Qed.

(** Queueing a datagram that fits into a batch that is not full. *)
Lemma queue_datagram_ok (n : nat) (b : Batch) (data : bytes) (w : World) :
  wf_batch n b -> (bt_size b < n)%nat -> (length data <= datagram_cap)%nat ->
  exists b' w', queue_datagram b data w = Ok (b', w') /\ wf_batch n b' /\ bt_size b' = S (bt_size b) /\
    contents b' = contents b ++ [data] /\ wd_wire w' = wd_wire w.
Proof.
  intros [Hf Hc Hi Hl Hs Hfit] Hlt Hd. unfold queue_datagram.
  destruct (vget_lt (bt_frames b) (bt_size b)) as (buf & -> & Eb); [lia|]. cbn [rbind].
  assert (Hbuf : length buf = datagram_cap) by (by eapply (Forall_lookup_1 _ _ _ _ Hc)).
  rewrite overwrite_ok by lia. cbn [rbind]. rewrite !vset_lt by lia. cbn [rbind Nat.add].
  set (buf' := take 0 buf ++ data ++ drop (length data) buf).
  assert (Hbuf' : length buf' = datagram_cap) by (unfold buf'; rewrite !length_app, length_take, length_drop; lia).
  destruct (if (bt_size b =? 0)%nat then steady_now_ns w else (bt_first_ns b, w)) as [first w'] eqn:Ew.
  eexists _, w'. split; [done|]. split_and!; cbn [bt_size bt_frames bt_lengths bt_iov_len]; try done.
  - constructor; cbn [bt_size bt_frames bt_lengths bt_iov_len]; rewrite ?length_insert; try done.
    + by apply Forall_insert.
    + rewrite (take_S_r _ _ (Z.of_nat (length data))) by (apply list_lookup_insert_eq; lia).
      rewrite take_insert_ge by lia. apply Forall_app. split; [done|]. repeat constructor; lia.
  - unfold contents. cbn [bt_size bt_frames bt_lengths].
    rewrite (take_S_r _ _ (Z.of_nat (length data))) by (apply list_lookup_insert_eq; lia).
    rewrite (take_S_r _ _ buf') by (apply list_lookup_insert_eq; lia). rewrite !take_insert_ge by lia.
    rewrite zip_with_app by (rewrite !length_take; lia). cbn [zip_with]. do 2 f_equal. rewrite Nat2Z.id. unfold buf'.
    by rewrite take_0, app_nil_l, take_app_length.
  - destruct (bt_size b =? 0)%nat; [|by injection Ew as _ <-]. unfold steady_now_ns in Ew. destruct (wd_clock w); by injection Ew as _ <-.
Qed.

Lemma queue_datagram_inv (n : nat) (b b' : Batch) (data : bytes) (w w' : World) :
  wf_batch n b -> queue_datagram b data w = Ok (b', w') -> (bt_size b < n)%nat /\ (length data <= datagram_cap)%nat.
Proof.
  intros [Hf Hc Hi Hl Hs Hfit] E. unfold queue_datagram in E. unfold vget at 1 in E.
  destruct (bt_frames b !! bt_size b) as [buf|] eqn:Eb; [|done]. cbn [rbind] in E. unfold overwrite in E.
  assert (length buf = datagram_cap) by (by eapply (Forall_lookup_1 _ _ _ _ Hc)). apply lookup_lt_Some in Eb.
  destruct (Nat.leb_spec (0 + length data) (length buf)); [|done]. lia.
Qed.

(** ** Transmission *)

(** After some sends: what was taken since [wire0] is a prefix of the plan, and
    all of it as long as no send failed. *)
Definition prog (wire0 : list (nat * bytes)) (plan : list (nat * bytes)) (st : bool * SendCounters * World) : Prop :=
  exists sent, wd_wire (snd st) = wire0 ++ sent /\ sent `prefix_of` plan /\ (fst (fst st) = true -> sent = plan).

Lemma prog_failed (wire0 plan more : list (nat * bytes)) (c : SendCounters) (w : World) :
  prog wire0 plan (false, c, w) -> prog wire0 (plan ++ more) (false, c, w).
Proof. intros (sent & Hw & Hp & _). exists sent. split_and!; [done|by apply prefix_app_r|done]. Qed.

(** A loop of sends, each adding its part of the plan. *)
Lemma forM_prog {I} (wire0 : list (nat * bytes)) (body : I -> bool * SendCounters * World -> res (bool * SendCounters * World))
    (plan : I -> list (nat * bytes)) (ks : list I) (dn : list (nat * bytes)) (st : bool * SendCounters * World) :
  prog wire0 dn st ->
  (forall i st dn, In i ks -> prog wire0 dn st -> exists st', body i st = Ok st' /\ prog wire0 (dn ++ plan i) st') ->
  exists st', forM ks body st = Ok st' /\ prog wire0 (dn ++ flat_map plan ks) st'.
Proof.
  revert dn st. induction ks as [|i ks IH]; intros dn st Hst Hb; [exists st; split; [done|]; by rewrite app_nil_r|].
  destruct (Hb i st dn ltac:(by left) Hst) as (st1 & E & H1). cbn [forM flat_map]. rewrite E. cbn [rbind].
  destruct (IH (dn ++ plan i) st1 H1) as (st2 & E2 & H2); [intros; apply Hb; [by right|done]|].
  exists st2. split; [done|]. by rewrite app_assoc.
Qed.

Lemma message_ok (n i : nat) (b : Batch) (lens : list Z) :
  wf_batch n b -> (i < bt_size b)%nat -> lens !! i = bt_lengths b !! i ->
  exists m, message (bt_frames b) lens i = Ok m /\ contents b !! i = Some m.
Proof.
  intros Hwf Hi E. destruct (contents_lookup n i b Hwf Hi) as (l & buf & El & Eb & Hb & Hl & Hc).
  exists (take (Z.to_nat l) buf). unfold message, vget. rewrite E, El, Eb. cbn [rbind].
  by replace (length buf <? Z.to_nat l)%nat with false by (symmetry; apply Nat.ltb_ge; lia).
Qed.

Lemma messages_at_ok (n k offset : nat) (b : Batch) (lens : list Z) :
  wf_batch n b -> (forall i, (i < bt_size b)%nat -> lens !! i = bt_lengths b !! i) -> (offset + k <= bt_size b)%nat ->
  messages_at b lens offset k = Ok (take k (drop offset (contents b))).
Proof.
  intros Hwf Hlens. revert offset. induction k as [|k IH]; intros offset Hk; [done|]. cbn [messages_at].
  destruct (message_ok n offset b lens Hwf ltac:(lia) ltac:(apply Hlens; lia)) as (m & -> & Hm). cbn [rbind]. rewrite IH by lia. cbn [rbind].
  by rewrite (drop_S _ m offset Hm).
Qed.

Section Transmission.
Context {n : nat} {b : Batch}.
Hypothesis Hwf : wf_batch n b.
(** [set_iov_len] has run. *)
Hypothesis Hiov : forall i, (i < bt_size b)%nat -> bt_iov_len b !! i = bt_lengths b !! i.

Lemma not_short_ok (lens : list (option Z)) (offset : nat) : (offset + length lens <= bt_size b)%nat -> exists ok, not_short b offset lens = Ok ok.
Proof using Hwf.
  revert offset. induction lens as [|l lens IH]; intros offset H; [by eexists|]. cbn [not_short length] in *.
  destruct (vget_lt (bt_lengths b) offset) as (x & -> & _); [pose proof (wb_lengths _ _ Hwf); pose proof (wb_size _ _ Hwf); lia|].
  cbn [rbind]. destruct (default x l =? x); [apply IH; lia|by eexists].
Qed.

(** The [sendmmsg] loop takes the rest of the batch in order, whatever the
    kernel answers. *)
Lemma sendmmsg_loop_ok (sock : nat) (evs : list send_event) (offset : nat) (c : SendCounters) (wire : list (nat * bytes)) :
  exists ok c' evs' sent, sendmmsg_loop sock b evs offset c wire = Ok (ok, c', evs', wire ++ map (pair sock) sent) /\
    sent `prefix_of` drop offset (contents b) /\ (ok = true -> sent = drop offset (contents b)).
Proof using Hwf Hiov.
  revert offset c wire. induction evs as [|ev evs IH]; intros offset c wire; cbn [sendmmsg_loop];
    (destruct (Nat.ltb_spec offset (bt_size b)) as [Hlt|Hge];
     [|eexists true, c, _, []; rewrite app_nil_r; split_and!;
       [done|apply prefix_nil|intros _; symmetry; apply drop_ge; rewrite (length_contents n b Hwf); lia]]).
  - eexists false, c, _, []. rewrite app_nil_r. split_and!; [done|apply prefix_nil|done].
  - assert (Hstop : forall c' : SendCounters, exists ok c2 evs' (sent : list bytes), Ok (false, c', evs, wire) = Ok (ok, c2, evs', wire ++ map (pair sock) sent) /\
      sent `prefix_of` drop offset (contents b) /\ (ok = true -> sent = drop offset (contents b))).
    { intros c'. eexists false, c', _, []. rewrite app_nil_r. split_and!; [done|apply prefix_nil|done]. }
    destruct ev as [[]| |lens]; [apply Hstop|apply IH|apply Hstop|].
    set (ls := take (bt_size b - offset) lens). assert (Hls : (offset + length ls <= bt_size b)%nat) by (unfold ls; rewrite length_take; lia).
    destruct (length ls =? 0)%nat; [apply Hstop|]. rewrite (messages_at_ok n) by done. cbn [rbind].
    destruct (not_short_ok ls offset Hls) as [ok ->]. cbn [rbind]. set (c1 := mkCounters _ _ _ _).
    assert (Hpre : take (length ls) (drop offset (contents b)) `prefix_of` drop offset (contents b)) by apply prefix_take.
    destruct ok; cbn [negb]; [|eexists false, c1, _, _; by split_and!].
    destruct (IH (offset + length ls)%nat c1 (wire ++ map (pair sock) (take (length ls) (drop offset (contents b)))))
      as (ok & c' & evs' & sent & -> & Hp & Hall).
    exists ok, c', evs', (take (length ls) (drop offset (contents b)) ++ sent). rewrite map_app, app_assoc. rewrite <- drop_drop in Hp, Hall.
    split_and!; [done| |].
    + rewrite <- (take_drop (length ls) (drop offset (contents b))) at 2. by apply prefix_app.
    + intros Ho. rewrite (Hall Ho). apply take_drop.
Qed.

(** An answer that takes at least one message, and none of them cut short. *)
Definition takes (ev : send_event) : bool :=
  match ev with STook lens => negb (length lens =? 0)%nat && forallb (fun l => match l with None => true | Some _ => false end) lens | _ => false end.

Lemma not_short_takes (lens : list (option Z)) (offset : nat) :
  forallb (fun l => match l with None => true | Some _ => false end) lens = true -> (offset + length lens <= bt_size b)%nat ->
  not_short b offset lens = Ok true.
Proof using Hwf.
  revert offset. induction lens as [|[l|] lens IH]; intros offset Hl H; [done|done|]. cbn [not_short length forallb andb] in *.
  destruct (vget_lt (bt_lengths b) offset) as (x & -> & _); [pose proof (wb_lengths _ _ Hwf); pose proof (wb_size _ _ Hwf); lia|].
  cbn [rbind default]. rewrite Z.eqb_refl. apply IH; [done|lia].
Qed.

(** Enough such answers complete the loop, using at most one per message. *)
Lemma sendmmsg_loop_completes (sock : nat) (evs : list send_event) (offset : nat) (c : SendCounters) (wire : list (nat * bytes)) :
  forallb takes evs = true -> (bt_size b <= offset + length evs)%nat ->
  exists c' evs' wire', sendmmsg_loop sock b evs offset c wire = Ok (true, c', evs', wire') /\ forallb takes evs' = true /\
    (length evs <= length evs' + (bt_size b - offset))%nat.
Proof using Hwf Hiov.
  revert offset c wire. induction evs as [|ev evs IH]; intros offset c wire Ht Hl; cbn [sendmmsg_loop length] in *;
    (destruct (Nat.ltb_spec offset (bt_size b)) as [Hlt|Hge]; [|eexists _, _, _; split_and!; [done|done|cbn; lia]]); [lia|].
  cbn [forallb] in Ht. apply andb_true_iff in Ht as [Hev Ht]. destruct ev as [| |lens]; [done|done|]. cbn [takes] in Hev. zbool.
  set (ls := take (bt_size b - offset) lens). assert (Hls : (offset + length ls <= bt_size b)%nat) by (unfold ls; rewrite length_take; lia).
  assert (Hl0 : (0 < length ls)%nat) by (unfold ls; rewrite length_take; lia).
  replace (length ls =? 0)%nat with false by (symmetry; apply Nat.eqb_neq; lia). rewrite (messages_at_ok n) by done. cbn [rbind].
  rewrite not_short_takes; [|rewrite <- (take_drop (bt_size b - offset) lens), forallb_app in H0; by apply andb_true_iff in H0 as [? _]|done]. cbn [rbind negb].
  destruct (IH (offset + length ls)%nat (mkCounters (u64 (sc_packets c + Z.of_nat (length ls))) (u64 (sc_sendmmsg_calls c + 1)) (sc_send_calls c)
     (if sc_max_batch c <? Z.of_nat (length ls) then Z.of_nat (length ls) else sc_max_batch c))
     (wire ++ map (pair sock) (take (length ls) (drop offset (contents b)))) Ht ltac:(lia)) as (c' & evs' & wire' & -> & Ht' & Hl').
  eexists _, _, _. split_and!; [done|done|lia].
Qed.

(** One datagram per queued frame, per repetition. *)
Definition copies (sock repeat : nat) : list (nat * bytes) := flat_map (fun _ => map (pair sock) (contents b)) (List.seq 0 repeat).

Lemma udp_repeat_ok (sock r : nat) (wire0 dn : list (nat * bytes)) (st : bool * SendCounters * World) :
  prog wire0 dn st -> exists st', udp_repeat sock b r st = Ok st' /\ prog wire0 (dn ++ map (pair sock) (contents b)) st'.
Proof using Hwf Hiov.
  destruct st as [[[] c] w]; intros Hp; cbn [udp_repeat negb]; [|eexists; split; [done|by apply prog_failed]].
  destruct (sendmmsg_loop_ok sock (wd_sends w) 0 c (wd_wire w)) as (ok & c' & evs' & sent & -> & Hpre & Hall). cbn [rbind].
  eexists. split; [done|]. destruct Hp as (s0 & Hw & _ & Hs0). rewrite (Hs0 eq_refl) in Hw. cbn [snd] in Hw. rewrite drop_0 in *.
  exists (dn ++ map (pair sock) sent). cbn [snd fst wd_wire]. rewrite Hw, app_assoc. split_and!; [done| |].
  - apply prefix_app. destruct Hpre as [k ->]. rewrite map_app. by apply prefix_app_r.
  - intros Ho. by rewrite (Hall Ho).
Qed.

Lemma stream_send_ok (durable : bool) (sock i : nat) (m : bytes) (wire0 dn : list (nat * bytes)) (st : bool * SendCounters * World) :
  contents b !! i = Some m -> prog wire0 dn st ->
  exists st', stream_send durable sock i b st = Ok st' /\ prog wire0 (dn ++ [(sock, m)]) st'.
Proof using Hwf Hiov.
  intros Hm. destruct st as [[[] c] w]; intros Hp; cbn [stream_send negb]; [|eexists; split; [done|by apply prog_failed]].
  assert (Hi : (i < bt_size b)%nat) by (rewrite <- (length_contents n b Hwf); by apply lookup_lt_Some in Hm).
  destruct (message_ok n i b (bt_lengths b) Hwf Hi eq_refl) as (m' & -> & Hm'). rewrite Hm in Hm'. injection Hm' as <-. cbn [rbind].
  destruct Hp as (s0 & Hw & _ & Hs0). rewrite (Hs0 eq_refl) in Hw. cbn [snd] in Hw.
  destruct (send_frame (wd_ticks w) m) as [[out []] ts]; cbn [negb].
  - assert (Hsent : forall ok c' cl se ti ac, prog wire0 (dn ++ [(sock, m)]) (ok, c', mkWorld cl se ti ac (wd_wire w ++ [(sock, m)]))).
    { intros. exists (dn ++ [(sock, m)]). cbn. rewrite Hw, app_assoc. done. }
    destruct durable; [|eexists; split; [done|apply Hsent]]. cbn [wd_acks].
    destruct (wd_acks w) as [|[a|] acks]; cbn [negb]; [eexists; split; [done|apply Hsent]| |eexists; split; [done|apply Hsent]].
    destruct (a =? 1); cbn [negb]; (eexists; split; [done|apply Hsent]).
  - eexists. split; [done|]. exists dn. cbn. split_and!; [done|by apply prefix_app_r|done].
Qed.

Lemma stream_repeat_ok (durable : bool) (sock r : nat) (wire0 dn : list (nat * bytes)) (st : bool * SendCounters * World) :
  prog wire0 dn st -> exists st', stream_repeat durable sock b r st = Ok st' /\ prog wire0 (dn ++ map (pair sock) (contents b)) st'.
Proof using Hwf Hiov.
  intros Hp. unfold stream_repeat.
  destruct (forM_prog wire0 (fun i st => stream_send durable sock i b st) (fun i => [(sock, nth i (contents b) [])]) (List.seq 0 (bt_size b)) dn st Hp)
    as (st' & E & Hst').
  - intros i st1 dn1 Hi H1. apply in_seq in Hi. rewrite <- (length_contents n b Hwf) in Hi.
    apply stream_send_ok; [|done]. rewrite (nth_lookup (contents b) i []). destruct (lookup_lt_is_Some_2 (contents b) i) as [x ->]; [lia|done].
  - exists st'. split; [done|]. replace (map (pair sock) (contents b)) with (flat_map (fun i => [(sock, nth i (contents b) [])]) (List.seq 0 (bt_size b))); [done|].
    rewrite <- (length_contents n b Hwf). rewrite flat_map_concat_map, <- (map_map (fun i => nth i (contents b) []) (fun m => [(sock, m)])).
    rewrite <- flat_map_concat_map. rewrite (map_nth_seq (contents b) []). induction (contents b) as [|m l IH]; [done|]. cbn. by f_equal.
Qed.

Lemma send_to_ok (repeat : nat) (durable : bool) (sock : nat * option bool) (wire0 dn : list (nat * bytes)) (st : bool * SendCounters * World) :
  prog wire0 dn st -> exists st', send_to repeat durable b sock st = Ok st' /\ prog wire0 (dn ++ copies (fst sock) repeat) st'.
Proof using Hwf Hiov.
  destruct st as [[[] c] w]; intros Hp; cbn [send_to negb]; [|eexists; split; [done|by apply prog_failed]].
  destruct sock as [s [[]|]]; cbn [snd fst].
  - apply forM_prog; [done|]. intros i st dn' _. apply stream_repeat_ok.
  - apply forM_prog; [done|]. intros i st dn' _. apply udp_repeat_ok.
  - eexists. split; [done|]. apply prog_failed. destruct Hp as (s0 & ? & ? & ?). by exists s0.
Qed.

(** [body] succeeds with at most [m] answers, if they all take something. *)
Definition completes {I} (m : nat) (body : I -> bool * SendCounters * World -> res (bool * SendCounters * World)) (i : I) : Prop :=
  forall c w, forallb takes (wd_sends w) = true -> (m <= length (wd_sends w))%nat ->
    exists c' w', body i (true, c, w) = Ok (true, c', w') /\ forallb takes (wd_sends w') = true /\ (length (wd_sends w) <= length (wd_sends w') + m)%nat.

Lemma forM_completes {I} (m : nat) (body : I -> bool * SendCounters * World -> res (bool * SendCounters * World)) (ks : list I) :
  (forall i, In i ks -> completes m body i) -> completes (length ks * m) (fun _ : unit => forM ks body) tt.
Proof using.
  clear. intros Hb. induction ks as [|i ks IH]; intros c w Ht Hl; [exists c, w; split_and!; [done|done|cbn; lia]|]. cbn [length] in Hl. cbn [forM].
  destruct (Hb i ltac:(by left) c w Ht ltac:(lia)) as (c1 & w1 & -> & Ht1 & Hl1). cbn [rbind].
  destruct (IH ltac:(intros; apply Hb; by right) c1 w1 Ht1 ltac:(lia)) as (c2 & w2 & E2 & Ht2 & Hl2).
  exists c2, w2. split_and!; [done|done|cbn [length]; lia].
Qed.

Lemma udp_repeat_completes (sock r : nat) : completes (bt_size b) (udp_repeat sock b) r.
Proof using Hwf Hiov.
  intros c w Ht Hl. unfold udp_repeat. cbn [negb].
  destruct (sendmmsg_loop_completes sock (wd_sends w) 0 c (wd_wire w) Ht ltac:(lia)) as (c' & evs' & wire' & -> & Ht' & Hl').
  cbn [rbind]. eexists _, _. split_and!; [done|done|cbn [wd_sends]; lia].
Qed.

Lemma send_to_completes (repeat : nat) (durable : bool) (sock : nat * option bool) :
  snd sock = Some false -> completes (repeat * bt_size b) (send_to repeat durable b) sock.
Proof using Hwf Hiov.
  intros Hs c w Ht Hl. unfold send_to. cbn [negb]. rewrite Hs.
  destruct (forM_completes (bt_size b) (udp_repeat (fst sock) b) (List.seq 0 repeat) (fun i _ => udp_repeat_completes (fst sock) i) c w Ht) as (c' & w' & E & H1 & H2);
    rewrite length_seq in *; [lia|]. eexists _, _. by split_and!.
Qed.
End Transmission.

Lemma set_iov_len_ok (n : nat) (b : Batch) :
  wf_batch n b ->
  exists b', set_iov_len b = Ok b' /\ wf_batch n b' /\ contents b' = contents b /\ bt_size b' = bt_size b /\
    bt_lengths b' = bt_lengths b /\ bt_frames b' = bt_frames b /\ bt_first_ns b' = bt_first_ns b /\
    (forall i, (i < bt_size b')%nat -> bt_iov_len b' !! i = bt_lengths b' !! i).
Proof.
  intros Hwf. destruct Hwf as [Hf Hc Hi Hl Hs Hfit]. unfold set_iov_len.
  destruct (forM_seq_invariant (fun k iov => length iov = n /\ forall i, (i < k)%nat -> iov !! i = bt_lengths b !! i)
    (fun i iov => let! m := vget (bt_lengths b) i in vset iov i m) (bt_size b) (bt_iov_len b)) as (iov & -> & Hlen & Heq).
  - split; [done|lia].
  - intros i iov Hlt [Hlen Heq]. destruct (vget_lt (bt_lengths b) i) as (x & -> & Hx); [lia|]. cbn [rbind]. rewrite vset_lt by lia.
    eexists. split; [done|]. split; [by rewrite length_insert|]. intros j Hj. destruct (decide (j = i)) as [->|].
    + rewrite list_lookup_insert_eq by lia. done.
    + rewrite list_lookup_insert_ne by done. apply Heq. lia.
  - cbn [rbind]. eexists. split; [done|]. split_and!; try done.
Qed.

(** The datagrams one flush is to put on the wire: for each destination, the
    batch, as often as it is to be repeated. *)
Definition flush_plan (repeat : nat) (sockets : list (nat * option bool)) (b : Batch) : list (nat * bytes) :=
  flat_map (fun s => @copies b (fst s) repeat) sockets.

Lemma flush_plan_ext (repeat : nat) (sockets : list (nat * option bool)) (b b' : Batch) :
  contents b' = contents b -> flush_plan repeat sockets b' = flush_plan repeat sockets b.
Proof. intros E. unfold flush_plan, copies. by rewrite E. Qed.

Lemma flush_batch_direct_ok (repeat : nat) (durable : bool) (n : nat) (sockets : list (nat * option bool)) (b : Batch) (c : SendCounters) (w : World) :
  wf_batch n b ->
  exists ok b' c' w' sent,
    flush_batch_direct repeat durable sockets b c w = Ok (ok, b', c', w') /\ wf_batch n b' /\
    wd_wire w' = wd_wire w ++ sent /\ sent `prefix_of` flush_plan repeat sockets b /\
    (if ok then contents b' = [] /\ bt_size b' = 0%nat /\ sent = flush_plan repeat sockets b else contents b' = contents b).
Proof.
  intros Hwf. unfold flush_batch_direct. destruct (Nat.eqb_spec (bt_size b) 0) as [E0|_].
  - assert (Hnil : contents b = []) by (apply nil_length_inv; by rewrite (length_contents n b Hwf)).
    assert (Hp : flush_plan repeat sockets b = []).
    { unfold flush_plan, copies. rewrite Hnil. cbn [map]. assert (H0 : forall k l, flat_map (fun _ : nat => @nil (nat * bytes)) (List.seq k l) = []).
      { intros k l. revert k. induction l; cbn; auto. }
      induction sockets as [|s ss IH]; cbn; [done|]. rewrite IH, H0. done. }
    exists true, b, c, w, []. rewrite Hp, app_nil_r. by split_and!.
  - destruct (set_iov_len_ok n b Hwf) as (b1 & -> & Hwf1 & Hc1 & _ & _ & _ & _ & Hiov). cbn [rbind].
    destruct (forM_prog (wd_wire w) (send_to repeat durable b1) (fun s => @copies b1 (fst s) repeat) sockets [] (true, c, w)) as (st & -> & Hp).
    { exists []. rewrite app_nil_r. done. }
    { intros s st dn _. by apply (send_to_ok Hwf1 Hiov). }
    destruct st as [[ok c'] w']. cbn [rbind]. destruct Hp as (sent & Hw & Hpre & Hall). cbn [fst snd] in *.
    fold (flush_plan repeat sockets b1) in Hpre, Hall. rewrite (flush_plan_ext _ _ b b1 Hc1) in *.
    destruct ok.
    + eexists true, _, c', w', sent. split; [done|]. split; [|split_and!; [done|done|reflexivity|done|by apply Hall]].
      destruct Hwf1 as [Hf Hcp Hi Hl Hs Hfit]. constructor; cbn [bt_frames bt_iov_len bt_lengths bt_size]; try done; try lia.
    + exists false, b1, c', w', sent. by split_and!.
Qed.

Lemma flush_batch_direct_completes (repeat : nat) (durable : bool) (n : nat) (sockets : list (nat * option bool)) (b : Batch) (c : SendCounters) (w : World) :
  wf_batch n b -> Forall (fun s => snd s = Some false) sockets -> forallb takes (wd_sends w) = true ->
  (length sockets * (repeat * bt_size b) <= length (wd_sends w))%nat ->
  exists b' c' w', flush_batch_direct repeat durable sockets b c w = Ok (true, b', c', w').
Proof.
  intros Hwf Hu Ht Hl. unfold flush_batch_direct. destruct (bt_size b =? 0)%nat; [by eexists _, _, _|].
  destruct (set_iov_len_ok n b Hwf) as (b1 & -> & Hwf1 & _ & Hs1 & _ & _ & _ & Hiov). cbn [rbind]. rewrite Forall_forall in Hu.
  destruct (forM_completes (repeat * bt_size b1) (send_to repeat durable b1) sockets) with (c := c) (w := w) as (c' & w' & E & _); [|done|by rewrite Hs1|].
  - intros s Hs. apply (send_to_completes Hwf1 Hiov). apply Hu. by apply list_elem_of_In.
  - rewrite E. cbn [rbind]. by eexists _, _, _.
Qed.

(** ** The packet counter

    [packets] is the number of datagrams on the wire, modulo 2^64, after every
    step that ends well; and none starts after a failure. *)
Definition tallied (c : SendCounters) (wire : list (nat * bytes)) : Prop := sc_packets c = u64 (Z.of_nat (length wire)).
Definition tally (st : bool * SendCounters * World) : Prop := tallied (snd (fst st)) (wd_wire (snd st)).
Definition counts (f : bool * SendCounters * World -> res (bool * SendCounters * World)) : Prop :=
  forall st st', f st = Ok st' -> fst (fst st') = true -> fst (fst st) = true /\ (tally st -> tally st').

Lemma tallied_more (c : SendCounters) (wire more : list (nat * bytes)) (a b d : Z) :
  tallied c wire -> tallied (mkCounters (u64 (sc_packets c + Z.of_nat (length more))) a b d) (wire ++ more).
Proof. unfold tallied. intros ->. cbn. rewrite wrap_add_l, length_app. f_equal. lia. Qed.

Lemma forM_counts {I} (body : I -> bool * SendCounters * World -> res (bool * SendCounters * World)) (ks : list I) :
  (forall i, counts (body i)) -> counts (forM ks body).
Proof.
  intros Hb. induction ks as [|i ks IH]; intros st st' E Hok; cbn [forM] in E; [by injection E as <-|].
  destruct (body i st) as [st1|] eqn:E1; [|done]. cbn [rbind] in E. destruct (IH _ _ E Hok) as [H1 C1]. destruct (Hb i _ _ E1 H1) as [H0 C0].
  split; [done|]. auto.
Qed.

Lemma length_messages_at (b : Batch) (lens : list Z) (k offset : nat) (ms : list bytes) : messages_at b lens offset k = Ok ms -> length ms = k.
Proof.
  revert offset ms. induction k as [|k IH]; intros offset ms E; cbn [messages_at] in E; [by injection E as <-|].
  destruct (message _ _ _) as [m|]; [|done]. cbn [rbind] in E. destruct (messages_at b lens (S offset) k) as [l|] eqn:El; [|done].
  cbn [rbind] in E. injection E as <-. cbn. f_equal. by eapply IH.
Qed.

Lemma sendmmsg_loop_counts (sock : nat) (b : Batch) (evs evs' : list send_event) (offset : nat) (c c' : SendCounters) (wire wire' : list (nat * bytes)) (ok : bool) :
  sendmmsg_loop sock b evs offset c wire = Ok (ok, c', evs', wire') -> tallied c wire -> tallied c' wire'.
Proof.
  revert offset c wire. induction evs as [|[stopping| |lens] evs IH]; intros offset c wire E; cbn [sendmmsg_loop] in E;
    (destruct (offset <? bt_size b)%nat; [|by injection E as <- <- <- <-]); try (by injection E as <- <- <- <-).
  - destruct stopping; [by injection E as <- <- <- <-|by eapply IH].
  - destruct (length (take _ lens) =? 0)%nat; [by injection E as <- <- <- <-|]. destruct (messages_at _ _ _ _) as [ms|] eqn:Em; [|done]. cbn [rbind] in E.
    apply length_messages_at in Em. set (c1 := mkCounters _ _ _ _) in *. set (wire1 := wire ++ _) in *.
    assert (Hc : tallied c wire -> tallied c1 wire1) by (intros Ht; unfold c1, wire1; rewrite <- Em, <- (length_map (pair sock) ms); by apply tallied_more).
    destruct (not_short _ _ _) as [okn|]; [|done]. cbn [rbind] in E. destruct okn; cbn [negb] in E; [|by injection E as <- <- <- <-].
    intros Ht. by eapply IH; [|apply Hc].
Qed.

Lemma stream_send_counts (durable : bool) (sock i : nat) (b : Batch) : counts (stream_send durable sock i b).
Proof.
  intros [[[] c] w] st' E Hok; cbn [stream_send negb] in E; [|by injection E as <-]. split; [done|]. destruct (message _ _ _) as [m|]; [|done]. cbn [rbind] in E.
  destruct (send_frame _ m) as [[out []] ts]; cbn [negb] in E; [|by injection E as <-]. destruct (if durable then _ else _) as [acked w1] eqn:Ew.
  assert (Hw : wd_wire w1 = wd_wire w ++ [(sock, m)]).
  { cbn [wd_acks] in Ew. destruct durable; [|by injection Ew as <- <-]. destruct (wd_acks w) as [|[a|] acks]; by injection Ew as <- <-. }
  destruct acked; cbn [negb] in E; injection E as <-; [|done]. unfold tally. cbn [fst snd]. rewrite Hw. apply (tallied_more c (wd_wire w) [(sock, m)]).
Qed.

Lemma udp_repeat_counts (sock r : nat) (b : Batch) : counts (udp_repeat sock b r).
Proof.
  intros [[[] c] w] st' E Hok; cbn [udp_repeat negb] in E; [|by injection E as <-]. split; [done|].
  destruct (sendmmsg_loop _ _ _ _ _ _) as [[[[ok c1] evs] wire]|] eqn:Es; [|done]. cbn [rbind] in E. injection E as <-. unfold tally. cbn [fst snd wd_wire].
  by eapply sendmmsg_loop_counts.
Qed.

Lemma send_to_counts (repeat : nat) (durable : bool) (b : Batch) (sock : nat * option bool) : counts (send_to repeat durable b sock).
Proof.
  intros [[[] c] w] st' E Hok; cbn [send_to negb] in E; [|by injection E as <-]. destruct (snd sock) as [[]|]; [| |by injection E as <-].
  - eapply forM_counts; [|done|done]. intros r. apply forM_counts. intros i. apply stream_send_counts.
  - eapply forM_counts; [|done|done]. intros r. apply udp_repeat_counts.
Qed.

Lemma flush_batch_direct_counts (repeat : nat) (durable : bool) (sockets : list (nat * option bool)) (b b' : Batch) (c c' : SendCounters) (w w' : World) :
  flush_batch_direct repeat durable sockets b c w = Ok (true, b', c', w') ->
  tallied c (wd_wire w) -> tallied c' (wd_wire w').
Proof.
  unfold flush_batch_direct. destruct (bt_size b =? 0)%nat; [by intros [= _ <- <-]|]. destruct (set_iov_len b) as [b1|]; [|done]. cbn [rbind].
  destruct (forM sockets _ _) as [[[ok c1] w1]|] eqn:E; [|done]. cbn [rbind]. destruct ok; [|done]. intros [= _ <- <-].
  by apply (forM_counts _ _ (send_to_counts repeat durable b1)) in E as [_ Hc].
Qed.

(** ** Properties *)

(** C24: Flushing a well-formed batch never reads or writes outside its
    buffers and always returns; whatever the kernel answers (partial sends,
    interruptions, short writes, failed acknowledgements), what it took is, in
    order, a prefix of the planned datagrams (for each destination the batch,
    repeated [repeat] times), and a flush that reports success has put all of
    them on the wire and emptied the batch, while a failed one keeps it.  With
    datagram sockets it does succeed if every [sendmmsg] takes at least one
    whole message and there is one call per message and destination. *)
Theorem flush_sends_in_order (repeat : nat) (durable : bool) (n : nat) (sockets : list (nat * option bool)) (b : Batch) (c : SendCounters) (w : World) :
  wf_batch n b ->
  exists ok b' c' w' sent,
    flush_batch_direct repeat durable sockets b c w = Ok (ok, b', c', w') /\ wf_batch n b' /\
    wd_wire w' = wd_wire w ++ sent /\ sent `prefix_of` flush_plan repeat sockets b /\
    (if ok then contents b' = [] /\ bt_size b' = 0%nat /\ sent = flush_plan repeat sockets b else contents b' = contents b) /\
    (Forall (fun s => snd s = Some false) sockets -> forallb takes (wd_sends w) = true ->
     (length sockets * (repeat * bt_size b) <= length (wd_sends w))%nat -> ok = true).
Proof.
  intros Hwf. destruct (flush_batch_direct_ok repeat durable n sockets b c w Hwf) as (ok & b' & c' & w' & sent & E & Hwf' & Hw & Hp & Hok).
  exists ok, b', c', w', sent. split_and!; try done. intros H1 H2 H3.
  destruct (flush_batch_direct_completes repeat durable n sockets b c w Hwf H1 H2 H3) as (b2 & c2 & w2 & E2). congruence.
Qed.

(** Two datagrams, two destinations, the first of which takes them one by one. *)
Definition demo_world : World := mkWorld [5] [STook [None]; STook [None; None]; STook [None; None]; STook [None]] [] [] [].
Definition demo_batch : Batch * World :=
  match queue_datagram (make_batch 4) [z2b 1] demo_world with
  | Ok (b, w) => match queue_datagram b [z2b 2; z2b 3] w with Ok x => x | Throw _ => (b, w) end
  | Throw _ => (make_batch 4, demo_world)
  end.
Definition demo_sockets : list (nat * option bool) := [(0%nat, Some false); (1%nat, Some false)].

Lemma demo_batch_wf : wf_batch 4 (fst demo_batch) /\ contents (fst demo_batch) = [[z2b 1]; [z2b 2; z2b 3]].
Proof.
  destruct (make_batch_wf 4) as [Hw Hc].
  destruct (queue_datagram_ok 4 _ [z2b 1] demo_world Hw) as (b & w & E & Hw1 & _ & Hc1 & _); [cbn; lia|apply Nat.leb_le; reflexivity|].
  destruct (queue_datagram_ok 4 b [z2b 2; z2b 3] w Hw1) as (b2 & w2 & E2 & Hw2 & _ & Hc2 & _);
    [rewrite <- (length_contents 4 b Hw1), Hc1; cbn; lia|apply Nat.leb_le; reflexivity|].
  unfold demo_batch. rewrite E, E2. cbn [fst]. split; [done|]. by rewrite Hc2, Hc1, Hc.
Qed.

Lemma flush_sends_in_order_witness :
  exists b' c' w', flush_batch_direct 1 false demo_sockets (fst demo_batch) (mkCounters 0 0 0 0) (snd demo_batch) = Ok (true, b', c', w') /\
    wd_wire w' = [(0%nat, [z2b 1]); (0%nat, [z2b 2; z2b 3]); (1%nat, [z2b 1]); (1%nat, [z2b 2; z2b 3])].
Proof.
  destruct (flush_sends_in_order 1 false 4 demo_sockets (fst demo_batch) (mkCounters 0 0 0 0) (snd demo_batch) (proj1 demo_batch_wf))
    as (ok & b' & c' & w' & sent & E & _ & Hw & _ & Hok & Hprog).
  assert (ok = true) as -> by (apply Hprog; [by repeat constructor|vm_compute; reflexivity|vm_compute; lia]).
  exists b', c', w'. split; [exact E|]. destruct Hok as (_ & _ & ->). rewrite Hw. vm_compute. reflexivity.
Defined.
