(* ===== verification/Fanout.v ===== *)
(** * Fan-out queues: [Fanout] of [harness/src/sender.cpp]

    Each destination has a bounded queue of batches, filled by the main thread
    ([enqueue]) and drained by a worker thread.  Both work on the queue under the
    destination's mutex, so a step here is one critical section, or the sending
    of one batch outside of it; the steps of the main thread and of the worker
    interleave freely.  A destination whose queue overflows or whose send fails
    is isolated: the others go on. *)
From S2P Require Import Prelude Message Wire Fec Multiplex Transport Batch.

Record Work := mkWork { wk_frames : list bytes; wk_bytes : Z }.

(** Where the worker thread is. *)
Inductive worker := Waiting | Sending (w : Work) | Exited.

(** [DestinationState]; the last three are histories: the batches offered by
    [enqueue], the ones sent completely, and what the socket took. *)
Record Dest := mkDest {
  d_queue : list Work; d_bytes : Z; d_done : bool; d_failed : bool; d_rejected : Z; d_counters : SendCounters; d_worker : worker;
  d_offered : list (list bytes); d_sent : list (list bytes); d_wire : list (nat * bytes)
}.

Definition dest_init : Dest := mkDest [] 0 false false 0 (mkCounters 0 0 0 0) Waiting [] [] [].

Section Fanout.
(** [cfg_] and the socket of this destination. *)
Variables (queue_bytes : Z) (batch_size repeat : nat) (durable_acks : bool) (sock : nat * option bool).

Definition frames_bytes (ms : list bytes) : Z := foldr (fun m a => Z.of_nat (length m) + a) 0 ms.
Definition queued_frames (q : list Work) : Z := foldr (fun w a => Z.of_nat (length (wk_frames w)) + a) 0 q.

(** The body of [enqueue] for this destination; [ms] are the messages of the
    batch. *)
Definition enqueue (ms : list bytes) (d : Dest) : Dest :=
  let offered := d_offered d ++ [ms] in
  if d_failed d then
    mkDest (d_queue d) (d_bytes d) (d_done d) true (u64 (d_rejected d + Z.of_nat (length ms))) (d_counters d) (d_worker d) offered (d_sent d) (d_wire d)
  else if queue_bytes <? d_bytes d + frames_bytes ms then
    mkDest [] 0 (d_done d) true (u64 (d_rejected d + Z.of_nat (length ms) + queued_frames (d_queue d))) (d_counters d) (d_worker d)
      offered (d_sent d) (d_wire d)
  else
    mkDest (d_queue d ++ [mkWork ms (frames_bytes ms)]) (d_bytes d + frames_bytes ms) (d_done d) false (d_rejected d) (d_counters d) (d_worker d)
      offered (d_sent d) (d_wire d).

(** The first loop of [finish]. *)
Definition set_done (d : Dest) : Dest :=
  mkDest (d_queue d) (d_bytes d) true (d_failed d) (d_rejected d) (d_counters d) (d_worker d) (d_offered d) (d_sent d) (d_wire d).

(** The destructor ([close_sockets] and [stop_fanout] on the error paths): the
    queue is thrown away and the worker told to leave. *)
Definition abandon (d : Dest) : Dest :=
  mkDest [] (d_bytes d) true true (d_rejected d) (d_counters d) (d_worker d) (d_offered d) (d_sent d) (d_wire d).

(** The worker's critical section: the wait ends, and it takes a batch or leaves. *)
Definition wake (d : Dest) : option Dest :=
  match d_worker d with
  | Waiting =>
    if d_done d || d_failed d || negb (length (d_queue d) =? 0)%nat then
      if d_failed d || (d_done d && (length (d_queue d) =? 0)%nat) then
        Some (mkDest (d_queue d) (d_bytes d) (d_done d) (d_failed d) (d_rejected d) (d_counters d) Exited (d_offered d) (d_sent d) (d_wire d))
      else match d_queue d with
      | w :: q => Some (mkDest q (d_bytes d - wk_bytes w) (d_done d) (d_failed d) (d_rejected d) (d_counters d) (Sending w)
                          (d_offered d) (d_sent d) (d_wire d))
      | [] => None
      end
    else None
  | _ => None
  end.

(** The worker sends a batch: a fresh [Batch] filled with its frames. *)
Fixpoint queue_all (b : Batch) (ms : list bytes) (w : World) : res (Batch * World) :=
  match ms with
  | [] => Ok (b, w)
  | m :: ms' => let! '(b, w) := queue_datagram b m w in queue_all b ms' w
  end.
Definition send_work (ms : list bytes) (c : SendCounters) (w : World) : res (bool * SendCounters * World) :=
  let! '(b, w) := queue_all (make_batch batch_size) ms w in
  let! '(ok, _, c, w) := flush_batch_direct repeat durable_acks [sock] b c w in
  Ok (ok, c, w).

Definition sent_step (wk : Work) (ok : bool) (c : SendCounters) (wire : list (nat * bytes)) (d : Dest) : Dest :=
  if ok then mkDest (d_queue d) (d_bytes d) (d_done d) (d_failed d) (d_rejected d) c Waiting (d_offered d) (d_sent d ++ [wk_frames wk]) wire
  else mkDest [] 0 (d_done d) true (u64 (d_rejected d + Z.of_nat (length (wk_frames wk)) + queued_frames (d_queue d))) c Exited
         (d_offered d) (d_sent d) wire.

(** The batches the main thread hands over fit a [Batch]. *)
Definition fits (ms : list bytes) : Prop := (length ms <= batch_size)%nat /\ Forall (fun m => (length m <= datagram_cap)%nat) ms.

Inductive dstep (d : Dest) : Dest -> Prop :=
| d_enqueue ms : d_done d = false -> fits ms -> dstep d (enqueue ms d)
| d_set_done : dstep d (set_done d)
| d_wake d' : wake d = Some d' -> dstep d d'
| d_send wk w ok c w' : d_worker d = Sending wk -> wd_wire w = d_wire d ->
    send_work (wk_frames wk) (d_counters d) w = Ok (ok, c, w') -> dstep d (sent_step wk ok c (wd_wire w') d).

Inductive dreach : Dest -> Prop :=
| dreach_init : dreach dest_init
| dreach_step d d' : dreach d -> dstep d d' -> dreach d'.

(** ** The invariant *)

(** What a completely sent batch leaves on the wire. *)
Definition wire_of_work (ms : list bytes) : list (nat * bytes) := flat_map (fun _ => map (pair (fst sock)) ms) (List.seq 0 repeat).

Definition in_flight (d : Dest) : list (list bytes) := match d_worker d with Sending w => [wk_frames w] | _ => [] end.

Definition count_frames (bs : list (list bytes)) : Z := foldr (fun ms a => Z.of_nat (length ms) + a) 0 bs.
#[local] Arguments count_frames : simpl never.

Record dinv (d : Dest) : Prop := {
  di_work : Forall (fun w => wk_bytes w = frames_bytes (wk_frames w) /\ fits (wk_frames w)) (d_queue d);
  di_flight w : d_worker d = Sending w -> fits (wk_frames w);
  di_bytes : d_bytes d = foldr (fun w a => wk_bytes w + a) 0 (d_queue d) /\ (0 <= queue_bytes -> d_bytes d <= queue_bytes);
  di_order : d_failed d = false -> d_offered d = d_sent d ++ in_flight d ++ map wk_frames (d_queue d);
  di_prefix : (d_sent d ++ in_flight d) `prefix_of` d_offered d;
  di_failed : d_failed d = true -> d_queue d = [] /\
    d_rejected d = u64 (count_frames (d_offered d) - count_frames (d_sent d) - count_frames (in_flight d));
  di_rejected : d_failed d = false -> d_rejected d = 0;
  di_exit : d_worker d = Exited -> d_failed d = true \/ (d_done d = true /\ d_queue d = []);
  di_wire : exists tail, d_wire d = flat_map wire_of_work (d_sent d) ++ tail /\ (d_worker d <> Exited \/ d_failed d = false -> tail = [])
}.

Lemma frames_bytes_nonneg (ms : list bytes) : 0 <= frames_bytes ms.
Proof. unfold frames_bytes. induction ms; cbn; lia. Qed.

Lemma count_frames_app (a b : list (list bytes)) : count_frames (a ++ b) = count_frames a + count_frames b.
Proof. unfold count_frames. induction a as [|x a IH]; [done|]. cbn [app foldr]. rewrite IH. lia. Qed.

Lemma count_frames_one (ms : list bytes) : count_frames [ms] = Z.of_nat (length ms).
Proof. unfold count_frames. cbn. lia. Qed.
Lemma count_frames_nil : count_frames [] = 0.
Proof. done. Qed.

Lemma queued_count (q : list Work) : queued_frames q = count_frames (map wk_frames q).
Proof. unfold queued_frames, count_frames. induction q as [|w q IH]; [done|]. cbn [map foldr]. by rewrite IH. Qed.

Lemma queue_all_ok (ms : list bytes) (b : Batch) (w : World) :
  wf_batch batch_size b -> (bt_size b + length ms <= batch_size)%nat -> Forall (fun m => (length m <= datagram_cap)%nat) ms ->
  exists b' w', queue_all b ms w = Ok (b', w') /\ wf_batch batch_size b' /\ contents b' = contents b ++ ms /\ wd_wire w' = wd_wire w.
Proof.
  revert b w. induction ms as [|m ms IH]; intros b w Hwf Hl Hf; [exists b, w; by rewrite app_nil_r|]. inversion Hf as [|? ? Hm Hms]; subst.
  cbn [queue_all length] in *. destruct (queue_datagram_ok _ b m w Hwf ltac:(lia) Hm) as (b1 & w1 & -> & Hwf1 & Hs1 & Hc1 & Hw1). cbn [rbind].
  destruct (IH b1 w1 Hwf1 ltac:(lia) Hms) as (b2 & w2 & E & Hwf2 & Hc2 & Hw2). exists b2, w2. split_and!; [done|done| |congruence].
  by rewrite Hc2, Hc1, <- app_assoc.
Qed.

(** Sending a batch always returns; it sends a prefix, all of it on success. *)
Lemma send_work_ok (ms : list bytes) (c : SendCounters) (w : World) :
  fits ms -> exists ok c' w' sent, send_work ms c w = Ok (ok, c', w') /\ wd_wire w' = wd_wire w ++ sent /\
    (ok = true -> sent = wire_of_work ms).
Proof.
  intros [Hl Hf]. destruct (make_batch_wf batch_size) as [Hwf Hc].
  destruct (queue_all_ok ms _ w Hwf Hl Hf) as (b & w1 & E & Hwf1 & Hc1 & Hw1). unfold send_work. rewrite E. cbn [rbind].
  destruct (flush_batch_direct_ok repeat durable_acks batch_size [sock] b c w1 Hwf1) as (ok & b' & c' & w' & sent & -> & _ & Hw & _ & Hok).
  cbn [rbind]. exists ok, c', w', sent. split_and!; [done|congruence|]. intros ->. destruct Hok as (_ & _ & ->).
  unfold flush_plan, copies. cbn [flat_map]. rewrite app_nil_r, Hc1, Hc. done.
Qed.

Lemma dinv_init : dinv dest_init.
Proof. constructor; cbn; try done; [by constructor..|]. by exists []. Qed.

Lemma wrap_sub (a b : Z) : u64 (u64 a + b) = u64 (a + b).
Proof. apply wrap_add_l. Qed.

Lemma enqueue_inv (ms : list bytes) (d : Dest) : dinv d -> d_done d = false -> fits ms -> dinv (enqueue ms d).
Proof.
  intros [Hw Hfl Hb Ho Hp Hf Hr He Hwi] Hd Hms. unfold enqueue. destruct (d_failed d) eqn:Hfd.
  - destruct (Hf eq_refl) as [Hq Hrej]. constructor; cbn; try done; [by apply prefix_app_r|].
    intros _. split; [done|]. rewrite Hrej, wrap_sub, count_frames_app, count_frames_one. f_equal. unfold in_flight. cbn. lia.
  - specialize (Ho eq_refl). specialize (Hr eq_refl). assert (Hne : d_worker d <> Exited) by (intros E; destruct (He E) as [?|[? _]]; congruence).
    destruct (Z.ltb_spec queue_bytes (d_bytes d + frames_bytes ms)) as [Hov|Hok].
    + constructor; cbn; try done; [by apply prefix_app_r| |].
      * intros _. split; [done|]. rewrite Hr, queued_count, count_frames_app, Ho, !count_frames_app, count_frames_one. f_equal. unfold in_flight. cbn. lia.
      * destruct Hwi as (tail & Hwi & Ht). exists tail. split; [done|]. intros _. apply Ht. by left.
    + constructor; cbn; try done.
      * apply Forall_app. split; [done|by apply Forall_singleton].
      * split; [|lia]. rewrite (proj1 Hb), foldr_app. cbn. clear. induction (d_queue d) as [|w q IH]; cbn; [lia|]. rewrite <- IH. lia.
      * intros _. unfold in_flight in *. cbn. by rewrite Ho, map_app, <- !app_assoc.
      * by apply prefix_app_r.
Qed.

Lemma set_done_inv (d : Dest) : dinv d -> dinv (set_done d).
Proof. intros [Hw Hfl Hb Ho Hp Hf Hr He Hwi]. constructor; cbn; try done. intros E. destruct (He E) as [?|[_ ?]]; auto. Qed.

(** The worker leaves, or takes the oldest batch. *)
Lemma wake_inv (d d' : Dest) : dinv d -> wake d = Some d' -> dinv d'.
Proof.
  intros [Hw Hfl Hb Ho Hp Hf Hr He Hwi] E. unfold wake in E. destruct (d_worker d) eqn:Hwk; try done. unfold in_flight in Ho, Hp, Hf. rewrite Hwk in Ho, Hp, Hf.
  destruct (_ || negb _); [|done]. destruct (d_failed d || (d_done d && (length (d_queue d) =? 0)%nat)) eqn:Hleave.
  - injection E as <-. constructor; cbn; try done.
    + intros _. apply orb_true_iff in Hleave as [?|Hl]; [by left|right]. apply andb_true_iff in Hl as [? Hl]. split; [done|]. by apply Nat.eqb_eq, nil_length_inv in Hl.
    + destruct Hwi as (tail & Hwi & Ht). exists tail. split; [done|]. intros _. apply Ht. by left.
  - apply orb_false_iff in Hleave as [Hfd _]. destruct (d_queue d) as [|w q] eqn:Hq; [done|]. injection E as <-. inversion Hw as [|? ? Hw1 Hw2]; subst.
    specialize (Ho Hfd). constructor; cbn; try done; try congruence.
    + intros w' [= <-]. apply Hw1.
    + cbn in Hb. split; [lia|]. intros Hqb. destruct Hb as [-> Hle]. specialize (Hle Hqb).
      pose proof (frames_bytes_nonneg (wk_frames w)). rewrite (proj1 Hw1) in *. lia.
    + rewrite Ho. unfold in_flight. cbn. apply prefix_app. by eexists.
    + destruct Hwi as (tail & Hwi & Ht). exists tail. split; [done|]. intros _. apply Ht. by left.
Qed.

Lemma send_inv (d : Dest) (wk : Work) (w w' : World) (ok : bool) (c : SendCounters) :
  dinv d -> d_worker d = Sending wk -> wd_wire w = d_wire d -> send_work (wk_frames wk) (d_counters d) w = Ok (ok, c, w') ->
  dinv (sent_step wk ok c (wd_wire w') d).
Proof.
  intros [Hw Hfl Hb Ho Hp Hf Hr He Hwi] Hwk Hww E.
  destruct (send_work_ok (wk_frames wk) (d_counters d) w (Hfl wk Hwk)) as (ok2 & c2 & w2 & sent & E2 & Hsent & Hall).
  rewrite E in E2. injection E2 as <- <- <-. unfold in_flight in Ho, Hp, Hf. rewrite Hwk in *.
  destruct Hwi as (tail & Hwi & Ht). rewrite (Ht ltac:(by left)), app_nil_r in Hwi. unfold sent_step. destruct ok.
  - constructor; cbn; try done.
    + intros Hfd. rewrite (Ho Hfd), <- app_assoc. done.
    + unfold in_flight. cbn. by rewrite app_nil_r.
    + intros Hfd. destruct (Hf Hfd) as [Hq ->]. split; [done|]. unfold in_flight. cbn. f_equal. rewrite count_frames_app, count_frames_one, count_frames_nil. lia.
    + exists []. rewrite app_nil_r. split; [|done]. rewrite Hsent, Hww, Hwi, (Hall eq_refl), flat_map_app. cbn. by rewrite app_nil_r.
  - constructor; cbn; try done.
    + unfold in_flight. cbn. rewrite app_nil_r. etrans; [|exact Hp]. by apply prefix_app_r.
    + intros _. split; [done|]. unfold in_flight. cbn. rewrite count_frames_nil, queued_count. destruct (d_failed d).
      * destruct (Hf eq_refl) as [-> ->]. cbn [map]. rewrite <- Z.add_assoc, wrap_sub. f_equal. rewrite count_frames_one, count_frames_nil. lia.
      * rewrite (Hr eq_refl), (Ho eq_refl), !count_frames_app, count_frames_one. f_equal. lia.
    + intros _. by left.
    + exists sent. split; [by rewrite Hsent, Hww, Hwi|]. intros [?|?]; done.
Qed.

Lemma dreach_inv (d : Dest) : dreach d -> dinv d.
Proof.
  induction 1 as [|d d' _ IH [ms Hd Hms| |d'' Hw|wk w ok c w' Hwk Hww E]];
    [apply dinv_init|by apply enqueue_inv|by apply set_done_inv|by eapply wake_inv|by eapply send_inv].
Qed.

(** The work left for the worker. *)
Definition remaining (d : Dest) : nat :=
  2 * length (d_queue d) + match d_worker d with Exited => 0 | Waiting => 1 | Sending _ => 2 end.

(** A step of the worker thread. *)
Inductive worker_step (d : Dest) : Dest -> Prop :=
| ws_wake d' : wake d = Some d' -> worker_step d d'
| ws_send wk w ok c w' : d_worker d = Sending wk -> wd_wire w = d_wire d ->
    send_work (wk_frames wk) (d_counters d) w = Ok (ok, c, w') -> worker_step d (sent_step wk ok c (wd_wire w') d).

Lemma worker_step_decreases (d d' : Dest) : worker_step d d' -> (remaining d' < remaining d)%nat.
Proof.
  intros [d'' E|wk w ok c w' Hwk _ _].
  - unfold wake in E. unfold remaining. destruct (d_worker d) eqn:Hwk; try done. destruct (_ || negb _); [|done]. destruct (d_failed d || _).
    + injection E as <-. cbn. lia.
    + destruct (d_queue d) as [|w q]; [done|]. injection E as <-. cbn. lia.
  - unfold remaining, sent_step. rewrite Hwk. destruct ok; cbn; lia.
Qed.

Lemma worker_steps_bounded (n : nat) (d d' : Dest) : nsteps worker_step n d d' -> (n <= remaining d)%nat.
Proof. induction 1 as [d|n d1 d2 d3 H1 _ IH]; [lia|]. apply worker_step_decreases in H1. lia. Qed.

Lemma remaining_abandoned (d : Dest) : (remaining (abandon d) <= 2)%nat.
Proof. unfold remaining, abandon. cbn. destruct (d_worker d); lia. Qed.

Lemma worker_not_stuck (d : Dest) : dinv d -> d_done d = true -> d_worker d <> Exited -> exists d', worker_step d d'.
Proof.
  intros Hi Hd Hne. destruct (d_worker d) as [|wk|] eqn:Hwk; [| |done].
  - destruct (wake d) as [d'|] eqn:E; [exists d'; by apply ws_wake|]. unfold wake in E. rewrite Hwk, Hd in E. cbn [orb andb] in E.
    destruct (d_failed d || _) eqn:Hl; [done|]. destruct (d_queue d); [|done]. by rewrite orb_true_r in Hl.
  - destruct (send_work_ok (wk_frames wk) (d_counters d) (mkWorld [] [] [] [] (d_wire d)) (di_flight d Hi wk Hwk)) as (ok & c & w' & sent & E & _).
    exists (sent_step wk ok c (wd_wire w') d). by apply (ws_send d wk (mkWorld [] [] [] [] (d_wire d)) ok c w').
Qed.
(** Every maximal run of the worker after [finish] has set [done] ends. *)
Lemma worker_done_step (d d' : Dest) : worker_step d d' -> d_done d' = d_done d /\ dstep d d'.
Proof.
  intros [d'' E|wk w ok c w' Hwk Hww E].
  - split; [|by apply d_wake]. unfold wake in E. destruct (d_worker d); try done. destruct (_ || negb _); [|done]. destruct (d_failed d || _); [by injection E as <-|].
    destruct (d_queue d); [done|]. by injection E as <-.
  - split; [|by eapply d_send]. unfold sent_step. by destruct ok.
Qed.
End Fanout.

(** ** The destinations together: [finish] *)

(** The result of [finish] once every worker has been joined. *)
Definition finish (ds : list Dest) (c : SendCounters) : bool * SendCounters :=
  (forallb (fun d => negb (d_failed d)) ds,
   foldl (fun c d => mkCounters (u64 (sc_packets c + sc_packets (d_counters d))) (u64 (sc_sendmmsg_calls c + sc_sendmmsg_calls (d_counters d)))
                       (u64 (sc_send_calls c + sc_send_calls (d_counters d))) (Z.max (sc_max_batch c) (sc_max_batch (d_counters d)))) c ds).

(** [finish] returns true when every destination has got everything. *)
Lemma finish_delivers (queue_bytes : Z) (batch_size repeat : nat) (durable : bool)
    (ds : list Dest) (socks : list (nat * option bool)) (c : SendCounters) :
  Forall2 (fun d s => dreach queue_bytes batch_size repeat durable s d /\ d_worker d = Exited) ds socks ->
  fst (finish ds c) = true ->
  Forall2 (fun d s => d_sent d = d_offered d /\ d_wire d = flat_map (wire_of_work repeat s) (d_offered d) /\ d_rejected d = 0) ds socks.
Proof.
  intros H Hok. cbn in Hok. induction H as [|d s ds socks [Hr Hx] _ IH]; [done|]. cbn in Hok. apply andb_true_iff in Hok as [Hf Hok].
  constructor; [|by apply IH]. apply negb_true_iff in Hf. destruct (dreach_inv _ _ _ _ _ d Hr) as [_ _ _ Ho _ _ Hrej He (tail & Hw & Ht)].
  destruct (He Hx) as [?|[_ Hq]]; [congruence|]. specialize (Ho Hf). rewrite Hq in Ho. unfold in_flight in Ho. rewrite Hx in Ho. cbn in Ho. rewrite app_nil_r in Ho.
  split_and!; [done| |by apply Hrej]. rewrite Hw, (Ht ltac:(by right)), app_nil_r. congruence.
Qed.

(** ** Properties *)

(** C19: [finish] returning true means delivery: if every worker has exited and
    no destination is marked failed, each destination's socket has taken every
    batch that was ever enqueued, in order and repeated as configured, and
    nothing else; in every interleaving of the main thread and the workers. *)
Theorem fanout_finish_means_delivered (queue_bytes : Z) (batch_size repeat : nat) (durable : bool)
    (ds : list Dest) (socks : list (nat * option bool)) (c : SendCounters) :
  Forall2 (fun d s => dreach queue_bytes batch_size repeat durable s d /\ d_worker d = Exited) ds socks ->
  fst (finish ds c) = true ->
  Forall2 (fun d s => d_sent d = d_offered d /\ d_wire d = flat_map (wire_of_work repeat s) (d_offered d) /\ d_rejected d = 0) ds socks.
Proof. apply finish_delivers. Qed.

(** C28: A destination's queue never holds more than [queue_bytes], and its
    accounting is exact: while it has not failed nothing was rejected and the
    offered batches are, in order, the ones sent, the one in flight and the ones
    queued; once it has failed, every frame offered was sent, is in flight, or
    is counted in [rejected] (modulo 2^64), and what was sent is a prefix. *)
Theorem fanout_accounting (queue_bytes : Z) (batch_size repeat : nat) (durable : bool) (s : nat * option bool) (d : Dest) :
  0 <= queue_bytes -> dreach queue_bytes batch_size repeat durable s d ->
  0 <= d_bytes d <= queue_bytes /\ d_sent d `prefix_of` d_offered d /\
  (d_failed d = false -> d_rejected d = 0 /\ d_offered d = d_sent d ++ in_flight d ++ map wk_frames (d_queue d)) /\
  (d_failed d = true -> d_queue d = [] /\ d_rejected d = u64 (count_frames (d_offered d) - count_frames (d_sent d) - count_frames (in_flight d))).
Proof.
  intros Hq Hr. destruct (dreach_inv _ _ _ _ _ d Hr) as [Hw _ [Hb Hle] Ho Hp Hf Hrej _ _]. split_and!.
  - rewrite Hb. clear -Hw. induction Hw as [|w q [Hwb _] _ IH]; [done|]. cbn. rewrite Hwb. pose proof (frames_bytes_nonneg (wk_frames w)). lia.
  - by apply Hle.
  - etrans; [|exact Hp]. by apply prefix_app_r.
  - intros E. split; [by apply Hrej|by apply Ho].
  - exact Hf.
Qed.


(** ** A concrete run: one batch through one destination *)
Definition demo_ms : list bytes := [[z2b 1]; [z2b 2; z2b 3]].
Definition demo_sock : nat * option bool := (0%nat, Some false).
Definition demo_d1 : Dest := enqueue 65536 demo_ms dest_init.
Definition demo_d2 : Dest := match wake demo_d1 with Some d => d | None => demo_d1 end.
Definition demo_after : Dest :=
  match send_work 4 1 false demo_sock demo_ms (mkCounters 0 0 0 0) (mkWorld [] [STook [None; None]] [] [] []) with
  | Ok (ok, c, w) => sent_step (mkWork demo_ms 3) ok c (wd_wire w) demo_d2
  | Throw _ => demo_d2
  end.
Definition demo_d4 : Dest := set_done demo_after.
Definition demo_exit : Dest := match wake demo_d4 with Some d => d | None => demo_d4 end.

Lemma demo_after_reach : dreach 65536 4 1 false demo_sock demo_after.
Proof.
  assert (H1 : dreach 65536 4 1 false demo_sock demo_d1).
  { eapply dreach_step; [apply dreach_init|]. apply d_enqueue; [done|]. split; [vm_compute; lia|]. repeat (apply Forall_cons; split; [apply Nat.leb_le; vm_compute; reflexivity|]). by apply Forall_nil. }
  assert (H2 : dreach 65536 4 1 false demo_sock demo_d2) by (eapply dreach_step; [exact H1|]; apply d_wake; vm_compute; reflexivity).
  eapply dreach_step; [exact H2|]. unfold demo_after.
  destruct (send_work 4 1 false demo_sock demo_ms (mkCounters 0 0 0 0) (mkWorld [] [STook [None; None]] [] [] [])) as [[[ok c] w]|f] eqn:E.
  - apply (d_send _ _ _ _ _ demo_d2 (mkWork demo_ms 3) (mkWorld [] [STook [None; None]] [] [] []) ok c w); [vm_compute; reflexivity|vm_compute; reflexivity|exact E].
  - exfalso. vm_compute in E. discriminate E.
Qed.

Lemma demo_d4_reach : dreach 65536 4 1 false demo_sock demo_d4.
Proof. eapply dreach_step; [exact demo_after_reach|apply d_set_done]. Qed.

Lemma demo_exit_step : wake demo_d4 = Some demo_exit.
Proof. vm_compute. reflexivity. Qed.

Lemma demo_exit_reach : dreach 65536 4 1 false demo_sock demo_exit /\ d_worker demo_exit = Exited.
Proof. split; [eapply dreach_step; [exact demo_d4_reach|apply d_wake; exact demo_exit_step]|vm_compute; reflexivity]. Qed.

Lemma fanout_finish_means_delivered_witness :
  d_wire demo_exit = flat_map (wire_of_work 1 demo_sock) (d_offered demo_exit) /\ d_offered demo_exit = [demo_ms].
Proof.
  assert (H : Forall2 (fun d s => dreach 65536 4 1 false s d /\ d_worker d = Exited) [demo_exit] [demo_sock]) by (constructor; [apply demo_exit_reach|constructor]).
  pose proof (fanout_finish_means_delivered 65536 4 1 false [demo_exit] [demo_sock] (mkCounters 0 0 0 0) H ltac:(vm_compute; reflexivity)) as Hd.
  inversion Hd as [|? ? ? ? (_ & Hw & _) _]. split; [exact Hw|vm_compute; reflexivity].
Defined.

Lemma fanout_accounting_witness : 0 <= d_bytes demo_after <= 65536 /\ d_sent demo_after `prefix_of` d_offered demo_after.
Proof.
  destruct (fanout_accounting 65536 4 1 false demo_sock demo_after ltac:(lia) demo_after_reach) as (H1 & H2 & _). split; [exact H1|exact H2].
Defined.

