(* ===== verification/Sender.v ===== *)
(** * Sender: [harness/src/sender.cpp]

    The path of a frame from the ring to the sockets: [flush_batch],
    [queue_or_flush], [flush_pending], [emit_datagram], [close_generation] and
    the main loop with its fast path.  The answers of the ring, the kernel, the
    clock and the random generator are inputs; [Batch] models the transmission
    and [Fanout] what happens to a batch that is handed to the worker threads. *)
From S2P Require Import Prelude Double Message Wire Samples Fec Multiplex Sink Ring Transport Batch.

Record TxConfig := mkTxConfig {
  tx_key : Key;                  (* stream_id, stream_epoch *)
  tx_durable_acks : bool; tx_count : Z; tx_idle_ms : Z; tx_repeat : nat;
  tx_batch_size : nat; tx_batch_timeout_us : Z;
  tx_fec_k : Z; tx_fec_parity : Z; tx_fec_timeout_us : Z;
  tx_test_drop_pct : double; tx_test_reorder_pct : double;
  tx_test_reorder_delay_us : Z;
  tx_echo : bool;                (* echo_out_shm is not empty *)
  tx_sockets : list (nat * option bool)
}.

(** [cfg.test_drop_pct > 0.0] and [cfg.test_reorder_pct > 0.0]. *)
Definition tx_test_drop (c : TxConfig) : bool := SFltb (S754_zero false) (tx_test_drop_pct c).
Definition tx_test_reorder (c : TxConfig) : bool := SFltb (S754_zero false) (tx_test_reorder_pct c).

(** The batch in the making, the counters, the kernel, and the batches that
    left [flush_batch] (a history variable; in fan-out mode the arguments of
    [fanout->enqueue]). *)
Record Out := mkOut { o_batch : Batch; o_counters : SendCounters; o_io : World; o_flushed : list (list bytes) }.

Record PendingDatagram := mkPending { pd_bytes : bytes; pd_release_ns : Z }.

(** What [emit_datagram] takes by reference; [e_draws] are the outcomes of
    [dist(rng) < pct] and [e_lost] a history of the datagrams dropped on purpose. *)
Record Em := mkEm {
  e_out : Out; e_pending : list PendingDatagram; e_draws : list bool; e_dropped : Z; e_reordered : Z; e_lost : list bytes
}.

Section Emit.
Variable cfg : TxConfig.

Definition fanout : bool := (1 <? length (tx_sockets cfg))%nat.

(** The multiplex header is put in front of message [i], in place. *)
Definition wrap_one (i : nat) (b : Batch) : res Batch :=
  let! m := message (bt_frames b) (bt_lengths b) i in
  let packet := mux_wrap (tx_key cfg) m in
  let! lengths := vset (bt_lengths b) i (Z.of_nat (length packet)) in
  let! buf := vget (bt_frames b) i in
  let! buf := overwrite buf 0 packet in
  let! frames := vset (bt_frames b) i buf in
  Ok (mkBatch frames (bt_iov_len b) lengths (bt_size b) (bt_first_ns b)).

Definition flush_batch (o : Out) : res (bool * Out) :=
  if (bt_size (o_batch o) =? 0)%nat then Ok (true, o)
  else
    let! b := forM (List.seq 0 (bt_size (o_batch o))) wrap_one (o_batch o) in
    let! ms := messages_at b (bt_lengths b) 0 (bt_size b) in
    if fanout then Ok (true, mkOut (mkBatch (bt_frames b) (bt_iov_len b) (bt_lengths b) 0 0) (o_counters o) (o_io o) (o_flushed o ++ [ms]))
    else
      let! '(ok, b, c, w) := flush_batch_direct (tx_repeat cfg) (tx_durable_acks cfg) (tx_sockets cfg) b (o_counters o) (o_io o) in
      Ok (ok, mkOut b c w (if ok then o_flushed o ++ [ms] else o_flushed o)).

Definition queue_or_flush (o : Out) (data : bytes) : res (bool * Out) :=
  let! '(b, w) := queue_datagram (o_batch o) data (o_io o) in
  let o := mkOut b (o_counters o) w (o_flushed o) in
  if (tx_batch_size cfg <=? bt_size b)%nat then flush_batch o else Ok (true, o).

(** [flush_pending]: the kept datagrams are compacted to the front.  After a
    failure the queue is not used again. *)
Fixpoint flush_pending (o : Out) (pending : list PendingDatagram) (now_ns : Z) (all : bool) : res (bool * Out * list PendingDatagram) :=
  match pending with
  | [] => Ok (true, o, [])
  | p :: ps =>
    if all || (pd_release_ns p <=? now_ns) then
      let! '(ok, o) := queue_or_flush o (pd_bytes p) in
      if ok then flush_pending o ps now_ns all else Ok (false, o, pending)
    else
      let! '(ok, o, kept) := flush_pending o ps now_ns all in Ok (ok, o, p :: kept)
  end.

Definition flush_pending_em (e : Em) (now_ns : Z) (all : bool) : res (bool * Em) :=
  let! '(ok, o, pending) := flush_pending (e_out e) (e_pending e) now_ns all in
  Ok (ok, mkEm o pending (e_draws e) (e_dropped e) (e_reordered e) (e_lost e)).

Definition now_em (e : Em) : Z * Em :=
  let '(t, w) := steady_now_ns (o_io (e_out e)) in
  (t, mkEm (mkOut (o_batch (e_out e)) (o_counters (e_out e)) w (o_flushed (e_out e))) (e_pending e) (e_draws e) (e_dropped e) (e_reordered e) (e_lost e)).

(** [dist(rng) < pct], evaluated only when [enabled]. *)
Definition draw (enabled : bool) (e : Em) : bool * Em :=
  if enabled then
    match e_draws e with
    | [] => (false, e)
    | d :: ds => (d, mkEm (e_out e) (e_pending e) ds (e_dropped e) (e_reordered e) (e_lost e))
    end
  else (false, e).

Definition emit_datagram (e : Em) (data : bytes) : res (bool * Em) :=
  let '(now_ns, e) := now_em e in
  let! '(ok, e) := flush_pending_em e now_ns false in
  if negb ok then Ok (false, e)
  else
    let '(drop, e) := draw (tx_test_drop cfg) e in
    if drop then Ok (true, mkEm (e_out e) (e_pending e) (e_draws e) (u64 (e_dropped e + 1)) (e_reordered e) (e_lost e ++ [data]))
    else
      let '(reorder, e) := draw (tx_test_reorder cfg && (0 <? tx_test_reorder_delay_us cfg)) e in
      if reorder then
        if 65536 <=? Z.of_nat (length (e_pending e)) then Ok (false, e)
        else Ok (true, mkEm (e_out e) (e_pending e ++ [mkPending data (u64 (now_ns + tx_test_reorder_delay_us cfg * 1000))])
                         (e_draws e) (e_dropped e) (u64 (e_reordered e + 1)) (e_lost e))
      else
        let! '(ok, o) := queue_or_flush (e_out e) data in
        let e := mkEm o (e_pending e) (e_draws e) (e_dropped e) (e_reordered e) (e_lost e) in
        if negb ok then Ok (false, e)
        else let '(now_ns, e) := now_em e in flush_pending_em e now_ns false.

(** Emits each datagram of a list, stopping at the first failure. *)
Fixpoint emit_all (e : Em) (ds : list bytes) : res (bool * Em) :=
  match ds with
  | [] => Ok (true, e)
  | d :: ds' => let! '(ok, e) := emit_datagram e d in if ok then emit_all e ds' else Ok (false, e)
  end.
End Emit.

(** ** Forward error correction and the main loop *)

(** The encoder with the statistics of [run]; [f_built] is the history of the
    generations closed: the encoder, the reason and what was built. *)
Record Fs := mkFs {
  f_encoder : Encoder; f_gen_id : Z; f_first_ns : Z; f_last_arrival_ns : Z; f_intervals : list Z;
  f_parity_sent : Z; f_closed_by_k : Z; f_closed_by_timeout : Z; f_closed_by_flush : Z;
  f_data_bytes : Z; f_parity_bytes : Z; f_built : list (Encoder * Z * BuiltGeneration)
}.

Definition sum_lengths (ds : list bytes) (acc : Z) : Z := foldl (fun a d => u64 (a + Z.of_nat (length d))) acc ds.

(** The answer of one [recv] on the echo socket. *)
Inductive echo_event := EGot (frame : bytes) | EIntr | EAgain | EError.

(** All of [run]'s locals that the loop changes; [t_reads] are the answers of
    [ring.read], [t_taken] the history of the frames encoded. *)
Record Tx (R : Type) := mkTx {
  t_em : Em; t_fs : Fs; t_reads : list (FrameStatus * bytes * Z); t_read_index : Z; t_sent : Z; t_lapped : Z; t_skipped : Z;
  t_last_progress : Z; t_echo : list echo_event; t_echo_ring : R; t_echo_received : Z; t_taken : list bytes
}.
Arguments mkTx {R}. Arguments t_em {R}. Arguments t_fs {R}. Arguments t_reads {R}. Arguments t_read_index {R}. Arguments t_sent {R}.
Arguments t_lapped {R}. Arguments t_skipped {R}. Arguments t_last_progress {R}. Arguments t_echo {R}. Arguments t_echo_ring {R}.
Arguments t_echo_received {R}. Arguments t_taken {R}.

(** How a turn of the loop ends: [Exit1] is [close_sockets; return 1]. *)
Inductive outcome := Continue | IdleBreak | Exit1.

Section Run.
Context {R : Type} `{Sink R}.
Variable cfg : TxConfig.

(** [close_generation]. *)
Definition close_generation (e : Em) (f : Fs) (reason : Z) : res (bool * Em * Fs) :=
  if (tx_fec_k cfg =? 0) || Encoder_empty (f_encoder f) then Ok (true, e, f)
  else
    let! '(built, enc) := Encoder_close (f_encoder f) (f_gen_id f) reason in
    let closed := (f_encoder f, reason, built) in
    let f := mkFs enc (f_gen_id f) (f_first_ns f) (f_last_arrival_ns f) (f_intervals f) (f_parity_sent f) (f_closed_by_k f)
               (f_closed_by_timeout f) (f_closed_by_flush f) (f_data_bytes f) (f_parity_bytes f) (f_built f) in
    let! '(ok, e) := emit_datagram cfg e (bg_parity built) in
    if negb ok then Ok (false, e, f)
    else
      let! '(ok, e) := emit_all cfg e (bg_extra_parity built) in
      if negb ok then Ok (false, e, f)
      else
        Ok (true, e, mkFs (f_encoder f) (u32 (f_gen_id f + 1)) 0 (f_last_arrival_ns f) (f_intervals f)
              (u64 (f_parity_sent f + Z.of_nat (length (bg_extra_parity built)) + 1))
              (if reason =? 0 then u64 (f_closed_by_k f + 1) else f_closed_by_k f)
              (if reason =? 1 then u64 (f_closed_by_timeout f + 1) else f_closed_by_timeout f)
              (if (reason =? 0) || (reason =? 1) then f_closed_by_flush f else u64 (f_closed_by_flush f + 1))
              (f_data_bytes f) (u64 (sum_lengths (bg_extra_parity built) (f_parity_bytes f) + Z.of_nat (length (bg_parity built))))
              (f_built f ++ [closed])).

(** The header of the frame gets the sender's identity.  A frame shorter than a
    header is left alone: [encode] rejects it whatever the bytes are. *)
Definition stamp (frame : bytes) : res bytes :=
  if (length frame <? sizeof_Header)%nat then Ok frame
  else
    let! h := native_read (@get_Header) (take sizeof_Header frame) in
    overwrite frame 0 (@put_Header native_io
      (mkHeader (seq_id h) (send_ts_ns h) (type_ h) (version h) (body_len h) (key_stream (tx_key cfg)) (key_epoch (tx_key cfg)))).

Definition next_read (reads : list (FrameStatus * bytes * Z)) : (FrameStatus * bytes * Z) * list (FrameStatus * bytes * Z) :=
  match reads with [] => ((kEmpty, [], 0), []) | x :: xs => (x, xs) end.

(** [drain_echo]: a run of answers that ends is a socket with nothing to read. *)
Fixpoint drain_echo (evs : list echo_event) (ring : R) (received : Z) : res (bool * list echo_event * R * Z) :=
  match evs with
  | [] => Ok (true, [], ring, received)
  | EIntr :: evs' => drain_echo evs' ring received
  | EAgain :: evs' => Ok (true, evs', ring, received)
  | EError :: evs' => Ok (false, evs', ring, received)
  | EGot frame :: evs' =>
      if (length frame =? 0)%nat || (length frame <? sizeof_Header)%nat then Ok (false, evs', ring, received)
      else
        let! '(ok, payload, _) := mux_unwrap frame (mkKey 0 0) in
        if negb ok then Ok (false, evs', ring, received)
        else match decode payload with
        | None => Ok (false, evs', ring, received)
        | Some native => let! ring := sink_publish ring native in drain_echo evs' ring (u64 (received + 1))
        end
  end.

Definition with_em (t : Tx R) (e : Em) (f : Fs) : Tx R :=
  mkTx e f (t_reads t) (t_read_index t) (t_sent t) (t_lapped t) (t_skipped t) (t_last_progress t) (t_echo t) (t_echo_ring t)
    (t_echo_received t) (t_taken t).
Definition with_out (t : Tx R) (o : Out) : Tx R :=
  with_em t (mkEm o (e_pending (t_em t)) (e_draws (t_em t)) (e_dropped (t_em t)) (e_reordered (t_em t)) (e_lost (t_em t))) (t_fs t).
Definition with_progress (t : Tx R) (now : Z) : Tx R :=
  mkTx (t_em t) (t_fs t) (t_reads t) (t_read_index t) (t_sent t) (t_lapped t) (t_skipped t) now (t_echo t) (t_echo_ring t)
    (t_echo_received t) (t_taken t).
Definition with_reads (t : Tx R) (reads : list (FrameStatus * bytes * Z)) : Tx R :=
  mkTx (t_em t) (t_fs t) reads (t_read_index t) (t_sent t) (t_lapped t) (t_skipped t) (t_last_progress t) (t_echo t) (t_echo_ring t)
    (t_echo_received t) (t_taken t).

(** After a frame was taken: [++sent; ++read_index]. *)
Definition taken_one (t : Tx R) (encoded : bytes) : Tx R :=
  mkTx (t_em t) (t_fs t) (t_reads t) (u64 (t_read_index t + 1)) (u64 (t_sent t + 1)) (t_lapped t) (t_skipped t) (t_last_progress t)
    (t_echo t) (t_echo_ring t) (t_echo_received t) (t_taken t ++ [encoded]).

(** The [kLapped] branch. *)
Definition lapped_to (t : Tx R) (resume : Z) : Tx R :=
  mkTx (t_em t) (t_fs t) (t_reads t) resume (t_sent t) (u64 (t_lapped t + 1))
    (if t_read_index t <? resume then u64 (t_skipped t + (resume - t_read_index t)) else t_skipped t) (t_last_progress t)
    (t_echo t) (t_echo_ring t) (t_echo_received t) (t_taken t).

Definition add_data_bytes (f : Fs) (n : nat) : Fs :=
  mkFs (f_encoder f) (f_gen_id f) (f_first_ns f) (f_last_arrival_ns f) (f_intervals f) (f_parity_sent f) (f_closed_by_k f)
    (f_closed_by_timeout f) (f_closed_by_flush f) (u64 (f_data_bytes f + Z.of_nat n)) (f_parity_bytes f) (f_built f).

(** The fast path reads straight into the next buffer of the batch. *)
Definition fast_take (b : Batch) (out frame encoded : bytes) (loop_now : Z) : res Batch :=
  let! buf := vget (bt_frames b) (bt_size b) in
  let! buf := overwrite buf 0 out in
  let! buf := overwrite buf 0 frame in
  let! buf := overwrite buf 0 encoded in
  let! frames := vset (bt_frames b) (bt_size b) buf in
  let! lengths := vset (bt_lengths b) (bt_size b) (Z.of_nat (length encoded)) in
  Ok (mkBatch frames (bt_iov_len b) lengths (S (bt_size b)) (if (bt_size b =? 0)%nat then loop_now else bt_first_ns b)).

Definition more_wanted (t : Tx R) : bool := (tx_count cfg =? 0) || (t_sent t <? tx_count cfg).

(** The inner loop of the fast path; [room] is the number of free buffers.  The
    booleans: [made_progress], and whether the loop ended without a corrupt slot. *)
Fixpoint fast_fill (room : nat) (t : Tx R) (loop_now : Z) (made : bool) : res (bool * bool * Tx R) :=
  match room with
  | O => Ok (made, true, t)
  | S room' =>
    if negb (more_wanted t) then Ok (made, true, t)
    else
      let '((st, out, resume), reads) := next_read (t_reads t) in
      let t := with_reads t reads in
      match st with
      | kOk =>
          let! frame := stamp out in
          let! encoded := encode frame in
          let o := e_out (t_em t) in
          let! b := fast_take (o_batch o) out frame encoded loop_now in
          let t := with_out t (mkOut b (o_counters o) (o_io o) (o_flushed o)) in
          let t := with_em t (t_em t) (add_data_bytes (t_fs t) (length encoded)) in
          fast_fill room' (taken_one t encoded) loop_now true
      | kLapped => Ok (made, true, lapped_to t resume)
      | kCorrupt => Ok (made, false, t)
      | kEmpty => Ok (made, true, t)
      end
  end.

Definition flush_tx (t : Tx R) : res (bool * Tx R) :=
  let! '(ok, o) := flush_batch cfg (e_out (t_em t)) in Ok (ok, with_out t o).

Definition now_tx (t : Tx R) : Z * Tx R := let '(n, e) := now_em (t_em t) in (n, with_em t e (t_fs t)).

Definition idle_check (t : Tx R) (now_ns : Z) : outcome :=
  if u64 (tx_idle_ms cfg * 1000000) <? u64 (now_ns - t_last_progress t) then IdleBreak else Continue.

Definition fast_path (t : Tx R) (loop_now : Z) : res (outcome * Tx R) :=
  let! '(made, ok, t) := fast_fill (tx_batch_size cfg - bt_size (o_batch (e_out (t_em t)))) t loop_now false in
  if negb ok then Ok (Exit1, t)
  else
    let! '(ok, t) := if (tx_batch_size cfg <=? bt_size (o_batch (e_out (t_em t))))%nat then flush_tx t else Ok (true, t) in
    if negb ok then Ok (Exit1, t)
    else
      let t := if made then with_progress t loop_now else t in
      let! '(ok, t) := if (bt_size (o_batch (e_out (t_em t))) =? 0)%nat then Ok (true, t) else flush_tx t in
      if negb ok then Ok (Exit1, t)
      else if made then Ok (Continue, t)
      else let '(now_ns, t) := now_tx t in Ok (idle_check t now_ns, t).

(** The arrival statistics of a frame in FEC mode. *)
Definition note_arrival (f : Fs) (loop_now sent : Z) : res Fs :=
  if tx_fec_k cfg =? 0 then Ok f
  else
    let! iv := if f_last_arrival_ns f =? 0 then Ok (f_intervals f)
               else sample (f_intervals f) (u64 (loop_now - f_last_arrival_ns f)) sent in
    Ok (mkFs (f_encoder f) (f_gen_id f) (f_first_ns f) loop_now iv (f_parity_sent f) (f_closed_by_k f)
          (f_closed_by_timeout f) (f_closed_by_flush f) (f_data_bytes f) (f_parity_bytes f) (f_built f)).

(** The frame joins the generation: the encoder after [add], with the time of
    the generation's first frame. *)
Definition with_encoder (f : Fs) (enc : Encoder) (first_ns : Z) : Fs :=
  mkFs enc (f_gen_id f) first_ns (f_last_arrival_ns f) (f_intervals f) (f_parity_sent f) (f_closed_by_k f)
    (f_closed_by_timeout f) (f_closed_by_flush f) (f_data_bytes f) (f_parity_bytes f) (f_built f).

(** The encoded frame is sent bare, or as a data datagram of the generation. *)
Definition send_encoded (e : Em) (f : Fs) (encoded : bytes) (loop_now : Z) : res (bool * Em * Fs) :=
  if tx_fec_k cfg =? 0 then
    let f := add_data_bytes f (length encoded) in
    let! '(ok, e) := emit_datagram cfg e encoded in Ok (ok, e, f)
  else
    let first := if Encoder_empty (f_encoder f) then loop_now else f_first_ns f in
    let index := Encoder_size (f_encoder f) in
    let '(added, enc) := Encoder_add (f_encoder f) encoded in
    let f := with_encoder f enc first in
    if negb added then Ok (false, e, f)
    else
      let! data := data_datagram (f_gen_id f) index (tx_fec_k cfg) encoded in
      let f := add_data_bytes f (length data) in
      let! '(ok, e) := emit_datagram cfg e data in
      if negb ok then Ok (false, e, f)
      else if Encoder_full (f_encoder f) then close_generation e f 0 else Ok (true, e, f).

Definition slow_path (t : Tx R) (loop_now : Z) : res (outcome * Tx R) :=
  let '((st, out, resume), reads) := next_read (t_reads t) in
  let t := with_reads t reads in
  match st with
  | kOk =>
      let! frame := stamp out in
      let! encoded := encode frame in
      let! f := note_arrival (t_fs t) loop_now (t_sent t) in
      let! '(ok, e, f) := send_encoded (t_em t) f encoded loop_now in
      let t := with_em t e f in
      if negb ok then Ok (Exit1, t) else Ok (Continue, with_progress (taken_one t encoded) loop_now)
  | kLapped => Ok (Continue, lapped_to t resume)
  | kCorrupt => Ok (Exit1, t)
  | kEmpty =>
      let '(now_ns, t) := now_tx t in
      let! '(ok, e) := flush_pending_em cfg (t_em t) now_ns false in
      let t := with_em t e (t_fs t) in
      if negb ok then Ok (Exit1, t)
      else
        let! '(ok, t) := flush_tx t in
        if negb ok then Ok (Exit1, t) else Ok (idle_check t now_ns, t)
  end.

Definition plain_fast_path : bool :=
  (tx_fec_k cfg =? 0) && SFeqb (tx_test_drop_pct cfg) (S754_zero false) && SFeqb (tx_test_reorder_pct cfg) (S754_zero false) && negb (tx_echo cfg).

(** One turn of the main loop. *)
Definition tx_iteration (t : Tx R) : res (outcome * Tx R) :=
  let! '(ok, evs, ring, received) :=
    if tx_echo cfg then drain_echo (t_echo t) (t_echo_ring t) (t_echo_received t)
    else Ok (true, t_echo t, t_echo_ring t, t_echo_received t) in
  let t := mkTx (t_em t) (t_fs t) (t_reads t) (t_read_index t) (t_sent t) (t_lapped t) (t_skipped t) (t_last_progress t) evs ring received (t_taken t) in
  if negb ok then Ok (Exit1, t)
  else
    let '(loop_now, t) := now_tx t in
    let b := o_batch (e_out (t_em t)) in
    let! '(ok, t) := if negb (bt_size b =? 0)%nat && (u64 (tx_batch_timeout_us cfg * 1000) <=? u64 (loop_now - bt_first_ns b))
                     then flush_tx t else Ok (true, t) in
    if negb ok then Ok (Exit1, t)
    else
      let! '(ok, t) :=
        if negb (tx_fec_k cfg =? 0) && negb (Encoder_empty (f_encoder (t_fs t))) &&
           (u64 (tx_fec_timeout_us cfg * 1000) <=? u64 (loop_now - f_first_ns (t_fs t)))
        then let! '(ok, e, f) := close_generation (t_em t) (t_fs t) 1 in Ok (ok, with_em t e f)
        else Ok (true, t) in
      if negb ok then Ok (Exit1, t)
      else if plain_fast_path then fast_path t loop_now else slow_path t loop_now.

(** The loop; each element of [stops] is a value of [should_stop()]. *)
Fixpoint tx_loop (stops : list bool) (t : Tx R) : res (bool * Tx R) :=
  match stops with
  | [] => Ok (true, t)
  | stop :: stops' =>
    if stop || negb (more_wanted t) then Ok (true, t)
    else
      let! '(oc, t) := tx_iteration t in
      match oc with
      | Continue => tx_loop stops' t
      | IdleBreak => Ok (true, t)
      | Exit1 => Ok (false, t)
      end
  end.

(** What follows the loop: the open generation, the delayed datagrams and the
    last batch go out. *)
Definition tx_finish (t : Tx R) : res (bool * Tx R) :=
  let! '(ok, e, f) := close_generation (t_em t) (t_fs t) 2 in
  let t := with_em t e f in
  if negb ok then Ok (false, t)
  else
    let '(now_ns, t) := now_tx t in
    let! '(ok, e) := flush_pending_em cfg (t_em t) now_ns true in
    let t := with_em t e (t_fs t) in
    if negb ok then Ok (false, t) else flush_tx t.

(** [run] from the start of the loop to the last flush; the flag is false when
    it returned 1 before. *)
Definition tx_run (stops : list bool) (t : Tx R) : res (bool * Tx R) :=
  let! '(ok, t) := tx_loop stops t in
  if negb ok then Ok (false, t) else tx_finish t.

Definition tx_init (ring : R) (start : Z) (io : World) (draws : list bool) (reads : list (FrameStatus * bytes * Z)) (evs : list echo_event) : res (Tx R) :=
  let '(now, io) := steady_now_ns io in
  let! enc := Encoder_make (if tx_fec_k cfg =? 0 then 1 else tx_fec_k cfg) (tx_fec_parity cfg) in
  Ok (mkTx (mkEm (mkOut (make_batch (tx_batch_size cfg)) (mkCounters 0 0 0 0) io []) [] draws 0 0 [])
        (mkFs enc 0 0 0 [] 0 0 0 0 0 0 []) reads start 0 0 0 now evs ring 0 []).
End Run.
