(* ===== verification/SenderCorrect.v ===== *)
(** * Correctness of the sender

    No buffer is overrun, no datagram is lost or reordered between the ring and
    the sockets unless the test options ask for it, and in FEC mode the
    datagrams of each generation go out complete and in order. *)
From S2P Require Import Prelude Double Message Wire Samples Fec Multiplex Sink Ring Transport Batch Sender.

(** ** The output side *)
Section Emission.
Variable cfg : TxConfig.
Hypothesis Hbatch : (1 <= tx_batch_size cfg)%nat.

#[local] Abbreviation wrapk := (mux_wrap (tx_key cfg)).

(** The largest datagram that still fits a buffer with its header. *)
Definition payload_cap : nat := max_frame + kEnvelopeSize + 2.

(** The datagrams one flushed batch puts on the wire. *)
Definition plan_of (ms : list bytes) : list (nat * bytes) :=
  flat_map (fun s => flat_map (fun _ => map (pair (fst s)) ms) (List.seq 0 (tx_repeat cfg))) (tx_sockets cfg).

Record out_ok (o : Out) : Prop := {
  oo_batch : wf_batch (tx_batch_size cfg) (o_batch o);
  oo_fits : Forall (fun d => (length d <= payload_cap)%nat) (contents (o_batch o));
  oo_wire : fanout cfg = false -> wd_wire (o_io o) = flat_map plan_of (o_flushed o);
  oo_packets : fanout cfg = false -> tallied (o_counters o) (wd_wire (o_io o))
}.

Definition room (o : Out) : Prop := (bt_size (o_batch o) < tx_batch_size cfg)%nat.

(** Everything handed to the output side so far, as it is or will be sent. *)
Definition accepted (o : Out) : list bytes := concat (o_flushed o) ++ map wrapk (contents (o_batch o)).

Lemma length_wrap (d : bytes) : length (wrapk d) = (20 + length d)%nat.
Proof. unfold mux_wrap, key_bytes. by autorewrite with lendb. Qed.

(** Wrapping message [i] in place leaves the other messages alone. *)
Lemma wrap_one_ok (n i : nat) (b : Batch) (m : bytes) :
  wf_batch n b -> contents b !! i = Some m -> (length m <= payload_cap)%nat ->
  exists b', wrap_one cfg i b = Ok b' /\ wf_batch n b' /\ bt_size b' = bt_size b /\ contents b' = <[i := wrapk m]> (contents b).
Proof.
  intros Hwf Hm Hfit. assert (Hi : (i < bt_size b)%nat) by (rewrite <- (length_contents n b Hwf); by apply lookup_lt_Some in Hm).
  destruct (message_ok n i b (bt_lengths b) Hwf Hi eq_refl) as (m' & E & Hm'). rewrite Hm in Hm'. injection Hm' as <-.
  destruct (contents_lookup n i b Hwf Hi) as (l & buf & El & Eb & Hlb & _). destruct Hwf as [Hf Hc Hv Hl Hs Hft].
  unfold wrap_one. rewrite E. cbn [rbind]. rewrite vset_lt by lia. cbn [rbind]. unfold vget. rewrite Eb. cbn [rbind].
  pose proof (length_wrap m) as Hlw. unfold payload_cap in Hfit. unfold datagram_cap, header_size in *.
  rewrite overwrite_ok by lia. cbn [rbind]. rewrite vset_lt by lia. cbn [rbind]. set (buf' := take 0 buf ++ _).
  assert (Hbuf' : length buf' = length buf) by (unfold buf'; rewrite !length_app, length_take, length_drop; lia).
  eexists. split; [done|]. cbn [bt_size]. split_and!; [|done|].
  - constructor; cbn [bt_frames bt_iov_len bt_lengths bt_size]; rewrite ?length_insert; try done.
    + apply Forall_insert; [done|]. unfold datagram_cap, header_size. lia.
    + rewrite take_insert_lt by done. apply Forall_insert; [done|]. unfold datagram_cap, header_size. lia.
  - unfold contents. cbn [bt_frames bt_lengths bt_size]. rewrite !take_insert_lt by done. rewrite <- insert_zip_with. f_equal.
    rewrite Nat2Z.id. unfold buf'. by rewrite take_0, app_nil_l, take_app_length.
Qed.

Lemma wrap_all_ok (n : nat) (b : Batch) :
  wf_batch n b -> Forall (fun d => (length d <= payload_cap)%nat) (contents b) ->
  exists b', forM (List.seq 0 (bt_size b)) (wrap_one cfg) b = Ok b' /\ wf_batch n b' /\ bt_size b' = bt_size b /\ contents b' = map wrapk (contents b).
Proof.
  intros Hwf Hfit.
  destruct (forM_seq_invariant (fun i b' => wf_batch n b' /\ bt_size b' = bt_size b /\
      contents b' = map wrapk (take i (contents b)) ++ drop i (contents b)) (wrap_one cfg) (bt_size b) b) as (b' & E & Hwf' & Hs' & Hc').
  - split_and!; done.
  - intros i b1 Hi (Hwf1 & Hs1 & Hc1). pose proof (length_contents n b Hwf) as Hlen.
    destruct (lookup_lt_is_Some_2 (contents b) i) as [m Hm]; [lia|].
    assert (Hli : length (map wrapk (take i (contents b))) = i) by (rewrite length_map, length_take; lia).
    assert (Hm1 : contents b1 !! i = Some m) by (rewrite Hc1, lookup_app_r, Hli, Nat.sub_diag, lookup_drop, Nat.add_0_r by lia; done).
    destruct (wrap_one_ok n i b1 m Hwf1 Hm1) as (b2 & E2 & Hwf2 & Hs2 & Hc2); [by eapply (Forall_lookup_1 _ _ _ _ Hfit)|].
    exists b2. split_and!; [done|done|congruence|]. rewrite Hc2, Hc1, insert_app_r_alt, Hli, Nat.sub_diag by lia.
    rewrite (drop_S _ m i Hm). cbn [insert list_insert]. rewrite (take_S_r _ _ m Hm), map_app, <- app_assoc. done.
  - exists b'. split_and!; try done. rewrite Hc'. rewrite take_ge, drop_ge, app_nil_r by (rewrite (length_contents n b Hwf); lia). done.
Qed.

Lemma messages_all (n : nat) (b : Batch) : wf_batch n b -> messages_at b (bt_lengths b) 0 (bt_size b) = Ok (contents b).
Proof.
  intros Hwf. rewrite (messages_at_ok n) by (done || lia). rewrite drop_0, take_ge by (rewrite (length_contents n b Hwf); lia). done.
Qed.

Lemma wf_batch_emptied (n : nat) (b : Batch) (t : Z) : wf_batch n b -> wf_batch n (mkBatch (bt_frames b) (bt_iov_len b) (bt_lengths b) 0 t).
Proof. intros [Hf Hc Hv Hl Hs Hft]. constructor; cbn; try done; lia. Qed.

(** A flush that succeeds sends everything queued and leaves the batch empty. *)
Lemma flush_batch_ok (o : Out) :
  out_ok o -> wp no_fault (fun r => fst r = true -> out_ok (snd r) /\ bt_size (o_batch (snd r)) = 0%nat /\ accepted (snd r) = accepted o) (flush_batch cfg o).
Proof.
  intros [Hwf Hfit Hwire Hpk]. unfold flush_batch. destruct (Nat.eqb_spec (bt_size (o_batch o)) 0) as [E0|_]; [by cbn|].
  destruct (wrap_all_ok _ _ Hwf Hfit) as (b & -> & Hwf1 & Hs1 & Hc1). cbn [rbind]. rewrite (messages_all _ _ Hwf1). cbn [rbind].
  assert (Hacc : forall b' c w, contents b' = [] -> accepted (mkOut b' c w (o_flushed o ++ [contents b])) = accepted o).
  { intros b' c w E. unfold accepted. cbn [o_flushed o_batch]. rewrite E, Hc1, concat_app. cbn [concat map]. by rewrite !app_nil_r. }
  destruct (fanout cfg) eqn:Hfan.
  - intros _. cbn [fst snd]. split_and!; [|done|by apply Hacc].
    constructor; cbn [o_batch o_io o_flushed]; [by apply wf_batch_emptied|exact (List.Forall_nil _)|by rewrite Hfan|by rewrite Hfan].
  - destruct (flush_batch_direct_ok (tx_repeat cfg) (tx_durable_acks cfg) (tx_batch_size cfg) (tx_sockets cfg) b (o_counters o) (o_io o) Hwf1)
      as (ok & b' & c' & w' & sent & E & Hwf2 & Hw & _ & Hok). rewrite E. cbn [rbind wp fst snd]. intros ->. destruct Hok as (Hc2 & Hs2 & ->).
    split_and!; [|done|by apply Hacc]. constructor; cbn [o_batch o_io o_flushed o_counters]; [done|by rewrite Hc2| |].
    + intros _. rewrite Hw, (Hwire eq_refl), flat_map_app. cbn [flat_map]. by rewrite app_nil_r.
    + intros _. apply flush_batch_direct_counts in E; [done|]. by apply Hpk.
Qed.

Lemma out_ok_io (o : Out) (b : Batch) (w : World) :
  out_ok o -> wf_batch (tx_batch_size cfg) b -> Forall (fun d => (length d <= payload_cap)%nat) (contents b) -> wd_wire w = wd_wire (o_io o) ->
  out_ok (mkOut b (o_counters o) w (o_flushed o)).
Proof. intros [? ? Hw Hpk] Hb Hf E. constructor; cbn; rewrite ?E; done. Qed.

Lemma queue_or_flush_ok (o : Out) (data : bytes) :
  out_ok o -> room o -> (length data <= payload_cap)%nat ->
  wp no_fault (fun r => fst r = true -> out_ok (snd r) /\ room (snd r) /\ accepted (snd r) = accepted o ++ [wrapk data]) (queue_or_flush cfg o data).
Proof.
  intros Ho Hroom Hd. destruct Ho as [Hwf Hfit Hwire Hpk] eqn:Eo. clear Eo. unfold queue_or_flush.
  destruct (queue_datagram_ok _ _ data (o_io o) Hwf Hroom) as (b & w & -> & Hwf1 & Hs1 & Hc1 & Hw1);
    [unfold payload_cap in Hd; unfold datagram_cap, header_size; lia|]. cbn [rbind].
  assert (H1 : out_ok (mkOut b (o_counters o) w (o_flushed o))).
  { apply out_ok_io; try done. rewrite Hc1. apply Forall_app. split; [done|by apply Forall_singleton]. }
  assert (Hacc : accepted (mkOut b (o_counters o) w (o_flushed o)) = accepted o ++ [wrapk data]).
  { unfold accepted. cbn [o_batch o_flushed]. by rewrite Hc1, map_app, app_assoc. }
  destruct (Nat.leb_spec (tx_batch_size cfg) (bt_size b)) as [|Hlt].
  - eapply wp_mono; [apply (flush_batch_ok _ H1)|done|]. intros [ok o'] Hok Et. destruct (Hok Et) as (Ho' & Hs' & Ha'). cbn [snd] in *.
    split_and!; [done|unfold room; lia|congruence].
  - intros _. by split_and!.
Qed.

Definition pending_fits (ps : list PendingDatagram) : Prop := Forall (fun p => (length (pd_bytes p) <= payload_cap)%nat) ps.

(** What is released goes out; what is kept stays; nothing else happens. *)
Lemma flush_pending_ok (ps : list PendingDatagram) (o : Out) (now : Z) (all : bool) :
  out_ok o -> room o -> pending_fits ps ->
  wp no_fault (fun r => let '(ok, o', kept) := r in ok = true ->
    out_ok o' /\ room o' /\ pending_fits kept /\ (all = true -> kept = []) /\
    exists released, accepted o' = accepted o ++ map wrapk released /\ map pd_bytes ps ≡ₚ released ++ map pd_bytes kept) (flush_pending cfg o ps now all).
Proof.
  revert o. induction ps as [|p ps IH]; intros o Ho Hr Hf.
  - intros _. split_and!; try done. exists []. by rewrite app_nil_r.
  - inversion Hf as [|? ? Hp Hps]; subst. cbn [flush_pending]. destruct (all || (pd_release_ns p <=? now)) eqn:Hrel.
    + eapply wp_bind; [by apply queue_or_flush_ok|]. intros [ok o1] H1. cbn [fst snd] in H1. destruct ok; [|done]. destruct (H1 eq_refl) as (Ho1 & Hr1 & Ha1).
      eapply wp_mono; [by apply (IH o1)|done|]. intros [[ok o2] kept] H2 Et. destruct (H2 Et) as (? & ? & ? & ? & released & Ha2 & Hperm).
      split_and!; try done. exists (pd_bytes p :: released). cbn [map]. split; [by rewrite Ha2, Ha1, <- app_assoc|]. cbn [app]. by rewrite Hperm.
    + apply orb_false_iff in Hrel as [-> _]. eapply wp_bind; [by apply (IH o)|]. intros [[ok o2] kept] H2 Et.
      destruct (H2 Et) as (? & ? & ? & ? & released & Ha2 & Hperm). split_and!; try done; [by constructor|].
      exists released. split; [done|]. cbn [map]. rewrite Hperm. apply Permutation_middle.
Qed.

(** ** [emit_datagram] *)
Definition em_ok (e : Em) : Prop := out_ok (e_out e) /\ room (e_out e) /\ pending_fits (e_pending e).

(** Every datagram emitted so far: sent, queued, delayed or dropped on purpose. *)
Definition total (e : Em) : list bytes := accepted (e_out e) ++ map wrapk (map pd_bytes (e_pending e) ++ e_lost e).

Definition quiet : Prop := tx_test_drop cfg = false /\ tx_test_reorder cfg = false.
Definition calm (e : Em) : Prop := e_pending e = [] /\ e_lost e = [].

(** [e'] comes from [e] by emitting [ds]: nothing vanishes, and without the test
    options the datagrams go out in this order. *)
Definition emits (ds : list bytes) (e e' : Em) : Prop :=
  em_ok e' /\ total e' ≡ₚ total e ++ map wrapk ds /\
  (quiet -> calm e -> calm e' /\ accepted (e_out e') = accepted (e_out e) ++ map wrapk ds).

Lemma emits_trans (ds1 ds2 : list bytes) (e1 e2 e3 : Em) : emits ds1 e1 e2 -> emits ds2 e2 e3 -> emits (ds1 ++ ds2) e1 e3.
Proof.
  intros (_ & P1 & Q1) (H3 & P2 & Q2). split; [done|]. rewrite map_app. split; [by rewrite P2, P1, app_assoc|].
  intros Hq Hc. destruct (Q1 Hq Hc) as [Hc2 A1]. destruct (Q2 Hq Hc2) as [Hc3 A2]. split; [done|]. by rewrite A2, A1, app_assoc.
Qed.

Lemma emits_nil (e e' : Em) : em_ok e' -> accepted (e_out e') = accepted (e_out e) -> e_pending e' = e_pending e -> e_lost e' = e_lost e -> emits [] e e'.
Proof.
  intros H1 H2 H3 H4. split; [done|]. unfold total, calm. cbn [map]. rewrite H2, H3, H4, !app_nil_r. by split.
Qed.

Lemma now_em_ok (e : Em) : em_ok e -> emits [] e (snd (now_em e)).
Proof.
  intros (Ho & Hr & Hp). unfold now_em, steady_now_ns. destruct (wd_clock (o_io (e_out e))); apply emits_nil; try done;
    (split_and!; [|done|done]); destruct Ho as [? ? Hw]; by constructor.
Qed.

Lemma draw_ok (b : bool) (e : Em) : em_ok e -> emits [] e (snd (draw b e)) /\ (b = false -> fst (draw b e) = false).
Proof.
  intros He. unfold draw. destruct b; [destruct (e_draws e)|]; (split; [by apply emits_nil|done]).
Qed.

Lemma flush_pending_em_ok (e : Em) (now : Z) (all : bool) :
  em_ok e -> wp no_fault (fun r => fst r = true -> emits [] e (snd r) /\ (all = true -> e_pending (snd r) = [])) (flush_pending_em cfg e now all).
Proof.
  intros (Ho & Hr & Hp). unfold flush_pending_em. eapply wp_bind; [by apply flush_pending_ok|]. intros [[ok o] kept] H Et. cbn [fst snd] in *.
  destruct (H Et) as (Ho' & Hr' & Hk & Hall & released & Ha & Hperm). split; [|done]. split; [done|]. unfold total. cbn [e_out e_pending e_lost]. split.
  - rewrite Ha, app_nil_r, !map_app, Hperm, map_app, <- !app_assoc. done.
  - intros _ [Hc Hl]. rewrite Hc in Hperm. cbn [map] in Hperm. symmetry in Hperm. apply Permutation_nil_r in Hperm.
    apply app_eq_nil in Hperm as [-> Hk0]. apply map_eq_nil in Hk0. unfold calm. cbn [e_pending e_lost]. by rewrite Ha, !app_nil_r.
Qed.

Lemma emit_datagram_ok (e : Em) (data : bytes) :
  em_ok e -> (length data <= payload_cap)%nat -> wp no_fault (fun r => fst r = true -> emits [data] e (snd r)) (emit_datagram cfg e data).
Proof.
  intros He Hd. unfold emit_datagram. pose proof (now_em_ok e He) as H1. destruct (now_em e) as [now e1]. cbn [snd] in H1.
  eapply wp_bind; [apply flush_pending_em_ok, H1|]. intros [ok e2] H2. cbn [fst snd] in H2. destruct ok; [|done]. cbn [negb].
  destruct (H2 eq_refl) as [H2' _]. pose proof (emits_trans _ _ _ _ _ H1 H2') as H12. cbn [app] in H12. clear H1 H2 H2'.
  destruct (draw_ok (tx_test_drop cfg) e2 (proj1 H12)) as [H3 Hn3]. destruct (draw _ e2) as [dr e3]. cbn [fst snd] in *.
  pose proof (emits_trans _ _ _ _ _ H12 H3) as H13. cbn [app] in H13. clear H12 H3. destruct dr.
  { intros _. apply (emits_trans [] [data] e e3); [done|]. cbn [snd]. destruct H13 as (Hok & _). split; [exact Hok|]. unfold total, calm. cbn [e_out e_pending e_lost].
    split; [by rewrite !map_app, !app_assoc|]. intros [Hq _]. by specialize (Hn3 Hq). }
  destruct (draw_ok (tx_test_reorder cfg && (0 <? tx_test_reorder_delay_us cfg)) e3 (proj1 H13)) as [H4 Hn4]. destruct (draw _ e3) as [ro e4]. cbn [fst snd] in *.
  pose proof (emits_trans _ _ _ _ _ H13 H4) as H14. cbn [app] in H14. clear H13 H4. destruct ro.
  { destruct (65536 <=? _); [done|]. intros _. apply (emits_trans [] [data] e e4); [done|]. cbn [snd]. destruct H14 as ((Ho & Hr & Hp) & _). split; [|split].
    - split_and!; [done|done|]. apply Forall_app. split; [done|by apply Forall_singleton].
    - unfold total. cbn [e_out e_pending e_lost]. rewrite !map_app, <- !app_assoc. do 2 apply Permutation_app_head. apply Permutation_app_comm.
    - intros [_ Hq]. rewrite Hq in Hn4. by specialize (Hn4 eq_refl). }
  destruct H14 as ((Ho & Hr & Hp) & Hrest). pose proof (conj (conj Ho (conj Hr Hp)) Hrest) as H14. clear Hrest.
  eapply wp_bind; [by apply queue_or_flush_ok|]. intros [ok o] H5. cbn [fst snd] in H5. destruct ok; [|done]. cbn [negb]. destruct (H5 eq_refl) as (Ho5 & Hr5 & Ha5).
  set (e5 := mkEm o _ _ _ _ _).
  assert (H15 : emits [data] e4 e5).
  { split; [done|]. unfold total, calm. cbn [e5 e_out e_pending e_lost]. rewrite Ha5. split; [|done]. cbn [map].
    rewrite <- !app_assoc. apply Permutation_app_head, Permutation_app_comm. }
  pose proof (emits_trans _ _ _ _ _ H14 H15) as H6. cbn [app] in H6. clear H14 H15.
  pose proof (now_em_ok e5 (proj1 H6)) as H7. destruct (now_em e5) as [now' e6]. cbn [snd] in H7.
  pose proof (emits_trans _ _ _ _ _ H6 H7) as H8. rewrite app_nil_r in H8.
  eapply wp_mono; [apply flush_pending_em_ok, H8|done|]. intros [ok e7] H9 Et. destruct (H9 Et) as [H9' _].
  pose proof (emits_trans _ _ _ _ _ H8 H9') as H10. by rewrite app_nil_r in H10.
Qed.

Lemma emit_all_ok (ds : list bytes) (e : Em) :
  em_ok e -> Forall (fun d => (length d <= payload_cap)%nat) ds -> wp no_fault (fun r => fst r = true -> emits ds e (snd r)) (emit_all cfg e ds).
Proof.
  revert e. induction ds as [|d ds IH]; intros e He Hf; [intros _; by apply emits_nil|]. inversion Hf as [|? ? Hd Hds]; subst. cbn [emit_all].
  eapply wp_bind; [by apply emit_datagram_ok|]. intros [ok e1] H1. cbn [fst snd] in H1. destruct ok; [|done].
  eapply wp_mono; [apply IH; [apply (H1 eq_refl)|done]|done|]. intros [ok e2] H2' Et. exact (emits_trans [d] ds _ _ _ (H1 eq_refl) (H2' Et)).
Qed.
End Emission.

(** ** Frames: stamping and encoding *)
Lemma encode_wp (d : bytes) : wp (fun f => f = InvalidArgument /\ validate_frame d = false) (fun w => (1 <= length w <= max_frame)%nat /\ (length d <= kMaxFrame)%nat) (encode d).
Proof.
  destruct (validate_frame d) eqn:Hv; [|unfold encode; rewrite Hv; by cbn].
  destruct (encode_validated d Hv) as (w & _ & -> & _ & _ & _ & Hl). destruct (validate_frame_inv d Hv) as (h & _ & _ & _ & _ & Hd). cbn.
  unfold max_frame. lia.
Qed.

Lemma stamp_ok (cfg : TxConfig) (frame : bytes) : wp no_fault (fun s => length s = length frame) (stamp cfg frame).
Proof.
  unfold stamp. destruct (Nat.ltb_spec (length frame) sizeof_Header) as [|Hl]; [done|].
  destruct (total_get_Header (io := native_io) (take sizeof_Header frame) O) as [h Hg]; [rewrite length_take; unfold sizeof_Header in *; lia|].
  unfold native_read. rewrite Hg. cbn [rbind fst]. rewrite overwrite_ok by (rewrite length_put_Header; cbn [plus]; lia). cbn [wp].
  rewrite !length_app, length_take, length_drop, length_put_Header. lia.
Qed.

(** ** Echoes

    Echo mode is off, or there is one destination and the echo ring takes every
    frame. *)
Definition echo_safe (R : Type) `{Sink R} (cfg : TxConfig) : Prop :=
  tx_echo cfg = false \/ fanout cfg = false /\ forall (r : R) f, exists r', sink_publish r f = Ok r'.

Lemma drain_echo_total {R : Type} `{Sink R} (evs : list echo_event) (ring : R) (n : Z) :
  (forall (r : R) f, exists r', sink_publish r f = Ok r') -> exists ok evs' ring' n', drain_echo evs ring n = Ok (ok, evs', ring', n').
Proof.
  intros Hs. revert ring n. induction evs as [|[frame| | |] evs IH]; intros ring n; cbn [drain_echo]; try (by eexists _, _, _, _); [|by apply IH].
  destruct (_ || _); [by eexists _, _, _, _|]. destruct (unwrap_total frame (mkKey 0 0)) as (ok & data & k & -> & _). cbn [rbind]. destruct ok; cbn [negb]; [|by eexists _, _, _, _].
  destruct (decode data) as [native|]; [|by eexists _, _, _, _]. destruct (Hs ring native) as [r' ->]. cbn [rbind]. apply IH.
Qed.

Lemma echo_part_total {R : Type} `{Sink R} (cfg : TxConfig) (evs : list echo_event) (ring : R) (n : Z) :
  echo_safe R cfg -> exists ok evs' ring' n', (if tx_echo cfg then drain_echo evs ring n else Ok (true, evs, ring, n)) = Ok (ok, evs', ring', n').
Proof. intros [->|[_ Hs]]; [by eexists _, _, _, _|]. destruct (tx_echo cfg); [by apply drain_echo_total|by eexists _, _, _, _]. Qed.

(** ** Generations *)
Section Loop.
Context {R : Type} `{Sink R}.
Variable cfg : TxConfig.
Hypothesis Hbatch : (1 <= tx_batch_size cfg)%nat.
Hypothesis Hfec : 0 <= tx_fec_k cfg <= 128.
Hypothesis Hparity : 1 <= tx_fec_parity cfg <= 16.
Hypothesis Hecho : echo_safe R cfg.

#[local] Abbreviation wrapk := (mux_wrap (tx_key cfg)).

(** A closed generation: what [close] built from the frames, under its number. *)
Definition gen_ok (i : nat) (g : Encoder * Z * BuiltGeneration) : Prop :=
  let '(enc, reason, built) := g in
  wf_encoder enc /\ en_frames enc <> [] /\ en_k enc = tx_fec_k cfg /\ en_parity_count enc = tx_fec_parity cfg /\ 0 <= reason <= 2 /\
  exists enc', Encoder_close enc (u32 (Z.of_nat i)) reason = Ok (built, enc').

Record fs_core (f : Fs) : Prop := {
  fo_wf : wf_encoder (f_encoder f);
  fo_k : tx_fec_k cfg <> 0 -> en_k (f_encoder f) = tx_fec_k cfg;
  fo_p : en_parity_count (f_encoder f) = tx_fec_parity cfg;
  fo_gen : f_gen_id f = u32 (Z.of_nat (length (f_built f)));
  fo_built i g : f_built f !! i = Some g -> gen_ok i g;
  fo_iv : (length (f_intervals f) <= kSampleLimit)%nat
}.

(** Between two frames the open generation is not full. *)
Definition fs_ok (f : Fs) : Prop := fs_core f /\ (tx_fec_k cfg <> 0 -> Z.of_nat (length (en_frames (f_encoder f))) < tx_fec_k cfg).

(** The datagrams of the open generation, and of all of them. *)
Definition open_data (f : Fs) : list bytes :=
  map (data_pkt (tx_fec_k cfg) (f_gen_id f) (en_frames (f_encoder f))) (List.seq 0 (length (en_frames (f_encoder f)))).
Definition planned (f : Fs) (taken : list bytes) : list bytes :=
  if tx_fec_k cfg =? 0 then taken else flat_map (fun g => all_datagrams (snd g)) (f_built f) ++ open_data f.
Definition gen_frames (f : Fs) : list bytes :=
  flat_map (fun g => en_frames (fst (fst g))) (f_built f) ++ en_frames (f_encoder f).

Lemma length_data_pkt (k g : Z) (frames : list bytes) (i : nat) : length (data_pkt k g frames i) = (17 + length (nth i frames []))%nat.
Proof. unfold data_pkt. by rewrite length_app, length_envelope_bytes. Qed.

Lemma parity_fits (enc : Encoder) (g reason : Z) (row : nat) : wf_encoder enc ->
  (length (parity_pkt (en_parity_count enc) g reason (en_frames enc) (Z.to_nat (en_max_len enc)) row) <= payload_cap)%nat.
Proof.
  intros He. pose proof (wfe_max enc He). unfold parity_pkt. rewrite length_app, length_envelope_bytes, length_parity_payload.
  unfold payload_cap, max_frame, kEnvelopeSize. lia.
Qed.

Lemma u32_succ (n : nat) : u32 (u32 (Z.of_nat n) + 1) = u32 (Z.of_nat (S n)).
Proof. rewrite wrap_add_l. f_equal. lia. Qed.

(** Closing a generation emits its parity datagrams, which completes it. *)
Lemma close_generation_ok (e : Em) (f : Fs) (reason : Z) (taken : list bytes) :
  em_ok cfg e -> fs_core f -> 0 <= reason <= 2 ->
  wp no_fault (fun r => let '(ok, e', f') := r in ok = true ->
    fs_ok f' /\ gen_frames f' = gen_frames f /\ f_last_arrival_ns f' = f_last_arrival_ns f /\
    (tx_fec_k cfg <> 0 -> en_frames (f_encoder f') = []) /\
    exists ds, planned f' taken = planned f taken ++ ds /\ emits cfg ds e e') (close_generation cfg e f reason).
Proof.
  intros He Hf Hr. unfold close_generation. destruct (Z.eqb_spec (tx_fec_k cfg) 0) as [E0|Hk].
  { intros _. split_and!; try done. exists []. rewrite app_nil_r. split; [done|by apply emits_nil]. }
  cbn [orb]. destruct (Encoder_empty (f_encoder f)) eqn:Hemp; [apply Nat.eqb_eq, nil_length_inv in Hemp|].
  { intros _. split_and!; try done; [split; [done|intros _; rewrite Hemp; cbn; lia]|].
    exists []. rewrite app_nil_r. split; [done|by apply emits_nil]. }
  assert (Hne : en_frames (f_encoder f) <> []) by (intros E; unfold Encoder_empty in Hemp; by rewrite E in Hemp).
  pose proof (Encoder_close_ok (f_encoder f) (f_gen_id f) reason (fo_wf f Hf) Hne) as Hc. rewrite Hc. cbn [rbind].
  set (built := mkBuilt _ _ _) in *. set (enc' := mkEncoder _ _ 0 []) in *.
  eapply wp_bind; [apply (emit_datagram_ok cfg Hbatch); [done|apply parity_fits, Hf]|]. intros [ok e1] H1. cbn [fst snd] in H1.
  destruct ok; [|done]. cbn [negb]. specialize (H1 eq_refl).
  eapply wp_bind; [apply (emit_all_ok cfg Hbatch); [apply H1|]|].
  { apply Forall_forall. intros d Hd. apply list_elem_of_In, in_map_iff in Hd as (row & <- & _). apply parity_fits, Hf. }
  intros [ok e2] H2. cbn [fst snd] in H2. destruct ok; [|done]. cbn [negb wp]. specialize (H2 eq_refl). intros _.
  split_and!; try done.
  - split; [|intros _; cbn; lia]. destruct Hf as [Hwf Hkk Hp Hg Hb Hiv]. constructor; cbn [f_encoder f_gen_id f_built f_intervals]; try done.
    + by eapply Encoder_close_wf.
    + rewrite Hg, u32_succ, length_app. do 2 f_equal. cbn. lia.
    + intros i g Hi. apply lookup_app_Some in Hi as [Hi|[Hi Hg']]; [by apply Hb|]. apply list_lookup_singleton_Some in Hg' as [Ei <-].
      replace i with (length (f_built f)) by lia. cbn [gen_ok]. rewrite <- Hg. split_and!; try done; [by apply Hkk|lia|lia|by eexists].
  - unfold gen_frames. cbn [f_built f_encoder]. rewrite flat_map_app. cbn [flat_map fst enc' en_frames]. by rewrite !app_nil_r.
  - exists ([bg_parity built] ++ bg_extra_parity built). split; [|by eapply emits_trans].
    unfold planned. replace (tx_fec_k cfg =? 0) with false by lia. cbn [f_built f_encoder]. unfold open_data. cbn [f_encoder enc' en_frames length List.seq map].
    rewrite flat_map_app. cbn [flat_map snd]. rewrite !app_nil_r. unfold all_datagrams. rewrite <- app_assoc. f_equal.
    cbn [built bg_data bg_parity bg_extra_parity]. rewrite (fo_k f Hf Hk). done.
Qed.

(** A frame that joins the open generation adds its data datagram. *)
Lemma open_data_snoc (f f' : Fs) (frame : bytes) :
  en_frames (f_encoder f') = en_frames (f_encoder f) ++ [frame] -> f_gen_id f' = f_gen_id f ->
  open_data f' = open_data f ++ [data_pkt (tx_fec_k cfg) (f_gen_id f) (en_frames (f_encoder f) ++ [frame]) (length (en_frames (f_encoder f)))].
Proof.
  intros E Eg. unfold open_data. rewrite E, Eg, length_app, Nat.add_1_r, seq_S, map_app. cbn [map Nat.add]. f_equal.
  apply map_ext_in. intros i Hi%in_seq. unfold data_pkt. by rewrite app_nth1 by lia.
Qed.

Lemma data_pkt_new (k g : Z) (frames : list bytes) (frame : bytes) :
  data_pkt k g (frames ++ [frame]) (length frames) = envelope_bytes (data_env k g (length frames) frame) ++ frame.
Proof. unfold data_pkt. by rewrite app_nth2, Nat.sub_diag by lia. Qed.

Lemma send_encoded_ok (e : Em) (f : Fs) (encoded : bytes) (taken0 : list bytes) (loop_now : Z) :
  em_ok cfg e -> fs_ok f -> (1 <= length encoded <= max_frame)%nat ->
  wp no_fault (fun r => let '(ok, e', f') := r in ok = true ->
    fs_ok f' /\ (tx_fec_k cfg <> 0 -> gen_frames f' = gen_frames f ++ [encoded]) /\ f_last_arrival_ns f' = f_last_arrival_ns f /\
    exists ds, planned f' (taken0 ++ [encoded]) = planned f taken0 ++ ds /\ emits cfg ds e e') (send_encoded cfg e f encoded loop_now).
Proof.
  intros He [Hf Hrm] Hlen. unfold send_encoded. destruct (Z.eqb_spec (tx_fec_k cfg) 0) as [E0|Hk].
  { eapply wp_bind; [apply (emit_datagram_ok cfg Hbatch); [done|unfold payload_cap, max_frame in *; lia]|].
    intros [ok e1] H1 Et. cbn [fst snd] in H1. split_and!; [by split; [destruct Hf|]|done|done|]. exists [encoded]. split; [|by apply H1].
    unfold planned. by rewrite (proj2 (Z.eqb_eq _ _) E0). }
  destruct (Encoder_add (f_encoder f) encoded) as [added enc] eqn:Ea. destruct (Encoder_add_wf _ _ _ _ (fo_wf f Hf) Ea) as (Hwf & Hfr & _ & Hek & Hep).
  destruct added; [|done]. cbn [negb]. specialize (Hfr eq_refl).
  set (f1 := with_encoder f enc _). change (f_gen_id f1) with (f_gen_id f). rewrite data_datagram_ok. cbn [rbind].
  pose proof (wfe_n _ (fo_wf f Hf)) as Hn. pose proof (fo_k f Hf Hk) as Hkk.
  assert (Hsz : Encoder_size (f_encoder f) = Z.of_nat (length (en_frames (f_encoder f)))).
  { unfold Encoder_size. apply wrap_small. unfold in_range. lia. }
  rewrite Hsz. set (pkt := envelope_bytes _ ++ encoded).
  assert (Hpkt : pkt = data_pkt (tx_fec_k cfg) (f_gen_id f) (en_frames (f_encoder f) ++ [encoded]) (length (en_frames (f_encoder f))))
    by (by rewrite data_pkt_new).
  set (f2 := add_data_bytes f1 (length pkt)).
  assert (Hf2 : fs_core f2) by (destruct Hf; constructor; unfold f2, f1, add_data_bytes, with_encoder; cbn [f_encoder f_gen_id f_built f_intervals]; try done; try (intros; congruence); congruence).
  assert (Hp2 : planned f2 taken0 = planned f taken0 ++ [pkt]).
  { unfold planned. replace (tx_fec_k cfg =? 0) with false by lia. rewrite (open_data_snoc f f2 encoded) by done. by rewrite <- Hpkt, app_assoc. }
  assert (Hg2 : gen_frames f2 = gen_frames f ++ [encoded]) by (unfold gen_frames; cbn [f2 f1 with_encoder add_data_bytes f_built f_encoder]; by rewrite Hfr, app_assoc).
  assert (Hpl : forall g, planned g (taken0 ++ [encoded]) = planned g taken0) by (intros g; unfold planned; by replace (tx_fec_k cfg =? 0) with false by lia).
  eapply wp_bind; [apply (emit_datagram_ok cfg Hbatch); [done|]|].
  { unfold pkt. rewrite length_app, length_envelope_bytes. unfold payload_cap, max_frame, kEnvelopeSize in *. lia. }
  intros [ok e1] H1. cbn [fst snd] in H1. destruct ok; [|done]. cbn [negb]. specialize (H1 eq_refl).
  destruct (Encoder_full _) eqn:Hfull.
  - eapply wp_mono; [apply (close_generation_ok e1 f2 0 taken0); [apply H1|done|lia]|done|]. intros [[ok e2] f3] H3 Et.
    destruct (H3 Et) as (Hf3 & Hg3 & Hl3 & _ & ds & Hp3 & He3). split_and!; try done; [congruence|].
    exists ([pkt] ++ ds). rewrite Hpl, Hp3, Hp2, app_assoc. split; [done|by eapply emits_trans].
  - intros _. split_and!; try done; [|exists [pkt]; by rewrite Hpl, Hp2]. split; [done|intros _]. pose proof (wfe_n _ (fo_wf f2 Hf2)) as Hn2.
    rewrite (fo_k f2 Hf2 Hk) in Hn2. unfold Encoder_full in Hfull. apply Z.eqb_neq in Hfull. rewrite (fo_k f2 Hf2 Hk) in Hfull. lia.
Qed.

(** ** The invariant of the main loop *)

(** What was emitted is what the frames taken call for. *)
Definition sent_ok (e : Em) (f : Fs) (taken : list bytes) : Prop :=
  total cfg e ≡ₚ map wrapk (planned f taken) /\
  (quiet cfg -> calm e /\ accepted cfg (e_out e) = map wrapk (planned f taken)).

Lemma sent_ok_step (e e' : Em) (f f' : Fs) (taken taken' ds : list bytes) :
  sent_ok e f taken -> planned f' taken' = planned f taken ++ ds -> emits cfg ds e e' -> sent_ok e' f' taken'.
Proof.
  intros [Ht Hq] Hp (_ & He & Hqe). split; [by rewrite He, Ht, Hp, map_app|]. intros Q. destruct (Hq Q) as [Hc Ha].
  destruct (Hqe Q Hc) as [Hc' Ha']. split; [done|]. by rewrite Ha', Ha, Hp, map_app.
Qed.

Lemma sent_ok_same (e e' : Em) (f : Fs) (taken : list bytes) : sent_ok e f taken -> emits cfg [] e e' -> sent_ok e' f taken.
Proof. intros H1 H2. eapply sent_ok_step; [done|by rewrite app_nil_r|done]. Qed.

Definition read_frame (r : FrameStatus * bytes * Z) : option bytes := match r with (kOk, out, _) => Some out | _ => None end.
Definition encodes (out encoded : bytes) : Prop := exists s, stamp cfg out = Ok s /\ encode s = Ok encoded.

Record tx_inv (reads0 : list (FrameStatus * bytes * Z)) (t : Tx R) : Prop := {
  ti_out : out_ok cfg (e_out (t_em t));
  ti_pending : pending_fits (e_pending (t_em t));
  ti_fs : fs_ok (t_fs t);
  ti_emitted : sent_ok (t_em t) (t_fs t) (t_taken t);
  ti_taken : tx_fec_k cfg <> 0 -> t_taken t = gen_frames (t_fs t);
  ti_sent : t_sent t = Z.of_nat (length (t_taken t));
  ti_bound : Z.of_nat (length (t_taken t)) + Z.of_nat (length (t_reads t)) < 2 ^ 64;
  ti_last : f_last_arrival_ns (t_fs t) <> 0 -> t_taken t <> [];
  ti_source : exists consumed, reads0 = consumed ++ t_reads t /\ Forall2 encodes (omap read_frame consumed) (t_taken t)
}.

Definition roomy (t : Tx R) : Prop := room cfg (e_out (t_em t)).

Section Inv.
Variable reads0 : list (FrameStatus * bytes * Z).
#[local] Abbreviation inv := (tx_inv reads0).

Lemma inv_em_ok (t : Tx R) : inv t -> roomy t -> em_ok cfg (t_em t).
Proof. intros Hi Hr. split_and!; [apply (ti_out _ _ Hi)|done|apply (ti_pending _ _ Hi)]. Qed.

(** A step of the output side and of the encoder that takes no frame. *)
Lemma inv_emits (t : Tx R) (e : Em) (f : Fs) (ds : list bytes) :
  inv t -> fs_ok f -> gen_frames f = gen_frames (t_fs t) -> f_last_arrival_ns f = f_last_arrival_ns (t_fs t) ->
  planned f (t_taken t) = planned (t_fs t) (t_taken t) ++ ds -> emits cfg ds (t_em t) e -> inv (with_em t e f) /\ roomy (with_em t e f).
Proof.
  intros Hi Hf Hg Hl Hp He. pose proof He as ((Ho & Hr & Hpd) & _). split; [|done]. destruct Hi.
  constructor; cbn [with_em t_em t_fs t_taken t_sent t_reads]; rewrite ?Hg, ?Hl; try done. by eapply sent_ok_step.
Qed.

Lemma now_tx_ok (t : Tx R) : inv t -> roomy t -> inv (snd (now_tx t)) /\ roomy (snd (now_tx t)).
Proof.
  intros Hi Hr. unfold now_tx. pose proof (now_em_ok cfg (t_em t) (inv_em_ok t Hi Hr)) as He. destruct (now_em (t_em t)) as [n e]. cbn [snd] in *.
  apply (inv_emits t e (t_fs t) []); try done; [apply (ti_fs _ _ Hi)|by rewrite app_nil_r].
Qed.

(** A new output state with the same datagrams in it. *)
Lemma inv_out (t : Tx R) (o : Out) : inv t -> out_ok cfg o -> accepted cfg o = accepted cfg (e_out (t_em t)) -> inv (with_out t o).
Proof.
  intros [? ? ? [Ht Hq] ? ? ? ? ?] Ho Ha. constructor; cbn; try done.
  split; unfold total; cbn [e_out e_pending e_lost]; rewrite Ha; [exact Ht|]. intros Q. destruct (Hq Q). by split.
Qed.

Lemma flush_tx_empties (t : Tx R) :
  inv t -> wp no_fault (fun r => fst r = true -> inv (snd r) /\ bt_size (o_batch (e_out (t_em (snd r)))) = 0%nat /\
    e_pending (t_em (snd r)) = e_pending (t_em t) /\ t_fs (snd r) = t_fs t) (flush_tx cfg t).
Proof.
  intros Hi. unfold flush_tx. eapply wp_bind; [apply (flush_batch_ok cfg Hbatch), (ti_out _ _ Hi)|]. intros [ok o] Ho Et. cbn [fst snd] in *.
  destruct (Ho Et) as (Ho' & Hs & Ha). split_and!; try done. by apply inv_out.
Qed.

Lemma flush_tx_ok (t : Tx R) : inv t -> wp no_fault (fun r => fst r = true -> inv (snd r) /\ roomy (snd r)) (flush_tx cfg t).
Proof.
  intros Hi. eapply wp_mono; [by apply flush_tx_empties|done|]. intros r H1 Et. destruct (H1 Et) as (? & Hs & _). split; [done|].
  unfold roomy, room. lia.
Qed.

(** Consuming an answer of the ring that gives no frame. *)
Lemma inv_reads (t : Tx R) (r : FrameStatus * bytes * Z) (reads : list (FrameStatus * bytes * Z)) :
  inv t -> next_read (t_reads t) = (r, reads) -> read_frame r = None -> inv (with_reads t reads).
Proof.
  intros [? ? ? ? ? ? Hb ? (consumed & Hc & Hs)] E Hr. unfold next_read in E.
  destruct (t_reads t) as [|x xs] eqn:Ex; injection E as <- <-; (constructor; cbn [with_reads t_em t_fs t_taken t_sent t_reads]; try done).
  - by exists consumed.
  - cbn [length] in Hb. lia.
  - exists (consumed ++ [x]). rewrite <- app_assoc. split; [done|]. rewrite omap_app. cbn. rewrite Hr. by rewrite app_nil_r.
Qed.

Lemma inv_lapped (t : Tx R) (resume : Z) : inv t -> inv (lapped_to t resume).
Proof. intros []. by constructor. Qed.
Lemma inv_progress (t : Tx R) (now : Z) : inv t -> inv (with_progress t now).
Proof. intros []. by constructor. Qed.

(** Taking a frame: the output side has it, the counters follow. *)
Lemma inv_takes (t : Tx R) (out encoded : bytes) (resume : Z) (reads : list (FrameStatus * bytes * Z)) (e : Em) (f : Fs) :
  inv t -> next_read (t_reads t) = ((kOk, out, resume), reads) -> encodes out encoded ->
  out_ok cfg (e_out e) -> pending_fits (e_pending e) -> fs_ok f -> sent_ok e f (t_taken t ++ [encoded]) ->
  (tx_fec_k cfg <> 0 -> gen_frames f = gen_frames (t_fs t) ++ [encoded]) ->
  inv (taken_one (with_em (with_reads t reads) e f) encoded).
Proof.
  intros [? ? ? ? Htk Hsent Hb ? (consumed & Hc & Hs)] E Henc Ho Hpd Hf Hsok Hg. unfold next_read in E.
  destruct (t_reads t) as [|x xs] eqn:Ex; [discriminate|]. injection E as -> <-. cbn [length] in Hb.
  constructor; cbn [taken_one with_em with_reads t_em t_fs t_taken t_sent t_reads]; try done.
  - intros Hk. by rewrite (Hg Hk), (Htk Hk).
  - rewrite Hsent, length_app. cbn [length]. rewrite wrap_small by (unfold in_range; lia). lia.
  - rewrite length_app. cbn [length]. lia.
  - by destruct (t_taken t).
  - exists (consumed ++ [(kOk, out, resume)]). rewrite <- app_assoc. split; [done|]. rewrite omap_app. cbn [omap list_omap read_frame].
    apply Forall2_app; [done|]. by repeat constructor.
Qed.

(** The exception [encode] throws, for a frame of the ring that is not a message. *)
Definition bad_read (f : fault) : Prop :=
  f = InvalidArgument /\ exists out resume s, In (kOk, out, resume) reads0 /\ stamp cfg out = Ok s /\ validate_frame s = false.

Lemma bad_read_intro (t : Tx R) (out s : bytes) (resume : Z) (reads : list (FrameStatus * bytes * Z)) (f : fault) :
  inv t -> next_read (t_reads t) = ((kOk, out, resume), reads) -> stamp cfg out = Ok s -> f = InvalidArgument /\ validate_frame s = false -> bad_read f.
Proof.
  intros [? ? ? ? ? ? ? ? (consumed & Hc & _)] En Es [Ef Ev]. split; [done|]. exists out, resume, s. split_and!; try done.
  unfold next_read in En. destruct (t_reads t) as [|x xs]; [done|]. injection En as -> _. rewrite Hc. apply in_app_iff. right. by left.
Qed.

(** *** The fast path *)
Lemma fast_take_ok (n : nat) (b : Batch) (out frame encoded : bytes) (now : Z) :
  wf_batch n b -> (bt_size b < n)%nat -> (length out <= datagram_cap)%nat -> (length frame <= datagram_cap)%nat -> (length encoded <= datagram_cap)%nat ->
  exists b', fast_take b out frame encoded now = Ok b' /\ wf_batch n b' /\ bt_size b' = S (bt_size b) /\ contents b' = contents b ++ [encoded].
Proof.
  intros Hwf Hlt Ho Hfr Hen. pose proof Hwf as [Hf Hc _ Hl _ _]. unfold fast_take.
  destruct (vget_lt (bt_frames b) (bt_size b)) as (buf & Eg & Eb); [lia|].
  assert (Hbuf : length buf = datagram_cap) by (by eapply (Forall_lookup_1 _ _ _ _ Hc)). rewrite Eg. cbn [rbind].
  rewrite overwrite_ok by lia. cbn [rbind]. set (buf1 := take 0 buf ++ _).
  assert (H1 : length buf1 = datagram_cap) by (unfold buf1; rewrite !length_app, length_take, length_drop; lia).
  rewrite overwrite_ok by lia. cbn [rbind]. set (buf2 := take 0 buf1 ++ _).
  assert (H2 : length buf2 = datagram_cap) by (unfold buf2; rewrite !length_app, length_take, length_drop; lia).
  set (b2 := mkBatch (<[bt_size b := buf2]> (bt_frames b)) (bt_iov_len b) (bt_lengths b) (bt_size b) now).
  assert (Hwf2 : wf_batch n b2 /\ contents b2 = contents b).
  { destruct Hwf. split; [constructor; cbn [b2 bt_frames bt_iov_len bt_lengths bt_size]; rewrite ?length_insert; try done; by apply Forall_insert|].
    unfold contents. cbn [b2 bt_frames bt_lengths bt_size]. by rewrite take_insert_ge by lia. }
  destruct Hwf2 as [Hwf2 Hc2].
  destruct (queue_datagram_ok n b2 encoded (mkWorld [] [] [] [] []) Hwf2) as (b3 & w & E3 & Hwf3 & Hs3 & Hc3 & _); [done|done|].
  unfold queue_datagram in E3. cbn [b2 bt_frames bt_iov_len bt_lengths bt_size bt_first_ns] in E3.
  rewrite (proj2 (vget_lookup _ _ buf2)) in E3 by (apply list_lookup_insert_eq; lia). cbn [rbind] in E3.
  rewrite overwrite_ok in E3 |- * by lia. cbn [rbind] in E3 |- *. set (buf3 := take 0 buf2 ++ _) in *.
  rewrite vset_lt in E3 by (rewrite length_insert; lia). rewrite vset_lt by lia. cbn [rbind] in E3 |- *. rewrite list_insert_insert_eq in E3.
  rewrite vset_lt in E3 |- * by lia. cbn [rbind] in E3 |- *. eexists. split; [done|].
  destruct (if (bt_size b =? 0)%nat then _ else _) as [first w0] in E3. injection E3 as <- _. cbn [bt_size] in Hs3.
  rewrite Hc2 in Hc3. split_and!; [|done|exact Hc3]. destruct Hwf3. by constructor.
Qed.

Lemma fast_fill_ok (n : nat) (t : Tx R) (now : Z) (made : bool) :
  plain_fast_path cfg = true -> inv t -> (bt_size (o_batch (e_out (t_em t))) + n = tx_batch_size cfg)%nat ->
  wp bad_read (fun r => let '(_, ok, t') := r in ok = true -> inv t') (fast_fill cfg n t now made).
Proof.
  intros Hfast. assert (Hk0 : tx_fec_k cfg = 0) by (unfold plain_fast_path in Hfast; zbool; done).
  revert t made. induction n as [|n IH]; intros t made Hi Hn; cbn [fast_fill]; [by cbn [wp]|]. destruct (negb (more_wanted cfg t)); [by cbn [wp]|].
  destruct (next_read (t_reads t)) as [[[st out] resume] reads] eqn:En.
  destruct st; try (intros _; first [eapply inv_lapped|idtac]; by eapply inv_reads).
  destruct (stamp cfg out) as [frame|] eqn:Es; [|pose proof (stamp_ok cfg out) as H0; by rewrite Es in H0].
  pose proof (stamp_ok cfg out) as Hsl. rewrite Es in Hsl. cbn [wp rbind] in *.
  destruct (encode frame) as [encoded|ft] eqn:Ee; pose proof (encode_wp frame) as Hen; rewrite Ee in Hen; cbn [wp rbind] in *; [|by eapply bad_read_intro].
  destruct Hen as [Hel Hfl]. unfold kMaxFrame, sizeof_OrderBook in Hfl.
  destruct (ti_out _ _ Hi) as [Hwf Hfit Hw Hpk].
  destruct (fast_take_ok _ _ out frame encoded now Hwf ltac:(lia)) as (b & Eb & Hwf' & Hs' & Hc');
    [unfold datagram_cap, max_frame in *; lia..|]. cbn [with_reads t_em]. rewrite Eb. cbn [rbind].
  set (o := e_out (t_em t)) in *. set (e := mkEm (mkOut b (o_counters o) (o_io o) (o_flushed o)) (e_pending (t_em t)) (e_draws (t_em t))
    (e_dropped (t_em t)) (e_reordered (t_em t)) (e_lost (t_em t))). set (f := add_data_bytes (t_fs t) (length encoded)).
  assert (Hacc : accepted cfg (e_out e) = accepted cfg o ++ [wrapk encoded]).
  { unfold accepted. cbn [e e_out o_batch o_flushed]. by rewrite Hc', map_app, app_assoc. }
  apply (IH (taken_one (with_em (with_reads t reads) e f) encoded)); [|cbn; lia].
  assert (Hpl : forall g tk, planned g tk = tk) by (intros g tk; unfold planned; by rewrite Hk0).
  eapply inv_takes; try done; [by exists frame| | | | ].
  - constructor; cbn [e e_out o_batch o_io o_flushed o_counters]; [done| |done|done]. rewrite Hc'. apply Forall_app. split; [done|].
    apply Forall_singleton. unfold payload_cap. lia.
  - apply (ti_pending _ _ Hi).
  - pose proof (ti_fs _ _ Hi) as [[] Hrm]. by split; [constructor|].
  - destruct (ti_emitted _ _ Hi) as [Ht Hq]. rewrite Hpl in Ht, Hq. split; rewrite Hpl, map_app.
    + rewrite <- Ht. unfold total. rewrite Hacc. cbn [e e_pending e_lost]. rewrite <- !app_assoc. apply Permutation_app_head, Permutation_app_comm.
    + intros Q. destruct (Hq Q) as [Hc Ha]. split; [done|]. rewrite Hacc. f_equal. exact Ha.
Qed.

Lemma no_fault_invalid {A} (P Q : A -> Prop) (m : res A) : wp no_fault P m -> (forall a, P a -> Q a) -> wp bad_read Q m.
Proof. intros Hm Hq. eapply wp_mono; [exact Hm|by intros|exact Hq]. Qed.

(** The state after a turn of the loop that does not end the program. *)
Definition good (r : outcome * Tx R) : Prop := fst r <> Exit1 -> inv (snd r) /\ roomy (snd r).

Lemma idle_good (t : Tx R) (now : Z) : inv t -> roomy t -> good (idle_check cfg t now, t).
Proof. by intros. Qed.

(** An optional flush. *)
Lemma maybe_flush_ok (c : bool) (t : Tx R) :
  inv t -> (c = false -> roomy t) ->
  wp no_fault (fun r => fst r = true -> inv (snd r) /\ roomy (snd r)) (if c then flush_tx cfg t else Ok (true, t)).
Proof. intros Hi Hr. destruct c; [by apply flush_tx_ok|]. intros _. split; [done|by apply Hr]. Qed.

Lemma fast_path_ok (t : Tx R) (now : Z) : plain_fast_path cfg = true -> inv t -> roomy t -> wp bad_read good (fast_path cfg t now).
Proof.
  intros Hfast Hi Hr. unfold fast_path. unfold roomy, room in Hr.
  eapply wp_bind; [apply fast_fill_ok; [done|done|lia]|]. intros [[made ok] t1] H1. destruct ok; [|by intros Hx]. cbn [negb]. specialize (H1 eq_refl).
  eapply wp_bind; [eapply no_fault_invalid; [apply (maybe_flush_ok _ t1 H1)|intros a Ha; exact Ha]|].
  { intros Hc. apply Nat.leb_gt in Hc. exact Hc. }
  intros [ok t2] H2. cbn [fst snd] in H2. destruct ok; [|by intros Hx]. cbn [negb]. destruct (H2 eq_refl) as [Hi2 Hr2].
  set (t3 := if made then with_progress t2 now else t2). assert (Hi3 : inv t3) by (unfold t3; destruct made; [by apply inv_progress|done]).
  assert (Hr3 : roomy t3) by (unfold t3; by destruct made).
  assert (H4 : wp no_fault (fun r => fst r = true -> inv (snd r) /\ roomy (snd r))
    (if (bt_size (o_batch (e_out (t_em t3))) =? 0)%nat then Ok (true, t3) else flush_tx cfg t3)).
  { destruct (_ =? 0)%nat; [by intros _|by apply flush_tx_ok]. }
  eapply wp_bind; [eapply no_fault_invalid; [exact H4|intros a Ha; exact Ha]|].
  intros [ok t4] H5. cbn [fst snd] in H5. destruct ok; [|by intros Hx]. cbn [negb]. destruct (H5 eq_refl) as [Hi4 Hr4].
  destruct made; [by intros _|]. pose proof (now_tx_ok t4 Hi4 Hr4) as [Hi5 Hr5]. destruct (now_tx t4) as [n t5]. by apply idle_good.
Qed.

Lemma note_arrival_ok (t : Tx R) (now : Z) :
  inv t -> wp no_fault (fun f => fs_ok f /\ gen_frames f = gen_frames (t_fs t) /\ forall tk, planned f tk = planned (t_fs t) tk)
    (note_arrival cfg (t_fs t) now (t_sent t)).
Proof.
  intros Hi. unfold note_arrival. destruct (Z.eqb_spec (tx_fec_k cfg) 0); [by split_and!; try apply (ti_fs _ _ Hi)|].
  pose proof (ti_fs _ _ Hi) as [Hf Hrm]. assert (Hs : wp no_fault (fun iv => (length iv <= kSampleLimit)%nat)
    (if f_last_arrival_ns (t_fs t) =? 0 then Ok (f_intervals (t_fs t)) else sample (f_intervals (t_fs t)) (u64 (now - f_last_arrival_ns (t_fs t))) (t_sent t))).
  { destruct (Z.eqb_spec (f_last_arrival_ns (t_fs t)) 0) as [|Hl]; [apply (fo_iv _ Hf)|].
    pose proof (ti_last _ _ Hi Hl) as Hne. pose proof (ti_sent _ _ Hi) as Hsent.
    destruct (sample_ok (f_intervals (t_fs t)) (u64 (now - f_last_arrival_ns (t_fs t))) (t_sent t) (fo_iv _ Hf)) as (out & -> & Hle & _); [|done].
    destruct (t_taken t); [done|]. rewrite Hsent. cbn [length]. lia. }
  eapply wp_bind; [exact Hs|]. intros iv Hiv. cbn [wp]. split_and!; [|done|done].
  split; [destruct Hf; by constructor|done].
Qed.

Lemma slow_path_ok (t : Tx R) (now : Z) : inv t -> roomy t -> wp bad_read good (slow_path cfg t now).
Proof.
  intros Hi Hr. unfold slow_path. destruct (next_read (t_reads t)) as [[[st out] resume] reads] eqn:En. destruct st.
  - pose proof (stamp_ok cfg out) as Hsl. destruct (stamp cfg out) as [frame|] eqn:Es; cbn [wp rbind] in *; [|done].
    pose proof (encode_wp frame) as Hen. destruct (encode frame) as [encoded|ft] eqn:Ee; cbn [wp rbind] in *; [|by eapply bad_read_intro].
    eapply wp_bind; [eapply no_fault_invalid; [apply (note_arrival_ok t now Hi)|intros a Ha; exact Ha]|]. intros f (Hf & Hg & Hp).
    eapply wp_bind; [eapply no_fault_invalid; [apply (send_encoded_ok (t_em t) f encoded (t_taken t) now); [by apply inv_em_ok|done|tauto]|intros a Ha; exact Ha]|].
    intros [[ok e] f'] H1. destruct ok; [|by intros Hx]. cbn [negb]. destruct (H1 eq_refl) as (Hf' & Hg' & _ & ds & Hp' & He). intros _. cbn [snd].
    split; [|apply He]. apply inv_progress. destruct He as ((Ho' & Hr' & Hpd') & He).
    eapply inv_takes; try done; [by exists frame| |].
    + eapply (sent_ok_step (t_em t) e (t_fs t)); [apply (ti_emitted _ _ Hi)|by rewrite Hp', Hp|]. split; [by split_and!|done].
    + intros Hk. by rewrite (Hg' Hk), Hg.
  - pose proof (inv_reads t _ _ Hi En eq_refl) as Hi1. pose proof (now_tx_ok (with_reads t reads) Hi1 Hr) as [Hi2 Hr2].
    destruct (now_tx (with_reads t reads)) as [n t2]. cbn [snd] in *.
    eapply wp_bind; [eapply no_fault_invalid; [apply (flush_pending_em_ok cfg Hbatch (t_em t2) n false), inv_em_ok; done|intros a Ha; exact Ha]|].
    intros [ok e] H1. cbn [fst snd] in H1. destruct ok; [|by intros Hx]. cbn [negb]. destruct (H1 eq_refl) as [He _].
    destruct (inv_emits t2 e (t_fs t2) [] Hi2 (ti_fs _ _ Hi2) eq_refl eq_refl ltac:(by rewrite app_nil_r) He) as [Hi3 Hr3].
    eapply wp_bind; [eapply no_fault_invalid; [apply (flush_tx_ok _ Hi3)|intros a Ha; exact Ha]|].
    intros [ok t4] H2. cbn [fst snd] in H2. destruct ok; [|by intros Hx]. destruct (H2 eq_refl). by apply idle_good.
  - intros _. split; [|exact Hr]. apply inv_lapped. by eapply inv_reads.
  - by intros Hx.
Qed.

Lemma tx_iteration_ok (t : Tx R) : inv t -> roomy t -> wp bad_read good (tx_iteration cfg t).
Proof.
  intros Hi Hr. unfold tx_iteration. destruct (echo_part_total cfg (t_echo t) (t_echo_ring t) (t_echo_received t) Hecho) as (eok & evs & ring & rec & ->).
  cbn [rbind]. set (t0 := mkTx _ _ _ _ _ _ _ _ _ _ _ _). destruct eok; [|by intros Hx]. cbn [negb].
  assert (Hi0 : inv t0) by (destruct Hi; constructor; done). assert (Hr0 : roomy t0) by done.
  pose proof (now_tx_ok t0 Hi0 Hr0) as [Hi1 Hr1]. destruct (now_tx t0) as [now t1]. cbn [snd] in *.
  eapply wp_bind; [eapply no_fault_invalid; [apply (maybe_flush_ok _ t1 Hi1); by intros|intros a Ha; exact Ha]|].
  intros [ok t2] H2. cbn [fst snd] in H2. destruct ok; [|by intros Hx]. cbn [negb]. destruct (H2 eq_refl) as [Hi2 Hr2].
  assert (H3 : wp no_fault (fun r => fst r = true -> inv (snd r) /\ roomy (snd r))
    (if negb (tx_fec_k cfg =? 0) && negb (Encoder_empty (f_encoder (t_fs t2))) && (u64 (tx_fec_timeout_us cfg * 1000) <=? u64 (now - f_first_ns (t_fs t2)))
     then let! '(ok, e, f) := close_generation cfg (t_em t2) (t_fs t2) 1 in Ok (ok, with_em t2 e f) else Ok (true, t2))).
  { destruct (_ && _ && _); [|by intros _].
    eapply wp_bind; [apply (close_generation_ok (t_em t2) (t_fs t2) 1 (t_taken t2)); [by apply inv_em_ok|apply (ti_fs _ _ Hi2)|lia]|].
    intros [[ok e] f] Hc Et. cbn [fst snd] in *. destruct (Hc Et) as (Hf & Hg & Hl & _ & ds & Hp & He). by apply (inv_emits t2 e f ds). }
  eapply wp_bind; [eapply no_fault_invalid; [exact H3|intros a Ha; exact Ha]|].
  intros [ok t3] H4. cbn [fst snd] in H4. destruct ok; [|by intros Hx]. cbn [negb]. destruct (H4 eq_refl) as [Hi3 Hr3].
  destruct (plain_fast_path cfg) eqn:Hfast; [by apply fast_path_ok|by apply slow_path_ok].
Qed.

Lemma tx_loop_ok (stops : list bool) (t : Tx R) :
  inv t -> roomy t -> wp bad_read (fun r => fst r = true -> inv (snd r) /\ roomy (snd r)) (tx_loop cfg stops t).
Proof.
  revert t. induction stops as [|stop stops IH]; intros t Hi Hr; [by intros _|]. cbn [tx_loop]. destruct (stop || _); [by intros _|].
  eapply wp_bind; [by apply tx_iteration_ok|]. intros [oc t1] H1. unfold good in H1. cbn [fst snd] in H1.
  destruct oc; [destruct (H1 ltac:(done)); by apply IH|destruct (H1 ltac:(done)); by intros _|by intros Hx].
Qed.

(** After the last flush nothing is left behind. *)
Lemma tx_finish_ok (t : Tx R) :
  inv t -> roomy t ->
  wp no_fault (fun r => fst r = true -> inv (snd r) /\ bt_size (o_batch (e_out (t_em (snd r)))) = 0%nat /\ e_pending (t_em (snd r)) = [] /\
    (tx_fec_k cfg <> 0 -> en_frames (f_encoder (t_fs (snd r))) = [])) (tx_finish cfg t).
Proof.
  intros Hi Hr. unfold tx_finish.
  eapply wp_bind; [apply (close_generation_ok (t_em t) (t_fs t) 2 (t_taken t)); [by apply inv_em_ok|apply (ti_fs _ _ Hi)|lia]|].
  intros [[ok e] f] Hc. destruct ok; [|by intros Hx]. cbn [negb]. destruct (Hc eq_refl) as (Hf & Hg & Hl & Hemp & ds & Hp & He).
  destruct (inv_emits t e f ds Hi Hf Hg Hl Hp He) as [Hi1 Hr1]. pose proof (now_tx_ok _ Hi1 Hr1) as [Hi2 Hr2].
  assert (Hfs : t_fs (snd (now_tx (with_em t e f))) = f) by (unfold now_tx; by destruct (now_em _)).
  destruct (now_tx (with_em t e f)) as [n t2]. cbn [snd] in *.
  eapply wp_bind; [apply (flush_pending_em_ok cfg Hbatch (t_em t2) n true), inv_em_ok; done|].
  intros [ok e2] H1. cbn [fst snd] in H1. destruct ok; [|by intros Hx]. cbn [negb]. destruct (H1 eq_refl) as [He2 Hpd].
  destruct (inv_emits t2 e2 (t_fs t2) [] Hi2 (ti_fs _ _ Hi2) eq_refl eq_refl ltac:(by rewrite app_nil_r) He2) as [Hi3 Hr3].
  eapply wp_mono; [apply (flush_tx_empties _ Hi3)|done|]. intros r H4 Et. destruct (H4 Et) as (Hi4 & Hs & Hp4 & Hf4).
  split_and!; try done; [rewrite Hp4; by apply Hpd|]. rewrite Hf4. cbn [with_em t_fs]. by rewrite Hfs.
Qed.

(** *** With the fan-out queues a run does not fail *)
Section Succeeds.
Hypothesis Hfan : fanout cfg = true.
Hypothesis Hquiet : quiet cfg.

Definition any_fault (_ : fault) : Prop := True.
#[local] Abbreviation succeeds := (wp any_fault (fun r => fst r = true)).

Lemma flush_batch_succeeds (o : Out) : succeeds (flush_batch cfg o).
Proof.
  unfold flush_batch. destruct (_ =? 0)%nat; [done|]. destruct (forM _ _ _) as [b|]; [|done]. cbn [rbind].
  destruct (messages_at _ _ _ _); [|done]. cbn [rbind]. by rewrite Hfan.
Qed.

Lemma queue_or_flush_succeeds (o : Out) (data : bytes) : succeeds (queue_or_flush cfg o data).
Proof.
  unfold queue_or_flush. destruct (queue_datagram _ _ _) as [[b w]|]; [|done]. cbn [rbind]. destruct (_ <=? _)%nat; [apply flush_batch_succeeds|done].
Qed.

Lemma flush_pending_succeeds (ps : list PendingDatagram) (o : Out) (now : Z) (all : bool) :
  wp any_fault (fun r => fst (fst r) = true) (flush_pending cfg o ps now all).
Proof.
  revert o. induction ps as [|p ps IH]; intros o; [done|]. cbn [flush_pending]. destruct (_ || _).
  - eapply wp_bind; [apply queue_or_flush_succeeds|]. intros [ok o1] E. cbn in E. subst ok. apply IH.
  - eapply wp_bind; [apply IH|]. by intros [[ok o1] kept] E.
Qed.

Lemma flush_pending_em_succeeds (e : Em) (now : Z) (all : bool) : succeeds (flush_pending_em cfg e now all).
Proof. unfold flush_pending_em. eapply wp_bind; [apply flush_pending_succeeds|]. by intros [[ok o] kept] E. Qed.

Lemma emit_datagram_succeeds (e : Em) (data : bytes) : succeeds (emit_datagram cfg e data).
Proof.
  destruct Hquiet as [Hd Hr]. unfold emit_datagram, draw. rewrite Hd, Hr. cbn [andb]. destruct (now_em e) as [now e1].
  eapply wp_bind; [apply flush_pending_em_succeeds|]. intros [ok e2] E. cbn in E. subst ok. cbn [negb].
  eapply wp_bind; [apply queue_or_flush_succeeds|]. intros [ok o] E. cbn in E. subst ok. cbn [negb].
  destruct (now_em _). apply flush_pending_em_succeeds.
Qed.

Lemma emit_all_succeeds (ds : list bytes) (e : Em) : succeeds (emit_all cfg e ds).
Proof.
  revert e. induction ds as [|d ds IH]; intros e; [done|]. cbn [emit_all].
  eapply wp_bind; [apply emit_datagram_succeeds|]. intros [ok e1] E. cbn in E. subst ok. apply IH.
Qed.

Lemma close_generation_succeeds (e : Em) (f : Fs) (reason : Z) : wp any_fault (fun r => fst (fst r) = true) (close_generation cfg e f reason).
Proof.
  unfold close_generation. destruct (_ || _); [done|]. destruct (Encoder_close _ _ _) as [[built enc]|]; [|done]. cbn [rbind].
  eapply wp_bind; [apply emit_datagram_succeeds|]. intros [ok e1] E. cbn in E. subst ok. cbn [negb].
  eapply wp_bind; [apply emit_all_succeeds|]. intros [ok e2] E. cbn in E. by subst ok.
Qed.

Lemma send_encoded_succeeds (e : Em) (f : Fs) (encoded : bytes) (now : Z) :
  fs_ok f -> (1 <= length encoded <= max_frame)%nat -> wp any_fault (fun r => fst (fst r) = true) (send_encoded cfg e f encoded now).
Proof.
  intros [Hf Hrm] Hl. unfold send_encoded. destruct (Z.eqb_spec (tx_fec_k cfg) 0) as [|Hk].
  { eapply wp_bind; [apply emit_datagram_succeeds|]. by intros [ok e1] E. }
  assert (Ha : fst (Encoder_add (f_encoder f) encoded) = true).
  { unfold Encoder_add. specialize (Hrm Hk). rewrite (fo_k f Hf Hk).
    replace (Z.of_nat (length encoded) =? 0) with false by lia. replace (Z.of_nat max_frame <? Z.of_nat (length encoded)) with false by (symmetry; apply Z.ltb_ge; lia).
    by replace (Z.of_nat (length (en_frames (f_encoder f))) =? tx_fec_k cfg) with false by lia. }
  destruct (Encoder_add (f_encoder f) encoded) as [added enc]. cbn in Ha. subst added. cbn [negb].
  destruct (data_datagram _ _ _ _); [|done]. cbn [rbind].
  eapply wp_bind; [apply emit_datagram_succeeds|]. intros [ok e1] E. cbn in E. subst ok. cbn [negb].
  destruct (Encoder_full _); [apply close_generation_succeeds|done].
Qed.

Lemma flush_tx_succeeds (t : Tx R) : succeeds (flush_tx cfg t).
Proof. unfold flush_tx. eapply wp_bind; [apply flush_batch_succeeds|]. by intros [ok o] E. Qed.

(** No slot of the ring was found corrupt (the ring never has one). *)
Definition sound_reads (reads : list (FrameStatus * bytes * Z)) : Prop := forall r, In r reads -> fst (fst r) <> kCorrupt.

Lemma sound_next (reads rest : list (FrameStatus * bytes * Z)) (r : FrameStatus * bytes * Z) :
  sound_reads reads -> next_read reads = (r, rest) -> fst (fst r) <> kCorrupt /\ sound_reads rest.
Proof.
  intros Hs. unfold next_read. destruct reads as [|x xs]; intros [= <- <-]; [done|]. split; [apply Hs; by left|].
  intros y Hy. apply Hs. by right.
Qed.

Lemma fast_fill_succeeds (n : nat) (t : Tx R) (now : Z) (made : bool) :
  sound_reads (t_reads t) -> wp any_fault (fun r => snd (fst r) = true) (fast_fill cfg n t now made).
Proof.
  revert t made. induction n as [|n IH]; intros t made Hs; cbn [fast_fill]; [done|]. destruct (negb _); [done|].
  destruct (next_read (t_reads t)) as [[[st out] resume] reads] eqn:En. destruct (sound_next _ _ _ Hs En) as [Hst Hs'].
  destruct st; try done. destruct (stamp cfg out) as [fr|]; [|done]. cbn [rbind]. destruct (encode fr) as [enc|]; [|done]. cbn [rbind].
  destruct (fast_take _ _ _ _ _) as [b|]; [|done]. cbn [rbind]. by apply IH.
Qed.

Definition goes_on (r : outcome * Tx R) : Prop := fst r <> Exit1.

Lemma idle_goes_on (t : Tx R) (now : Z) : goes_on (idle_check cfg t now, t).
Proof. unfold goes_on, idle_check. cbn. by destruct (_ <? _). Qed.

Lemma fast_path_succeeds (t : Tx R) (now : Z) : sound_reads (t_reads t) -> wp any_fault goes_on (fast_path cfg t now).
Proof.
  intros Hs. unfold fast_path. eapply wp_bind; [by apply fast_fill_succeeds|]. intros [[made ok] t1] E. cbn in E. subst ok. cbn [negb].
  assert (Hm : forall (c : bool) (t : Tx R), succeeds (if c then flush_tx cfg t else Ok (true, t)) /\ succeeds (if c then Ok (true, t) else flush_tx cfg t)).
  { intros [] t'; split; try done; apply flush_tx_succeeds. }
  eapply wp_bind; [apply Hm|]. intros [ok t2] E. cbn in E. subst ok. cbn [negb].
  eapply wp_bind; [apply Hm|]. intros [ok t3] E. cbn in E. subst ok. cbn [negb].
  destruct made; [done|]. destruct (now_tx t3). apply idle_goes_on.
Qed.

Lemma slow_path_succeeds (t : Tx R) (now : Z) : inv t -> sound_reads (t_reads t) -> wp any_fault goes_on (slow_path cfg t now).
Proof.
  intros Hi Hs. unfold slow_path. destruct (next_read (t_reads t)) as [[[st out] resume] reads] eqn:En.
  destruct (sound_next _ _ _ Hs En) as [Hst _]. destruct st; try done.
  - destruct (stamp cfg out) as [fr|]; [|done]. cbn [rbind]. pose proof (encode_wp fr) as Hen. destruct (encode fr) as [enc|]; [|done]. cbn [rbind wp] in *.
    eapply wp_bind; [eapply wp_mono; [apply (note_arrival_ok t now Hi)|by intros|intros a Ha; exact Ha]|]. intros f (Hf & _).
    eapply wp_bind; [apply send_encoded_succeeds; [done|tauto]|]. intros [[ok e] f'] E. cbn in E. by subst ok.
  - destruct (now_tx _) as [n t2]. eapply wp_bind; [apply flush_pending_em_succeeds|]. intros [ok e] E. cbn in E. subst ok. cbn [negb].
    eapply wp_bind; [apply flush_tx_succeeds|]. intros [ok t3] E. cbn in E. subst ok. apply idle_goes_on.
Qed.

(** A call that succeeds has established what it promises on success. *)
Lemma both {A} (P : A -> Prop) (m : res (bool * A)) :
  wp no_fault (fun r => fst r = true -> P (snd r)) m -> succeeds m -> wp any_fault (fun r => fst r = true /\ P (snd r)) m.
Proof. destruct m as [[ok a]|]; cbn; auto. Qed.

Hypothesis Hsound : sound_reads reads0.

Lemma inv_sound (t : Tx R) : inv t -> sound_reads (t_reads t).
Proof. intros [? ? ? ? ? ? ? ? (consumed & Hc & _)] r Hr. apply Hsound. rewrite Hc. apply in_app_iff. by right. Qed.

Lemma tx_iteration_succeeds (t : Tx R) : inv t -> roomy t -> wp any_fault goes_on (tx_iteration cfg t).
Proof.
  intros Hi Hr. unfold tx_iteration. assert (Hoff : tx_echo cfg = false) by (destruct Hecho as [?|[? _]]; [done|congruence]). rewrite Hoff. cbn [rbind negb]. set (t0 := mkTx _ _ _ _ _ _ _ _ _ _ _ _).
  assert (H0 : inv t0 /\ roomy t0) by (destruct t; done). destruct H0 as [Hi0 Hr0].
  pose proof (now_tx_ok t0 Hi0 Hr0) as [Hi1 Hr1]. destruct (now_tx t0) as [now t1]. cbn [snd] in *.
  eapply wp_bind; [apply (both (fun t => inv t /\ roomy t)); [apply (maybe_flush_ok _ t1 Hi1); by intros|destruct (_ && _); [apply flush_tx_succeeds|done]]|].
  intros [ok t2] (E & Hi2 & Hr2). cbn in E, Hi2, Hr2. subst ok. cbn [negb].
  eapply (wp_bind _ (fun r => fst r = true /\ inv (snd r))).
  { destruct (_ && _ && _); [|by cbn]. pose proof (close_generation_succeeds (t_em t2) (t_fs t2) 1) as Hsu.
    pose proof (close_generation_ok (t_em t2) (t_fs t2) 1 (t_taken t2) (inv_em_ok t2 Hi2 Hr2) (proj1 (ti_fs _ _ Hi2)) ltac:(lia)) as Hok.
    destruct (close_generation cfg (t_em t2) (t_fs t2) 1) as [[[ok e] f]|]; [|done]. cbn in Hsu, Hok |- *. subst ok.
    destruct (Hok eq_refl) as (Hf & Hg & Hl & _ & ds & Hp & He). split; [done|]. by apply (inv_emits t2 e f ds). }
  intros [ok t3] (E & Hi3). cbn in E, Hi3. subst ok. cbn [negb].
  destruct (plain_fast_path cfg); [apply fast_path_succeeds|apply slow_path_succeeds]; try done; by apply inv_sound.
Qed.

Lemma tx_loop_succeeds (stops : list bool) (t : Tx R) : inv t -> roomy t -> succeeds (tx_loop cfg stops t).
Proof.
  revert t. induction stops as [|stop stops IH]; intros t Hi Hr; [done|]. cbn [tx_loop]. destruct (stop || _); [done|].
  pose proof (tx_iteration_ok t Hi Hr) as Hok. pose proof (tx_iteration_succeeds t Hi Hr) as Hsu.
  destruct (tx_iteration cfg t) as [[oc t1]|]; [|done]. cbn in Hok, Hsu |- *. unfold good, goes_on in *. cbn in *.
  destruct oc; [destruct (Hok Hsu); by apply IH|done|done].
Qed.

Lemma tx_finish_succeeds (t : Tx R) : succeeds (tx_finish cfg t).
Proof.
  unfold tx_finish. eapply wp_bind; [apply close_generation_succeeds|]. intros [[ok e] f] E. cbn in E. subst ok. cbn [negb].
  destruct (now_tx _) as [n t2]. eapply wp_bind; [apply flush_pending_em_succeeds|]. intros [ok e2] E. cbn in E. subst ok. cbn [negb].
  apply flush_tx_succeeds.
Qed.
End Succeeds.
End Inv.
End Loop.

(** ** Properties *)

(** What a run that reports success has done with the frames it read. *)
Definition sent_all {R} (cfg : TxConfig) (reads : list (FrameStatus * bytes * Z)) (t : Tx R) : Prop :=
  (exists consumed, reads = consumed ++ t_reads t /\ Forall2 (encodes cfg) (omap read_frame consumed) (t_taken t)) /\
  concat (o_flushed (e_out (t_em t))) =
    map (mux_wrap (tx_key cfg)) (if tx_fec_k cfg =? 0 then t_taken t else flat_map (fun g => all_datagrams (snd g)) (f_built (t_fs t))) /\
  (tx_fec_k cfg <> 0 ->
     t_taken t = flat_map (fun g => en_frames (fst (fst g))) (f_built (t_fs t)) /\
     forall i g, f_built (t_fs t) !! i = Some g -> gen_ok cfg i g) /\
  (fanout cfg = false -> wd_wire (o_io (e_out (t_em t))) = flat_map (plan_of cfg) (o_flushed (e_out (t_em t)))).

Section Properties.
Context {R : Type} `{Sink R}.
Variable cfg : TxConfig.
Hypothesis Hbatch : (1 <= tx_batch_size cfg)%nat.
Hypothesis Hfec : 0 <= tx_fec_k cfg <= 128.
Hypothesis Hparity : 1 <= tx_fec_parity cfg <= 16.
Hypothesis Hecho : echo_safe R cfg.

Lemma tx_init_ok (ring : R) (start : Z) (io : World) (draws : list bool) (reads : list (FrameStatus * bytes * Z)) (evs : list echo_event) (t0 : Tx R) :
  wd_wire io = [] -> Z.of_nat (length reads) < 2 ^ 64 -> tx_init cfg ring start io draws reads evs = Ok t0 -> tx_inv cfg reads t0 /\ roomy cfg t0.
Proof.
  intros Hw Hb E. unfold tx_init in E. assert (Hw' : wd_wire (snd (steady_now_ns io)) = []) by (unfold steady_now_ns; by destruct (wd_clock io)).
  destruct (steady_now_ns io) as [now io']. cbn [snd] in Hw'. destruct (Encoder_make _ _) as [enc|] eqn:Ee; [|done]. cbn [rbind] in E. injection E as <-.
  destruct (make_batch_wf (tx_batch_size cfg)) as [Hwf Hc].
  assert (Henc : wf_encoder enc /\ en_frames enc = []).
  { apply (Encoder_make_wf (if tx_fec_k cfg =? 0 then 1 else tx_fec_k cfg) (tx_fec_parity cfg)); [destruct (_ =? 0); lia|lia|done]. }
  destruct Henc as [Hwe Hfr]. unfold Encoder_make in Ee. destruct (_ || _ || _ || _); [done|]. injection Ee as <-. cbn [en_frames] in Hfr.
  split; [|unfold roomy, room; cbn; lia].
  assert (Hpl : planned cfg (mkFs (mkEncoder (if tx_fec_k cfg =? 0 then 1 else tx_fec_k cfg) (tx_fec_parity cfg) 0 []) 0 0 0 [] 0 0 0 0 0 0 []) [] = [])
    by (unfold planned; by destruct (_ =? 0)).
  assert (Hacc : accepted cfg (mkOut (make_batch (tx_batch_size cfg)) (mkCounters 0 0 0 0) io' []) = []) by (unfold accepted; cbn [o_batch o_flushed]; by rewrite Hc).
  constructor; cbn [t_em t_fs t_taken t_sent t_reads e_out e_pending]; try done.
  - constructor; cbn [o_batch o_io o_flushed o_counters sc_packets]; [done|by rewrite Hc; exact (List.Forall_nil _)|done|by rewrite Hw'].
  - exact (List.Forall_nil _).
  - split; [constructor; cbn [f_encoder f_gen_id f_built f_intervals en_k en_parity_count]; try done|].
    + intros Hk. by destruct (Z.eqb_spec (tx_fec_k cfg) 0).
    + cbn [length]. lia.
    + intros Hk. cbn. lia.
  - split; [|intros _; split; [done|]]; rewrite Hpl; unfold total; cbn [e_out e_pending e_lost map]; by rewrite Hacc.
  - by exists [].
Qed.

Lemma tx_run_ok (reads : list (FrameStatus * bytes * Z)) (stops : list bool) (t0 : Tx R) :
  tx_inv cfg reads t0 -> roomy cfg t0 ->
  wp (bad_read cfg reads) (fun r => fst r = true -> tx_inv cfg reads (snd r) /\ bt_size (o_batch (e_out (t_em (snd r)))) = 0%nat /\ e_pending (t_em (snd r)) = [] /\
    (tx_fec_k cfg <> 0 -> en_frames (f_encoder (t_fs (snd r))) = [])) (tx_run cfg stops t0).
Proof.
  intros Hi Hr. unfold tx_run. eapply wp_bind; [by apply (tx_loop_ok cfg Hbatch Hfec Hparity Hecho reads)|].
  intros [ok t1] H1. cbn [fst snd] in H1. destruct ok; [|by intros Hx]. cbn [negb]. destruct (H1 eq_refl) as [Hi1 Hr1].
  eapply wp_mono; [by apply (tx_finish_ok cfg Hbatch Hfec reads)|by intros|done].
Qed.

Lemma contents_empty (o : Out) : out_ok cfg o -> bt_size (o_batch o) = 0%nat -> accepted cfg o = concat (o_flushed o).
Proof.
  intros [Hwf _ _] Hs. unfold accepted. assert (contents (o_batch o) = []) as -> by (apply nil_length_inv; by rewrite (length_contents _ _ Hwf)).
  by rewrite app_nil_r.
Qed.

(** The outcome of a run with the test options off. *)
Lemma tx_run_outcome (ring : R) (start : Z) (io : World) (draws : list bool) (reads : list (FrameStatus * bytes * Z))
    (evs : list echo_event) (t0 : Tx R) (stops : list bool) :
  tx_test_drop cfg = false -> tx_test_reorder cfg = false -> wd_wire io = [] -> Z.of_nat (length reads) < 2 ^ 64 ->
  tx_init cfg ring start io draws reads evs = Ok t0 ->
  match tx_run cfg stops t0 with
  | Throw f => f = InvalidArgument /\ exists out resume s, In (kOk, out, resume) reads /\ stamp cfg out = Ok s /\ validate_frame s = false
  | Ok (false, _) => fanout cfg = true -> exists r, In r reads /\ fst (fst r) = kCorrupt
  | Ok (true, t) => sent_all cfg reads t
  end.
Proof.
  intros Hd Hro Hw Hb E. destruct (tx_init_ok ring start io draws reads evs t0 Hw Hb E) as [Hi Hr].
  assert (Hq : quiet cfg) by done. pose proof (tx_run_ok reads stops t0 Hi Hr) as Hrun.
  destruct (tx_run cfg stops t0) as [[[] t]|f] eqn:Er; cbn [wp fst snd] in Hrun; [| |exact Hrun].
  - destruct (Hrun eq_refl) as (Hi' & Hs & _ & Hemp). destruct (ti_emitted _ _ _ Hi') as [_ Hacc]. destruct (Hacc Hq) as [_ Ha].
    rewrite (contents_empty _ (ti_out _ _ _ Hi') Hs) in Ha. split_and!.
    + apply (ti_source _ _ _ Hi').
    + rewrite Ha. unfold planned. destruct (Z.eqb_spec (tx_fec_k cfg) 0) as [|Hk]; [done|]. unfold open_data. rewrite (Hemp Hk). cbn. by rewrite app_nil_r.
    + intros Hk. split; [|apply (ti_fs _ _ _ Hi')]. rewrite (ti_taken _ _ _ Hi' Hk). unfold gen_frames. by rewrite (Hemp Hk), app_nil_r.
    + apply (ti_out _ _ _ Hi').
  - intros Hfan. destruct (decide (Exists (fun r => fst (fst r) = kCorrupt) reads)) as [Hex|Hno]; [by apply Exists_exists in Hex as (r & Hin%list_elem_of_In & Hc); exists r|].
    exfalso. assert (Hs : sound_reads reads) by (intros r Hin Hc; apply Hno, Exists_exists; exists r; split; [by apply list_elem_of_In|done]).
    unfold tx_run in Er. pose proof (tx_loop_succeeds cfg Hbatch Hfec Hparity Hecho reads Hfan Hq Hs stops t0 Hi Hr) as Hls.
    destruct (tx_loop cfg stops t0) as [[ok t1]|]; [|done]. cbn in Hls. subst ok. cbn [rbind negb] in Er.
    pose proof (tx_finish_succeeds cfg Hfan Hq t1) as Hfs. rewrite Er in Hfs. done.
Qed.

(** C7: With the test options off, a run of the sender (the main loop in
    either mode and the final flush; in echo mode with an echo ring that takes
    every frame) cannot fail in any other way than these: it
    throws for a frame of the ring that is not a valid message, or stops at a
    failed send or a corrupt slot, and with the fan-out queues only at a corrupt
    slot.  When it succeeds, every frame it read was encoded under the sender's
    identity and sent exactly once and in order: bare, or, in FEC mode, as
    complete generations, each being exactly the datagrams [Encoder::close]
    builds for its frames, under consecutive generation numbers; the flushed
    batches, concatenated, are those datagrams with the stream header, and a
    single destination has each batch on the wire as often as configured. *)
Theorem sender_sends_every_frame (ring : R) (start : Z) (io : World) (draws : list bool) (reads : list (FrameStatus * bytes * Z))
    (evs : list echo_event) (t0 : Tx R) (stops : list bool) :
  tx_test_drop cfg = false -> tx_test_reorder cfg = false -> wd_wire io = [] -> Z.of_nat (length reads) < 2 ^ 64 ->
  tx_init cfg ring start io draws reads evs = Ok t0 ->
  match tx_run cfg stops t0 with
  | Throw f => f = InvalidArgument /\ exists out resume s, In (kOk, out, resume) reads /\ stamp cfg out = Ok s /\ validate_frame s = false
  | Ok (false, _) => fanout cfg = true -> exists r, In r reads /\ fst (fst r) = kCorrupt
  | Ok (true, t) => sent_all cfg reads t
  end.
Proof. apply tx_run_outcome. Qed.

End Properties.

(** A concrete run: three frames, generations of two, one UDP destination. *)
Definition demo_tx_cfg : TxConfig :=
  mkTxConfig (mkKey 7 9) false 0 2000 1 4 50 2 1 200 (S754_zero false) (S754_zero false) 0 false [(0%nat, Some false)].
Definition demo_reads : list (FrameStatus * bytes * Z) := [(kOk, demo_frame, 0); (kOk, demo_frame, 0); (kEmpty, [], 0); (kOk, demo_frame, 0)].
Definition demo_io : World := mkWorld [] [STook [None]; STook [None; None; None]; STook [None; None]; STook [None]] [] [] [].
Definition demo_tx0 : Tx (list bytes) :=
  match tx_init demo_tx_cfg [] 0 demo_io [] demo_reads [] with Ok t => t | Throw _ => mkTx (mkEm (mkOut (make_batch 0) (mkCounters 0 0 0 0) demo_io []) [] [] 0 0 [])
    (mkFs (mkEncoder 0 0 0 []) 0 0 0 [] 0 0 0 0 0 0 []) [] 0 0 0 0 0 [] [] 0 [] end.
(** Success, with the frames taken and the datagrams sent. *)
Definition run_sent {R} (r : res (bool * Tx R)) : option (nat * nat) :=
  match r with Ok (true, t) => Some (length (t_taken t), length (wd_wire (o_io (e_out (t_em t))))) | _ => None end.

Lemma run_sent_inv {R} (r : res (bool * Tx R)) (n m : nat) : run_sent r = Some (n, m) -> exists t, r = Ok (true, t).
Proof. destruct r as [[[] t]|]; [eauto|done|done]. Qed.

(** All three frames are taken and the five datagrams of two generations sent. *)
Lemma demo_run_sent : run_sent (tx_run demo_tx_cfg (replicate 6 false) demo_tx0) = Some (3%nat, 5%nat).
Proof. vm_compute. reflexivity. Qed.

Lemma demo_tx0_init : tx_init demo_tx_cfg [] 0 demo_io [] demo_reads [] = Ok demo_tx0.
Proof. vm_compute. reflexivity. Qed.
Lemma demo_reads_few : Z.of_nat (length demo_reads) < 2 ^ 64.
Proof. cbn. lia. Qed.

Lemma sender_sends_every_frame_witness :
  exists t, tx_run demo_tx_cfg (replicate 6 false) demo_tx0 = Ok (true, t) /\ sent_all demo_tx_cfg demo_reads t.
Proof.
  assert (H1 : (1 <= tx_batch_size demo_tx_cfg)%nat) by (cbn; lia). assert (H2 : 0 <= tx_fec_k demo_tx_cfg <= 128) by (cbn; lia).
  assert (H3 : 1 <= tx_fec_parity demo_tx_cfg <= 16) by (cbn; lia).
  pose proof (sender_sends_every_frame (R := list bytes) demo_tx_cfg H1 H2 H3 (or_introl eq_refl) [] 0 demo_io [] demo_reads [] demo_tx0
    (replicate 6 false) eq_refl eq_refl eq_refl demo_reads_few demo_tx0_init) as Hs.
  destruct (run_sent_inv _ _ _ demo_run_sent) as [t E]. rewrite E in Hs. exists t. split; [exact E|exact Hs].
Defined.

(** The same run with the second datagram dropped and the third delayed. *)
Definition demo_lossy_cfg : TxConfig :=
  mkTxConfig (mkKey 7 9) false 0 2000 1 4 50 2 1 200 (double_of 30) (double_of 20) 5 false [(0%nat, Some false)].
Definition demo_lossy0 : Tx (list bytes) :=
  match tx_init demo_lossy_cfg [] 0 demo_io [false; false; true; false; true] demo_reads [] with Ok t => t | Throw _ => demo_tx0 end.
Lemma demo_lossy_init : tx_init demo_lossy_cfg [] 0 demo_io [false; false; true; false; true] demo_reads [] = Ok demo_lossy0.
Proof. vm_compute. reflexivity. Qed.
Lemma demo_lossy_sent : run_sent (tx_run demo_lossy_cfg (replicate 6 false) demo_lossy0) = Some (3%nat, 4%nat).
Proof. vm_compute. reflexivity. Qed.

