(* ===== verification/Metrics.v ===== *)
(** * Delivery metrics: [harness/include/metrics.h]

    The accumulator and its report, with the nearest-rank computation and the
    averages in binary64 arithmetic as in the code, rounding included. *)
From S2P Require Import Prelude Double Samples.
From stdpp Require Import sorting.
Local Open Scope Z_scope.

(** ** The accumulator *)
Record Report := mkReport {
  rp_received : Z; rp_expected : Z; rp_dropped : Z; rp_drop_rate : double;
  rp_lat_min : Z; rp_lat_max : Z; rp_lat_mean : double; rp_p01 : Z; rp_p50 : Z; rp_p99 : Z; rp_p999 : Z; rp_p9999 : Z
}.

Record Accumulator := mkAcc {
  ac_min : Z; ac_max : Z; ac_received : Z; ac_first_seq : Z; ac_last_seq : Z; ac_sum : double; ac_latencies : list Z
}.

Definition Accumulator_make : Accumulator := mkAcc (2 ^ 64 - 1) 0 0 0 0 (S754_zero false) [].

Definition record (a : Accumulator) (seq_id latency_ns : Z) : res Accumulator :=
  let '(first, last) :=
    if ac_received a =? 0 then (seq_id, seq_id)
    else (if seq_id <? ac_first_seq a then seq_id else ac_first_seq a, if ac_last_seq a <? seq_id then seq_id else ac_last_seq a) in
  let received := u64 (ac_received a + 1) in
  let! lat := sample (ac_latencies a) latency_ns received in
  Ok (mkAcc (Z.min (ac_min a) latency_ns) (Z.max (ac_max a) latency_ns) received first last (dadd (ac_sum a) (double_of latency_ns)) lat).

Definition retained_samples (a : Accumulator) : nat := length (ac_latencies a).

Definition percentile (sorted : list Z) (p : double) : res Z :=
  if (length sorted =? 0)%nat then Ok 0
  else
    let n := Z.of_nat (length sorted) in
    let x := dmul p (double_of n) in
    let rank := size_of_double x in
    let rank := if SFltb (double_of rank) x then rank + 1 else rank in
    let rank := if rank <? 1 then 1 else rank in
    let rank := if n <? rank then n else rank in
    vget sorted (Z.to_nat (rank - 1)).

(** [std::sort]. *)
Definition sort_u64 (l : list Z) : list Z := merge_sort Z.le l.

Definition report (a : Accumulator) : res Report :=
  if ac_received a =? 0 then Ok (mkReport 0 0 0 (S754_zero false) 0 0 (S754_zero false) 0 0 0 0 0)
  else
    let expected := u64 (ac_last_seq a - ac_first_seq a + 1) in
    let dropped := if ac_received a <? expected then expected - ac_received a else 0 in
    let rate := if expected =? 0 then S754_zero false else ddiv (double_of dropped) (double_of expected) in
    let s := sort_u64 (ac_latencies a) in
    let! p01 := percentile s (ratio 1 100) in
    let! p50 := percentile s (ratio 50 100) in
    let! p99 := percentile s (ratio 99 100) in
    let! p999 := percentile s (ratio 999 1000) in
    let! p9999 := percentile s (ratio 9999 10000) in
    Ok (mkReport (ac_received a) expected dropped rate (ac_min a) (ac_max a) (ddiv (ac_sum a) (double_of (ac_received a))) p01 p50 p99 p999 p9999).

(** ** Invariant: what a sequence of records leaves behind *)
Fixpoint record_all (a : Accumulator) (rs : list (Z * Z)) : res Accumulator :=
  match rs with
  | [] => Ok a
  | (seq, lat) :: rs' => let! a := record a seq lat in record_all a rs'
  end.

(** [rs]: the (sequence number, latency) pairs recorded so far. *)
Record acc_inv (rs : list (Z * Z)) (a : Accumulator) : Prop := {
  ai_received : ac_received a = Z.of_nat (length rs);
  ai_min : ac_min a = foldr Z.min (2 ^ 64 - 1) (map snd rs);
  ai_max : ac_max a = foldr Z.max 0 (map snd rs);
  ai_first : rs <> [] -> In (ac_first_seq a) (map fst rs) /\ Forall (fun s => ac_first_seq a <= s) (map fst rs);
  ai_last : rs <> [] -> In (ac_last_seq a) (map fst rs) /\ Forall (fun s => s <= ac_last_seq a) (map fst rs);
  ai_samples : (length (ac_latencies a) <= kSampleLimit)%nat /\ forall x, x ∈ ac_latencies a -> In x (map snd rs);
  ai_some : rs <> [] -> ac_latencies a <> []
}.

Lemma acc_inv_make : acc_inv [] Accumulator_make.
Proof. constructor; try done. split; [apply Nat.le_0_l|]. intros x Hx. by apply elem_of_nil in Hx. Qed.

Lemma foldr_min_snoc (l : list Z) (x d : Z) : foldr Z.min d (l ++ [x]) = Z.min (foldr Z.min d l) x.
Proof. induction l as [|y l IH]; cbn; [lia|]. rewrite IH. lia. Qed.
Lemma foldr_max_snoc (l : list Z) (x d : Z) : foldr Z.max d (l ++ [x]) = Z.max (foldr Z.max d l) x.
Proof. induction l as [|y l IH]; cbn; [lia|]. rewrite IH. lia. Qed.

Lemma sample_nonempty (values out : list Z) (value seen : Z) : sample values value seen = Ok out -> out <> [].
Proof.
  unfold sample. destruct (Nat.ltb_spec (length values) kSampleLimit) as [|Hge]; [intros [= <-]; by destruct values|].
  assert (Hv : (1 <= length values)%nat) by (etrans; [|exact Hge]; apply Nat.leb_le; vm_compute; reflexivity).
  destruct (seen =? 0); [done|]. destruct (_ <? _); [|intros [= <-]; destruct values; [cbn in Hv; lia|done]].
  unfold vset. destruct (_ <? _)%nat; [|done]. intros [= <-] E. apply (f_equal length) in E. rewrite length_insert in E. cbn in E. lia.
Qed.

Lemma record_ok (rs : list (Z * Z)) (a : Accumulator) (seq lat : Z) :
  acc_inv rs a -> Z.of_nat (length rs) + 1 < 2 ^ 64 -> exists a', record a seq lat = Ok a' /\ acc_inv (rs ++ [(seq, lat)]) a'.
Proof.
  intros [Hr Hmin Hmax Hf Hl [Hs1 Hs2] _] Hb. unfold record. rewrite Hr. rewrite wrap_small by (unfold in_range; lia).
  destruct (sample_ok (ac_latencies a) lat (Z.of_nat (length rs) + 1) Hs1 ltac:(lia)) as (out & Es & Ho1 & Ho2).
  set (fl := if Z.of_nat (length rs) =? 0 then _ else _).
  assert (Hfl : (In (fst fl) (map fst (rs ++ [(seq, lat)])) /\ Forall (fun s => fst fl <= s) (map fst (rs ++ [(seq, lat)]))) /\
                (In (snd fl) (map fst (rs ++ [(seq, lat)])) /\ Forall (fun s => s <= snd fl) (map fst (rs ++ [(seq, lat)])))).
  { rewrite map_app. cbn [map fst]. rewrite !Forall_app, !Forall_singleton, !in_app_iff. unfold fl. destruct rs as [|r rs'].
    - change (Z.of_nat (length (@nil (Z * Z))) =? 0) with true. cbn. split_and!; try lia; auto; exact (List.Forall_nil _).
    - replace (Z.of_nat (length (r :: rs')) =? 0) with false by (symmetry; apply Z.eqb_neq; cbn [length]; lia). destruct (Hf ltac:(done)) as [Hf1 Hf2]. destruct (Hl ltac:(done)) as [Hl1 Hl2].
      cbn [fst snd]. destruct (Z.ltb_spec seq (ac_first_seq a)), (Z.ltb_spec (ac_last_seq a) seq); split_and!; auto; try lia; try (by right; left);
        first [done | eapply Forall_impl; [exact Hf2|cbn; lia] | eapply Forall_impl; [exact Hl2|cbn; lia]]. }
  destruct fl as [first last]. rewrite Es. cbn [rbind]. eexists. split; [done|]. cbn [fst snd] in Hfl. destruct Hfl as [Hf' Hl'].
  constructor; cbn [ac_received ac_min ac_max ac_first_seq ac_last_seq ac_latencies]; try done.
  - rewrite length_app. cbn. lia.
  - rewrite map_app. cbn [map snd]. by rewrite foldr_min_snoc, Hmin.
  - rewrite map_app. cbn [map snd]. by rewrite foldr_max_snoc, Hmax.
  - split; [done|]. intros x Hx. rewrite map_app, in_app_iff. destruct (Ho2 x Hx) as [->|Hx']; [right; by left|left; by apply Hs2].
  - intros _. by eapply sample_nonempty.
Qed.

Lemma record_all_ok (rs : list (Z * Z)) (rs0 : list (Z * Z)) (a : Accumulator) :
  acc_inv rs0 a -> Z.of_nat (length rs0 + length rs) < 2 ^ 64 -> exists a', record_all a rs = Ok a' /\ acc_inv (rs0 ++ rs) a'.
Proof.
  revert rs0 a. induction rs as [|[s l] rs IH]; intros rs0 a Ha Hb; [exists a; by rewrite app_nil_r|]. cbn [record_all length] in *.
  destruct (record_ok rs0 a s l Ha ltac:(lia)) as (a1 & -> & H1). cbn [rbind].
  destruct (IH _ a1 H1) as (a2 & E & H2); [rewrite length_app; cbn; lia|]. exists a2. split; [done|]. by rewrite <- app_assoc in H2.
Qed.

(** The index computed from the rounded product is always inside the vector. *)
Lemma percentile_in (l : list Z) (p : double) : l <> [] -> exists v, percentile l p = Ok v /\ v ∈ l.
Proof.
  intros Hl. unfold percentile. destruct (Nat.eqb_spec (length l) 0) as [E|Hn]; [by apply nil_length_inv in E|].
  set (rank := if SFltb _ _ then _ else _). set (r1 := if rank <? 1 then 1 else rank). set (r2 := if _ <? r1 then _ else r1).
  assert (1 <= r2 <= Z.of_nat (length l)).
  { unfold r2. destruct (Z.ltb_spec (Z.of_nat (length l)) r1); [lia|]. unfold r1 in *. destruct (Z.ltb_spec rank 1); lia. }
  destruct (vget_lt l (Z.to_nat (r2 - 1))) as (v & -> & Hv); [lia|]. exists v. split; [done|]. by eapply list_elem_of_lookup_2.
Qed.

Lemma foldr_min_le (l : list Z) (d x : Z) : In x l -> foldr Z.min d l <= x.
Proof. induction l as [|y l IH]; [by intros []|]. intros [->|H]; cbn; [lia|specialize (IH H); lia]. Qed.
Lemma foldr_max_ge (l : list Z) (d x : Z) : In x l -> x <= foldr Z.max d l.
Proof. induction l as [|y l IH]; [by intros []|]. intros [->|H]; cbn; [lia|specialize (IH H); lia]. Qed.

Lemma foldr_min_in (l : list Z) (d : Z) : l <> [] -> (forall x, In x l -> x <= d) -> In (foldr Z.min d l) l.
Proof.
  induction l as [|y l IH]; [done|]. intros _ Hd. cbn [foldr]. destruct l as [|z l]; [left; cbn; pose proof (Hd y ltac:(by left)); lia|].
  specialize (IH ltac:(done) ltac:(intros; apply Hd; by right)). destruct (Z.min_spec y (foldr Z.min d (z :: l))) as [[_ ->]|[_ ->]]; [by left|by right].
Qed.
Lemma foldr_max_in (l : list Z) (d : Z) : l <> [] -> (forall x, In x l -> d <= x) -> In (foldr Z.max d l) l.
Proof.
  induction l as [|y l IH]; [done|]. intros _ Hd. cbn [foldr]. destruct l as [|z l]; [left; cbn; pose proof (Hd y ltac:(by left)); lia|].
  specialize (IH ltac:(done) ltac:(intros; apply Hd; by right)). destruct (Z.max_spec y (foldr Z.max d (z :: l))) as [[_ ->]|[_ ->]]; [by right|by left].
Qed.

(** The report of an accumulator with at least one record. *)
Lemma report_ok (rs : list (Z * Z)) (a : Accumulator) :
  acc_inv rs a -> rs <> [] ->
  exists r, report a = Ok r /\ rp_received r = Z.of_nat (length rs) /\ rp_expected r = u64 (ac_last_seq a - ac_first_seq a + 1) /\
    rp_dropped r = Z.max 0 (rp_expected r - rp_received r) /\ rp_lat_min r = ac_min a /\ rp_lat_max r = ac_max a /\
    Forall (fun p => In p (map snd rs)) [rp_p01 r; rp_p50 r; rp_p99 r; rp_p999 r; rp_p9999 r].
Proof.
  intros [Hr Hmin Hmax Hf Hl [Hs1 Hs2] Hsome] Hne. specialize (Hsome Hne).
  assert (Hsorted : sort_u64 (ac_latencies a) <> []).
  { intros Es. apply Hsome. apply Permutation_nil_r. rewrite <- Es. symmetry. apply merge_sort_Permutation. }
  assert (Hp : forall p, exists v, percentile (sort_u64 (ac_latencies a)) p = Ok v /\ In v (map snd rs)).
  { intros p. destruct (percentile_in _ p Hsorted) as (v & Ev & Hv). exists v. split; [done|]. apply Hs2.
    unfold sort_u64 in Hv. by rewrite merge_sort_Permutation in Hv. }
  destruct (Hp (ratio 1 100)) as (p1 & E1 & I1). destruct (Hp (ratio 50 100)) as (p2 & E2 & I2). destruct (Hp (ratio 99 100)) as (p3 & E3 & I3).
  destruct (Hp (ratio 999 1000)) as (p4 & E4 & I4). destruct (Hp (ratio 9999 10000)) as (p5 & E5 & I5).
  assert (Hn : 1 <= Z.of_nat (length rs)) by (destruct rs; [done|cbn [length]; lia]).
  eexists. split.
  { unfold report. rewrite Hr. replace (Z.of_nat (length rs) =? 0) with false by lia. rewrite E1, E2, E3, E4, E5. cbn [rbind]. reflexivity. }
  cbn [rp_received rp_expected rp_dropped rp_lat_min rp_lat_max rp_p01 rp_p50 rp_p99 rp_p999 rp_p9999]. split_and!; try done.
  - destruct (Z.ltb_spec (Z.of_nat (length rs)) (u64 (ac_last_seq a - ac_first_seq a + 1))); lia.
  - repeat (apply Forall_cons; split; [done|]). exact (List.Forall_nil _).
Qed.

(** The report never faults, with or without records. *)
Lemma report_total (rs : list (Z * Z)) (a : Accumulator) : acc_inv rs a -> exists r, report a = Ok r /\ rp_received r = Z.of_nat (length rs).
Proof.
  intros Ha. destruct rs as [|x rs]; [|destruct (report_ok _ _ Ha ltac:(done)) as (r & H1 & H2 & _); by exists r].
  eexists. unfold report. rewrite (ai_received _ _ Ha). cbn. done.
Qed.

(** ** Properties *)

(** For any sequence of records (fewer than 2^64) the accumulator and its
    report never index out of range or divide by zero, and the report is exact:
    the number received, the span of sequence numbers expected (modulo 2^64),
    the shortfall as dropped, the exact extreme latencies, and percentiles that
    are recorded latencies, hence between the extremes; at most [kSampleLimit]
    samples are retained. *)
Theorem metrics_report_exact (rs : list (Z * Z)) :
  rs <> [] -> Z.of_nat (length rs) < 2 ^ 64 -> Forall (fun r => in_range 64 (snd r)) rs ->
  exists a r lo hi, record_all Accumulator_make rs = Ok a /\ report a = Ok r /\ (retained_samples a <= kSampleLimit)%nat /\
    rp_received r = Z.of_nat (length rs) /\
    (In lo (map fst rs) /\ Forall (fun s => lo <= s) (map fst rs)) /\ (In hi (map fst rs) /\ Forall (fun s => s <= hi) (map fst rs)) /\
    rp_expected r = u64 (hi - lo + 1) /\ rp_dropped r = Z.max 0 (rp_expected r - rp_received r) /\
    (In (rp_lat_min r) (map snd rs) /\ In (rp_lat_max r) (map snd rs)) /\ (forall x, In x (map snd rs) -> rp_lat_min r <= x <= rp_lat_max r) /\
    Forall (fun p => In p (map snd rs)) [rp_p01 r; rp_p50 r; rp_p99 r; rp_p999 r; rp_p9999 r].
Proof.
  intros Hne Hb Hrange. destruct (record_all_ok rs [] Accumulator_make acc_inv_make ltac:(cbn; lia)) as (a & E & Ha). cbn [app] in Ha.
  destruct (report_ok rs a Ha Hne) as (r & Er & Hrec & Hexp & Hdrop & Hmin & Hmax & Hps).
  assert (Hlat : forall x, In x (map snd rs) -> in_range 64 x).
  { intros x Hx. apply in_map_iff in Hx as (y & <- & Hin%list_elem_of_In). rewrite Forall_forall in Hrange. by apply Hrange. }
  assert (Hmap : map snd rs <> []) by (by destruct rs).
  exists a, r, (ac_first_seq a), (ac_last_seq a). rewrite Hmin, Hmax, (ai_min _ _ Ha), (ai_max _ _ Ha).
  split_and!; try done; try (by apply Ha).
  - apply foldr_min_in; [done|]. intros x Hx. specialize (Hlat x Hx). unfold in_range in Hlat. lia.
  - apply foldr_max_in; [done|]. intros x Hx. apply (Hlat x Hx).
  - intros x Hx. split; [by apply foldr_min_le|by apply foldr_max_ge].
Qed.

Lemma metrics_report_exact_witness :
  exists a r lo hi, record_all Accumulator_make [(5, 100); (7, 40); (6, 70); (9, 10)] = Ok a /\ report a = Ok r /\ rp_expected r = u64 (hi - lo + 1) /\
    Forall (fun p => In p [100; 40; 70; 10]) [rp_p01 r; rp_p50 r; rp_p99 r; rp_p999 r; rp_p9999 r].
Proof.
  destruct (metrics_report_exact [(5, 100); (7, 40); (6, 70); (9, 10)]) as (a & r & lo & hi & H1 & H2 & _ & _ & _ & _ & H3 & _ & _ & _ & H4);
    [discriminate|cbn; lia|repeat (apply Forall_cons; split; [unfold in_range; cbn; lia|]); by apply Forall_nil|].
  exists a, r, lo, hi. split; [exact H1|]. split; [exact H2|]. split; [exact H3|exact H4].
Defined.

(** The same numbers through the floating-point nearest rank: one frame of five
    is missing, the median of four is the second smallest. *)
Example demo_report :
  match record_all Accumulator_make [(5, 100); (7, 40); (6, 70); (9, 10)] with
  | Ok a => match report a with Ok r => Some (rp_received r, rp_expected r, rp_dropped r, rp_p50 r, rp_p9999 r) | Throw _ => None end
  | Throw _ => None
  end = Some (4, 5, 1, 40, 100).
Proof. vm_compute. reflexivity. Qed.
