(* ===== verification/Consumer.v ===== *)
(** * Consumer: the read loop of [harness/src/consumer.cpp]

    The answers of the ring and the clock are inputs, one [CxEvent] per turn of
    the loop.  The frames counted are kept as a history, from which the
    theorems say what the accumulators and the records must be. *)
From Corelib Require Import SpecFloat.
From S2P Require Import Prelude Double Message Wire Dedupe Fec FecDecoder Multiplex Ring Samples Metrics.
Local Open Scope Z_scope.

Record CxConfig := mkCxConfig { cx_count : Z; cx_from_edge : bool; cx_csv : bool; cx_idle_ms : Z; cx_skip : Z }.

Record CsvRecord := mkCsv { csv_seq_id : Z; csv_send_ts_ns : Z; csv_recv_ts_ns : Z; csv_stream_id : Z; csv_stream_epoch : Z }.

(** One turn: [should_stop()], the answer of [ring.read], the two clocks and
    whether [fwrite] succeeds. *)
Record CxEvent := mkCxEvent { ev_stop : bool; ev_read : FrameStatus * bytes * Z; ev_recv_ts : Z; ev_now : Z; ev_write_ok : bool }.

(** The locals of [run]; [cs_seen] is the history of the frames counted: their
    stream, sequence number and latency. *)
Record Cx := mkCx {
  cs_acc : Accumulator; cs_streams : gmap Key Accumulator; cs_read_index : Z; cs_received : Z; cs_skipped : Z; cs_lapped : Z;
  cs_last_progress : Z; cs_records : list CsvRecord; cs_seen : list (Key * (Z * Z))
}.

Inductive cx_outcome := CxContinue | CxBreak | CxExit1.

Section Consumer.
Variable cfg : CxConfig.

(** The [kOk] branch. *)
Definition consume_frame (c : Cx) (frame : bytes) (recv_ts now : Z) (write_ok : bool) : res (cx_outcome * Cx) :=
  if negb (validate_frame frame) then Ok (CxExit1, c)
  else
    let! hdr := native_read (@get_Header) frame in
    if cs_skipped c <? cx_skip cfg then
      Ok (CxContinue, mkCx (cs_acc c) (cs_streams c) (u64 (cs_read_index c + 1)) (cs_received c) (u64 (cs_skipped c + 1)) (cs_lapped c)
                        now (cs_records c) (cs_seen c))
    else
      let latency := if send_ts_ns hdr <? recv_ts then recv_ts - send_ts_ns hdr else 0 in
      let identity := mkKey (stream_id hdr) (stream_epoch hdr) in
      if bool_decide (cs_streams c !! identity = None) && (256 <=? Z.of_nat (size (cs_streams c))) then Ok (CxExit1, c)
      else
        let! sa := record (default Accumulator_make (cs_streams c !! identity)) (seq_id hdr) latency in
        let streams := <[identity := sa]> (cs_streams c) in
        let! acc := record (cs_acc c) (u64 (cs_received c + 1)) latency in
        let rec := mkCsv (seq_id hdr) (send_ts_ns hdr) recv_ts (stream_id hdr) (stream_epoch hdr) in
        if cx_csv cfg && negb write_ok then
          Ok (CxExit1, mkCx acc streams (cs_read_index c) (cs_received c) (cs_skipped c) (cs_lapped c) (cs_last_progress c) (cs_records c) (cs_seen c))
        else
          Ok (CxContinue, mkCx acc streams (u64 (cs_read_index c + 1)) (u64 (cs_received c + 1)) (cs_skipped c) (cs_lapped c) now
                            (if cx_csv cfg then cs_records c ++ [rec] else cs_records c) (cs_seen c ++ [(identity, (seq_id hdr, latency))])).

Definition cx_turn (c : Cx) (ev : CxEvent) : res (cx_outcome * Cx) :=
  match ev_read ev with
  | (kOk, frame, _) => consume_frame c frame (ev_recv_ts ev) (ev_now ev) (ev_write_ok ev)
  | (kLapped, _, resume) =>
      Ok (CxContinue, mkCx (cs_acc c) (cs_streams c) resume (cs_received c) (cs_skipped c) (u64 (cs_lapped c + 1)) (cs_last_progress c)
                        (cs_records c) (cs_seen c))
  | (kCorrupt, _, _) => Ok (CxExit1, c)
  | (kEmpty, _, _) => Ok (if u64 (cx_idle_ms cfg * 1000000) <? u64 (ev_now ev - cs_last_progress c) then CxBreak else CxContinue, c)
  end.

(** The loop; the flag is false when it returned 1. *)
Fixpoint cx_loop (c : Cx) (evs : list CxEvent) : res (bool * Cx) :=
  match evs with
  | [] => Ok (true, c)
  | ev :: evs' =>
    if negb (ev_stop ev) && ((cx_count cfg =? 0) || (cs_received c <? cx_count cfg)) then
      let! '(oc, c) := cx_turn c ev in
      match oc with
      | CxContinue => cx_loop c evs'
      | CxBreak => Ok (true, c)
      | CxExit1 => Ok (false, c)
      end
    else Ok (true, c)
  end.

Definition cx_init (live_edge now : Z) : Cx :=
  mkCx Accumulator_make ∅ (if cx_from_edge cfg then live_edge else 0) 0 0 0 now [] [].

(** The summary: the totals of the per-stream reports replace the counts of the
    common accumulator; then the exit status. *)
Fixpoint sum_reports (l : list (Key * Accumulator)) (expected dropped : Z) : res (Z * Z) :=
  match l with
  | [] => Ok (expected, dropped)
  | (_, a) :: l' => let! r := report a in sum_reports l' (u64 (expected + rp_expected r)) (u64 (dropped + rp_dropped r))
  end.

Definition cx_summary (c : Cx) : res (Report * Z) :=
  let! r := report (cs_acc c) in
  let! '(expected, dropped) := sum_reports (map_to_list (cs_streams c)) 0 0 in
  let rate := if expected =? 0 then S754_zero false else ddiv (double_of dropped) (double_of expected) in
  Ok (mkReport (rp_received r) expected dropped rate (rp_lat_min r) (rp_lat_max r) (rp_lat_mean r) (rp_p01 r) (rp_p50 r) (rp_p99 r) (rp_p999 r) (rp_p9999 r),
      if negb (cx_count cfg =? 0) && (cs_received c <? cx_count cfg) then 1 else 0).

(** ** Invariant *)

(** What was recorded for stream [k], and for the common accumulator. *)
Definition stream_records (k : Key) (seen : list (Key * (Z * Z))) : list (Z * Z) := map snd (List.filter (fun e => bool_decide (fst e = k)) seen).
Definition common_records (seen : list (Key * (Z * Z))) : list (Z * Z) :=
  zip (seqZ 1 (Z.of_nat (length seen))) (map (fun e => snd (snd e)) seen).

(** The record written for a counted frame. *)
Definition row_of (e : Key * (Z * Z)) (r : CsvRecord) : Prop :=
  mkKey (csv_stream_id r) (csv_stream_epoch r) = fst e /\ csv_seq_id r = fst (snd e) /\ Z.max 0 (csv_recv_ts_ns r - csv_send_ts_ns r) = snd (snd e).

(** The identity and sequence number in a frame's header. *)
Definition frame_id (frame : bytes) : Key * Z :=
  match native_read (@get_Header) frame with Ok h => (mkKey (stream_id h) (stream_epoch h), seq_id h) | Throw _ => (mkKey 0 0, 0) end.

(** [fs]: the frames read so far. *)
Record cx_inv (fs : list bytes) (c : Cx) : Prop := {
  ci_skipped : cs_skipped c = Z.min (cx_skip cfg) (Z.of_nat (length fs));
  ci_frames : map (fun e => (fst e, fst (snd e))) (cs_seen c) = map frame_id (drop (Z.to_nat (cx_skip cfg)) fs);
  ci_received : cs_received c = Z.of_nat (length (cs_seen c));
  ci_acc : acc_inv (common_records (cs_seen c)) (cs_acc c);
  ci_stream k a : cs_streams c !! k = Some a -> acc_inv (stream_records k (cs_seen c)) a /\ stream_records k (cs_seen c) <> [];
  ci_none k : cs_streams c !! k = None -> stream_records k (cs_seen c) = [];
  ci_size : Z.of_nat (size (cs_streams c)) <= 256;
  ci_rows : cx_csv cfg = true -> Forall2 row_of (cs_seen c) (cs_records c)
}.

Lemma stream_records_snoc (k k' : Key) (seen : list (Key * (Z * Z))) (x : Z * Z) :
  stream_records k (seen ++ [(k', x)]) = stream_records k seen ++ if bool_decide (k' = k) then [x] else [].
Proof. unfold stream_records. rewrite List.filter_app, map_app. cbn. by destruct (bool_decide (k' = k)). Qed.

Lemma length_stream_records (k : Key) (seen : list (Key * (Z * Z))) : (length (stream_records k seen) <= length seen)%nat.
Proof. unfold stream_records. rewrite length_map. apply List.filter_length_le. Qed.

Lemma common_records_snoc (seen : list (Key * (Z * Z))) (k : Key) (seq lat : Z) :
  common_records (seen ++ [(k, (seq, lat))]) = common_records seen ++ [(Z.of_nat (length seen) + 1, lat)].
Proof.
  unfold common_records. rewrite length_app, map_app, Nat2Z.inj_add. cbn [length map snd]. rewrite seqZ_app by lia.
  rewrite zip_with_app by (by rewrite length_seqZ, length_map, Nat2Z.id). f_equal. rewrite seqZ_cons by lia. cbn. do 2 f_equal. lia.
Qed.

Lemma length_common_records (seen : list (Key * (Z * Z))) : length (common_records seen) = length seen.
Proof. unfold common_records. rewrite length_zip_with, length_seqZ, length_map. lia. Qed.

Hypothesis Hskip : in_range 64 (cx_skip cfg).

Lemma cx_inv_init (edge now : Z) : cx_inv [] (cx_init edge now).
Proof. constructor; cbn; try done; try apply acc_inv_make; [unfold in_range in Hskip; lia|by rewrite drop_nil]. Qed.

(** The size of the table after recording for a stream it has room for. *)
Lemma insert_size_le (m : gmap Key Accumulator) (k : Key) (a : Accumulator) :
  Z.of_nat (size m) <= 256 -> bool_decide (m !! k = None) && (256 <=? Z.of_nat (size m)) = false -> Z.of_nat (size (<[k := a]> m)) <= 256.
Proof.
  intros Hs Hc. rewrite map_size_insert. destruct (m !! k) eqn:E; cbn in *; [done|]. lia.
Qed.

Lemma consume_frame_ok (fs : list bytes) (c : Cx) (frame : bytes) (recv now : Z) (w : bool) :
  cx_inv fs c -> Z.of_nat (length fs) + 1 < 2 ^ 64 ->
  wp no_fault (fun r => fst r <> CxExit1 -> cx_inv (fs ++ [frame]) (snd r)) (consume_frame c frame recv now w).
Proof.
  intros Hi Hb. unfold consume_frame. destruct (validate_frame frame) eqn:Hv; [|by intros Hx]. cbn [negb].
  destruct (validate_frame_inv frame Hv) as (h & Eh & _). rewrite Eh. cbn [rbind]. destruct Hi as [Hsk Hfr Hr Ha Hs Hn Hsz Hrow]. unfold in_range in Hskip.
  assert (Hseen : (length (cs_seen c) <= length fs)%nat) by (apply (f_equal length) in Hfr; rewrite !length_map, length_drop in Hfr; lia).
  destruct (Z.ltb_spec (cs_skipped c) (cx_skip cfg)) as [Hlt|Hge].
  { intros _. constructor; cbn; try done.
    - rewrite Hsk, length_app. cbn. rewrite wrap_small by (unfold in_range; lia). lia.
    - rewrite Hfr, !drop_ge by (rewrite ?length_app; cbn; lia). done. }
  destruct (bool_decide _ && _) eqn:Hc; [by intros Hx|]. set (lat := if _ <? recv then _ else 0). set (k := mkKey _ _) in *.
  assert (Hk : acc_inv (stream_records k (cs_seen c)) (default Accumulator_make (cs_streams c !! k))).
  { destruct (cs_streams c !! k) as [a|] eqn:E; cbn; [by apply Hs|]. rewrite (Hn k E). apply acc_inv_make. }
  pose proof (length_stream_records k (cs_seen c)) as Hlk.
  destruct (record_ok _ _ (seq_id h) lat Hk ltac:(lia)) as (sa & -> & Hsa). cbn [rbind].
  destruct (record_ok _ _ (u64 (cs_received c + 1)) lat Ha) as (acc & -> & Hacc); [rewrite length_common_records; lia|]. cbn [rbind].
  destruct (cx_csv cfg && negb w) eqn:Hw; [by intros Hx|]. intros _. cbn [snd].
  assert (Hu : u64 (cs_received c + 1) = Z.of_nat (length (cs_seen c)) + 1) by (rewrite Hr; apply wrap_small; unfold in_range; lia).
  rewrite Hu in *. constructor; cbn [cs_received cs_seen cs_acc cs_streams cs_records cs_skipped].
  - rewrite Hsk, length_app. cbn. lia.
  - rewrite map_app, Hfr, drop_app_le, map_app by lia. cbn [map]. do 2 f_equal. unfold frame_id. by rewrite Eh.
  - rewrite length_app. cbn. lia.
  - by rewrite common_records_snoc.
  - intros k' a Hk'. rewrite stream_records_snoc. apply lookup_insert_Some in Hk' as [[<- <-]|[Hne Hk']].
    + rewrite bool_decide_eq_true_2 by done. split; [done|]. by destruct (stream_records k (cs_seen c)).
    + rewrite bool_decide_eq_false_2, app_nil_r by done. by apply Hs.
  - intros k' Hk'. apply lookup_insert_None in Hk' as [Hk' Hne]. rewrite stream_records_snoc, bool_decide_eq_false_2, app_nil_r by done. by apply Hn.
  - by apply insert_size_le.
  - intros Hcsv. rewrite Hcsv. apply Forall2_app; [by apply Hrow|]. constructor; [|constructor]. split_and!; [done|done|]. cbn. unfold lat.
    destruct (Z.ltb_spec (send_ts_ns h) recv); lia.
Qed.

Definition ev_frame (ev : CxEvent) : option bytes := match ev_read ev with (kOk, frame, _) => Some frame | _ => None end.

Lemma cx_loop_ok (evs : list CxEvent) (fs : list bytes) (c : Cx) :
  cx_inv fs c -> Z.of_nat (length fs + length evs) < 2 ^ 64 ->
  wp no_fault (fun r => fst r = true -> exists more, more `prefix_of` omap ev_frame evs /\ cx_inv (fs ++ more) (snd r)) (cx_loop c evs).
Proof.
  revert fs c. induction evs as [|ev evs IH]; intros fs c Hi Hb; [intros _; exists []; by rewrite app_nil_r|].
  assert (Hstop : exists more, more `prefix_of` omap ev_frame (ev :: evs) /\ cx_inv (fs ++ more) c) by (exists []; rewrite app_nil_r; split; [apply prefix_nil|done]).
  cbn [cx_loop length] in *. destruct (negb (ev_stop ev) && _); [|by intros _].
  eapply (wp_bind _ (fun r => fst r <> CxExit1 -> cx_inv (fs ++ option_list (ev_frame ev)) (snd r))).
  - unfold cx_turn, ev_frame. destruct (ev_read ev) as [[[] fr] resume]; cbn [option_list]; rewrite ?app_nil_r.
    + apply consume_frame_ok; [done|lia].
    + by intros _.
    + intros _. destruct Hi. by constructor.
    + by intros Hx.
  - intros [oc c1] H1. cbn [fst snd] in H1.
    assert (Homap : omap ev_frame (ev :: evs) = option_list (ev_frame ev) ++ omap ev_frame evs) by (cbn; by destruct (ev_frame ev)).
    destruct oc; [|intros _|by intros Hx].
    + specialize (H1 ltac:(done)). eapply wp_mono; [apply (IH _ c1 H1)|done|].
      * rewrite length_app. destruct (ev_frame ev); cbn; lia.
      * intros r H2 Et. destruct (H2 Et) as (more & Hp & Hi2). exists (option_list (ev_frame ev) ++ more). rewrite Homap, app_assoc. split; [by apply prefix_app|done].
    + exists (option_list (ev_frame ev)). rewrite Homap. split; [by apply prefix_app_r|by apply H1].
Qed.

Lemma sum_reports_ok (fs : list bytes) (c : Cx) (l : list (Key * Accumulator)) (e d : Z) :
  cx_inv fs c -> (forall k a, In (k, a) l -> cs_streams c !! k = Some a) -> exists x, sum_reports l e d = Ok x.
Proof.
  intros Hi. revert e d. induction l as [|[k a] l IH]; intros e d Hl; [by eexists|]. cbn [sum_reports].
  destruct (ci_stream _ _ Hi k a ltac:(apply Hl; by left)) as [Ha _]. destruct (report_total _ _ Ha) as (r & -> & _). cbn [rbind].
  apply IH. intros. apply Hl. by right.
Qed.

Lemma cx_summary_ok (fs : list bytes) (c : Cx) :
  cx_inv fs c -> exists r code, cx_summary c = Ok (r, code) /\ rp_received r = cs_received c /\
    code = if negb (cx_count cfg =? 0) && (cs_received c <? cx_count cfg) then 1 else 0.
Proof.
  intros Hi. unfold cx_summary. destruct (report_total _ _ (ci_acc _ _ Hi)) as (r & -> & Hr). cbn [rbind].
  destruct (sum_reports_ok fs c (map_to_list (cs_streams c)) 0 0 Hi) as [[e d] ->]; [intros k a Hin; by apply elem_of_map_to_list, list_elem_of_In|].
  cbn [rbind]. eexists _, _. split; [done|]. split; [|done]. cbn [rp_received]. by rewrite Hr, length_common_records, (ci_received _ _ Hi).
Qed.
End Consumer.

(** ** Properties *)

(** Whatever the ring answers, the consumer's loop ends without indexing
    out of range or dividing by zero.  If it does not stop with an error (an
    invalid frame, a corrupt slot, the 257th stream, a failed write), then the
    frames counted are exactly the frames read, in order, but for the first
    [skip] of them; each stream's accumulator holds exactly that stream's
    frames; there are at most 256 streams; every counted frame has its row in
    the record file; and the summary is printed with the right count, the exit
    status being 1 exactly for a counted run that is incomplete. *)
Theorem consumer_counts_every_frame (cfg : CxConfig) (edge now : Z) (evs : list CxEvent) :
  in_range 64 (cx_skip cfg) -> Z.of_nat (length evs) < 2 ^ 64 ->
  exists ok c, cx_loop cfg (cx_init cfg edge now) evs = Ok (ok, c) /\
    (ok = true -> exists fs r code,
       fs `prefix_of` omap ev_frame evs /\
       map (fun e => (fst e, fst (snd e))) (cs_seen c) = map frame_id (drop (Z.to_nat (cx_skip cfg)) fs) /\
       (forall k a, cs_streams c !! k = Some a -> acc_inv (stream_records k (cs_seen c)) a) /\
       (forall k, cs_streams c !! k = None -> stream_records k (cs_seen c) = []) /\ Z.of_nat (size (cs_streams c)) <= 256 /\
       (cx_csv cfg = true -> Forall2 row_of (cs_seen c) (cs_records c)) /\
       cx_summary cfg c = Ok (r, code) /\ rp_received r = Z.of_nat (length (cs_seen c)) /\
       (code = 1 <-> cx_count cfg <> 0 /\ Z.of_nat (length (cs_seen c)) < cx_count cfg)).
Proof.
  intros Hs Hb. pose proof (cx_loop_ok cfg Hs evs [] (cx_init cfg edge now) (cx_inv_init cfg Hs edge now) Hb) as Hl.
  apply wp_returns in Hl as ([ok c] & E & Hok). exists ok, c. split; [done|]. intros Et. destruct (Hok Et) as (fs & Hp & Hi). cbn [app snd] in Hi.
  destruct (cx_summary_ok cfg fs c Hi) as (r & code & Es & Hr & Hcode). pose proof (ci_received _ _ _ Hi) as Hrec. exists fs, r, code.
  do 2 (split; [done || apply Hi|]). split; [intros k a Hk; by apply (ci_stream _ _ _ Hi)|]. do 3 (split; [apply Hi|]).
  split; [done|]. split; [congruence|]. rewrite Hcode, Hrec. destruct (Z.eqb_spec (cx_count cfg) 0), (Z.ltb_spec (Z.of_nat (length (cs_seen c))) (cx_count cfg)); cbn; intuition lia.
Qed.

(** A concrete run: a lap, three frames of which the first is skipped, idle. *)
Definition demo_cx : CxConfig := mkCxConfig 0 false true 1 1.
Definition demo_events : list CxEvent :=
  [mkCxEvent false (kLapped, [], 5) 0 0 true; mkCxEvent false (kOk, demo_frame, 0) 1500 1 true; mkCxEvent false (kOk, demo_frame, 0) 1500 2 true;
   mkCxEvent false (kEmpty, [], 0) 0 3 true; mkCxEvent false (kOk, demo_frame, 0) 900 4 true; mkCxEvent false (kEmpty, [], 0) 0 2000000 true].

Definition counted (r : res (bool * Cx)) : option (list (Key * (Z * Z))) := match r with Ok (true, c) => Some (cs_seen c) | _ => None end.

Lemma demo_counted : counted (cx_loop demo_cx (cx_init demo_cx 0 0) demo_events) = Some [(mkKey 7 9, (42, 500)); (mkKey 7 9, (42, 0))].
Proof. vm_compute. reflexivity. Qed.

Lemma consumer_counts_every_frame_witness :
  exists c fs, counted (cx_loop demo_cx (cx_init demo_cx 0 0) demo_events) = Some (cs_seen c) /\ fs `prefix_of` omap ev_frame demo_events /\
    map (fun e => (fst e, fst (snd e))) (cs_seen c) = map frame_id (drop 1 fs) /\ Forall2 row_of (cs_seen c) (cs_records c).
Proof.
  destruct (consumer_counts_every_frame demo_cx 0 0 demo_events ltac:(unfold in_range; cbn; lia) ltac:(cbn; lia)) as (ok & c & E & H).
  pose proof demo_counted as Hc. rewrite E in Hc. destruct ok; [|discriminate Hc].
  destruct (H eq_refl) as (fs & r & code & H1 & H2 & _ & _ & _ & H3 & _). exists c, fs. rewrite E. split; [reflexivity|].
  split; [exact H1|]. split; [exact H2|exact (H3 eq_refl)].
Defined.
