(* ===== verification/Quantiles.v ===== *)
(** * Percentiles: [fec.h], [sender.cpp] and [metrics.h]

    The program has three copies of a nearest-rank percentile.  They multiply
    the fraction by the number of samples in doubles, truncate and correct the
    truncation.  This file models the two that are not in [metrics.h] with the
    summaries built on them, and proves that, rounding included, all of them
    return the exact quantile of the samples. *)
From S2P Require Import Prelude Double Samples Fec FecDecoder Metrics.
From stdpp Require Import sorting.
Local Open Scope Z_scope.

(** ** Operations *)

(** [fec::Decoder::percentile]; on an empty vector it would read past the end. *)
Definition fec_percentile (values : list Z) (p : double) : res Z :=
  let n := Z.of_nat (length values) in
  let x := dmul p (double_of n) in
  let rank := size_of_double x in
  let rank := if SFltb (double_of rank) x then rank + 1 else rank in
  let rank := if rank <? 1 then 1 else rank in
  let rank := if n <? rank then n else rank in
  vget values (Z.to_nat (rank - 1)).

Record RecoveryStats := mkStats { rs_p50 : Z; rs_p99 : Z; rs_p999 : Z; rs_p9999 : Z; rs_max : Z }.
Record SplitRecoveryStats := mkSplit { by_k : RecoveryStats; by_timeout : RecoveryStats; by_flush : RecoveryStats }.

(** [values.back()]. *)
Definition vback (values : list Z) : res Z := vget values (length values - 1).

Definition recovery_stats_for (source : list Z) : res RecoveryStats :=
  if is_nil source then Ok (mkStats 0 0 0 0 0)
  else
    let values := sort_u64 source in
    let! p50 := fec_percentile values (ratio 50 100) in
    let! p99 := fec_percentile values (ratio 99 100) in
    let! p999 := fec_percentile values (ratio 999 1000) in
    let! p9999 := fec_percentile values (ratio 9999 10000) in
    let! m := vback values in
    Ok (mkStats p50 p99 p999 p9999 m).

Definition recovery_stats (d : Decoder) : res RecoveryStats := recovery_stats_for (dc_recovery_latencies d).

Definition samples_for (d : Decoder) (reason : Z) : list Z :=
  if reason =? 0 then dc_recovery_by_k d else if reason =? 1 then dc_recovery_by_timeout d else dc_recovery_by_flush d.

Definition split_recovery_stats (d : Decoder) : res SplitRecoveryStats :=
  let! k := recovery_stats_for (dc_recovery_by_k d) in
  let! t := recovery_stats_for (dc_recovery_by_timeout d) in
  let! f := recovery_stats_for (dc_recovery_by_flush d) in
  Ok (mkSplit k t f).

Record Distribution := mkDistribution { di_p50 : Z; di_p99 : Z; di_max : Z }.

(** [value_at] in [sender.cpp]'s [distribution]. *)
Definition value_at (values : list Z) (p : double) : res Z :=
  let n := Z.of_nat (length values) in
  let x := dmul p (double_of n) in
  let rank := size_of_double x in
  let rank := if SFltb (double_of rank) x then rank + 1 else rank in
  let rank := if rank <? 1 then 1 else rank in
  let rank := if n <? rank then n else rank in
  vget values (Z.to_nat (rank - 1)).

Definition distribution (values : list Z) : res Distribution :=
  if is_nil values then Ok (mkDistribution 0 0 0)
  else
    let values := sort_u64 values in
    let! p50 := value_at values (ratio 50 100) in
    let! p99 := value_at values (ratio 99 100) in
    let! m := vback values in
    Ok (mkDistribution p50 p99 m).

(** ** Rounding of products

    [mantissa m]: the significand of a normal number. *)
Definition mantissa (m : Z) : Prop := 2 ^ 52 <= m < 2 ^ 53.

Lemma iter_pos_nat {A} (f : A -> A) (p : positive) (x : A) : SpecFloat.iter_pos f p x = Nat.iter (Pos.to_nat p) f x.
Proof.
  revert x. induction p as [p IH|p IH|]; intros x; cbn [SpecFloat.iter_pos]; [| |done]; rewrite !IH, <- Nat.iter_add.
  - rewrite <- Nat.iter_succ_r. f_equal. lia.
  - f_equal. lia.
Qed.

(** [p] right shifts keep the quotient, the last bit lost and whether any before it was set. *)
Definition shifted (m : Z) (p : nat) (mrs : shr_record) : Prop :=
  exists rest, m = shr_m mrs * 2 ^ Z.of_nat p + rest /\ 0 <= rest < 2 ^ Z.of_nat p /\ 0 <= shr_m mrs /\
    match shr_r mrs, shr_s mrs with
    | false, false => rest = 0
    | false, true => 0 < 2 * rest < 2 ^ Z.of_nat p
    | true, false => 2 * rest = 2 ^ Z.of_nat p
    | true, true => 2 ^ Z.of_nat p < 2 * rest
    end.

Lemma shr_1_shifted (m : Z) (p : nat) (mrs : shr_record) : shifted m p mrs -> shifted m (S p) (shr_1 mrs).
Proof.
  destruct mrs as [n r s]. intros (rest & Hm & Hr & Hn & Hc). cbn [shr_m shr_r shr_s] in *.
  assert (Hp : 2 ^ Z.of_nat (S p) = 2 * 2 ^ Z.of_nat p) by (rewrite Nat2Z.inj_succ, Z.pow_succ_r; lia).
  unfold shifted. rewrite Hp. set (q := 2 ^ Z.of_nat p) in *. clearbody q. clear Hp.
  destruct n as [|[n|n|]|]; [|..|lia]; cbn [shr_1 shr_m shr_r shr_s];
    [exists rest|exists (q + rest)|exists rest|exists (q + rest)]; destruct r, s; cbn [orb]; split_and!; nia.
Qed.

Lemma iter_shifted (m : Z) (p : nat) : 0 <= m -> shifted m p (Nat.iter p shr_1 (Build_shr_record m false false)).
Proof.
  intros Hm. induction p as [|p IH]; [exists 0; cbn; lia|]. rewrite Nat.iter_succ. by apply shr_1_shifted.
Qed.

(** Rounding to nearest moves by at most half a unit. *)
Lemma round_half (m : Z) (p : nat) (mrs : shr_record) :
  shifted m p mrs -> let n := round_nearest_even (shr_m mrs) (loc_of_shr_record mrs) in
  2 * Z.abs (n * 2 ^ Z.of_nat p - m) <= 2 ^ Z.of_nat p /\ shr_m mrs <= n <= shr_m mrs + 1.
Proof.
  destruct mrs as [n r s]. intros (rest & -> & Hr & Hn & Hc). cbn [shr_m shr_r shr_s] in *.
  set (q := 2 ^ Z.of_nat p) in *. destruct r, s; cbn [loc_of_shr_record round_nearest_even]; [|destruct (Z.even n)|..]; split; nia.
Qed.

Lemma digits2_log2 (m : positive) : Zpos (digits2_pos m) = Z.log2 (Zpos m) + 1.
Proof.
  induction m as [m IH|m IH|]; cbn [digits2_pos]; [| |done]; rewrite Pos2Z.inj_succ, IH.
  - change (Zpos m~1) with (2 * Zpos m + 1). rewrite Z.log2_succ_double by lia. lia.
  - change (Zpos m~0) with (2 * Zpos m). rewrite Z.log2_double by lia. lia.
Qed.

Lemma shr_fexp_spec (m : positive) (e : Z) :
  -1000 <= e -> 52 <= Z.log2 (Zpos m) ->
  exists mrs, shr_fexp 53 1024 (Zpos m) e loc_Exact = (mrs, e + (Z.log2 (Zpos m) - 52)) /\ shifted (Zpos m) (Z.to_nat (Z.log2 (Zpos m) - 52)) mrs.
Proof.
  intros He Hl. unfold shr_fexp, shr, fexp, emin. cbn [Zdigits2 shr_record_of_loc]. rewrite digits2_log2.
  rewrite Z.max_l by lia. replace (Z.log2 (Zpos m) + 1 + e - 53 - e) with (Z.log2 (Zpos m) - 52) by lia.
  destruct (Z.log2 (Zpos m) - 52) as [|p|p] eqn:E; [| |lia].
  - eexists. rewrite Z.add_0_r. split; [done|]. exists 0. cbn [shr_m shr_r shr_s]. change (2 ^ Z.of_nat (Z.to_nat 0)) with 1. lia.
  - eexists. split; [done|]. rewrite iter_pos_nat, Z2Nat.inj_pos. apply iter_shifted. lia.
Qed.

(** The rounded value of a positive number with at least 53 significant bits. *)
Lemma round_spec (m : positive) (e : Z) :
  -1000 <= e -> 52 <= Z.log2 (Zpos m) -> e + Z.log2 (Zpos m) <= 1000 ->
  exists m' e', binary_round_aux 53 1024 false (Zpos m) e loc_Exact = S754_finite false m' e' /\ mantissa (Zpos m') /\
    e + (Z.log2 (Zpos m) - 52) <= e' <= e + (Z.log2 (Zpos m) - 52) + 1 /\
    2 * Z.abs (Zpos m' * 2 ^ (e' - e) - Zpos m) <= 2 ^ (Z.log2 (Zpos m) - 52).
Proof.
  intros He Hl Hu. unfold binary_round_aux. destruct (shr_fexp_spec m e He Hl) as (mrs & -> & Hs).
  set (p := Z.log2 (Zpos m) - 52) in *. destruct (round_half _ _ _ Hs) as [Hhalf Hnear].
  destruct Hs as (rest & Hm & Hr & Hn & _). rewrite Z2Nat.id in * by lia.
  assert (Hq : mantissa (shr_m mrs)).
  { destruct (Z.log2_spec (Zpos m) eq_refl) as [L1 L2]. assert (Hp : 2 ^ Z.log2 (Zpos m) = 2 ^ 52 * 2 ^ p) by (rewrite <- Z.pow_add_r by lia; f_equal; lia).
    rewrite Z.pow_succ_r in L2 by lia. rewrite Hp in *. assert (0 < 2 ^ p) by (apply Z.pow_pos_nonneg; lia). unfold mantissa. nia. }
  set (n := round_nearest_even _ _) in *. clearbody n. unfold mantissa in *. destruct n as [|n|n]; [lia| |lia].
  destruct (Z.eq_dec (Zpos n) (2 ^ 53)) as [En|Hne].
  - assert (n = 9007199254740992%positive) as -> by (change (2 ^ 53) with 9007199254740992 in En; congruence).
    destruct (shr_fexp_spec 9007199254740992 (e + p)) as (mrs2 & -> & rest2 & Hm2 & Hr2 & Hn2 & _); [lia|cbn; lia|].
    change (Z.log2 9007199254740992 - 52) with 1 in *. change (2 ^ Z.of_nat (Z.to_nat 1)) with 2 in *.
    assert (shr_m mrs2 = 4503599627370496) as -> by lia. replace (_ <=? _) with true by lia.
    exists 4503599627370496%positive, (e + p + 1). split_and!; try lia; [done|].
    replace (e + p + 1 - e) with (p + 1) by lia. rewrite Z.pow_add_r by lia. change (2 ^ 1) with 2. replace (4503599627370496 * (2 ^ p * 2)) with (9007199254740992 * 2 ^ p) by lia. done.
  - assert (Hlog : Z.log2 (Zpos n) = 52) by (apply Z.log2_unique; lia).
    destruct (shr_fexp_spec n (e + p)) as (mrs2 & -> & rest2 & Hm2 & Hr2 & Hn2 & _); [lia|lia|].
    rewrite Hlog in *. change (52 - 52) with 0 in *. change (2 ^ Z.of_nat (Z.to_nat 0)) with 1 in *.
    assert (shr_m mrs2 = Zpos n) as -> by lia. replace (_ <=? _) with true by lia.
    exists n, (e + p). split_and!; try lia; [by rewrite Z.add_0_r|]. replace (e + p - e) with p by lia. done.
Qed.

Lemma pos_iter_double (m d : positive) : Zpos (Pos.iter xO m d) = Zpos m * 2 ^ Zpos d.
Proof. rewrite Z.mul_comm. exact (shift_pos_correct d m). Qed.

(** Integers below 2^53 are exact. *)
Lemma double_of_spec (z : Z) : 1 <= z < 2 ^ 53 ->
  exists m, double_of z = S754_finite false m (Z.log2 z - 52) /\ mantissa (Zpos m) /\ Zpos m = z * 2 ^ (52 - Z.log2 z).
Proof.
  intros Hz. destruct z as [|z|]; [lia| |lia]. unfold double_of, binary_normalize, binary_round.
  assert (Hl : 0 <= Z.log2 (Zpos z) <= 52).
  { split; [apply Z.log2_nonneg|]. apply Z.lt_succ_r. change (Z.succ 52) with 53. apply Z.log2_lt_pow2; lia. }
  destruct (Z.log2_spec (Zpos z) eq_refl) as [L1 L2]. rewrite Z.pow_succ_r in L2 by lia.
  assert (Hpow : 2 ^ (52 - Z.log2 (Zpos z)) * 2 ^ Z.log2 (Zpos z) = 2 ^ 52) by (rewrite <- Z.pow_add_r by lia; f_equal; lia).
  assert (Hpos : 0 < 2 ^ (52 - Z.log2 (Zpos z))) by (apply Z.pow_pos_nonneg; lia).
  assert (exists m, shl_align z 0 (fexp 53 1024 (Zpos (digits2_pos z) + 0)) = (m, Z.log2 (Zpos z) - 52) /\ Zpos m = Zpos z * 2 ^ (52 - Z.log2 (Zpos z))) as (m & -> & Em).
  { rewrite digits2_log2. unfold fexp, emin, shl_align. rewrite Z.max_l by lia.
    replace (Z.log2 (Zpos z) + 1 + 0 - 53 - 0) with (Z.log2 (Zpos z) - 52) by lia. replace (Z.log2 (Zpos z) + 1 + 0 - 53) with (Z.log2 (Zpos z) - 52) by lia.
    destruct (Z.log2 (Zpos z) - 52) as [|d|d] eqn:E; [|lia|]; eexists; (split; [done|]).
    - replace (52 - Z.log2 (Zpos z)) with 0 by lia. lia.
    - rewrite pos_iter_double. do 2 f_equal. lia. }
  assert (Hm : mantissa (Zpos m)) by (unfold mantissa; nia).
  assert (Hlog : Z.log2 (Zpos m) = 52) by (unfold mantissa in Hm; apply Z.log2_unique; lia).
  destruct (round_spec m (Z.log2 (Zpos z) - 52)) as (m' & e' & -> & Hm' & He' & Hd); [lia|lia|lia|]. rewrite Hlog in *.
  exists m. assert (e' = Z.log2 (Zpos z) - 52) as ->.
  { destruct (Z.eq_dec e' (Z.log2 (Zpos z) - 52 + 1)) as [->|]; [|lia]. exfalso. revert Hd.
    replace (Z.log2 (Zpos z) - 52 + 1 - (Z.log2 (Zpos z) - 52)) with 1 by lia. change (2 ^ (52 - 52)) with 1. unfold mantissa in *. lia. }
  rewrite Z.sub_diag in Hd. change (2 ^ 0) with 1 in Hd. change (2 ^ (52 - 52)) with 1 in Hd. split; [|done]. do 2 f_equal. lia.
Qed.

(** ** The rank

    What the three copies compute from the fraction and the number of samples. *)
Definition rank_of (p : double) (n : Z) : Z :=
  let x := dmul p (double_of n) in
  let rank := size_of_double x in
  let rank := if SFltb (double_of rank) x then rank + 1 else rank in
  let rank := if rank <? 1 then 1 else rank in
  if n <? rank then n else rank.

(** Truncating and correcting is the ceiling: [x] is [m / 2^k]. *)
Lemma rank_ceiling (m : positive) (k : Z) :
  0 < k -> mantissa (Zpos m) ->
  let x := S754_finite false m (- k) in
  let r := size_of_double x in
  let rank := if SFltb (double_of r) x then r + 1 else r in
  (rank - 1) * 2 ^ k < Zpos m <= rank * 2 ^ k.
Proof.
  intros Hk Hm x r. assert (Hr : r = Zpos m / 2 ^ k).
  { unfold r, x, size_of_double. replace (0 <=? - k) with false by lia. by rewrite Z.opp_involutive, Z.shiftr_div_pow2 by lia. }
  assert (H2k : 0 < 2 ^ k) by (apply Z.pow_pos_nonneg; lia).
  pose proof (Z.div_mod (Zpos m) (2 ^ k) ltac:(lia)) as Hdm. pose proof (Z.mod_pos_bound (Zpos m) (2 ^ k) H2k) as Hmod.
  rewrite <- Hr in Hdm. clearbody r. destruct (Z.eq_dec r 0) as [->|Hr0].
  { change (SFltb (double_of 0) x) with true. cbv zeta iota. lia. }
  assert (Hrb : 1 <= r < 2 ^ 53) by (unfold mantissa in Hm; nia).
  destruct (double_of_spec r Hrb) as (mr & -> & Hmr & Emr).
  assert (Hlog : Z.log2 r = 52 - k).
  { assert (k <= 52) by (destruct (Z.le_gt_cases k 52); [done|]; assert (2 ^ 53 <= 2 ^ k) by (apply Z.pow_le_mono_r; lia); unfold mantissa in Hm; nia).
    apply Z.log2_unique; [lia|]. assert (2 ^ (52 - k) * 2 ^ k = 2 ^ 52) by (rewrite <- Z.pow_add_r by lia; f_equal; lia).
    rewrite Z.pow_succ_r by lia. unfold mantissa in Hm. nia. }
  rewrite Hlog in *. replace (52 - k - 52) with (- k) by lia. replace (52 - (52 - k)) with k in Emr by lia.
  cbv zeta. unfold x, SFltb, SFcompare. rewrite Z.compare_refl. change (Pos.compare_cont Eq mr m) with (Pos.compare mr m).
  destruct (Pos.compare_spec mr m) as [->|Hlt|Hgt]; lia.
Qed.

(** Twice the error of the fraction, [n] times over, is far below one unit. *)
Lemma rank_gap (mp T a b n r : Z) :
  2 ^ 53 <= T -> 0 < b <= 10000 -> 1 <= n <= 65536 -> 2 * Z.abs (mp * b - a * T) <= b -> (r - 1) * b < a * n < r * b ->
  65536 < r * T - mp * n /\ 65536 < mp * n - (r - 1) * T.
Proof.
  intros HT Hb Hn Herr [Hr1 Hr2]. change (2 ^ 53) with 9007199254740992 in HT. set (d := mp * b - a * T) in *.
  assert (Hd : - (n * b) <= 2 * (n * d) <= n * b) by nia.
  assert (H1 : T <= r * b * T - a * n * T) by nia. assert (H2 : T <= a * n * T - (r - 1) * b * T) by nia.
  assert (E : b * (mp * n) = a * n * T + n * d) by (unfold d; ring).
  assert (Hnb : n * b <= 65536 * 10000) by nia. clearbody d. clear Herr Hr1 Hr2.
  split; apply Z.nle_gt; intros Hc; apply (Z.mul_le_mono_nonneg_l _ _ b) in Hc; try lia; rewrite Z.mul_sub_distr_l in Hc; lia.
Qed.

(** Between integers the error is too small to matter. *)
Lemma rank_between (mp : positive) (ep a b n : Z) :
  mantissa (Zpos mp) -> -60 <= ep <= -53 -> 0 < a < b -> b <= 10000 -> 2 * Z.abs (Zpos mp * b - a * 2 ^ (- ep)) <= b ->
  1 <= n <= 65536 -> forall r, (r - 1) * b < a * n < r * b -> rank_of (S754_finite false mp ep) n = r.
Proof.
  intros Hmp Hep Hab Hb Herr Hn r Hr. unfold rank_of.
  destruct (double_of_spec n ltac:(lia)) as (mn & -> & Hmn & Emn).
  assert (Hl : 0 <= Z.log2 n <= 16).
  { split; [apply Z.log2_nonneg|]. apply Z.lt_succ_r. change (Z.succ 16) with 17. apply Z.log2_lt_pow2; lia. }
  set (ln := Z.log2 n) in *. clearbody ln. unfold dmul, SFmul. cbn [xorb]. set (e := ep + (ln - 52)).
  assert (HL : 104 <= Z.log2 (Zpos (mp * mn)) <= 105).
  { rewrite Pos2Z.inj_mul. unfold mantissa in *. change (2 ^ 52) with 4503599627370496 in *. change (2 ^ 53) with 9007199254740992 in *.
    split; [apply Z.log2_le_pow2; nia|]. apply Z.lt_succ_r. apply Z.log2_lt_pow2; nia. }
  destruct (round_spec (mp * mn) e) as (m' & e' & -> & Hm' & He' & Hd); [lia|lia|lia|].
  assert (Hd' : Z.abs (Zpos m' * 2 ^ (e' - e) - Zpos mp * Zpos mn) <= 2 ^ 52).
  { rewrite Pos2Z.inj_mul in Hd. assert (2 ^ (Z.log2 (Zpos mp * Zpos mn) - 52) <= 2 ^ 53) by (apply Z.pow_le_mono_r; rewrite <- ?Pos2Z.inj_mul; lia).
    change (2 ^ 53) with (2 * 2 ^ 52) in *. lia. }
  clear Hd. pose proof (rank_ceiling m' (- e') ltac:(lia) Hm') as Hc. cbv zeta in Hc |- *. rewrite Z.opp_involutive in Hc.
  set (rank := if SFltb _ _ then _ else _) in *. clearbody rank.
  assert (Hm : (r - 1) * 2 ^ (- e') < Zpos m' < r * 2 ^ (- e')).
  { set (T := 2 ^ (- ep)) in *. set (U := 2 ^ (52 - ln)) in *. set (V := 2 ^ (e' - e)) in *.
    assert (HUT : 2 ^ (- e') * V = U * T).
    { unfold U, T, V. rewrite <- !Z.pow_add_r by (unfold e in *; lia). f_equal. unfold e. lia. }
    assert (HU : 2 ^ 36 <= U) by (apply Z.pow_le_mono_r; lia). assert (HT : 2 ^ 53 <= T) by (apply Z.pow_le_mono_r; lia).
    assert (HV : 0 < V) by (apply Z.pow_pos_nonneg; unfold e in *; lia).
    assert (Hgap : 65536 < r * T - Zpos mp * n /\ 65536 < Zpos mp * n - (r - 1) * T) by (apply (rank_gap _ _ a b); [exact HT|lia|lia|exact Herr|exact Hr]).
    rewrite Emn in Hd'. clear - HUT HU HV Hgap Hd'. set (W := 2 ^ (- e')) in *. clearbody W U T V.
    assert (Hmul : (r - 1) * W * V < Zpos m' * V < r * W * V).
    { rewrite <- !Z.mul_assoc, HUT. change (2 ^ 52) with 4503599627370496 in *. change (2 ^ 36) with 68719476736 in *. nia. }
    nia. }
  assert (Hpw : 0 < 2 ^ (- e')) by (apply Z.pow_pos_nonneg; lia).
  assert (rank = r) as ->.
  { clear - Hpw Hm Hc. assert (rank - 1 < r) by (apply (Z.mul_lt_mono_pos_r (2 ^ (- e'))); lia).
    assert (r - 1 < rank) by (apply (Z.mul_lt_mono_pos_r (2 ^ (- e'))); lia). lia. }
  clear - Hr Hn Hab. assert (0 < r) by nia. assert (a * n < b * n) by (apply Z.mul_lt_mono_pos_r; lia).
  assert (r - 1 < n) by (apply (Z.mul_lt_mono_pos_r b); lia).
  destruct (Z.ltb_spec r 1); [lia|]. destruct (Z.ltb_spec n r); lia.
Qed.

(** Half of an integer is exact, so the rank is exact at the integers too. *)
Lemma rank_half (n : Z) : 1 <= n <= 65536 -> forall r, (r - 1) * 2 < n <= r * 2 -> rank_of (S754_finite false 4503599627370496 (-53)) n = r.
Proof.
  intros Hn r Hr. unfold rank_of. destruct (double_of_spec n ltac:(lia)) as (mn & -> & Hmn & Emn).
  assert (Hl : 0 <= Z.log2 n <= 16).
  { split; [apply Z.log2_nonneg|]. apply Z.lt_succ_r. change (Z.succ 16) with 17. apply Z.log2_lt_pow2; lia. }
  set (ln := Z.log2 n) in *. clearbody ln. unfold dmul, SFmul. cbn [xorb]. set (e := -53 + (ln - 52)).
  assert (HL : Z.log2 (Zpos (4503599627370496 * mn)) = 104).
  { rewrite Pos2Z.inj_mul. unfold mantissa in Hmn. apply Z.log2_unique; lia. }
  destruct (round_spec (4503599627370496 * mn) e) as (m' & e' & -> & Hm' & He' & Hd); [lia|lia|lia|]. rewrite HL in *.
  change (104 - 52) with 52 in *. rewrite Pos2Z.inj_mul in Hd. change 4503599627370496 with (2 ^ 52) in Hd at 1.
  assert (Hx : Zpos m' * 2 ^ (e' - e) = 2 ^ 52 * Zpos mn).
  { destruct (Z.eq_dec e' (e + 52)) as [->|]; [|assert (e' = e + 53) as -> by lia].
    - replace (e + 52 - e) with 52 in * by lia. lia.
    - replace (e + 53 - e) with 53 in * by lia. lia. }
  pose proof (rank_ceiling m' (- e') ltac:(lia) Hm') as Hc. cbv zeta in Hc |- *. rewrite Z.opp_involutive in Hc.
  set (rank := if SFltb _ _ then _ else _) in *. clearbody rank.
  set (V := 2 ^ (e' - e)) in *. set (W := 2 ^ (- e')) in *. set (U := 2 ^ (52 - ln)) in *.
  assert (HWV : W * V = U * 2 ^ 53) by (unfold W, U, V; rewrite <- !Z.pow_add_r by lia; f_equal; lia).
  assert (HV : 0 < V) by (apply Z.pow_pos_nonneg; lia). assert (HU : 0 < U) by (apply Z.pow_pos_nonneg; lia).
  assert (Hb : (rank - 1) * (U * 2 ^ 53) < 2 ^ 52 * (n * U) <= rank * (U * 2 ^ 53)) by (rewrite <- HWV, <- Emn, <- Hx; nia).
  assert (rank = r) as -> by (change (2 ^ 53) with (2 ^ 52 * 2) in Hb; nia).
  destruct (Z.ltb_spec r 1); [lia|]. destruct (Z.ltb_spec n r); lia.
Qed.

(** [nearest a b n r]: [r] is the ceiling of [a*n/b]. *)
Definition nearest (a b n r : Z) : Prop := (r - 1) * b < a * n <= r * b.

(** The fractions of the program. *)
Definition fractions : list (Z * Z) := [(1, 100); (50, 100); (99, 100); (999, 1000); (9999, 10000)].

(** At the integers the rank is checked one by one. *)
Definition rank_check (a b step : Z) (j : Z) : bool :=
  (j =? 0) || (65536 <? step * j) || (rank_of (ratio a b) (step * j) =? a * (step * j) / b).

Lemma rank_from_check (mp : positive) (ep a b : Z) (count : nat) :
  ratio a b = S754_finite false mp ep -> mantissa (Zpos mp) -> -60 <= ep <= -53 -> 0 < a < b -> b <= 10000 ->
  2 * Z.abs (Zpos mp * b - a * 2 ^ (- ep)) <= b -> Z.gcd b a = 1 -> 65536 < b * Z.of_nat count ->
  forallb (fun j => rank_check a b b (Z.of_nat j)) (List.seq 0 count) = true ->
  forall n r, 1 <= n <= 65536 -> nearest a b n r -> rank_of (ratio a b) n = r.
Proof.
  intros Ep Hmp Hep Hab Hb Herr Hgcd Hcount Hcheck n r Hn [Hr1 Hr2]. destruct (Z.eq_dec (a * n) (r * b)) as [Heq|Hne].
  - assert (Hdiv : (b | n)) by (apply (Z.gauss b a n); [exists r; lia|done]). destruct Hdiv as [j Hj].
    pose proof (forall_below count (rank_check a b b) Hcheck j ltac:(nia)) as Hc. unfold rank_check in Hc.
    replace (b * j) with n in Hc by lia. replace (j =? 0) with false in Hc by nia. replace (65536 <? n) with false in Hc by lia.
    cbn [orb] in Hc. apply Z.eqb_eq in Hc. rewrite Hc, Heq. apply Z.div_mul. lia.
  - rewrite Ep. apply (rank_between mp ep a b); try done; lia.
Qed.

Local Ltac solve_fraction :=
  lazymatch goal with
  | |- forallb _ _ = true => vm_compute; reflexivity
  | |- ratio _ _ = _ => vm_compute; reflexivity
  | |- mantissa _ => unfold mantissa; lia
  | |- nearest _ _ _ _ => assumption
  | |- Z.gcd _ _ = _ => reflexivity
  | |- _ => lia
  end.

Lemma rank_exact (a b n r : Z) : (a, b) ∈ fractions -> 1 <= n <= 65536 -> nearest a b n r -> rank_of (ratio a b) n = r.
Proof.
  intros Hf Hn Hr. unfold fractions in Hf. rewrite !elem_of_cons in Hf.
  destruct Hf as [[= -> ->]|[[= -> ->]|[[= -> ->]|[[= -> ->]|[[= -> ->]|?%elem_of_nil]]]]]; [| | | | |done].
  - apply (rank_from_check 5764607523034235 (-59) 1 100 656); solve_fraction.
  - change (ratio 50 100) with (S754_finite false 4503599627370496 (-53)). apply rank_half; [done|]. unfold nearest in Hr. lia.
  - apply (rank_from_check 8917127262193582 (-53) 99 100 656); solve_fraction.
  - apply (rank_from_check 8998192055486251 (-53) 999 1000 66); solve_fraction.
  - apply (rank_from_check 9006298534815518 (-53) 9999 10000 7); solve_fraction.
Qed.

(** ** Quantiles

    The [a/b] quantile: the least sample that at least that share of the samples
    does not exceed. *)
Definition count_le (v : Z) (l : list Z) : Z := Z.of_nat (length (List.filter (fun x => x <=? v) l)).
Definition count_lt (v : Z) (l : list Z) : Z := Z.of_nat (length (List.filter (fun x => x <? v) l)).
Definition is_quantile (a b : Z) (l : list Z) (v : Z) : Prop :=
  v ∈ l /\ a * Z.of_nat (length l) <= b * count_le v l /\ b * count_lt v l < a * Z.of_nat (length l).
Definition is_max (l : list Z) (v : Z) : Prop := v ∈ l /\ forall x, x ∈ l -> x <= v.

Lemma filter_all {A} (p : A -> bool) (l : list A) : (forall x, x ∈ l -> p x = true) -> List.filter p l = l.
Proof. induction l as [|x l IH]; intros H; [done|]. cbn. rewrite H by left. f_equal. apply IH. intros. apply H. by right. Qed.
Lemma filter_none {A} (p : A -> bool) (l : list A) : (forall x, x ∈ l -> p x = false) -> List.filter p l = [].
Proof. induction l as [|x l IH]; intros H; [done|]. cbn. rewrite H by left. apply IH. intros. apply H. by right. Qed.
Lemma filter_length_perm {A} (p : A -> bool) (l l' : list A) : l ≡ₚ l' -> length (List.filter p l) = length (List.filter p l').
Proof. induction 1 as [|x l l' _ IH|x y l|l1 l2 l3 _ H1 _ H2]; cbn; [done|destruct (p x); cbn; congruence|by destruct (p x), (p y)|congruence]. Qed.

Lemma sort_u64_perm (l : list Z) : sort_u64 l ≡ₚ l.
Proof. apply merge_sort_Permutation. Qed.
Lemma sort_u64_length (l : list Z) : length (sort_u64 l) = length l.
Proof. apply Permutation_length, sort_u64_perm. Qed.
Lemma sort_u64_sorted (l : list Z) : StronglySorted Z.le (sort_u64 l).
Proof. apply StronglySorted_merge_sort; [intros x y z; lia|intros x y; lia]. Qed.
Lemma sort_u64_some (l : list Z) : l <> [] -> (1 <= length (sort_u64 l))%nat.
Proof. rewrite sort_u64_length. destruct l; [done|cbn; lia]. Qed.

(** Cutting a sorted list at an index. *)
Lemma sorted_cut (s : list Z) (i : nat) (v : Z) :
  StronglySorted Z.le s -> s !! i = Some v ->
  exists s1 s2, s = s1 ++ v :: s2 /\ length s1 = i /\ (forall x, x ∈ s1 -> x <= v) /\ (forall x, x ∈ s2 -> v <= x).
Proof.
  intros Hs Hi. exists (take i s), (drop (S i) s). split_and!.
  - symmetry. by apply take_drop_middle.
  - rewrite length_take. apply lookup_lt_Some in Hi. lia.
  - rewrite <- (take_drop_middle s i v Hi) in Hs. apply StronglySorted_app in Hs as (Hx & _ & _). intros x Hin. apply Hx; [done|by left].
  - rewrite <- (take_drop_middle s i v Hi) in Hs. apply StronglySorted_app in Hs as (_ & _ & Hs). inversion_clear Hs as [|? ? _ Hall]. by apply Forall_forall.
Qed.

Lemma sorted_rank (l : list Z) (a b r v : Z) :
  0 < b -> nearest a b (Z.of_nat (length l)) r -> 1 <= r -> sort_u64 l !! Z.to_nat (r - 1) = Some v -> is_quantile a b l v.
Proof.
  intros Hb [Hr1 Hr2] Hr Hv. destruct (sorted_cut _ _ _ (sort_u64_sorted l) Hv) as (s1 & s2 & Es & Hl & H1 & H2).
  assert (Hin : v ∈ l) by (rewrite <- (sort_u64_perm l); by eapply list_elem_of_lookup_2).
  assert (Hle : r <= count_le v l).
  { unfold count_le. rewrite <- (filter_length_perm _ _ _ (sort_u64_perm l)), Es, List.filter_app, length_app, filter_all;
      [|intros x Hx%H1; lia]. cbn. replace (v <=? v) with true by lia. cbn. lia. }
  assert (Hlt : count_lt v l <= r - 1).
  { unfold count_lt. rewrite <- (filter_length_perm _ _ _ (sort_u64_perm l)), Es, List.filter_app, length_app. cbn. replace (v <? v) with false by lia.
    rewrite (filter_none _ s2) by (intros x Hx%H2; lia). cbn. pose proof (List.filter_length_le (fun x => x <? v) s1). lia. }
  split; [done|]. split; nia.
Qed.

Lemma sorted_max (l : list Z) : l <> [] -> exists v, vback (sort_u64 l) = Ok v /\ is_max l v.
Proof.
  intros Hl. pose proof (sort_u64_some l Hl) as Hlen. unfold vback. destruct (vget_lt (sort_u64 l) (length (sort_u64 l) - 1)) as (v & -> & Hv); [lia|].
  exists v. split; [done|]. split; [rewrite <- (sort_u64_perm l); by eapply list_elem_of_lookup_2|].
  destruct (sorted_cut _ _ _ (sort_u64_sorted l) Hv) as (s1 & s2 & Es & Hs1 & H1 & H2).
  assert (s2 = []) as ->. { apply length_zero_iff_nil. apply (f_equal length) in Es. rewrite length_app in Es. cbn in Es. lia. }
  intros x. rewrite <- (sort_u64_perm l), Es. intros [Hx|Hx]%elem_of_app; [by apply H1|]. apply list_elem_of_singleton in Hx. lia.
Qed.

(** Each copy reads the sorted samples at the rank. *)
Lemma rank_reads (l : list Z) (a b : Z) :
  l <> [] -> (length l <= kSampleLimit)%nat -> (a, b) ∈ fractions ->
  exists v, vget (sort_u64 l) (Z.to_nat (rank_of (ratio a b) (Z.of_nat (length (sort_u64 l))) - 1)) = Ok v /\ is_quantile a b l v.
Proof.
  intros Hl Hn Hf. pose proof (sort_u64_some l Hl) as Hlen. rewrite sort_u64_length in Hlen |- *.
  assert (Hn' : 1 <= Z.of_nat (length l) <= 65536) by (apply inj_le in Hn; replace (Z.of_nat kSampleLimit) with 65536 in Hn by (vm_compute; reflexivity); lia).
  assert (Hab : 0 < a < b).
  { unfold fractions in Hf. rewrite !elem_of_cons, elem_of_nil in Hf. intuition (simplify_eq; lia). }
  set (n := Z.of_nat (length l)) in *. set (r := (a * n + b - 1) / b).
  assert (Hr : nearest a b n r).
  { unfold nearest, r. pose proof (Z.div_mod (a * n + b - 1) b ltac:(lia)). pose proof (Z.mod_pos_bound (a * n + b - 1) b ltac:(lia)). nia. }
  rewrite (rank_exact a b n r Hf Hn' Hr). assert (1 <= r <= n) by (unfold nearest in Hr; nia).
  destruct (vget_lt (sort_u64 l) (Z.to_nat (r - 1))) as (v & Ev & Hv); [rewrite sort_u64_length; lia|].
  exists v. split; [done|]. apply (sorted_rank l a b r); [lia|done|lia|done].
Qed.

Lemma percentile_quantile (l : list Z) (a b : Z) : l <> [] -> (length l <= kSampleLimit)%nat -> (a, b) ∈ fractions ->
  exists v, percentile (sort_u64 l) (ratio a b) = Ok v /\ fec_percentile (sort_u64 l) (ratio a b) = Ok v /\ value_at (sort_u64 l) (ratio a b) = Ok v /\
    is_quantile a b l v.
Proof.
  intros Hl Hn Hf. destruct (rank_reads l a b Hl Hn Hf) as (v & Ev & Hv). exists v. split; [|done].
  unfold percentile. pose proof (sort_u64_some l Hl). destruct (Nat.eqb_spec (length (sort_u64 l)) 0); [lia|]. exact Ev.
Qed.

Lemma in_fractions (a b : Z) : bool_decide ((a, b) ∈ fractions) = true -> (a, b) ∈ fractions.
Proof. apply bool_decide_eq_true. Qed.

(** What the summary of a reservoir says. *)
Definition stats_of (l : list Z) (st : RecoveryStats) : Prop :=
  (l = [] /\ st = mkStats 0 0 0 0 0) \/
  (is_quantile 50 100 l (rs_p50 st) /\ is_quantile 99 100 l (rs_p99 st) /\ is_quantile 999 1000 l (rs_p999 st) /\
   is_quantile 9999 10000 l (rs_p9999 st) /\ is_max l (rs_max st)).

Lemma recovery_stats_ok (l : list Z) : (length l <= kSampleLimit)%nat -> exists st, recovery_stats_for l = Ok st /\ stats_of l st.
Proof.
  intros Hn. unfold recovery_stats_for. destruct l as [|x l0] eqn:El; [cbn; eexists; split; [done|by left]|]. rewrite <- El in *. assert (l <> []) as Hl by congruence.
  replace (is_nil l) with false by (by rewrite El). clear El.
  destruct (percentile_quantile l 50 100 Hl Hn) as (v1 & _ & E1 & _ & Q1); [by apply in_fractions|].
  destruct (percentile_quantile l 99 100 Hl Hn) as (v2 & _ & E2 & _ & Q2); [by apply in_fractions|].
  destruct (percentile_quantile l 999 1000 Hl Hn) as (v3 & _ & E3 & _ & Q3); [by apply in_fractions|].
  destruct (percentile_quantile l 9999 10000 Hl Hn) as (v4 & _ & E4 & _ & Q4); [by apply in_fractions|].
  destruct (sorted_max l Hl) as (m & Em & Hm). rewrite E1, E2, E3, E4, Em. eexists. split; [done|]. right. by split_and!.
Qed.

Lemma distribution_ok (l : list Z) : (length l <= kSampleLimit)%nat ->
  exists d, distribution l = Ok d /\
    ((l = [] /\ d = mkDistribution 0 0 0) \/ (is_quantile 50 100 l (di_p50 d) /\ is_quantile 99 100 l (di_p99 d) /\ is_max l (di_max d))).
Proof.
  intros Hn. unfold distribution. destruct l as [|x l0] eqn:El; [cbn; eexists; split; [done|by left]|]. rewrite <- El in *. assert (l <> []) as Hl by congruence.
  replace (is_nil l) with false by (by rewrite El). clear El.
  destruct (percentile_quantile l 50 100 Hl Hn) as (v1 & _ & _ & E1 & Q1); [by apply in_fractions|].
  destruct (percentile_quantile l 99 100 Hl Hn) as (v2 & _ & _ & E2 & Q2); [by apply in_fractions|].
  destruct (sorted_max l Hl) as (m & Em & Hm). rewrite E1, E2, Em. eexists. split; [done|]. right. by split_and!.
Qed.

(** ** Properties *)

(** C23: The percentiles are exact.  For every reservoir of samples (at most
    [kSampleLimit], as [sample] keeps them) the three implementations return
    without reading past the end, and the numbers they report are the quantiles
    of the samples by definition: the least sample that at least that share of
    the samples does not exceed, although the rank is computed with rounded
    doubles.  The maximum reported is the largest sample. *)
Theorem percentiles_are_quantiles (l : list Z) :
  l <> [] -> (length l <= kSampleLimit)%nat ->
  (exists st, recovery_stats_for l = Ok st /\
     is_quantile 1 2 l (rs_p50 st) /\ is_quantile 99 100 l (rs_p99 st) /\ is_quantile 999 1000 l (rs_p999 st) /\
     is_quantile 9999 10000 l (rs_p9999 st) /\ is_max l (rs_max st)) /\
  (exists d, distribution l = Ok d /\ is_quantile 1 2 l (di_p50 d) /\ is_quantile 99 100 l (di_p99 d) /\ is_max l (di_max d)) /\
  (forall acc, ac_received acc <> 0 -> ac_latencies acc = l ->
     exists r, report acc = Ok r /\ is_quantile 1 100 l (rp_p01 r) /\ is_quantile 1 2 l (rp_p50 r) /\ is_quantile 99 100 l (rp_p99 r) /\
       is_quantile 999 1000 l (rp_p999 r) /\ is_quantile 9999 10000 l (rp_p9999 r)).
Proof.
  intros Hl Hn. assert (Hhalf : forall v, is_quantile 50 100 l v -> is_quantile 1 2 l v) by (unfold is_quantile; intuition lia). split_and!.
  - destruct (recovery_stats_ok l Hn) as (st & E & [[? _]|(? & ?)]); [done|]. exists st. split; [done|]. split; [by apply Hhalf|done].
  - destruct (distribution_ok l Hn) as (d & E & [[? _]|(? & ?)]); [done|]. exists d. split; [done|]. split; [by apply Hhalf|done].
  - intros acc Hr <-. unfold report. destruct (Z.eqb_spec (ac_received acc) 0); [done|].
    destruct (percentile_quantile _ 1 100 Hl Hn) as (v0 & E0 & _ & _ & Q0); [by apply in_fractions|].
    destruct (percentile_quantile _ 50 100 Hl Hn) as (v1 & E1 & _ & _ & Q1); [by apply in_fractions|].
    destruct (percentile_quantile _ 99 100 Hl Hn) as (v2 & E2 & _ & _ & Q2); [by apply in_fractions|].
    destruct (percentile_quantile _ 999 1000 Hl Hn) as (v3 & E3 & _ & _ & Q3); [by apply in_fractions|].
    destruct (percentile_quantile _ 9999 10000 Hl Hn) as (v4 & E4 & _ & _ & Q4); [by apply in_fractions|].
    cbv zeta. rewrite E0, E1, E2, E3, E4. eexists. split; [done|]. cbn [rp_p01 rp_p50 rp_p99 rp_p999 rp_p9999]. split_and!; try done. by apply Hhalf.
Qed.

Lemma percentiles_are_quantiles_witness :
  exists st, recovery_stats_for [40; 10; 30; 20] = Ok st /\ is_quantile 1 2 [40; 10; 30; 20] (rs_p50 st) /\ rs_p50 st = 20 /\ is_max [40; 10; 30; 20] (rs_max st).
Proof.
  destruct (percentiles_are_quantiles [40; 10; 30; 20]) as ((st & E & H1 & _ & _ & _ & H2) & _); [done|apply Nat.leb_le; vm_compute; reflexivity|].
  exists st. split; [exact E|]. split; [exact H1|]. split; [|exact H2]. assert (Ec : recovery_stats_for [40; 10; 30; 20] = Ok (mkStats 20 40 40 40 40)) by (vm_compute; reflexivity).
  rewrite Ec in E. by injection E as <-.
Defined.
