(* ===== verification/Args.v ===== *)
(** * Command lines: the conversions and the option loop shared by the programs

    [std::stoul], [std::stoull], [std::stoi] and [std::stod] with their
    exceptions, on the LP64 target in the "C" locale, and the loop of the four
    [parse_args] functions.  The options of each program are in [Config].
    [util::idle_wait], which converts environment variables, is here too. *)
From S2P Require Import Prelude Double.
From Stdlib Require Strings.String Strings.Ascii.
Import Strings.String.StringSyntax Strings.Ascii.AsciiSyntax.
Local Delimit Scope string_scope with string.
Local Delimit Scope char_scope with char.
Local Open Scope string_scope.
Local Open Scope Z_scope.

Abbreviation str := String.string.
Abbreviation chr := Ascii.ascii.

(** ** Record update

    [r <| f := v |>] is [r] with field [f] replaced. *)
Class Eta (T : Type) := eta : T -> T.
Class Setter {T F : Type} (proj : T -> F) := set_field : F -> T -> T.
Arguments set_field {T F} proj {_} _ _.
Ltac make_setter proj :=
  lazymatch type of proj with
  | ?T -> ?F =>
    let e := eval hnf in (_ : Eta T) in
    let e := eval pattern proj in e in
    lazymatch e with ?f proj => let r := eval cbv beta in (fun (v : F) (x : T) => f (fun _ => v) x) in exact r end
  end.
#[global] Hint Extern 0 (Setter ?proj) => make_setter proj : typeclass_instances.
Notation "r <| f := v |>" := (set_field f v r) (at level 1, f at level 200, left associativity) : pulse_scope.

(** ** Integers *)
Definition char_code (c : chr) : Z := Z.of_N (Ascii.N_of_ascii c).
(** [isspace] in the "C" locale. *)
Definition is_space (c : chr) : bool := (char_code c =? 32) || ((9 <=? char_code c) && (char_code c <=? 13)).
Definition digit_of (c : chr) : option Z :=
  if (48 <=? char_code c) && (char_code c <=? 57) then Some (char_code c - 48) else None.

Fixpoint skip_space (l : list chr) : list chr :=
  match l with c :: l' => if is_space c then skip_space l' else l | [] => [] end.

(** The optional sign: [true] for minus. *)
Definition take_sign (l : list chr) : bool * list chr :=
  match l with
  | c :: l' => if char_code c =? 45 then (true, l') else if char_code c =? 43 then (false, l') else (false, l)
  | [] => (false, [])
  end.

(** The longest run of decimal digits: its value, its length and what follows. *)
Fixpoint take_digits (l : list chr) (acc : Z) (n : nat) : Z * nat * list chr :=
  match l with
  | c :: l' => match digit_of c with Some d => take_digits l' (acc * 10 + d) (S n) | None => (acc, n, l) end
  | [] => (acc, n, [])
  end.

(** [strtol] and [strtoul] in base 10: sign and magnitude; [None] without digits. *)
Definition parse_int (s : str) : option (bool * Z) :=
  let '(neg, l) := take_sign (skip_space (String.list_ascii_of_string s)) in
  let '(m, n, _) := take_digits l 0 0 in
  if (n =? 0)%nat then None else Some (neg, m).

(** [std::stoull], which is also [std::stoul]: a minus sign wraps around. *)
Definition stoull (s : str) : res Z :=
  match parse_int s with
  | None => Throw InvalidArgument
  | Some (neg, m) => if 2 ^ 64 <=? m then Throw OutOfRange else Ok (if neg then u64 (- m) else m)
  end.

(** [std::stoi]. *)
Definition stoi (s : str) : res Z :=
  match parse_int s with
  | None => Throw InvalidArgument
  | Some (neg, m) =>
    let v := if neg then - m else m in
    if (- 2 ^ 31 <=? v) && (v <? 2 ^ 31) then Ok v else Throw OutOfRange
  end.

(** [std::strtoull] itself: 0 without digits, the largest value when out of range. *)
Definition strtoull (s : str) : Z :=
  match parse_int s with
  | None => 0
  | Some (neg, m) => if 2 ^ 64 <=? m then 2 ^ 64 - 1 else if neg then u64 (- m) else m
  end.

(** ** Idle backoff: [util::idle_wait]

    The two environment variables, with their limits and the default. *)
Definition backoff_us (variable : option str) (limit : Z) : Z :=
  match variable with Some p => Z.min (strtoull p) limit | None => 50 end.

(** The microseconds slept, if the spinning time has passed. *)
Definition idle_wait (spin_var sleep_var : option str) (last_progress now : Z) : option Z :=
  let spin_us := backoff_us spin_var 1000000 in
  let sleep_us := backoff_us sleep_var 10000 in
  if negb (sleep_us =? 0) && (spin_us * 1000 <=? u64 (now - last_progress)) then Some sleep_us else None.

(** ** Doubles: [std::stod] *)
Definition lower (c : chr) : Z := if (65 <=? char_code c) && (char_code c <=? 90) then char_code c + 32 else char_code c.
Fixpoint starts_with (word : list Z) (l : list chr) : bool :=
  match word, l with
  | [], _ => true
  | w :: word', c :: l' => (w =? lower c) && starts_with word' l'
  | _, [] => false
  end.
Definition hex_of (c : chr) : option Z :=
  match digit_of c with
  | Some d => Some d
  | None => if (97 <=? lower c) && (lower c <=? 102) then Some (lower c - 87) else None
  end.
(** Digits with at most one point: the value without the point, the number of
    digits, the number of digits after the point, and what follows. *)
Fixpoint take_mantissa (dig : chr -> option Z) (base : Z) (l : list chr) (acc : Z) (n : nat) (frac : option Z) : Z * nat * Z * list chr :=
  match l with
  | c :: l' =>
    match dig c with
    | Some d => take_mantissa dig base l' (acc * base + d) (S n) (option_map (Z.add 1) frac)
    | None => match frac with
              | None => if char_code c =? 46 then take_mantissa dig base l' acc n (Some 0) else (acc, n, 0, l)
              | Some f => (acc, n, f, l)
              end
    end
  | [] => (acc, n, default 0 frac, [])
  end.
(** An exponent introduced by [mark]: taken only if it has a digit. *)
Definition take_exponent (mark : Z) (l : list chr) : Z :=
  match l with
  | c :: l' => if lower c =? mark then
                 let '(neg, l2) := take_sign l' in
                 let '(e, n, _) := take_digits l2 0 0 in
                 if (n =? 0)%nat then 0 else if neg then - e else e
               else 0
  | [] => 0
  end.

(** The double nearest to [m * num / den]. *)
Definition nearest_ratio (neg : bool) (num den : Z) : double :=
  match num, den with
  | Zpos n, Zpos d => let '(mz, ez, lz) := SFdiv_core_binary 53 1024 (Zpos n) 0 (Zpos d) 0 in binary_round_aux 53 1024 neg mz ez lz
  | _, _ => S754_zero neg
  end.

(** [ERANGE]: the value overflowed, or became subnormal or zero inexactly. *)
Definition erange (x : double) (num den : Z) : bool :=
  match x with
  | S754_infinity _ => true
  | S754_zero _ => negb (num =? 0)
  | S754_finite _ m e => (Zpos m <? 2 ^ 52) && negb (num * 2 ^ (- e) =? Zpos m * den)
  | S754_nan => false
  end.
Definition scaled (neg : bool) (m base e : Z) : res double :=
  let num := if 0 <=? e then m * base ^ e else m in
  let den := if 0 <=? e then 1 else base ^ (- e) in
  let x := nearest_ratio neg num den in
  if erange x num den then Throw OutOfRange else Ok x.

Definition stod (s : str) : res double :=
  let '(neg, l) := take_sign (skip_space (String.list_ascii_of_string s)) in
  if starts_with [105; 110; 102] l then Ok (S754_infinity neg)
  else if starts_with [110; 97; 110] l then Ok S754_nan
  else
    let '(hm, hn, hf, hrest) := take_mantissa hex_of 16 (drop 2 l) 0 0 None in
    if starts_with [48; 120] l && negb (hn =? 0)%nat then scaled neg hm 2 (take_exponent 112 hrest - 4 * hf)
    else
      let '(m, n, f, rest) := take_mantissa digit_of 10 l 0 0 None in
      if (n =? 0)%nat then Throw InvalidArgument else scaled neg m 10 (take_exponent 101 rest - f).

(** ** The option loop

    [flag a c]: the effect of an option without a value, if [a] is one;
    [valued a]: the assignment made with the value of option [a].  An unknown
    option and a missing value end the program with status 2. *)
Section Loop.
Context {C : Type} (flag : str -> C -> option C) (valued : str -> option (str -> C -> res C)).

Fixpoint parse_loop (args : list str) (c : C) : res C :=
  match args with
  | [] => Ok c
  | a :: rest =>
    match flag a c with
    | Some c => parse_loop rest c
    | None =>
      match valued a with
      | None => Throw (ExitStatus 2)
      | Some assign =>
        match rest with
        | [] => Throw (ExitStatus 2)
        | v :: rest' => let! c := assign v c in parse_loop rest' c
        end
      end
    end
  end.
End Loop.

(** ** Lemmas *)

(** What the loop returns, or the fault it ends with, from what the options do. *)
Lemma parse_loop_wp {C : Type} (flag : str -> C -> option C) (valued : str -> option (str -> C -> res C)) (F : fault -> Prop) (P : C -> Prop)
    (args : list str) (c : C) :
  F (ExitStatus 2) -> P c -> (forall a c c', P c -> flag a c = Some c' -> P c') ->
  (forall a v c assign, P c -> valued a = Some assign -> wp F P (assign v c)) -> wp F P (parse_loop flag valued args c).
Proof.
  intros HF Hc Hflag Hval. revert c Hc.
  enough (H : forall n args c, (length args <= n)%nat -> P c -> wp F P (parse_loop flag valued args c)) by (intros c Hc; by apply (H (length args))).
  induction n as [|n IH]; intros [|a rest] c Hl Hc; cbn in Hl; try (by cbn); [lia|].
  cbn [parse_loop]. destruct (flag a c) as [c'|] eqn:Ef; [apply IH; [lia|by eapply Hflag]|].
  destruct (valued a) as [assign|] eqn:Ev; [|done]. destruct rest as [|v rest']; [done|]. cbn [length] in Hl.
  eapply wp_bind; [by apply (Hval a)|]. intros c1 Hc1. apply IH; [lia|done].
Qed.

Lemma parse_int_nonneg (s : str) (neg : bool) (m : Z) : parse_int s = Some (neg, m) -> 0 <= m.
Proof.
  assert (Hd : forall l acc n, 0 <= acc -> 0 <= fst (fst (take_digits l acc n))).
  { induction l as [|c l IH]; intros acc n Ha; cbn; [done|]. unfold digit_of. destruct (_ && _) eqn:E; [|done]. zbool. apply IH. lia. }
  unfold parse_int. destruct (take_sign _) as [g l]. pose proof (Hd l 0 0%nat ltac:(lia)) as Hm. destruct (take_digits l 0 0) as [[v n] ?].
  destruct (_ =? _)%nat; [done|]. by intros [= <- <-].
Qed.

Lemma strtoull_range (s : str) : in_range 64 (strtoull s).
Proof.
  unfold strtoull, in_range. destruct (parse_int s) as [[neg m]|] eqn:E; [|lia]. apply parse_int_nonneg in E. destruct (Z.leb_spec (2 ^ 64) m); [lia|].
  destruct neg; [by apply wrap_range|lia].
Qed.

(** Whatever the environment says, one wait is at most ten milliseconds, and
    there is none before the spinning time, at most a second, has passed. *)
Lemma idle_wait_bounded (spin_var sleep_var : option str) (last now us : Z) :
  idle_wait spin_var sleep_var last now = Some us -> 1 <= us <= 10000 /\ 0 <= backoff_us spin_var 1000000 <= 1000000 /\
    backoff_us spin_var 1000000 * 1000 <= u64 (now - last).
Proof.
  unfold idle_wait. destruct (_ && _) eqn:E; [|done]. intros [= <-]. apply andb_true_iff in E as [E1 E2]. zbool.
  assert (Hb : forall v limit, 50 <= limit -> 0 <= backoff_us v limit <= limit).
  { intros [p|] limit Hl; cbn; [pose proof (strtoull_range p); unfold in_range in *; lia|lia]. }
  pose proof (Hb spin_var 1000000 ltac:(lia)). pose proof (Hb sleep_var 10000 ltac:(lia)). lia.
Qed.

(** The faults of the conversions. *)
Definition conversion_fault (f : fault) : Prop := f = InvalidArgument \/ f = OutOfRange.
Lemma stoull_wp (s : str) : wp conversion_fault (in_range 64) (stoull s).
Proof.
  unfold stoull. destruct (parse_int s) as [[neg m]|] eqn:E; [|by left]. destruct (Z.leb_spec (2 ^ 64) m); [by right|]. cbn [wp].
  destruct neg; [by apply wrap_range|].
  enough (0 <= m) by (unfold in_range; lia). unfold parse_int in E. destruct (take_sign _) as [neg l].
  assert (Hd : forall l acc n, 0 <= acc -> 0 <= fst (fst (take_digits l acc n))).
  { clear. induction l as [|c l IH]; intros acc n Ha; [done|]. cbn [take_digits]. unfold digit_of.
    destruct ((48 <=? char_code c) && (char_code c <=? 57)) eqn:Ed; [|done]. zbool. apply IH. lia. }
  specialize (Hd l 0 0%nat ltac:(lia)). destruct (take_digits l 0 0) as [[m' n] r]. destruct (n =? 0)%nat; [done|]. injection E as _ <-. exact Hd.
Qed.
Lemma stoi_wp (s : str) : wp conversion_fault (fun v => - 2 ^ 31 <= v < 2 ^ 31) (stoi s).
Proof.
  unfold stoi. destruct (parse_int s) as [[neg m]|]; [|by left]. cbv zeta. destruct (_ && _) eqn:E; [|by right]. zbool. cbn. lia.
Qed.
Lemma stod_wp (s : str) : wp conversion_fault (fun _ => True) (stod s).
Proof.
  assert (Hs : forall neg m b e, wp conversion_fault (fun _ => True) (scaled neg m b e))
    by (intros; unfold scaled; cbv zeta; case_match; [by right|done]).
  unfold stod. destruct (take_sign _) as [neg l]. destruct (starts_with _ l); [done|]. destruct (starts_with _ l); [done|].
  destruct (take_mantissa hex_of _ _ _ _ _) as [[[hm hn] hf] hrest]. destruct (_ && _); [apply Hs|].
  destruct (take_mantissa digit_of _ _ _ _ _) as [[[m n] f] rest]. destruct (n =? 0)%nat; [by left|apply Hs].
Qed.

(** Concrete conversions, exceptions included. *)
Example stoull_examples :
  stoull " 42x" = Ok 42 /\ stoull "-1" = Ok (2 ^ 64 - 1) /\ stoull "18446744073709551616" = Throw OutOfRange /\ stoull "x" = Throw InvalidArgument.
Proof. by vm_compute. Qed.
Example stod_examples :
  stod "2.5e-1" = Ok (ratio 1 4) /\ stod "0.1" = Ok (ratio 1 10) /\ stod "0x1.8p1" = Ok (double_of 3) /\ stod "nan" = Ok S754_nan /\
  stod "1e400" = Throw OutOfRange /\ stod "1e-400" = Throw OutOfRange /\ stod "-inf" = Ok (S754_infinity true) /\ stod "." = Throw InvalidArgument.
Proof. by vm_compute. Qed.
