(* ===== verification/Producer.v ===== *)
(** * Producer: [harness/src/producer.cpp]

    The synthetic messages ([build_trade], [build_bbo], [build_book], [build]),
    the wait for readers, and the paced publishing loop.  Prices and sizes are
    computed in binary64 arithmetic as in the source.  The process id, the
    clocks and the stop flag are inputs. *)
From S2P Require Import Prelude Double Message Wire Sink.
From Stdlib Require Strings.String.
Import Strings.String.StringSyntax.
Local Delimit Scope string_scope with string.

Inductive Kind := KTrade | KBbo | KBook | KMixed.
#[global] Instance Kind_eq_dec : EqDecision Kind.
Proof. solve_decision. Defined.

(** [strncpy(dst, src, cap); dst[cap - 1] = 0]: [strncpy] pads with zeros. *)
Definition set_str (dst : bytes) (cap : nat) (src : String.string) : res bytes :=
  let! dst := overwrite dst 0 (vresize cap Corelib.Init.Byte.x00 (String.list_byte_of_string src)) in
  vset dst (cap - 1) Corelib.Init.Byte.x00.

(** The clock readings of one [build]: [exchange_ts_ns], the initialiser of
    [epoch] (used by the first message only) and [send_ts_ns]. *)
Record Clocks := mkClocks { ck_exchange : Z; ck_steady : Z; ck_send : Z }.

Section Build.
(** [getpid()]. *)
Variable pid : Z.

(** [fill_header]; [epoch] is the function's static variable. *)
Definition fill_header (epoch : option Z) (ck : Clocks) (seq type body_len : Z) : Header * option Z :=
  let e := default (ck_steady ck) epoch in
  (mkHeader seq (ck_send ck) type kVersion body_len (u64 pid) e, Some e).

(** [static_cast<int64_t>(price * 100.0)] and [static_cast<int64_t>(size * 1000.0)]. *)
Definition ticks (price : double) : res Z := int64_of_double (dmul price (double_of 100)).
Definition lots (size : double) : res Z := int64_of_double (dmul size (double_of 1000)).

(** The expression [65000.0 + static_cast<double>(seq % 500) * 0.5]. *)
Definition mid_price (seq : Z) : double := dadd (double_of 65000) (dmul (double_of (seq mod 500)) (ratio 1 2)).

Definition trade_quantity (seq : Z) : double := dadd (ratio 1 1000) (dmul (double_of (seq mod 100)) (ratio 1 100)).

Definition build_trade (epoch : option Z) (ck : Clocks) (seq : Z) : res (Trade * option Z) :=
  let! symbol := set_str (replicate kSymbolLen Corelib.Init.Byte.x00) kSymbolLen "BTCUSDT"%string in
  let! venue := set_str (replicate kVenueLen Corelib.Init.Byte.x00) kVenueLen "BINANCE"%string in
  let! base := set_str (replicate kCurrencyLen Corelib.Init.Byte.x00) kCurrencyLen "BTC"%string in
  let! quote := set_str (replicate kCurrencyLen Corelib.Init.Byte.x00) kCurrencyLen "USDT"%string in
  let price := mid_price seq in
  let quantity := trade_quantity seq in
  let! price_ticks := ticks price in
  let! quantity_lots := lots quantity in
  let '(h, epoch) := fill_header epoch ck seq Type_Trade (Z.of_nat sizeof_Trade) in
  Ok (mkTrade h symbol venue base quote (u64 (100000 + seq)) (u64 (500000 + seq * 2)) (u64 (500001 + seq * 2))
        (ck_exchange ck) (ck_exchange ck) (double_bits price) (double_bits quantity) (double_bits (dmul price quantity))
        price_ticks quantity_lots (seq mod 4) (u8 (Z.land seq 1)) 0 0 0 0 (replicate 19 Corelib.Init.Byte.x00), epoch).

(** [1.5 + static_cast<double>(n % 50) * 0.1]. *)
Definition bbo_size (n : Z) : double := dadd (ratio 3 2) (dmul (double_of (n mod 50)) (ratio 1 10)).

Definition build_bbo (epoch : option Z) (ck : Clocks) (seq : Z) : res (Bbo * option Z) :=
  let! symbol := set_str (replicate kSymbolLen Corelib.Init.Byte.x00) kSymbolLen "BTCUSDT"%string in
  let! venue := set_str (replicate kVenueLen Corelib.Init.Byte.x00) kVenueLen "BINANCE"%string in
  let mid := mid_price seq in
  let bid := dsub mid (ratio 1 2) in
  let ask := dadd mid (ratio 1 2) in
  let bid_size := bbo_size seq in
  let ask_size := bbo_size (u64 (seq + 7)) in
  let! bid_ticks := ticks bid in
  let! ask_ticks := ticks ask in
  let! bid_lots := lots bid_size in
  let! ask_lots := lots ask_size in
  let '(h, epoch) := fill_header epoch ck seq Type_Bbo (Z.of_nat sizeof_Bbo) in
  Ok (mkBbo h symbol venue (u64 (900000 + seq)) (ck_exchange ck) (ck_exchange ck)
        (double_bits bid) (double_bits bid_size) (double_bits ask) (double_bits ask_size)
        bid_ticks ask_ticks bid_lots ask_lots
        (u32 (3 + u32 (seq mod 10))) (u32 (3 + u32 (u64 (seq + 3) mod 10))) 0 (replicate 23 Corelib.Init.Byte.x00), epoch).

(** One side of the book at depth [i]: [n] is [seq + i] or [seq + i + 5]. *)
Definition level_size (n : Z) : double := dadd (double_of 1) (dmul (double_of (n mod 40)) (ratio 1 10)).
Definition build_level (price : double) (n : Z) : res Level :=
  let size := level_size n in
  let! t := ticks price in
  let! l := lots size in
  Ok (mkLevel (double_bits price) (double_bits size) t l (u32 (2 + u32 (n mod 8))) 0).

(** The loop over [i < kBookDepth]. *)
Fixpoint build_levels (mid : double) (seq : Z) (idx : list nat) : res (list Level * list Level) :=
  match idx with
  | [] => Ok ([], [])
  | i :: idx' =>
    let d := double_of (Z.of_nat i) in
    let! b := build_level (dsub (dsub mid (ratio 1 2)) d) (u64 (seq + Z.of_nat i)) in
    let! a := build_level (dadd (dadd mid (ratio 1 2)) d) (u64 (u64 (seq + Z.of_nat i) + 5)) in
    let! '(bs, asks) := build_levels mid seq idx' in
    Ok (b :: bs, a :: asks)
  end.

Definition build_book (epoch : option Z) (ck : Clocks) (seq : Z) : res (OrderBook * option Z) :=
  let! symbol := set_str (replicate kSymbolLen Corelib.Init.Byte.x00) kSymbolLen "BTCUSDT"%string in
  let! venue := set_str (replicate kVenueLen Corelib.Init.Byte.x00) kVenueLen "BINANCE"%string in
  let update_id := u64 (900000 + seq) in
  let! '(bids, asks) := build_levels (mid_price seq) seq (List.seq 0 kBookDepth) in
  let '(h, epoch) := fill_header epoch ck seq Type_OrderBook (Z.of_nat sizeof_OrderBook) in
  Ok (mkOrderBook h symbol venue update_id (u64 (update_id - 1)) (ck_exchange ck) (ck_exchange ck) bids asks
        (u32 (u64 (seq * 2654435761))) 1 0 (replicate 26 Corelib.Init.Byte.x00), epoch).

(** [Kind::Mixed] rotates through the three messages. *)
Definition kind_of (kind : Kind) (seq : Z) : Kind :=
  match kind with
  | KMixed => if seq mod 3 =? 0 then KTrade else if seq mod 3 =? 1 then KBbo else KBook
  | k => k
  end.

(** [build]: the bytes of the frame, as many as it returns. *)
Definition build (kind : Kind) (epoch : option Z) (ck : Clocks) (seq : Z) : res (bytes * option Z) :=
  match kind_of kind seq with
  | KTrade => let! '(m, e) := build_trade epoch ck seq in Ok (native_image m, e)
  | KBbo => let! '(m, e) := build_bbo epoch ck seq in Ok (native_image m, e)
  | _ => let! '(m, e) := build_book epoch ck seq in Ok (native_image m, e)
  end.
End Build.

(** ** Start-up *)

(** The wait for [wait_readers] attached readers, also in [receiver.cpp]: each
    turn sees the stop flag, [reader_count()] and the clock.  [false] is the
    timeout, exit status 1. *)
Fixpoint wait_for_readers (wanted deadline : Z) (turns : list (bool * Z * Z)) : res bool :=
  match turns with
  | [] => Throw OutOfFuel
  | (stop, readers, now) :: turns' =>
    if stop || (wanted <=? readers) then Ok true
    else if deadline <? now then Ok false
    else wait_for_readers wanted deadline turns'
  end.

(** [cfg.rate > 0.0 ? static_cast<uint64_t>(1e9 / cfg.rate) : 0]. *)
Definition interval_of (rate : double) : res Z :=
  if SFltb (S754_zero false) rate then uint64_of_double (ddiv (double_of 1000000000) rate) else Ok 0.

(** ** The publishing loop *)

(** One turn of the pacing loop: the stop flag and the two clock readings. *)
Record WaitTurn := mkWait { wt_stop : bool; wt_now : Z; wt_now2 : Z }.

(** [Ok (sleeps, t)]: the sleeps requested and, unless the stop flag ended the
    wait, the clock reading that did. *)
Fixpoint pace (next_send interval : Z) (turns : list WaitTurn) : res (list Z * option Z) :=
  match turns with
  | [] => Throw OutOfFuel
  | t :: turns' =>
    if wt_stop t then Ok ([], None)
    else if negb (wt_now t <? next_send) then Ok ([], Some (wt_now t))
    else
      let remaining := u64 (next_send - wt_now2 t) in
      let! '(sleeps, passed) := pace next_send interval turns' in
      Ok (if (100000 <? remaining) && (remaining <? interval) then (remaining - 50000) :: sleeps else sleeps, passed)
  end.

Record ProdConfig := mkProdConfig { pc_kind : Kind; pc_count : Z; pc_interval : Z; pc_pid : Z }.

(** One turn of the loop: the stop flag at its head, the pacing turns, the clocks of [build]. *)
Record ProdEvent := mkProdEvent { pv_stop : bool; pv_wait : list WaitTurn; pv_clocks : Clocks }.

(** [pr_passed] and [pr_sleeps] are histories: what ended each wait, and the sleeps. *)
Record Prod (R : Type) := mkProd {
  pr_seq : Z; pr_next_send : Z; pr_epoch : option Z; pr_ring : R; pr_passed : list (option Z); pr_sleeps : list Z
}.
Arguments mkProd {R}. Arguments pr_seq {R}. Arguments pr_next_send {R}. Arguments pr_epoch {R}. Arguments pr_ring {R}.
Arguments pr_passed {R}. Arguments pr_sleeps {R}.

Section Loop.
Context {R : Type} `{Sink R}.
Variable cfg : ProdConfig.

Definition prod_continue (p : Prod R) (ev : ProdEvent) : bool :=
  negb (pv_stop ev) && ((pc_count cfg =? 0) || (pr_seq p <? pc_count cfg)).

Definition prod_turn (p : Prod R) (ev : ProdEvent) : res (Prod R) :=
  let! '(sleeps, passed, next) :=
    if pc_interval cfg =? 0 then Ok ([], None, pr_next_send p)
    else
      let! '(sleeps, passed) := pace (pr_next_send p) (pc_interval cfg) (pv_wait ev) in
      Ok (sleeps, passed, u64 (pr_next_send p + pc_interval cfg)) in
  let seq := u64 (pr_seq p + 1) in
  let! '(frame, epoch) := build (pc_pid cfg) (pc_kind cfg) (pr_epoch p) (pv_clocks ev) seq in
  let! ring := sink_publish (pr_ring p) frame in
  Ok (mkProd seq next epoch ring (pr_passed p ++ [passed]) (pr_sleeps p ++ sleeps)).

Fixpoint prod_loop (p : Prod R) (evs : list ProdEvent) : res (Prod R) :=
  match evs with
  | [] => Ok p
  | ev :: evs' => if prod_continue p ev then let! p := prod_turn p ev in prod_loop p evs' else Ok p
  end.

Definition prod_init (ring : R) (now : Z) : Prod R := mkProd 0 now None ring [] [].
End Loop.

(** ** Exact prices and sizes

    Every price and size depends on [seq] through a small remainder, so a fact
    about its rounding is checked on all of them. *)
Definition returns (m : res Z) (z : Z) : bool := match m with Ok x => x =? z | Throw _ => false end.
Lemma returns_true (m : res Z) (z : Z) : returns m z = true -> m = Ok z.
Proof. destruct m; cbn; [|done]. intros ->%Z.eqb_eq. done. Qed.

Lemma lots_trade (seq : Z) : lots (trade_quantity seq) = Ok (1 + 10 * (seq mod 100)).
Proof.
  apply returns_true. unfold trade_quantity. pose proof (Z.mod_pos_bound seq 100 eq_refl).
  apply (forall_below 100 (fun k => returns (lots (dadd (ratio 1 1000) (dmul (double_of k) (ratio 1 100)))) (1 + 10 * k))); [|done].
  vm_compute. reflexivity.
Qed.

Lemma lots_bbo (n : Z) : lots (bbo_size n) = Ok (1500 + 100 * (n mod 50)).
Proof.
  apply returns_true. unfold bbo_size. pose proof (Z.mod_pos_bound n 50 eq_refl).
  apply (forall_below 50 (fun k => returns (lots (dadd (ratio 3 2) (dmul (double_of k) (ratio 1 10)))) (1500 + 100 * k))); [|done].
  vm_compute. reflexivity.
Qed.

Lemma lots_level (n : Z) : lots (level_size n) = Ok (1000 + 100 * (n mod 40)).
Proof.
  apply returns_true. unfold level_size. pose proof (Z.mod_pos_bound n 40 eq_refl).
  apply (forall_below 40 (fun k => returns (lots (dadd (double_of 1) (dmul (double_of k) (ratio 1 10)))) (1000 + 100 * k))); [|done].
  vm_compute. reflexivity.
Qed.

(** Every price on the screen: the mid price, and depth [i] of either side. *)
Definition mid_at (k : Z) : double := dadd (double_of 65000) (dmul (double_of k) (ratio 1 2)).
Definition price_checks (k : Z) : bool :=
  returns (ticks (mid_at k)) (6500000 + 50 * k) &&
  returns (ticks (dsub (mid_at k) (ratio 1 2))) (6500000 + 50 * k - 50) &&
  returns (ticks (dadd (mid_at k) (ratio 1 2))) (6500000 + 50 * k + 50) &&
  forallb (fun i =>
    returns (ticks (dsub (dsub (mid_at k) (ratio 1 2)) (double_of (Z.of_nat i)))) (6500000 + 50 * k - 50 - 100 * Z.of_nat i) &&
    returns (ticks (dadd (dadd (mid_at k) (ratio 1 2)) (double_of (Z.of_nat i)))) (6500000 + 50 * k + 50 + 100 * Z.of_nat i))
    (List.seq 0 kBookDepth).

Lemma prices_checked (seq : Z) : price_checks (seq mod 500) = true.
Proof.
  pose proof (Z.mod_pos_bound seq 500 eq_refl). apply (forall_below 500 price_checks); [|done]. vm_compute. reflexivity.
Qed.

Lemma ticks_exact (seq : Z) :
  let c := 6500000 + 50 * (seq mod 500) in
  ticks (mid_price seq) = Ok c /\ ticks (dsub (mid_price seq) (ratio 1 2)) = Ok (c - 50) /\
  ticks (dadd (mid_price seq) (ratio 1 2)) = Ok (c + 50) /\
  forall i, (i < kBookDepth)%nat ->
    ticks (dsub (dsub (mid_price seq) (ratio 1 2)) (double_of (Z.of_nat i))) = Ok (c - 50 - 100 * Z.of_nat i) /\
    ticks (dadd (dadd (mid_price seq) (ratio 1 2)) (double_of (Z.of_nat i))) = Ok (c + 50 + 100 * Z.of_nat i).
Proof.
  pose proof (prices_checked seq) as Hc. unfold price_checks in Hc. change (mid_at (seq mod 500)) with (mid_price seq) in Hc.
  apply andb_true_iff in Hc as [Hc Hl]. zbool. cbv zeta. split_and!; try by apply returns_true.
  intros i Hi. rewrite forallb_forall in Hl. specialize (Hl i ltac:(apply in_seq; lia)). zbool. split; by apply returns_true.
Qed.

(** ** Every built message is well formed *)

(** The destination keeps its size and ends in a zero; a short string is copied whole. *)
Lemma set_str_ok (cap : nat) (src : String.string) :
  (length (String.list_byte_of_string src) < cap)%nat ->
  exists d, set_str (replicate cap Corelib.Init.Byte.x00) cap src = Ok d /\ length d = cap /\
    d = String.list_byte_of_string src ++ replicate (cap - length (String.list_byte_of_string src)) Corelib.Init.Byte.x00.
Proof.
  intros Hl. set (b := String.list_byte_of_string src) in *. unfold set_str. fold b.
  assert (Hv : vresize cap Corelib.Init.Byte.x00 b = b ++ replicate (cap - length b) Corelib.Init.Byte.x00)
    by (unfold vresize; by rewrite take_ge by lia).
  assert (Hlen : length (vresize cap Corelib.Init.Byte.x00 b) = cap) by apply length_vresize.
  unfold overwrite. rewrite Hlen, length_replicate. destruct (Nat.leb_spec (0 + cap) cap) as [_|]; [|lia].
  rewrite take_0, drop_ge, app_nil_r by (rewrite length_replicate; lia). cbn [rbind app].
  rewrite vset_lt by lia. rewrite Hv in *. eexists. split; [done|]. rewrite length_insert. split; [done|].
  apply list_insert_id. rewrite lookup_app_r by lia. apply lookup_replicate_2. lia.
Qed.

Definition wf_clocks (ck : Clocks) : Prop := in_range 64 (ck_exchange ck) /\ in_range 64 (ck_steady ck) /\ in_range 64 (ck_send ck).
Definition wf_epoch (epoch : option Z) : Prop := from_option (in_range 64) True epoch.

(** Opens the next [set_str] of a builder. *)
Ltac open_str :=
  match goal with |- context [set_str (replicate ?c _) ?c ?s] =>
    let d := fresh "d" in let Hd := fresh "Hd" in
    destruct (set_str_ok c s) as (d & -> & Hd & _); [apply Nat.ltb_lt; reflexivity|]; cbn [rbind] end.

Ltac in_ranges :=
  split_and!; try (by apply wrap_range); try (apply double_bits_range); try done; try (unfold in_range, in_srange; lia).

Section BuildCorrect.
Variables (pid seq : Z) (ck : Clocks) (epoch : option Z).
Hypotheses (Hseq : in_range 64 seq) (Hck : wf_clocks ck) (Hepoch : wf_epoch epoch).
#[local] Abbreviation epoch1 := (default (ck_steady ck) epoch).
#[local] Abbreviation header type len := (mkHeader seq (ck_send ck) type kVersion len (u64 pid) epoch1).

Lemma wf_header (type len : Z) : in_range 16 type -> in_range 32 len -> wf_Header (header type len).
Proof using Hseq Hck Hepoch.
  intros Ht Hl. destruct Hck as (? & ? & ?). unfold wf_Header. cbn [seq_id send_ts_ns type_ version body_len stream_id stream_epoch].
  split_and!; try done; [by apply wrap_range|]. by destruct epoch.
Qed.

Lemma build_trade_ok :
  exists m, build_trade pid epoch ck seq = Ok (m, Some epoch1) /\ wf_Trade m /\ tr_header m = header Type_Trade (Z.of_nat sizeof_Trade) /\
    tr_price_ticks m = 6500000 + 50 * (seq mod 500) /\ tr_quantity_lots m = 1 + 10 * (seq mod 100).
Proof using Hseq Hck Hepoch.
  destruct (ticks_exact seq) as (Ht & _). pose proof (Z.mod_pos_bound seq 500 eq_refl). pose proof (Z.mod_pos_bound seq 100 eq_refl).
  pose proof (Z.mod_pos_bound seq 4 eq_refl). pose proof Hck as (? & ? & ?).
  unfold build_trade. do 4 open_str. rewrite Ht, lots_trade. cbn [rbind]. unfold fill_header. eexists. split; [reflexivity|].
  split; [|done]. split; [apply wf_header; in_ranges|].
  cbn [tr_symbol tr_venue tr_base_currency tr_quote_currency tr_trade_id tr_buyer_order_id tr_seller_order_id tr_exchange_ts_ns
       tr_match_engine_ts_ns tr_price tr_quantity tr_notional tr_price_ticks tr_quantity_lots tr_tick_direction tr_aggressor_side
       tr_is_block_trade tr_is_rpi tr_is_liquidation tr_flags tr_reserved]. in_ranges.
Qed.

Lemma build_bbo_ok :
  exists m, build_bbo pid epoch ck seq = Ok (m, Some epoch1) /\ wf_Bbo m /\ bb_header m = header Type_Bbo (Z.of_nat sizeof_Bbo) /\
    bb_bid_price_ticks m = 6500000 + 50 * (seq mod 500) - 50 /\ bb_ask_price_ticks m = 6500000 + 50 * (seq mod 500) + 50 /\
    bb_bid_size_lots m = 1500 + 100 * (seq mod 50) /\ bb_ask_size_lots m = 1500 + 100 * (u64 (seq + 7) mod 50).
Proof using Hseq Hck Hepoch.
  destruct (ticks_exact seq) as (_ & Hb & Ha & _). pose proof (Z.mod_pos_bound seq 500 eq_refl). pose proof (Z.mod_pos_bound seq 50 eq_refl).
  pose proof (Z.mod_pos_bound (u64 (seq + 7)) 50 eq_refl). pose proof Hck as (? & ? & ?).
  unfold build_bbo. do 2 open_str. rewrite Hb, Ha, !lots_bbo. cbn [rbind]. unfold fill_header. eexists. split; [reflexivity|].
  split; [|done]. split; [apply wf_header; in_ranges|].
  cbn [bb_symbol bb_venue bb_update_id bb_exchange_ts_ns bb_match_engine_ts_ns bb_bid_price bb_bid_size bb_ask_price bb_ask_size
       bb_bid_price_ticks bb_ask_price_ticks bb_bid_size_lots bb_ask_size_lots bb_bid_order_count bb_ask_order_count bb_flags bb_reserved]. in_ranges.
Qed.

Definition level_at (price_ticks n : Z) (l : Level) : Prop :=
  wf_Level l /\ lv_price_ticks l = price_ticks /\ lv_size_lots l = 1000 + 100 * (n mod 40).

Lemma build_level_ok (price : double) (n c : Z) :
  ticks price = Ok c -> - 2 ^ 63 <= c < 2 ^ 63 -> exists l, build_level price n = Ok l /\ level_at c n l.
Proof using.
  intros Ht Hc. unfold build_level. rewrite Ht, lots_level. cbn [rbind]. eexists. split; [done|].
  pose proof (Z.mod_pos_bound n 40 eq_refl). split; [|done].
  unfold wf_Level. cbn [lv_price lv_size lv_price_ticks lv_size_lots lv_order_count lv_reserved]. in_ranges.
Qed.

Lemma build_levels_ok (idx : list nat) :
  Forall (fun i => (i < kBookDepth)%nat) idx ->
  exists bids asks, build_levels (mid_price seq) seq idx = Ok (bids, asks) /\
    Forall2 (fun i l => level_at (6500000 + 50 * (seq mod 500) - 50 - 100 * Z.of_nat i) (u64 (seq + Z.of_nat i)) l) idx bids /\
    Forall2 (fun i l => level_at (6500000 + 50 * (seq mod 500) + 50 + 100 * Z.of_nat i) (u64 (u64 (seq + Z.of_nat i) + 5)) l) idx asks.
Proof using.
  pose proof (Z.mod_pos_bound seq 500 eq_refl). destruct (ticks_exact seq) as (_ & _ & _ & Hl).
  induction 1 as [|i idx Hi _ (bids & asks & IH & Hb & Ha)]; [by exists [], []|]. cbn [build_levels]. destruct (Hl i Hi) as [Hbi Hai].
  unfold kBookDepth in Hi.
  destruct (build_level_ok _ (u64 (seq + Z.of_nat i)) _ Hbi) as (b & -> & Hbl); [lia|]. cbn [rbind].
  destruct (build_level_ok _ (u64 (u64 (seq + Z.of_nat i) + 5)) _ Hai) as (a & -> & Hal); [lia|]. cbn [rbind]. rewrite IH. cbn [rbind].
  exists (b :: bids), (a :: asks). split; [done|]. split; by constructor.
Qed.

Lemma build_book_ok :
  exists m, build_book pid epoch ck seq = Ok (m, Some epoch1) /\ wf_OrderBook m /\ ob_header m = header Type_OrderBook (Z.of_nat sizeof_OrderBook) /\
    Forall2 (fun i l => lv_price_ticks l = 6500000 + 50 * (seq mod 500) - 50 - 100 * Z.of_nat i) (List.seq 0 kBookDepth) (ob_bids m) /\
    Forall2 (fun i l => lv_price_ticks l = 6500000 + 50 * (seq mod 500) + 50 + 100 * Z.of_nat i) (List.seq 0 kBookDepth) (ob_asks m) /\
    ob_prev_update_id m = u64 (ob_update_id m - 1).
Proof using Hseq Hck Hepoch.
  pose proof Hck as (? & ? & ?). destruct (build_levels_ok (List.seq 0 kBookDepth)) as (bids & asks & Hlv & Hb & Ha).
  { apply Forall_forall. intros i Hi%list_elem_of_In%in_seq. lia. }
  unfold build_book. do 2 open_str. rewrite Hlv. cbn [rbind]. unfold fill_header. eexists. split; [reflexivity|].
  assert (Hwf : forall (P : nat -> Level -> Prop) l, (forall i x, P i x -> wf_Level x) -> Forall2 P (List.seq 0 kBookDepth) l ->
    length l = kBookDepth /\ Forall wf_Level l).
  { intros P l HP Hf. split; [by rewrite <- (Forall2_length _ _ _ Hf), length_seq|]. eapply Forall2_Forall_r; [exact Hf|].
    apply Forall_true. eauto. }
  split_and!; cbn [ob_header ob_bids ob_asks ob_prev_update_id ob_update_id]; [|done| | |done].
  - split; [apply wf_header; in_ranges|].
    cbn [ob_symbol ob_venue ob_update_id ob_prev_update_id ob_exchange_ts_ns ob_match_engine_ts_ns ob_bids ob_asks ob_checksum ob_is_snapshot
         ob_flags ob_reserved]. in_ranges; [eapply Hwf; [|exact Hb]|eapply Hwf; [|exact Hb]|eapply Hwf; [|exact Ha]|eapply Hwf; [|exact Ha]]; intros i x Hx; apply Hx.
  - eapply Forall2_impl; [exact Hb|]. intros i x Hx. apply Hx.
  - eapply Forall2_impl; [exact Ha|]. intros i x Hx. apply Hx.
Qed.
End BuildCorrect.

(** A frame image with the right header is valid and shows that header. *)
Lemma image_ok (T : Type) `{WireMsgLaws T} (m : T) :
  wf_msg m -> native_header_ok m -> (sizeof (T:=T) <= kMaxFrame)%nat ->
  validate_frame (native_image m) = true /\ native_read (@get_Header) (native_image m) = Ok (msg_header m) /\
  length (native_image m) = sizeof (T:=T).
Proof.
  intros Hw Hh Hs. pose proof (length_native_image m Hw) as Hl. pose proof (wire_len_bound (T:=T)) as [Hb _].
  split_and!; [|eapply native_header_image; [done|reflexivity|lia]|done]. by eapply validate_native; [..|reflexivity| |].
Qed.

Definition kind_type (k : Kind) : Z := match k with KTrade => Type_Trade | KBbo => Type_Bbo | _ => Type_OrderBook end.

(** [f] is the message number [seq] of kind [k] of the stream [(pid, epoch)]. *)
Definition is_message (pid epoch : Z) (k : Kind) (seq : Z) (f : bytes) : Prop :=
  validate_frame f = true /\ exists h, native_read (@get_Header) f = Ok h /\
    seq_id h = seq /\ type_ h = kind_type (kind_of k seq) /\ stream_id h = u64 pid /\ stream_epoch h = epoch.

Lemma build_ok (pid seq : Z) (ck : Clocks) (epoch : option Z) (kind : Kind) :
  in_range 64 seq -> wf_clocks ck -> wf_epoch epoch ->
  exists f, build pid kind epoch ck seq = Ok (f, Some (default (ck_steady ck) epoch)) /\
    is_message pid (default (ck_steady ck) epoch) kind seq f.
Proof.
  intros Hs Hck He. unfold build, is_message. destruct (kind_of kind seq) eqn:Ek.
  2: destruct (build_bbo_ok pid seq ck epoch Hs Hck He) as (m & -> & Hw & Hh & _).
  1: destruct (build_trade_ok pid seq ck epoch Hs Hck He) as (m & -> & Hw & Hh & _).
  3,4: destruct (build_book_ok pid seq ck epoch Hs Hck He) as (m & -> & Hw & Hh & _).
  all: cbn [rbind]; exists (native_image m); (split; [done|]).
  all: destruct (image_ok _ m) as (Hv & Hr & _);
    [done|unfold native_header_ok; cbn [msg_header Trade_msg Bbo_msg OrderBook_msg]; by rewrite Hh|vm_compute; lia|].
  all: split; [done|]; eexists; split; [exact Hr|]; cbn [msg_header Trade_msg Bbo_msg OrderBook_msg]; by rewrite Hh.
Qed.

(** ** Pacing *)

(** A wait that has not ended: no stop, and every reading before the deadline. *)
Definition still_waiting (next_send : Z) (turns : list WaitTurn) : Prop :=
  Forall (fun t => wt_stop t = false /\ wt_now t < next_send) turns.

(** The deadline is respected and no sleep reaches past it, even when the second
    reading is already beyond it and the difference wraps around. *)
Lemma pace_ok (next interval : Z) (turns : list WaitTurn) :
  wp (fun f => f = OutOfFuel /\ still_waiting next turns)
     (fun r => Forall (fun s => 50000 < s < interval - 50000) (fst r) /\ forall t, snd r = Some t -> next <= t)
     (pace next interval turns).
Proof.
  induction turns as [|t turns IH]; [split; [done|by apply Forall_nil]|]. cbn [pace]. destruct (wt_stop t) eqn:Es.
  { split; [by apply Forall_nil|done]. }
  destruct (Z.ltb_spec (wt_now t) next) as [Hlt|Hge]; cbn [negb].
  - eapply wp_bind; [eapply wp_mono; [exact IH| |intros r Hr; exact Hr]|].
    + intros f [-> Hw]. split; [done|]. by apply Forall_cons.
    + intros [sleeps passed] [Hs Hp]. cbn [wp fst snd] in *. split; [|done]. destruct (_ && _) eqn:E; [|done]. zbool.
      apply Forall_cons. split; [lia|done].
  - split; [by apply Forall_nil|]. cbn. intros t' [= <-]. done.
Qed.

(** ** The loop *)
Section LoopCorrect.
Context {R : Type} `{SinkLaws R}.
Variables (cfg : ProdConfig) (ring0 : R) (start : Z).

Record prod_inv (fs : list bytes) (p : Prod R) : Prop := {
  pi_log : sink_log (pr_ring p) = sink_log ring0 ++ fs;
  pi_seq : pr_seq p = Z.of_nat (length fs);
  pi_epoch : wf_epoch (pr_epoch p) /\ (pr_epoch p = None -> fs = []);
  pi_frames i f : fs !! i = Some f -> is_message (pc_pid cfg) (default 0 (pr_epoch p)) (pc_kind cfg) (Z.of_nat i + 1) f;
  pi_passed : length (pr_passed p) = length fs;
  pi_next : pc_interval cfg <> 0 -> start + pc_interval cfg * Z.of_nat (length fs) < 2 ^ 64 ->
            pr_next_send p = start + pc_interval cfg * Z.of_nat (length fs);
  pi_times i t : pr_passed p !! i = Some (Some t) -> start + pc_interval cfg * Z.of_nat (length fs) < 2 ^ 64 ->
                 start + pc_interval cfg * Z.of_nat i <= t;
  pi_sleeps : Forall (fun s => 50000 < s < pc_interval cfg - 50000) (pr_sleeps p)
}.

Lemma prod_inv_init : prod_inv [] (prod_init ring0 start).
Proof using. constructor; cbn; try done; [by rewrite app_nil_r|lia]. Qed.

(** What may stop the loop: the ring, or a wait whose clock never gets there. *)
Definition prod_fault (f : fault) : Prop :=
  (exists (r : R) fr, sink_publish r fr = Throw f) \/ (f = OutOfFuel /\ pc_interval cfg <> 0).

(** The wait of one turn, whether or not a rate was asked for. *)
Lemma prod_wait_ok (next : Z) (turns : list WaitTurn) :
  wp prod_fault
    (fun r => Forall (fun s => 50000 < s < pc_interval cfg - 50000) (fst (fst r)) /\
              (forall t, snd (fst r) = Some t -> pc_interval cfg <> 0 /\ next <= t) /\
              snd r = if pc_interval cfg =? 0 then next else u64 (next + pc_interval cfg))
    (if pc_interval cfg =? 0 then Ok ([], None, next)
     else let! '(sleeps, passed) := pace next (pc_interval cfg) turns in Ok (sleeps, passed, u64 (next + pc_interval cfg))).
Proof using.
  destruct (Z.eqb_spec (pc_interval cfg) 0) as [Ei|Hi]; [split_and!; [by apply Forall_nil|done|done]|].
  eapply wp_bind; [eapply wp_mono; [apply pace_ok| |intros r Hr; exact Hr]|].
  - intros f [-> _]. right. done.
  - intros [sleeps passed] [Hs Hp]. cbn [wp fst snd] in *. split_and!; [done| |done]. intros t Et. split; [done|by apply Hp].
Qed.

Lemma prod_turn_ok (fs : list bytes) (p : Prod R) (ev : ProdEvent) :
  0 <= start -> 0 <= pc_interval cfg -> prod_inv fs p -> wf_clocks (pv_clocks ev) -> Z.of_nat (length fs) + 1 < 2 ^ 64 ->
  wp prod_fault (fun p' => exists f, prod_inv (fs ++ [f]) p') (prod_turn cfg p ev).
Proof using All.
  intros Hst Hi0 [Hlog Hseq [He Hen] Hfr Hpl Hn Ht Hsl] Hck Hb. unfold prod_turn. eapply wp_bind; [apply prod_wait_ok|].
  intros [[sleeps passed] next] (Hs & Hp & Hnext). cbn [fst snd] in *. rewrite Hseq, wrap_small by (unfold in_range; lia).
  destruct (build_ok (pc_pid cfg) (Z.of_nat (length fs) + 1) (pv_clocks ev) (pr_epoch p) (pc_kind cfg) ltac:(unfold in_range; lia) Hck He)
    as (f & -> & Hf). cbn [rbind]. destruct (sink_publish (pr_ring p) f) as [r'|flt] eqn:Hpub; cbn [rbind wp]; [|left; eauto].
  exists f. pose proof (sink_publish_log _ _ _ Hpub) as Hl. set (e1 := default (ck_steady (pv_clocks ev)) (pr_epoch p)) in *.
  constructor; cbn [pr_ring pr_seq pr_epoch pr_passed pr_next_send pr_sleeps]; rewrite ?length_app; cbn [length].
  - by rewrite Hl, Hlog, app_assoc.
  - lia.
  - split; [|done]. cbn. unfold e1. destruct (pr_epoch p); [done|]. apply Hck.
  - cbn [default from_option]. intros i g Hg. apply lookup_app_Some in Hg as [Hg|[Hi Hg]].
    + specialize (Hfr i g Hg). unfold e1. destruct (pr_epoch p) eqn:Ee; [done|]. by rewrite (Hen eq_refl) in Hg.
    + destruct (i - length fs)%nat as [|n] eqn:Ei; [|by destruct n]. injection Hg as <-. replace i with (length fs) by lia. exact Hf.
  - lia.
  - intros Hni Hov. rewrite Hnext. destruct (Z.eqb_spec (pc_interval cfg) 0); [done|]. rewrite Hn by (try done; nia).
    rewrite wrap_small by (unfold in_range; nia). lia.
  - intros i t Hit Hov. apply lookup_app_Some in Hit as [Hit|[Hi Hit]]; [apply Ht; [done|nia]|].
    destruct (i - length (pr_passed p))%nat as [|n] eqn:Ei; [|by destruct n]. injection Hit as ->.
    destruct (Hp t eq_refl) as [Hne Hle]. rewrite Hn in Hle by (try done; nia). replace i with (length fs) by lia. lia.
  - by apply Forall_app.
Qed.

(** The loop stops at a stop request, at the count, or where the inputs end. *)
Definition prod_ended (evs : list ProdEvent) (p : Prod R) (n : nat) : Prop :=
  (pc_count cfg <> 0 /\ pr_seq p = pc_count cfg) \/ Exists (fun ev => pv_stop ev = true) evs \/ n = length evs.

Lemma prod_loop_ok (evs : list ProdEvent) (fs : list bytes) (p : Prod R) :
  0 <= start -> 0 <= pc_interval cfg -> prod_inv fs p -> Forall (fun ev => wf_clocks (pv_clocks ev)) evs ->
  Z.of_nat (length fs + length evs) < 2 ^ 64 -> (pc_count cfg = 0 \/ Z.of_nat (length fs) <= pc_count cfg) ->
  wp prod_fault (fun p' => exists more, prod_inv (fs ++ more) p' /\ prod_ended evs p' (length more) /\
      (pc_count cfg = 0 \/ Z.of_nat (length (fs ++ more)) <= pc_count cfg)) (prod_loop cfg p evs).
Proof using All.
  intros Hst Hi0. revert fs p. induction evs as [|ev evs IH]; intros fs p Hp Hck Hb Hc.
  { exists []. rewrite app_nil_r. split_and!; [done| |done]. right; by right. }
  apply Forall_cons in Hck as [Hck Hcks]. cbn [prod_loop length] in *. unfold prod_continue.
  destruct (pv_stop ev) eqn:Es; cbn [negb andb].
  { exists []. rewrite app_nil_r. split_and!; [done| |done]. right; left. by left. }
  destruct (Z.eqb_spec (pc_count cfg) 0) as [Ec|Hne]; cbn [orb].
  2: destruct (Z.ltb_spec (pr_seq p) (pc_count cfg)) as [Hlt|Hge].
  3: { exists []. rewrite app_nil_r. split_and!; [done| |done]. left. split; [done|]. rewrite (pi_seq _ _ Hp) in *. lia. }
  all: eapply wp_bind; [apply (prod_turn_ok fs p ev Hst Hi0 Hp Hck ltac:(lia))|].
  all: intros p1 (f & Hp1); eapply wp_mono; [apply (IH _ _ Hp1 Hcks)|done|].
  1,4: rewrite length_app; cbn [length]; lia.
  1,3: rewrite length_app; cbn [length]; pose proof (pi_seq _ _ Hp); lia.
  all: intros p2 (more & Hi2 & He2 & Hc2); exists (f :: more); rewrite <- app_assoc in Hi2, Hc2; split_and!; [done| |done].
  all: unfold prod_ended in *; cbn [length]; destruct He2 as [?|[?|?]]; [by left|right; left; by right|right; right; lia].
Qed.
End LoopCorrect.

(** ** Properties *)

(** The producer publishes exactly the messages 1, 2, 3, ... of one stream.
    Whatever the clocks, the pacing and the stop flag do, the frames handed to
    the ring are in order, pass [validate_frame], carry the sequence numbers
    1..n, the process id, one common epoch and the type the kind asks for, never
    more than [count] of them; the loop ends only at the count, at a stop
    request or with its inputs.  Nothing in the conversions to integers or in
    the buffers can fail: the only faults are the ring's own and a wait whose
    clock never reaches its deadline. *)
Theorem producer_publishes_sequence {R : Type} `{SinkLaws R} (cfg : ProdConfig) (ring0 : R) (start : Z) (evs : list ProdEvent) :
  0 <= start -> 0 <= pc_interval cfg -> 0 <= pc_count cfg ->
  Forall (fun ev => wf_clocks (pv_clocks ev)) evs -> Z.of_nat (length evs) < 2 ^ 64 ->
  wp (prod_fault (R:=R) cfg)
    (fun p => exists fs epoch, sink_log (pr_ring p) = sink_log ring0 ++ fs /\ pr_seq p = Z.of_nat (length fs) /\
      (forall i f, fs !! i = Some f -> is_message (pc_pid cfg) epoch (pc_kind cfg) (Z.of_nat i + 1) f) /\
      (pc_count cfg = 0 \/ Z.of_nat (length fs) <= pc_count cfg) /\ prod_ended cfg evs p (length fs))
    (prod_loop cfg (prod_init ring0 start) evs).
Proof.
  intros Hst Hi Hc Hck Hb. eapply wp_mono; [apply (prod_loop_ok cfg ring0 start evs [] _ Hst Hi (prod_inv_init cfg ring0 start) Hck Hb)|done|].
  { right. cbn. lia. }
  intros p (fs & Hp & He & Hn). cbn [app] in *. exists fs, (default 0 (pr_epoch p)).
  split_and!; [apply Hp|apply Hp|apply (pi_frames _ _ _ _ _ Hp)|done|done].
Qed.


(** The integer price and size fields are exact.  Although they are computed
    by truncating a product of rounded doubles, the ticks and lots of every
    message are those of the decimal prices and sizes: the mid price is
    65000.00 plus half a unit per step, the quote is 0.50 on either side and the
    book goes down and up by whole units, so bids are below asks and ordered. *)
Theorem producer_ticks_exact (pid seq : Z) (ck : Clocks) (epoch : option Z) :
  in_range 64 seq -> wf_clocks ck -> wf_epoch epoch ->
  let mid := 6500000 + 50 * (seq mod 500) in
  (exists m e, build_trade pid epoch ck seq = Ok (m, e) /\ tr_price_ticks m = mid /\ tr_quantity_lots m = 1 + 10 * (seq mod 100)) /\
  (exists m e, build_bbo pid epoch ck seq = Ok (m, e) /\ bb_bid_price_ticks m = mid - 50 /\ bb_ask_price_ticks m = mid + 50 /\
     bb_bid_size_lots m = 1500 + 100 * (seq mod 50) /\ bb_ask_size_lots m = 1500 + 100 * (u64 (seq + 7) mod 50)) /\
  (exists m e, build_book pid epoch ck seq = Ok (m, e) /\
     map lv_price_ticks (ob_bids m) = map (fun i => mid - 50 - 100 * Z.of_nat i) (List.seq 0 kBookDepth) /\
     map lv_price_ticks (ob_asks m) = map (fun i => mid + 50 + 100 * Z.of_nat i) (List.seq 0 kBookDepth)).
Proof.
  intros Hs Hck He mid. split_and!.
  - destruct (build_trade_ok pid seq ck epoch Hs Hck He) as (m & E & _ & _ & H1). by exists m, (Some (default (ck_steady ck) epoch)).
  - destruct (build_bbo_ok pid seq ck epoch Hs Hck He) as (m & E & _ & _ & H1). by exists m, (Some (default (ck_steady ck) epoch)).
  - destruct (build_book_ok pid seq ck epoch Hs Hck He) as (m & E & _ & _ & Hb & Ha & _). exists m, (Some (default (ck_steady ck) epoch)).
    assert (Hm : forall (g : nat -> Z) idx l, Forall2 (fun i x => lv_price_ticks x = g i) idx l -> map lv_price_ticks l = map g idx)
      by (clear; induction 1; cbn; congruence).
    split_and!; [done|by apply (Hm (fun i => _ - _ - _))|by apply (Hm (fun i => _ + _ + _))].
Qed.

(** ** Witnesses *)
Definition demo_clocks : Clocks := mkClocks 1000 50 1001.
Definition demo_prod : ProdConfig := mkProdConfig KMixed 2 200000 4242.
Definition demo_prod_events : list ProdEvent :=
  [mkProdEvent false [mkWait false 10 10] demo_clocks;
   mkProdEvent false [mkWait false 20 30; mkWait false 200009 200050; mkWait false 200011 200012] demo_clocks;
   mkProdEvent false [] demo_clocks].

Lemma demo_clocks_wf : Forall (fun ev => wf_clocks (pv_clocks ev)) demo_prod_events.
Proof. repeat (apply Forall_cons; split; [vm_compute; intuition congruence|]). by apply Forall_nil. Qed.

(** Two messages, one sleep of 149980 ns. *)
Definition demo_result (r : res (Prod (list bytes))) : option (Z * list (option Z) * list Z) :=
  match r with Ok p => Some (pr_seq p, pr_passed p, pr_sleeps p) | Throw _ => None end.
Lemma demo_prod_result :
  demo_result (prod_loop demo_prod (prod_init [] 10) demo_prod_events) = Some (2, [Some 10; Some 200011], [149980]).
Proof. vm_compute. reflexivity. Qed.
Lemma demo_result_inv (r : res (Prod (list bytes))) (x : Z * list (option Z) * list Z) :
  demo_result r = Some x -> exists p, r = Ok p /\ pr_seq p = fst (fst x) /\ pr_passed p = snd (fst x) /\ pr_sleeps p = snd x.
Proof. destruct r as [p|]; [|done]. intros [= <-]. by exists p. Qed.

Lemma producer_publishes_sequence_witness :
  exists p fs epoch, prod_loop demo_prod (prod_init [] 10) demo_prod_events = Ok p /\ pr_seq p = 2 /\ sink_log (pr_ring p) = fs /\
    (forall i f, fs !! i = Some f -> is_message 4242 epoch KMixed (Z.of_nat i + 1) f).
Proof.
  destruct (demo_result_inv _ _ demo_prod_result) as (p & E & Hs & _).
  pose proof (producer_publishes_sequence (R:=list bytes) demo_prod [] 10 demo_prod_events ltac:(lia) ltac:(cbn; lia) ltac:(cbn; lia)
    demo_clocks_wf ltac:(cbn; lia)) as Hw.
  rewrite E in Hw. destruct Hw as (fs & epoch & Hl & _ & Hm & _). exists p, fs, epoch. split_and!; [exact E|exact Hs|exact Hl|exact Hm].
Defined.


Lemma producer_ticks_exact_witness :
  exists m e, build_trade 1 None demo_clocks 1499 = Ok (m, e) /\ tr_price_ticks m = 6500000 + 50 * (1499 mod 500) /\ tr_quantity_lots m = 1 + 10 * (1499 mod 100).
Proof.
  destruct (producer_ticks_exact 1 1499 demo_clocks None) as (H1 & _);
    [unfold in_range; lia|vm_compute; intuition congruence|exact I|exact H1].
Defined.
