(* ===== verification/Segment.v ===== *)
(** * Shared-memory segments: [harness/include/shm_segment.h]

    The life cycle of a [shm::Segment] in several processes: one that creates
    the segment, initialises the ring in it and declares it [ready], and others
    that open it.  Every system call is one step, steps of different processes
    interleave, calls can fail, deadlines can pass and processes can be killed
    anywhere.  The kernel is modelled as far as the code relies on it: exclusive
    creation of names, the size of an object, [flock] locks that belong to an
    open file and are dropped with it. *)
From S2P Require Import Prelude.

Inductive errno := ENOENT | EEXIST | EWOULDBLOCK | EINTR | EOTHER.
#[global] Instance errno_eq_dec : EqDecision errno.
Proof. solve_decision. Defined.

(** What a mapped object holds: zeros, a ring under construction, a ring. *)
Inductive content := Zeroed | Partial | Initialised.

(** An object: its size, its content, the holders of its locks ([true]:
    exclusive) and, as a history variable, the process that created it. *)
Record Obj := mkObj { ob_size : Z; ob_content : content; ob_locks : gmap nat bool; ob_creator : nat }.

Section Segment.
Context {Name : Type} `{Countable Name}.

Record Kernel := mkKernel { k_names : gmap Name nat; k_objs : gmap nat Obj; k_next : nat }.

(** Where a process is in [Segment::open] and in the life of the [Segment]. *)
Inductive point :=
| AtOpen | AtLock | AtStat | AtDrop | AtTruncate | AtMap | AtRelease   (* in the body of open *)
| AtClose | AtUnlink                                                   (* the catch block *)
| Opened                                                               (* open has returned *)
| Attaching | Attached                                                 (* Ring::attach(base, count, true) *)
| Ready                                                                (* after ready() *)
| AtUnmap | AtLastClose                                                (* the destructor, after unlink() *)
| Failed | Gone | Killed.
#[global] Instance point_eq_dec : EqDecision point.
Proof. solve_decision. Defined.

(** The arguments of [open] and the members of the [Segment]: [pr_fd] is the
    object the descriptor refers to, [None] being -1. *)
Record Proc := mkProc {
  p_name : Name; p_size : Z; p_create : bool; p_point : point; p_fd : option nat; p_mapped : bool; p_owner : bool
}.

Definition at_point (p : Proc) (pt : point) : Proc :=
  mkProc (p_name p) (p_size p) (p_create p) pt (p_fd p) (p_mapped p) (p_owner p).
Definition with_fd (p : Proc) (fd : option nat) (pt : point) : Proc :=
  mkProc (p_name p) (p_size p) (p_create p) pt fd (p_mapped p) (p_owner p).
Definition with_members (p : Proc) (mapped owner : bool) (pt : point) : Proc :=
  mkProc (p_name p) (p_size p) (p_create p) pt (p_fd p) mapped owner.

(** ** System calls *)
Definition put_obj (k : Kernel) (i : nat) (o : Obj) : Kernel := mkKernel (k_names k) (<[i := o]> (k_objs k)) (k_next k).

(** [shm_open(name, create ? O_CREAT|O_EXCL|O_RDWR : O_RDWR)]. *)
Definition shm_open (k : Kernel) (pid : nat) (name : Name) (create : bool) : errno + (nat * Kernel) :=
  match k_names k !! name, create with
  | Some _, true => inl EEXIST
  | Some i, false => inr (i, k)
  | None, false => inl ENOENT
  | None, true =>
      inr (k_next k, mkKernel (<[name := k_next k]> (k_names k)) (<[k_next k := mkObj 0 Zeroed ∅ pid]> (k_objs k)) (S (k_next k)))
  end.

(** [flock(fd, (exclusive ? LOCK_EX : LOCK_SH)|LOCK_NB)]. *)
Definition compatible (locks : gmap nat bool) (pid : nat) (exclusive : bool) : bool :=
  if exclusive then bool_decide (delete pid locks = ∅) else bool_decide (map_Forall (fun _ e => e = false) (delete pid locks)).
Definition flock (k : Kernel) (i pid : nat) (exclusive : bool) : option Kernel :=
  match k_objs k !! i with
  | Some o => if compatible (ob_locks o) pid exclusive
              then Some (put_obj k i (mkObj (ob_size o) (ob_content o) (<[pid := exclusive]> (ob_locks o)) (ob_creator o))) else None
  | None => None
  end.
(** [flock(fd, LOCK_UN)], and what [close] or the death of the process does to the lock. *)
Definition funlock (k : Kernel) (i pid : nat) : Kernel :=
  match k_objs k !! i with
  | Some o => put_obj k i (mkObj (ob_size o) (ob_content o) (delete pid (ob_locks o)) (ob_creator o))
  | None => k
  end.
Definition close_fd (k : Kernel) (fd : option nat) (pid : nat) : Kernel :=
  match fd with Some i => funlock k i pid | None => k end.
Definition shm_unlink (k : Kernel) (name : Name) : Kernel := mkKernel (delete name (k_names k)) (k_objs k) (k_next k).
Definition ftruncate (k : Kernel) (i : nat) (size : Z) : Kernel :=
  match k_objs k !! i with
  | Some o => put_obj k i (mkObj size (ob_content o) (ob_locks o) (ob_creator o))
  | None => k
  end.
Definition store (k : Kernel) (i : nat) (c : content) : Kernel :=
  match k_objs k !! i with
  | Some o => put_obj k i (mkObj (ob_size o) c (ob_locks o) (ob_creator o))
  | None => k
  end.

(** ** One step of a process

    [err]: the error the system call fails with, if it does; [late]: whether
    the deadline has passed when the code looks at the clock. *)

(** After a failed [shm_open]. *)
Definition open_retry (p : Proc) (e : errno) (late : bool) : Proc :=
  if p_create p || negb (bool_decide (e = ENOENT)) || late then at_point p Failed else p.
(** After a lock that was not obtained, and after an object of size 0. *)
Definition lock_retry (p : Proc) (late : bool) : Proc := if late then at_point p AtClose else at_point p AtLock.

Definition open_step (k : Kernel) (pid : nat) (p : Proc) (err : option errno) (late : bool) : option (Kernel * Proc) :=
  match p_point p, p_fd p with
  | AtOpen, _ =>
      match err with
      | Some e => Some (k, open_retry p e late)
      | None => match shm_open k pid (p_name p) (p_create p) with
                | inl e => Some (k, open_retry p e late)
                | inr (i, k) => Some (k, with_fd p (Some i) AtLock)
                end
      end
  | AtLock, Some i =>
      match err with
      | Some e => Some (k, if bool_decide (e = EWOULDBLOCK \/ e = EINTR) then lock_retry p late else at_point p AtClose)
      | None => match flock k i pid (p_create p) with
                | Some k => Some (k, at_point p AtStat)
                | None => Some (k, lock_retry p late)
                end
      end
  | AtStat, Some i =>
      match err, k_objs k !! i with
      | None, Some o =>
          if p_create p || negb (ob_size o =? 0) then
            if negb (p_create p) && negb (ob_size o =? p_size p) then Some (k, at_point p AtClose)
            else Some (k, at_point p (if p_create p then AtTruncate else AtMap))
          else Some (k, at_point p AtDrop)
      | _, _ => Some (k, at_point p AtClose)
      end
  | AtDrop, Some i => Some (funlock k i pid, lock_retry p late)
  | AtTruncate, Some i =>
      match err with
      | Some _ => Some (k, at_point p AtClose)
      | None => Some (ftruncate k i (p_size p), at_point p AtMap)
      end
  | AtMap, Some i =>
      match err with
      | Some _ => Some (k, at_point p AtClose)
      | None => if p_create p then Some (k, with_members p true true Opened) else Some (k, with_members p true false AtRelease)
      end
  | AtRelease, Some i => Some (funlock k i pid, at_point p Opened)
  | AtClose, fd => Some (close_fd k fd pid, with_fd (with_members p false false AtClose) None (if p_create p then AtUnlink else Failed))
  | AtUnlink, _ => Some (shm_unlink k (p_name p), with_members p false false Failed)
  | _, _ => None
  end.

(** [ready()]. *)
Definition ready (k : Kernel) (pid : nat) (p : Proc) : Kernel * Proc :=
  (if p_owner p then close_fd k (p_fd p) pid else k, at_point p Ready).

(** [unlink()]. *)
Definition unlink (k : Kernel) (p : Proc) : Kernel * Proc :=
  if p_owner p then (shm_unlink k (p_name p), with_members p (p_mapped p) false (p_point p)) else (k, p).

(** [~Segment], one system call at a time. *)
Definition destroy_step (k : Kernel) (pid : nat) (p : Proc) : option (Kernel * Proc) :=
  match p_point p with
  | Opened | Attaching | Attached | Ready => let '(k, p) := unlink k p in Some (k, at_point p AtUnmap)
  | AtUnmap => Some (k, with_members p false (p_owner p) AtLastClose)
  | AtLastClose => Some (close_fd k (p_fd p) pid, with_fd p None Gone)
  | _ => None
  end.

(** ** The system *)
Record Sys := mkSys { s_kernel : Kernel; s_procs : gmap nat Proc }.
Definition sys_init : Sys := mkSys (mkKernel ∅ ∅ 0) ∅.
Definition set_proc (s : Sys) (pid : nat) (kp : Kernel * Proc) : Sys := mkSys (fst kp) (<[pid := snd kp]> (s_procs s)).

(** What can happen next: a process starts, takes a step, or is killed.  The
    creator's ring initialisation ([Ring::attach]) stores field by field. *)
Inductive sstep : Sys -> Sys -> Prop :=
| S_start s pid name size create : s_procs s !! pid = None -> 0 < size ->
    sstep s (set_proc s pid (s_kernel s, mkProc name size create AtOpen None false false))
| S_open s pid p err late kp : s_procs s !! pid = Some p -> open_step (s_kernel s) pid p err late = Some kp ->
    sstep s (set_proc s pid kp)
| S_attach_begin s pid p i : s_procs s !! pid = Some p -> p_point p = Opened -> p_create p = true -> p_fd p = Some i ->
    sstep s (set_proc s pid (store (s_kernel s) i Partial, at_point p Attaching))
| S_attach_end s pid p i : s_procs s !! pid = Some p -> p_point p = Attaching -> p_fd p = Some i ->
    sstep s (set_proc s pid (store (s_kernel s) i Initialised, at_point p Attached))
| S_ready s pid p : s_procs s !! pid = Some p -> p_point p = Attached ->
    sstep s (set_proc s pid (ready (s_kernel s) pid p))
| S_unlink s pid p : s_procs s !! pid = Some p -> p_point p = Ready ->
    sstep s (set_proc s pid (unlink (s_kernel s) p))
| S_destroy s pid p kp : s_procs s !! pid = Some p -> destroy_step (s_kernel s) pid p = Some kp ->
    sstep s (set_proc s pid kp)
| S_kill s pid p : s_procs s !! pid = Some p ->
    sstep s (set_proc s pid (close_fd (s_kernel s) (p_fd p) pid, with_fd p None Killed)).
Definition reachable : Sys -> Prop := rtc sstep sys_init.

(** ** Invariant *)

(** A process that has given up its segment, or never got it. *)
Definition out_point (pt : point) : bool :=
  match pt with AtClose | AtUnlink | AtUnmap | AtLastClose | Failed | Gone | Killed => true | _ => false end.
Definition out (ps : gmap nat Proc) (pid : nat) : Prop := exists p, ps !! pid = Some p /\ out_point (p_point p) = true.

(** The creator: from its lock on it keeps everyone else out until the ring is there. *)
Definition creator_ok (pid : nat) (p : Proc) (o : Obj) : Prop :=
  ob_creator o = pid /\
  match p_point p with
  | AtLock => ob_size o = 0 /\ ob_content o = Zeroed
  | AtStat | AtTruncate => ob_size o = 0 /\ ob_content o = Zeroed /\ ob_locks o !! pid = Some true
  | AtMap | Opened => ob_size o = p_size p /\ ob_content o = Zeroed /\ ob_locks o !! pid = Some true
  | Attaching => ob_size o = p_size p /\ ob_content o = Partial /\ ob_locks o !! pid = Some true
  | Attached => ob_size o = p_size p /\ ob_content o = Initialised /\ ob_locks o !! pid = Some true
  | Ready => ob_size o = p_size p /\ ob_content o = Initialised
  | AtClose | AtUnmap | AtLastClose => True
  | _ => False
  end.

(** The others: past the size check the ring is complete, or its creator is out. *)
Definition opener_ok (ps : gmap nat Proc) (pid : nat) (p : Proc) (o : Obj) : Prop :=
  match p_point p with
  | AtLock | AtClose | AtUnmap | AtLastClose => True
  | AtStat | AtDrop => ob_locks o !! pid = Some false
  | AtMap | AtRelease | Opened => ob_size o = p_size p /\ (ob_content o = Initialised \/ out ps (ob_creator o))
  | _ => False
  end.

Definition proc_ok (k : Kernel) (ps : gmap nat Proc) (pid : nat) (p : Proc) : Prop :=
  0 < p_size p /\ (p_owner p = true -> p_create p = true) /\
  match p_fd p with
  | None => match p_point p with AtOpen | Failed | Gone | Killed => True | AtUnlink => p_create p = true | _ => False end
  | Some i => exists o, k_objs k !! i = Some o /\ (if p_create p then creator_ok pid p o else opener_ok ps pid p o)
  end.

(** The locks of an object belong to processes that have it open, and an
    exclusive one is alone. *)
Definition locks_ok (ps : gmap nat Proc) (i : nat) (locks : gmap nat bool) : Prop :=
  (forall pid e, locks !! pid = Some e -> exists p, ps !! pid = Some p /\ p_fd p = Some i /\ p_create p = e) /\
  (forall pid pid' e, locks !! pid = Some true -> locks !! pid' = Some e -> pid' = pid).

Definition obj_ok (ps : gmap nat Proc) (i : nat) (o : Obj) : Prop :=
  locks_ok ps i (ob_locks o) /\
  exists c, ps !! ob_creator o = Some c /\ p_create c = true /\ (p_fd c = Some i \/ out_point (p_point c) = true).

(** Who will still unlink the name. *)
Definition claims (p : Proc) : Prop :=
  p_create p = true /\ (p_owner p = true \/ match p_point p with AtLock | AtStat | AtTruncate | AtMap | AtClose | AtUnlink => True | _ => False end).

Record seg_inv (s : Sys) : Prop := {
  si_fresh i : (k_next (s_kernel s) <= i)%nat -> k_objs (s_kernel s) !! i = None;
  si_names n i : k_names (s_kernel s) !! n = Some i -> is_Some (k_objs (s_kernel s) !! i);
  si_proc pid p : s_procs s !! pid = Some p -> proc_ok (s_kernel s) (s_procs s) pid p;
  si_obj i o : k_objs (s_kernel s) !! i = Some o -> obj_ok (s_procs s) i o;
  si_claim pid p : s_procs s !! pid = Some p -> claims p ->
    exists i o, k_names (s_kernel s) !! p_name p = Some i /\ k_objs (s_kernel s) !! i = Some o /\ ob_creator o = pid
}.

Lemma seg_inv_init : seg_inv sys_init.
Proof. constructor; cbn; intros; simplify_map_eq. done. Qed.

(** A change of process [pid] to [p'] that keeps it out if it was. *)
Lemma out_mono (ps : gmap nat Proc) (pid q : nat) (p p' : Proc) :
  ps !! pid = Some p -> (out_point (p_point p) = true -> out_point (p_point p') = true) -> out ps q -> out (<[pid := p']> ps) q.
Proof.
  intros Hp Hm (x & Hx & Ho). unfold out. destruct (decide (q = pid)) as [->|Hne].
  - exists p'. rewrite lookup_insert_eq. simplify_eq. auto.
  - exists x. by rewrite lookup_insert_ne.
Qed.

Section Step.
Context (s : Sys) (pid i : nat) (p p' : Proc) (o o' : Obj).
Hypotheses (Hinv : seg_inv s) (Hp : s_procs s !! pid = Some p) (Ho : k_objs (s_kernel s) !! i = Some o) (Hfd : p_fd p = Some i).
Hypotheses (Hcr : ob_creator o' = ob_creator o) (Hlk : forall q, q <> pid -> ob_locks o' !! q = ob_locks o !! q).
(** The size and content change only under a creator that is not done. *)
Hypothesis Hdata : (ob_size o' = ob_size o /\ ob_content o' = ob_content o) \/
                   (ob_creator o = pid /\ out_point (p_point p) = false  /\ ob_content o <> Initialised).
Hypothesis Hout : out_point (p_point p) = true -> out_point (p_point p') = true.
Hypotheses (Hc' : p_create p' = p_create p) (Hn' : p_name p' = p_name p).
Hypothesis Hfd' : p_fd p' = Some i \/ (p_fd p' = None /\ ob_locks o' !! pid = None /\ out_point (p_point p') = true).
(** A lock taken in this step is of the right kind and compatible. *)
Hypothesis Hnew : forall e, ob_locks o' !! pid = Some e -> e = p_create p /\ forall q e', q <> pid -> ob_locks o !! q = Some e' -> e = false /\ e' = false.
Hypothesis Hclaim : claims p' -> claims p.

Let k' := put_obj (s_kernel s) i o'.
Let ps' := <[pid := p']> (s_procs s).

Lemma opener_other (q : nat) (x : Proc) : q <> pid -> opener_ok (s_procs s) q x o -> opener_ok ps' q x o'.
Proof using Hinv Hp Ho Hcr Hlk Hdata Hout Hfd.
  intros Hne Hok. specialize (Hlk q Hne). unfold opener_ok in *.
  assert (Hstay : ob_size o = p_size x /\ (ob_content o = Initialised \/ out (s_procs s) (ob_creator o)) ->
    ob_size o' = p_size x /\ (ob_content o' = Initialised \/ out ps' (ob_creator o'))).
  { intros [Hs Hr]. rewrite Hcr. destruct Hdata as [[-> ->]|(Hown & Hno & Hni)].
    - split; [done|]. destruct Hr as [?|Hr]; [by left|right; by eapply out_mono].
    - exfalso. destruct Hr as [Hr|(c & Hc & Hco)]; [done|]. rewrite Hown, Hp in Hc. injection Hc as <-. congruence. }
  destruct (p_point x); try done; [by rewrite Hlk|by rewrite Hlk|by apply Hstay..].
Qed.

Lemma other_proc_ok (q : nat) (x : Proc) : q <> pid -> s_procs s !! q = Some x -> proc_ok k' ps' q x.
Proof using Hinv Hp Ho Hcr Hlk Hdata Hout Hfd.
  intros Hne Hx. destruct (si_proc _ Hinv q x Hx) as (Hs & Hw & Hf). split; [done|]. split; [done|]. destruct (p_fd x) as [j|]; [|done].
  destruct Hf as (oj & Hj & Hok). unfold k', put_obj. cbn [k_objs]. destruct (decide (j = i)) as [->|Hji].
  - exists o'. rewrite lookup_insert_eq. split; [done|]. assert (oj = o) as -> by congruence.
    destruct (p_create x); [|by apply opener_other]. destruct Hok as [Hq Hok]. unfold creator_ok. rewrite Hcr, Hlk by done. split; [done|].
    destruct Hdata as [[-> ->]|(Hown & _)]; [done|]. congruence.
  - exists oj. rewrite lookup_insert_ne by done. split; [done|]. destruct (p_create x); [done|]. unfold opener_ok in *.
    destruct (p_point x); try done; (destruct Hok as [? [?|Hq]]; (split; [done|]); [by left|right; by eapply out_mono]).
Qed.
Lemma other_obj_ok (j : nat) (oj : Obj) : k_objs (s_kernel s) !! j = Some oj -> j <> i -> obj_ok ps' j oj.
Proof using Hinv Hp Hfd Hout Hc' Hfd'.
  intros Hj Hji. destruct (si_obj _ Hinv j oj Hj) as [[Hl Hx] (c & Hc & Hcc & Hcf)]. split; [split; [|done]|].
  - intros q e Hq. destruct (Hl q e Hq) as (x & Hxq & Hxf & Hxc). destruct (decide (q = pid)) as [->|Hne]; [congruence|].
    exists x. unfold ps'. by rewrite lookup_insert_ne.
  - unfold ps'. destruct (decide (ob_creator oj = pid)) as [E|Hne].
    + rewrite E, lookup_insert_eq. exists p'. rewrite E, Hp in Hc. injection Hc as <-. split; [done|]. split; [congruence|].
      destruct Hcf as [Hcf|Hcf]; [congruence|right; auto].
    + exists c. by rewrite lookup_insert_ne.
Qed.

Lemma this_obj_ok : obj_ok ps' i o'.
Proof using Hinv Hp Ho Hfd Hcr Hlk Hout Hc' Hfd' Hnew.
  destruct (si_obj _ Hinv i o Ho) as [[Hl Hx] (c & Hc & Hcc & Hcf)]. split; [split|].
  - intros q e Hq. unfold ps'. destruct (decide (q = pid)) as [->|Hne].
    + exists p'. rewrite lookup_insert_eq. split; [done|]. destruct (Hnew e Hq) as [-> _]. split; [|done]. destruct Hfd' as [?|(_ & ? & _)]; [done|congruence].
    + rewrite Hlk in Hq by done. destruct (Hl q e Hq) as (x & ?). exists x. by rewrite lookup_insert_ne.
  - intros q q' e Hq Hq'. destruct (decide (q = pid)) as [->|Hne], (decide (q' = pid)) as [->|Hne']; try done.
    + rewrite Hlk in Hq' by done. destruct (Hnew true Hq) as [_ Hn]. destruct (Hn q' e Hne' Hq') as [? _]. done.
    + rewrite Hlk in Hq by done. destruct (Hnew e Hq') as [_ Hn]. destruct (Hn q true Hne Hq) as [_ ?]. done.
    + rewrite Hlk in Hq, Hq' by done. by eapply Hx.
  - rewrite Hcr. unfold ps'. destruct (decide (ob_creator o = pid)) as [E|Hne].
    + rewrite E, lookup_insert_eq. exists p'. rewrite E, Hp in Hc. injection Hc as <-. split; [done|]. split; [congruence|].
      destruct Hfd' as [?|(_ & _ & ?)]; auto.
    + exists c. by rewrite lookup_insert_ne.
Qed.

Lemma step_keeps : proc_ok k' ps' pid p' -> seg_inv (mkSys k' ps').
Proof using All.
  intros Hok. constructor; cbn [s_kernel s_procs].
  - intros j Hj. unfold k', put_obj. cbn [k_objs]. apply lookup_insert_None. split; [by apply Hinv|]. intros <-.
    rewrite (si_fresh _ Hinv i Hj) in Ho. done.
  - intros n j Hn. unfold k', put_obj in *. cbn [k_objs k_names] in *. rewrite lookup_insert_is_Some'. right. by eapply (si_names _ Hinv).
  - intros q x Hq. unfold ps' in Hq. destruct (decide (q = pid)) as [->|Hne]; [rewrite lookup_insert_eq in Hq; by injection Hq as <-|].
    rewrite lookup_insert_ne in Hq by done. by apply other_proc_ok.
  - intros j oj Hj. unfold k', put_obj in Hj. cbn [k_objs] in Hj. destruct (decide (j = i)) as [->|Hne].
    + rewrite lookup_insert_eq in Hj. injection Hj as <-. apply this_obj_ok.
    + rewrite lookup_insert_ne in Hj by done. by apply other_obj_ok.
  - intros q x Hq Hcl. unfold ps' in Hq. assert (Hback : exists y, s_procs s !! q = Some y /\ claims y /\ p_name y = p_name x).
    { destruct (decide (q = pid)) as [->|Hne]; [rewrite lookup_insert_eq in Hq; injection Hq as <-; eauto|].
      rewrite lookup_insert_ne in Hq by done. eauto. }
    destruct Hback as (y & Hy & Hyc & En). destruct (si_claim _ Hinv q y Hy Hyc) as (j & oj & Hn & Hj & Hcj). rewrite En in Hn.
    unfold k', put_obj. cbn [k_names k_objs]. destruct (decide (j = i)) as [->|Hne].
    + exists i, o'. rewrite lookup_insert_eq. split_and!; try done. congruence.
    + exists j, oj. by rewrite lookup_insert_ne.
Qed.
End Step.

(** A lock that is held is of the holder's kind and compatible with the others. *)
Lemma lock_held (s : Sys) (pid i : nat) (p : Proc) (o : Obj) (e : bool) :
  seg_inv s -> s_procs s !! pid = Some p -> k_objs (s_kernel s) !! i = Some o -> ob_locks o !! pid = Some e ->
  e = p_create p /\ forall q e', q <> pid -> ob_locks o !! q = Some e' -> e = false /\ e' = false.
Proof.
  intros Hinv Hp Ho He. destruct (si_obj _ Hinv i o Ho) as [[Hl Hx] _]. split.
  - destruct (Hl pid e He) as (x & Hxp & _ & <-). congruence.
  - intros q e' Hne Hq. split.
    + destruct e; [|done]. by specialize (Hx pid q e' He Hq).
    + destruct e'; [|done]. by specialize (Hx q pid e Hq He).
Qed.

(** Steps that only move the process. *)
Lemma move_keeps (s : Sys) (pid i : nat) (p p' : Proc) (o : Obj) :
  seg_inv s -> s_procs s !! pid = Some p -> k_objs (s_kernel s) !! i = Some o -> p_fd p = Some i -> p_fd p' = Some i ->
  (out_point (p_point p) = true -> out_point (p_point p') = true) -> p_create p' = p_create p -> p_name p' = p_name p ->
  (claims p' -> claims p) -> proc_ok (s_kernel s) (<[pid := p']> (s_procs s)) pid p' -> seg_inv (set_proc s pid (s_kernel s, p')).
Proof.
  intros Hinv Hp Ho Hfd Hfd' Hout Hc Hn Hcl Hok. unfold set_proc. cbn [fst snd].
  assert (Hid : put_obj (s_kernel s) i o = s_kernel s) by (unfold put_obj; destruct (s_kernel s); cbn in *; by rewrite insert_id).
  rewrite <- Hid at 1. apply (step_keeps s pid i p p' o o); auto.
  - intros e He. by apply (lock_held s pid i p o).
  - by rewrite Hid.
Qed.

(** Steps of a process without a descriptor. *)
Lemma fdless_others (s : Sys) (pid : nat) (p' : Proc) :
  seg_inv s -> (forall x, s_procs s !! pid = Some x -> p_fd x = None /\ p_create p' = p_create x /\ (out_point (p_point x) = true -> out_point (p_point p') = true)) ->
  (forall q x, q <> pid -> s_procs s !! q = Some x -> proc_ok (s_kernel s) (<[pid := p']> (s_procs s)) q x) /\
  (forall j oj, k_objs (s_kernel s) !! j = Some oj -> obj_ok (<[pid := p']> (s_procs s)) j oj).
Proof.
  intros Hinv Hx. split.
  - intros q x Hne Hq. destruct (si_proc _ Hinv q x Hq) as (Hs & Hw & Hf). split; [done|]. split; [done|]. destruct (p_fd x) as [j|]; [|done].
    destruct Hf as (o & Ho & Hok). exists o. split; [done|]. destruct (p_create x); [done|]. unfold opener_ok in *.
    assert (Hmono : out (s_procs s) (ob_creator o) -> out (<[pid := p']> (s_procs s)) (ob_creator o)).
    { intros (c & Hc & Hco). destruct (decide (ob_creator o = pid)) as [E|Hnc].
      - exists p'. rewrite E, lookup_insert_eq. split; [done|]. rewrite E in Hc. by apply (Hx c Hc).
      - exists c. by rewrite lookup_insert_ne. }
    destruct (p_point x); try done; intuition.
  - intros j oj Hj. destruct (si_obj _ Hinv j oj Hj) as [[Hl Hexc] (c & Hc & Hcc & Hcf)]. split; [split; [|done]|].
    + intros q e Hq. destruct (Hl q e Hq) as (x & Hxq & Hxf & Hxc). destruct (decide (q = pid)) as [->|Hne]; [|exists x; by rewrite lookup_insert_ne].
      destruct (Hx x Hxq) as [? _]. congruence.
    + destruct (decide (ob_creator oj = pid)) as [E|Hne]; [|exists c; by rewrite lookup_insert_ne].
      rewrite E in *. destruct (Hx c Hc) as (H1 & H2 & H3). exists p'. rewrite lookup_insert_eq. split; [done|]. split; [congruence|].
      destruct Hcf as [?|?]; [congruence|right; auto].
Qed.

(** Such a step that leaves the kernel alone. *)
Lemma fdless_keeps (s : Sys) (pid : nat) (p' : Proc) :
  seg_inv s ->
  (forall x, s_procs s !! pid = Some x -> p_fd x = None /\ p_create p' = p_create x /\ (out_point (p_point x) = true -> out_point (p_point p') = true)) ->
  (claims p' -> exists x, s_procs s !! pid = Some x /\ claims x /\ p_name x = p_name p') ->
  proc_ok (s_kernel s) (<[pid := p']> (s_procs s)) pid p' -> seg_inv (set_proc s pid (s_kernel s, p')).
Proof.
  intros Hinv Hx Hcl Hok. destruct (fdless_others s pid p' Hinv Hx) as [Hps Hos]. constructor; cbn [set_proc s_kernel s_procs fst snd]; try apply Hinv; try done.
  - intros q x Hq. destruct (decide (q = pid)) as [->|Hne]; [rewrite lookup_insert_eq in Hq; by injection Hq as <-|].
    rewrite lookup_insert_ne in Hq by done. auto.
  - intros q x Hq Hc. destruct (decide (q = pid)) as [->|Hne].
    + rewrite lookup_insert_eq in Hq. injection Hq as <-. destruct (Hcl Hc) as (y & Hy1 & Hy2 & Hy3). rewrite <- Hy3. by apply (si_claim _ Hinv).
    + rewrite lookup_insert_ne in Hq by done. by apply (si_claim _ Hinv).
Qed.

(** Removing a name that belongs to a process that makes no further claim. *)
Lemma unlink_keeps (s : Sys) (pid : nat) (p : Proc) (n : Name) (i : nat) (o : Obj) :
  seg_inv s -> s_procs s !! pid = Some p -> ~ claims p -> k_names (s_kernel s) !! n = Some i -> k_objs (s_kernel s) !! i = Some o -> ob_creator o = pid ->
  seg_inv (mkSys (shm_unlink (s_kernel s) n) (s_procs s)).
Proof.
  intros Hinv Hp Hnc Hn Ho Hcr. constructor; cbn [s_kernel s_procs shm_unlink k_names k_objs k_next]; try apply Hinv.
  - intros m j Hm. apply lookup_delete_Some in Hm as [_ Hm]. by eapply (si_names _ Hinv).
  - intros q x Hq Hc. destruct (si_claim _ Hinv q x Hq Hc) as (j & oj & Hm & Hj & Hcj). exists j, oj. split; [|done].
    apply lookup_delete_Some. split; [|done]. intros E. rewrite <- E in Hm. assert (j = i) as -> by congruence. assert (oj = o) as -> by congruence.
    rewrite Hcr in Hcj. subst q. rewrite Hp in Hq. injection Hq as <-. done.
Qed.

(** Creating an object under a free name. *)
Lemma create_keeps (s : Sys) (pid : nat) (p : Proc) :
  let k := s_kernel s in
  let p' := with_fd p (Some (k_next k)) AtLock in
  seg_inv s -> s_procs s !! pid = Some p -> p_point p = AtOpen -> p_create p = true -> k_names k !! p_name p = None ->
  seg_inv (set_proc s pid (mkKernel (<[p_name p := k_next k]> (k_names k)) (<[k_next k := mkObj 0 Zeroed ∅ pid]> (k_objs k)) (S (k_next k)), p')).
Proof.
  intros k p' Hinv Hp Hpt Hc Hfree. destruct (si_proc _ Hinv pid p Hp) as (Hsz & Hown & Hfd). rewrite Hpt in Hfd.
  assert (Hnone : p_fd p = None).
  { destruct (p_fd p) as [j|]; [|done]. destruct Hfd as (o & _ & Hok). rewrite Hc in Hok. unfold creator_ok in Hok. rewrite Hpt in Hok. by destruct Hok. }
  pose proof (si_fresh _ Hinv (k_next k) (Nat.le_refl _)) as Hnew.
  destruct (fdless_others s pid p' Hinv) as [Hps Hos].
  { intros x Hx. rewrite Hp in Hx. injection Hx as <-. rewrite Hpt. done. }
  constructor; cbn [set_proc s_kernel s_procs fst snd k_next k_objs k_names].
  - intros j Hj. rewrite lookup_insert_ne by lia. apply (si_fresh _ Hinv). fold k. lia.
  - intros n j Hn. rewrite lookup_insert_is_Some'. apply lookup_insert_Some in Hn as [[_ <-]|[_ Hn]]; [by left|right]. by eapply (si_names _ Hinv).
  - intros q x Hq. destruct (decide (q = pid)) as [->|Hne].
    + rewrite lookup_insert_eq in Hq. injection Hq as <-. split; [done|]. split; [done|]. cbn. rewrite lookup_insert_eq, Hc. eexists. split; [done|]. done.
    + rewrite lookup_insert_ne in Hq by done. destruct (Hps q x Hne Hq) as (? & ? & Hf). split; [done|]. split; [done|]. destruct (p_fd x) as [j|]; [|done].
      destruct Hf as (o & Ho & Hok). exists o. split; [|done]. cbn. rewrite lookup_insert_ne; [done|]. intros <-. unfold k in *. congruence.
  - intros j oj Hj. destruct (decide (j = k_next k)) as [->|Hne]; [|rewrite lookup_insert_ne in Hj by done; by apply Hos].
    rewrite lookup_insert_eq in Hj. injection Hj as <-. split; [split; cbn; intros; simplify_map_eq|]. exists p'. cbn. rewrite lookup_insert_eq. auto.
  - intros q x Hq Hcl. destruct (decide (q = pid)) as [->|Hne].
    + rewrite lookup_insert_eq in Hq. injection Hq as <-. cbn. exists (k_next k), (mkObj 0 Zeroed ∅ pid). by rewrite !lookup_insert_eq.
    + rewrite lookup_insert_ne in Hq by done. destruct (si_claim _ Hinv q x Hq Hcl) as (j & oj & Hn & Hj & Hcj). 
      exists j, oj. rewrite !lookup_insert_ne; [done| |]; unfold k in *; congruence.
Qed.

(** Giving up a lock, or the descriptor with it. *)
Lemma unlock_keeps (s : Sys) (pid i : nat) (p p' : Proc) :
  seg_inv s -> s_procs s !! pid = Some p -> p_fd p = Some i -> p_create p' = p_create p -> p_name p' = p_name p ->
  (out_point (p_point p) = true -> out_point (p_point p') = true) -> (claims p' -> claims p) ->
  p_fd p' = Some i \/ (p_fd p' = None /\ out_point (p_point p') = true) ->
  proc_ok (funlock (s_kernel s) i pid) (<[pid := p']> (s_procs s)) pid p' -> seg_inv (set_proc s pid (funlock (s_kernel s) i pid, p')).
Proof.
  intros Hinv Hp Hfd Hc Hn Hout Hcl Hfd' Hok. destruct (si_proc _ Hinv pid p Hp) as (_ & _ & Hf). rewrite Hfd in Hf. destruct Hf as (o & Ho & _).
  unfold funlock in *. rewrite Ho in *. apply (step_keeps s pid i p p' o); auto; cbn [ob_locks ob_creator ob_size ob_content].
  - intros q Hq. by rewrite lookup_delete_ne.
  - rewrite lookup_delete_eq. destruct Hfd' as [?|[? ?]]; auto.
  - intros e He. by rewrite lookup_delete_eq in He.
Qed.

(** The object of a process with a descriptor. *)
Lemma proc_obj (s : Sys) (pid i : nat) (p : Proc) :
  seg_inv s -> s_procs s !! pid = Some p -> p_fd p = Some i ->
  exists o, k_objs (s_kernel s) !! i = Some o /\ (if p_create p then creator_ok pid p o else opener_ok (s_procs s) pid p o) /\ 0 < p_size p /\
    (p_owner p = true -> p_create p = true).
Proof. intros Hinv Hp Hfd. destruct (si_proc _ Hinv pid p Hp) as (? & ? & Hf). rewrite Hfd in Hf. destruct Hf as (o & ? & ?). eauto. Qed.

Lemma flock_keeps (s : Sys) (pid i : nat) (p : Proc) (k : Kernel) :
  seg_inv s -> s_procs s !! pid = Some p -> p_fd p = Some i -> p_point p = AtLock -> flock (s_kernel s) i pid (p_create p) = Some k ->
  seg_inv (set_proc s pid (k, at_point p AtStat)).
Proof.
  intros Hinv Hp Hfd Hpt Hf. destruct (proc_obj s pid i p Hinv Hp Hfd) as (o & Ho & Hok & Hsz & Hown).
  unfold flock in Hf. rewrite Ho in Hf. destruct (compatible _ _ _) eqn:Hcomp; [|done]. injection Hf as <-.
  apply (step_keeps s pid i p _ o); auto; cbn [ob_locks ob_creator ob_size ob_content].
  - intros q Hq. by rewrite lookup_insert_ne.
  - cbn. by rewrite Hpt.
  - intros e He. rewrite lookup_insert_eq in He. injection He as <-. split; [done|]. intros q e' Hq Hq'. unfold compatible in Hcomp.
    assert (Hd : delete pid (ob_locks o) !! q = Some e') by (by rewrite lookup_delete_ne).
    destruct (p_create p); apply bool_decide_eq_true in Hcomp; [by rewrite Hcomp, lookup_empty in Hd|]. split; [done|]. by specialize (Hcomp _ _ Hd).
  - unfold claims. cbn. rewrite Hpt. tauto.
  - split; [done|]. split; [done|]. cbn. rewrite Hfd, lookup_insert_eq. eexists. split; [done|]. destruct (p_create p).
    + unfold creator_ok in *. rewrite Hpt in Hok. cbn. rewrite lookup_insert_eq. tauto.
    + unfold opener_ok. cbn. by rewrite lookup_insert_eq.
Qed.

(** The creator's stores to the object. *)
Lemma creator_keeps (s : Sys) (pid i : nat) (p : Proc) (pt : point) (o o' : Obj) :
  seg_inv s -> s_procs s !! pid = Some p -> p_fd p = Some i -> k_objs (s_kernel s) !! i = Some o -> p_create p = true ->
  out_point (p_point p) = false -> ob_content o <> Initialised -> ob_creator o' = ob_creator o -> ob_locks o' = ob_locks o ->
  (claims (at_point p pt) -> claims p) -> creator_ok pid (at_point p pt) o' ->
  seg_inv (set_proc s pid (put_obj (s_kernel s) i o', at_point p pt)).
Proof.
  intros Hinv Hp Hfd Ho Hc Hno Hni Hcr Hlk Hcl Hok. destruct (proc_obj s pid i p Hinv Hp Hfd) as (o1 & Ho1 & Hok1 & Hsz & Hown).
  assert (o1 = o) as -> by congruence. rewrite Hc in Hok1. apply (step_keeps s pid i p _ o); auto.
  - intros q _. by rewrite Hlk.
  - right. destruct Hok1 as [? _]. done.
  - by rewrite Hno.
  - intros e He. rewrite Hlk in He. by apply (lock_held s pid i p o).
  - split; [done|]. split; [done|]. cbn. rewrite Hfd, lookup_insert_eq, Hc. eauto.
Qed.

(** A move of a process with a descriptor: what is left is the new point's claim. *)
Lemma move_to (s : Sys) (pid i : nat) (p : Proc) (o : Obj) (mapped owner : bool) (pt : point) :
  let p' := with_members p mapped owner pt in
  seg_inv s -> s_procs s !! pid = Some p -> p_fd p = Some i -> k_objs (s_kernel s) !! i = Some o ->
  (out_point (p_point p) = true -> out_point pt = true) -> (claims p' -> claims p) -> (owner = true -> p_create p = true) ->
  (if p_create p then creator_ok pid p' o else opener_ok (<[pid := p']> (s_procs s)) pid p' o) ->
  seg_inv (set_proc s pid (s_kernel s, p')).
Proof.
  intros p' Hinv Hp Hfd Ho Hout Hcl Hown Hok. destruct (proc_obj s pid i p Hinv Hp Hfd) as (_ & _ & _ & Hsz & _).
  eapply (move_keeps s pid i p p' o); try done. split; [done|]. split; [done|]. cbn. rewrite Hfd. eauto.
Qed.

Lemma at_point_members (p : Proc) (pt : point) : at_point p pt = with_members p (p_mapped p) (p_owner p) pt.
Proof. done. Qed.

(** What happens to an opener at its size check: the creator is not in the middle of its work. *)
Lemma opener_let_in (s : Sys) (pid i : nat) (p : Proc) (o : Obj) :
  seg_inv s -> s_procs s !! pid = Some p -> p_fd p = Some i -> k_objs (s_kernel s) !! i = Some o -> p_create p = false ->
  ob_locks o !! pid = Some false -> ob_size o <> 0 -> ob_content o = Initialised \/ out (s_procs s) (ob_creator o).
Proof.
  intros Hinv Hp Hfd Ho Hc Hl Hsz. destruct (si_obj _ Hinv i o Ho) as [[_ Hx] (c & Hcp & Hcc & Hcf)].
  destruct (out_point (p_point c)) eqn:Eo; [right; by exists c|]. destruct Hcf as [Hcf|?]; [|congruence].
  destruct (proc_obj s _ i c Hinv Hcp Hcf) as (o1 & Ho1 & Hok & _). assert (o1 = o) as -> by congruence. rewrite Hcc in Hok. destruct Hok as [_ Hok].
  assert (Hno : ob_locks o !! ob_creator o <> Some true).
  { intros Ht. specialize (Hx _ pid false Ht Hl). subst pid. congruence. }
  destruct (p_point c); try done; intuition congruence.
Qed.

Lemma at_open_fd (s : Sys) (pid : nat) (p : Proc) : seg_inv s -> s_procs s !! pid = Some p -> p_point p = AtOpen -> p_fd p = None.
Proof.
  intros Hinv Hp Hpt. destruct (p_fd p) as [i|] eqn:Hfd; [|done]. destruct (proc_obj s pid i p Hinv Hp Hfd) as (o & _ & Hok & _).
  unfold creator_ok, opener_ok in Hok. rewrite Hpt in Hok. destruct (p_create p); [by destruct Hok|done].
Qed.

(** A process without a descriptor moves to a point that needs none. *)
Lemma fdless_move (s : Sys) (pid : nat) (p : Proc) (pt : point) :
  seg_inv s -> s_procs s !! pid = Some p -> p_fd p = None -> (out_point (p_point p) = true -> out_point pt = true) ->
  match pt with AtOpen | Failed | Gone | Killed => True | _ => False end -> seg_inv (set_proc s pid (s_kernel s, at_point p pt)).
Proof.
  intros Hinv Hp Hfd Hout Hpt. destruct (si_proc _ Hinv pid p Hp) as (Hsz & Hown & _). apply fdless_keeps; [done| | |].
  - intros x Hx. rewrite Hp in Hx. injection Hx as <-. done.
  - intros Hc. exists p. split; [done|]. split; [|done]. unfold claims in *. cbn in Hc. destruct Hc as [Hc [Ho|Ho]]; [tauto|]. by destruct pt.
  - split; [done|]. split; [done|]. cbn. rewrite Hfd. by destruct pt.
Qed.

Lemma open_retry_keeps (s : Sys) (pid : nat) (p : Proc) (e : errno) (late : bool) :
  seg_inv s -> s_procs s !! pid = Some p -> p_point p = AtOpen -> seg_inv (set_proc s pid (s_kernel s, open_retry p e late)).
Proof.
  intros Hinv Hp Hpt. pose proof (at_open_fd s pid p Hinv Hp Hpt) as Hfd. unfold open_retry. destruct (_ || _).
  - by apply fdless_move.
  - replace p with (at_point p AtOpen) by (destruct p; cbn in *; by subst). apply fdless_move; try done. by rewrite Hpt.
Qed.

Lemma shm_open_keeps (s : Sys) (pid i : nat) (p : Proc) (k : Kernel) :
  seg_inv s -> s_procs s !! pid = Some p -> p_point p = AtOpen -> shm_open (s_kernel s) pid (p_name p) (p_create p) = inr (i, k) ->
  seg_inv (set_proc s pid (k, with_fd p (Some i) AtLock)).
Proof.
  intros Hinv Hp Hpt Ho. pose proof (at_open_fd s pid p Hinv Hp Hpt) as Hfd. unfold shm_open in Ho.
  destruct (k_names (s_kernel s) !! p_name p) as [j|] eqn:Hn; destruct (p_create p) eqn:Hc; try done; injection Ho as <- <-.
  - destruct (si_proc _ Hinv pid p Hp) as (Hsz & Hown & _). destruct (si_names _ Hinv _ _ Hn) as [o Ho]. apply fdless_keeps; [done| | |].
    + intros x Hx. rewrite Hp in Hx. injection Hx as <-. by rewrite Hpt.
    + intros [Hcl _]. cbn in Hcl. congruence.
    + split; [done|]. split; [done|]. cbn. exists o. split; [done|]. by rewrite Hc.
  - by apply create_keeps.
Qed.

(** The claim of an unchanged point, and the claims of the points around it. *)
Ltac claim_tac := unfold claims; cbn; try tauto; repeat match goal with H : p_point _ = _ |- _ => rewrite H end; cbn; try tauto; intuition congruence.

Lemma open_step_keeps (s : Sys) (pid : nat) (p : Proc) (err : option errno) (late : bool) (kp : Kernel * Proc) :
  seg_inv s -> s_procs s !! pid = Some p -> open_step (s_kernel s) pid p err late = Some kp -> seg_inv (set_proc s pid kp).
Proof.
  intros Hinv Hp Hs. unfold open_step in Hs. destruct (p_point p) eqn:Hpt; try discriminate.
  1: { destruct err; [injection Hs as <-; by apply open_retry_keeps|]. destruct (shm_open _ _ _ _) as [e|[i k]] eqn:Eo; injection Hs as <-;
         [by apply open_retry_keeps|by apply shm_open_keeps]. }
  all: destruct (p_fd p) as [i|] eqn:Hfd; try discriminate.
  all: try destruct (proc_obj s pid i p Hinv Hp Hfd) as (o & Ho & Hok & Hsz & Hown).
  all: try (assert (Hclose : seg_inv (set_proc s pid (s_kernel s, at_point p AtClose)))
    by (rewrite at_point_members; apply (move_to s pid i p o); auto; [claim_tac|destruct (p_create p); [split; [apply Hok|done]|done]])).
  - (* AtLock *)
    assert (Hretry : seg_inv (set_proc s pid (s_kernel s, lock_retry p late))).
    { unfold lock_retry. destruct late; [done|]. rewrite at_point_members. apply (move_to s pid i p o); auto; [by rewrite Hpt|claim_tac|].
      destruct (p_create p); [|done]. unfold creator_ok in *. by rewrite Hpt in Hok. }
    destruct err as [e|]; [injection Hs as <-; by destruct (bool_decide _)|].
    destruct (flock _ _ _ _) eqn:Hf; injection Hs as <-; [by apply (flock_keeps s pid i)|done].
  - (* AtStat *)
    rewrite Ho in Hs. destruct err; [by injection Hs as <-|]. unfold creator_ok, opener_ok in Hok. rewrite Hpt in Hok.
    destruct (p_create p) eqn:Hc; cbn [orb negb andb] in Hs.
    + injection Hs as <-. rewrite at_point_members. apply (move_to s pid i p o); [done|done|done|done|by rewrite Hpt|claim_tac|by rewrite Hc|]. rewrite Hc. exact Hok.
    + destruct (Z.eqb_spec (ob_size o) 0) as [Hz|Hnz]; cbn [negb] in Hs.
      * injection Hs as <-. rewrite at_point_members. apply (move_to s pid i p o); [done|done|done|done|by rewrite Hpt|claim_tac|by rewrite Hc|]. rewrite Hc. exact Hok.
      * destruct (Z.eqb_spec (ob_size o) (p_size p)) as [Hq|Hq]; cbn [negb] in Hs; injection Hs as <-; [|done].
        rewrite at_point_members. apply (move_to s pid i p o); [done|done|done|done|by rewrite Hpt|claim_tac|by rewrite Hc|]. rewrite Hc. split; [done|].
        destruct (opener_let_in s pid i p o Hinv Hp Hfd Ho Hc Hok Hnz) as [?|Hq']; [by left|right]. eapply out_mono; [exact Hp| |exact Hq'].
        by rewrite Hpt.
  - (* AtDrop *)
    injection Hs as <-. unfold creator_ok, opener_ok in Hok. rewrite Hpt in Hok. destruct (p_create p) eqn:Hc; [by destruct Hok|].
    unfold lock_retry. destruct late;
      (apply (unlock_keeps s pid i p); [done|done|done|done|done|by rewrite Hpt|intros [? _]; cbn in *; congruence|by left|]);
      unfold funlock; rewrite Ho; (split; [done|]); (split; [cbn; by rewrite Hc|]); cbn; rewrite Hfd, lookup_insert_eq; eexists; (split; [done|]); by rewrite Hc.
  - (* AtTruncate *)
    destruct err; injection Hs as <-; [done|]. unfold creator_ok, opener_ok in Hok. rewrite Hpt in Hok. destruct (p_create p) eqn:Hc; [|done].
    destruct Hok as (Hcr & Hs0 & Hz & Hl). unfold ftruncate. rewrite Ho.
    apply (creator_keeps s pid i p AtMap o); auto; [by rewrite Hpt|congruence|claim_tac|]. done.
  - (* AtMap *)
    destruct err; [by injection Hs as <-|]. unfold creator_ok, opener_ok in Hok. rewrite Hpt in Hok.
    destruct (p_create p) eqn:Hc; injection Hs as <-; (apply (move_to s pid i p o); [done|done|done|done|by rewrite Hpt|claim_tac|by rewrite Hc|]); rewrite Hc; [exact Hok|].
    destruct Hok as [? [?|Hq]]; (split; [done|]); [by left|right]. eapply out_mono; [exact Hp| |exact Hq]. by rewrite Hpt.
  - (* AtRelease *)
    injection Hs as <-. unfold creator_ok, opener_ok in Hok. rewrite Hpt in Hok. destruct (p_create p) eqn:Hc; [by destruct Hok|].
    apply (unlock_keeps s pid i p); [done|done|done|done|done|by rewrite Hpt|intros [? _]; cbn in *; congruence|by left|].
    unfold funlock. rewrite Ho. split; [done|]. split; [cbn; by rewrite Hc|]. cbn. rewrite Hfd, lookup_insert_eq. eexists. split; [done|]. rewrite Hc.
    destruct Hok as [? [?|Hq]]; (split; [done|]); [by left|right]. eapply out_mono; [exact Hp| |exact Hq]. by rewrite Hpt.
  - (* AtClose *)
    injection Hs as <-. apply (unlock_keeps s pid i p); [done|done|done|done|done|by destruct (p_create p)|unfold claims; cbn; rewrite Hpt; tauto|right; by destruct (p_create p)|].
    split; [done|]. split; [done|]. cbn. by destruct (p_create p).
  - (* AtClose without a descriptor *)
    exfalso. destruct (si_proc _ Hinv pid p Hp) as (_ & _ & Hf). by rewrite Hfd, Hpt in Hf.
  - (* AtUnlink *)
    exfalso. unfold creator_ok, opener_ok in Hok. rewrite Hpt in Hok. by destruct (p_create p); [destruct Hok|].
  - injection Hs as <-. destruct (si_proc _ Hinv pid p Hp) as (Hsz & Hown & Hf). rewrite Hfd, Hpt in Hf.
    set (p' := with_members p false false Failed).
    assert (H1 : seg_inv (set_proc s pid (s_kernel s, p'))).
    { apply fdless_keeps; [done| | |by split_and!; [..|cbn; rewrite Hfd]].
      - intros x Hx. rewrite Hp in Hx. injection Hx as <-. done.
      - intros [_ [Hcl|Hcl]]; done. }
    destruct (si_claim _ Hinv pid p Hp) as (j & oj & Hn & Hj & Hcj); [split; [done|]; rewrite Hpt; by right|].
    apply (unlink_keeps _ pid p' (p_name p) j oj H1); cbn; [by rewrite lookup_insert_eq|intros [_ [Hcl|Hcl]]; done|done|done|done].
Qed.

(** [unlink()] and the destructor. *)
Lemma unlink_step_keeps (s : Sys) (pid : nat) (p : Proc) (pt : point) :
  seg_inv s -> s_procs s !! pid = Some p ->
  match p_point p with Opened | Attaching | Attached | Ready => True | _ => False end -> pt = p_point p /\ p_point p = Ready \/ pt = AtUnmap ->
  seg_inv (set_proc s pid (fst (unlink (s_kernel s) p), at_point (snd (unlink (s_kernel s) p)) pt)).
Proof.
  intros Hinv Hp Hpt Hto. destruct (p_fd p) as [i|] eqn:Hfd.
  2: { destruct (si_proc _ Hinv pid p Hp) as (_ & _ & Hf). rewrite Hfd in Hf. by destruct (p_point p). }
  destruct (proc_obj s pid i p Hinv Hp Hfd) as (o & Ho & Hok & Hsz & Hown).
  assert (H1 : seg_inv (set_proc s pid (s_kernel s, with_members p (p_mapped p) false pt))).
  { apply (move_to s pid i p o); [done|done|done|done| |intros [_ [Hcl|Hcl]]; [done|]|done|].
    - intros Hout. by destruct (p_point p).
    - cbn in Hcl. destruct Hto as [[-> E]| ->]; [by rewrite E in Hcl|done].
    - destruct Hto as [[-> E]| ->]; [|by destruct (p_create p); [split; [apply Hok|]|]]. unfold creator_ok, opener_ok in *. cbn. rewrite E in *. by destruct (p_create p). }
  unfold unlink. destruct (p_owner p) eqn:Eo; cbn [fst snd]; [|by rewrite at_point_members, Eo].
  destruct (si_claim _ Hinv pid p Hp) as (j & oj & Hn & Hj & Hcj); [split; [by apply Hown|by left]|].
  apply (unlink_keeps _ pid (with_members p (p_mapped p) false pt) (p_name p) j oj H1); cbn; try done; [by rewrite lookup_insert_eq|].
  intros [_ [Hcl|Hcl]]; [done|]. cbn in Hcl. destruct Hto as [[-> E]| ->]; [by rewrite E in Hcl|done].
Qed.

Lemma destroy_step_keeps (s : Sys) (pid : nat) (p : Proc) (kp : Kernel * Proc) :
  seg_inv s -> s_procs s !! pid = Some p -> destroy_step (s_kernel s) pid p = Some kp -> seg_inv (set_proc s pid kp).
Proof.
  intros Hinv Hp Hs. unfold destroy_step in Hs. destruct (p_point p) eqn:Hpt; try discriminate.
  1-4: pose proof (unlink_step_keeps s pid p AtUnmap Hinv Hp ltac:(by rewrite Hpt) (or_intror eq_refl)) as Hk;
    destruct (unlink (s_kernel s) p); by injection Hs as <-.
  all: destruct (p_fd p) as [i|] eqn:Hfd; [|destruct (si_proc _ Hinv pid p Hp) as (_ & _ & Hf); by rewrite Hfd, Hpt in Hf].
  all: destruct (proc_obj s pid i p Hinv Hp Hfd) as (o & Ho & Hok & Hsz & Hown); injection Hs as <-.
  - apply (move_to s pid i p o); [done|done|done|done|done|claim_tac|done|]. by destruct (p_create p); [split; [apply Hok|]|].
  - apply (unlock_keeps s pid i p); [done|done|done|done|done|done|claim_tac|by right|]. by split_and!.
Qed.

(** Dying closes the descriptor, which drops the lock; the name stays. *)
Lemma kill_keeps (s : Sys) (pid : nat) (p : Proc) :
  seg_inv s -> s_procs s !! pid = Some p -> seg_inv (set_proc s pid (close_fd (s_kernel s) (p_fd p) pid, with_fd p None Killed)).
Proof.
  intros Hinv Hp. destruct (si_proc _ Hinv pid p Hp) as (Hsz & Hown & _).
  assert (Hcl : claims (with_fd p None Killed) -> claims p) by claim_tac. destruct (p_fd p) as [i|] eqn:Hfd; cbn [close_fd].
  - apply (unlock_keeps s pid i p); [done|done|done|done|done|done|done|by right|by split_and!].
  - apply fdless_keeps; [done| | |by split_and!].
    + intros x Hx. rewrite Hp in Hx. injection Hx as <-. done.
    + intros Hc. exists p. auto.
Qed.

Lemma attach_keeps (s : Sys) (pid i : nat) (p : Proc) :
  seg_inv s -> s_procs s !! pid = Some p -> p_fd p = Some i ->
  (p_point p = Opened -> p_create p = true -> seg_inv (set_proc s pid (store (s_kernel s) i Partial, at_point p Attaching))) /\
  (p_point p = Attaching -> seg_inv (set_proc s pid (store (s_kernel s) i Initialised, at_point p Attached))).
Proof.
  intros Hinv Hp Hfd. destruct (proc_obj s pid i p Hinv Hp Hfd) as (o & Ho & Hok & Hsz & Hown). unfold store. rewrite Ho.
  unfold creator_ok, opener_ok in Hok. split; intros Hpt.
  - intros Hc. rewrite Hc, Hpt in Hok. destruct Hok as (? & ? & ? & ?).
    apply (creator_keeps s pid i p Attaching o); try done; [by rewrite Hpt|congruence|claim_tac].
  - rewrite Hpt in Hok. destruct (p_create p) eqn:Hc; [|done]. destruct Hok as (? & ? & ? & ?).
    apply (creator_keeps s pid i p Attached o); try done; [by rewrite Hpt|congruence|claim_tac].
Qed.

Lemma ready_keeps (s : Sys) (pid : nat) (p : Proc) :
  seg_inv s -> s_procs s !! pid = Some p -> p_point p = Attached -> seg_inv (set_proc s pid (ready (s_kernel s) pid p)).
Proof.
  intros Hinv Hp Hpt. destruct (p_fd p) as [i|] eqn:Hfd; [|destruct (si_proc _ Hinv pid p Hp) as (_ & _ & Hf); by rewrite Hfd, Hpt in Hf].
  destruct (proc_obj s pid i p Hinv Hp Hfd) as (o & Ho & Hok & Hsz & Hown).
  unfold creator_ok, opener_ok in Hok. rewrite Hpt in Hok. destruct (p_create p) eqn:Hc; [|done]. destruct Hok as (? & ? & ? & ?).
  unfold ready. destruct (p_owner p) eqn:Eo; rewrite ?Hfd; cbn [close_fd].
  - apply (unlock_keeps s pid i p); try done; [by rewrite Hpt|claim_tac|by left|].
    unfold funlock. rewrite Ho. split; [done|]. split; [cbn; by rewrite Hc|]. cbn. rewrite Hfd, lookup_insert_eq, Hc. by eexists.
  - rewrite at_point_members. apply (move_to s pid i p o); [done|done|done|done|by rewrite Hpt|claim_tac|by rewrite Hc|by rewrite Hc].
Qed.

Lemma sstep_keeps (s s' : Sys) : seg_inv s -> sstep s s' -> seg_inv s'.
Proof.
  intros Hinv Hst. revert Hinv. destruct Hst as [s0 pid name size create Hnone Hsz|s0 pid p err late kp Hp Hs|s0 pid p i Hp Hpt Hc Hfd|s0 pid p i Hp Hpt Hfd|s0 pid p Hp Hpt|s0 pid p Hp Hpt|s0 pid p kp Hp Hs|s0 pid p Hp]; intros Hinv.
  - apply fdless_keeps; [done|intros x Hx; congruence|intros [_ [?|?]]; done|by split_and!].
  - by eapply open_step_keeps.
  - by apply (attach_keeps s0 pid i p).
  - by apply (attach_keeps s0 pid i p).
  - by apply ready_keeps.
  - pose proof (unlink_step_keeps s0 pid p Ready Hinv Hp) as Hk. rewrite Hpt in Hk. specialize (Hk I (or_introl (conj eq_refl eq_refl))).
    replace (unlink (s_kernel s0) p) with (fst (unlink (s_kernel s0) p), at_point (snd (unlink (s_kernel s0) p)) Ready); [done|].
    unfold unlink. destruct p as [n sz cr pt fd mp ow]. cbn in *. subst pt. by destruct ow.
  - by eapply destroy_step_keeps.
  - by apply kill_keeps.
Qed.

Lemma reachable_inv (s : Sys) : reachable s -> seg_inv s.
Proof.
  intros Hr. assert (forall a b, rtc sstep a b -> seg_inv a -> seg_inv b) as Hrtc.
  { induction 1; [done|]. eauto using sstep_keeps. }
  eapply Hrtc; [exact Hr|apply seg_inv_init].
Qed.

(** ** What the invariant means *)

(** An opener that has passed the size check maps a whole ring. *)
Lemma opened_ring (s : Sys) (pid i : nat) (p : Proc) :
  reachable s -> s_procs s !! pid = Some p -> p_create p = false -> p_point p = Opened -> p_fd p = Some i ->
  exists o c, k_objs (s_kernel s) !! i = Some o /\ ob_size o = p_size p /\ s_procs s !! ob_creator o = Some c /\
    p_create c = true /\ (ob_content o = Initialised \/ out_point (p_point c) = true).
Proof.
  intros Hr Hp Hc Hpt Hfd. pose proof (reachable_inv s Hr) as Hinv. destruct (proc_obj s pid i p Hinv Hp Hfd) as (o & Ho & Hok & _).
  rewrite Hc in Hok. unfold opener_ok in Hok. rewrite Hpt in Hok. destruct Hok as [Hsz Hi]. destruct (si_obj _ Hinv i o Ho) as [_ (c & Hcp & Hcc & _)].
  exists o, c. split_and!; try done. destruct Hi as [?|(c' & Hc' & Ho')]; [by left|right; congruence].
Qed.

Lemma owners_unique (s : Sys) (pid q : nat) (p x : Proc) :
  reachable s -> s_procs s !! pid = Some p -> s_procs s !! q = Some x -> p_owner p = true -> p_owner x = true -> p_name p = p_name x -> pid = q.
Proof.
  intros Hr Hp Hx Hop Hox En. pose proof (reachable_inv s Hr) as Hinv.
  destruct (si_proc _ Hinv _ _ Hp) as (_ & Hcp & _). destruct (si_proc _ Hinv _ _ Hx) as (_ & Hcx & _).
  destruct (si_claim _ Hinv _ _ Hp) as (i & o & Hn & Ho & <-); [split; [by apply Hcp|by left]|].
  destruct (si_claim _ Hinv _ _ Hx) as (j & o' & Hn' & Ho' & <-); [split; [by apply Hcx|by left]|].
  rewrite En in Hn. congruence.
Qed.

(** ** Moving a [Segment]

    [Segment::open] returns by value and the sender moves its echo segment into
    a [std::optional]: the members and the system calls of the destructor. *)
Record Members := mkMembers { sg_name : Name; sg_fd : option nat; sg_base : option nat; sg_size : Z; sg_owner : bool }.
Inductive syscall := ShmUnlink (name : Name) | Munmap (base : nat) (size : Z) | CloseFd (fd : nat).

(** [Segment(Segment&& o)]: the new object and what is left in [o]; [rest] is
    the unspecified value of a moved-from string. *)
Definition move_segment (rest : Name) (o : Members) : Members * Members :=
  (mkMembers (sg_name o) (sg_fd o) (sg_base o) (sg_size o) (sg_owner o), mkMembers rest None None (sg_size o) false).

(** [unlink()] and [~Segment] on the members. *)
Definition unlink_calls (o : Members) : list syscall * Members :=
  if sg_owner o then ([ShmUnlink (sg_name o)], mkMembers (sg_name o) (sg_fd o) (sg_base o) (sg_size o) false) else ([], o).
Definition destructor_calls (o : Members) : list syscall :=
  let '(calls, o) := unlink_calls o in
  calls ++ match sg_base o with Some b => [Munmap b (sg_size o)] | None => [] end ++ match sg_fd o with Some fd => [CloseFd fd] | None => [] end.

(** A moved-from segment is inert: the two destructors together make the
    system calls of the one object, each once, also after [unlink()]. *)
Lemma moved_segment_released_once (rest : Name) (o : Members) :
  let '(a, b) := move_segment rest o in destructor_calls a ++ destructor_calls b = destructor_calls o /\
    fst (unlink_calls a) ++ destructor_calls (snd (unlink_calls a)) ++ destructor_calls b = destructor_calls o.
Proof. destruct o as [n [fd|] [b|] sz []]; done. Qed.

(** ** Running a schedule *)
Inductive action :=
| AStart (pid : nat) (name : Name) (size : Z) (create : bool)
| AOpen (pid : nat) (err : option errno) (late : bool)
| AAttachBegin (pid : nat) | AAttachEnd (pid : nat) | AReady (pid : nat) | AUnlink (pid : nat) | ADestroy (pid : nat) | AKill (pid : nat).

Definition exec (s : Sys) (a : action) : option Sys :=
  let k := s_kernel s in
  match a with
  | AStart pid name size create =>
      match s_procs s !! pid with
      | None => if 0 <? size then Some (set_proc s pid (k, mkProc name size create AtOpen None false false)) else None
      | Some _ => None
      end
  | AOpen pid err late => p ← s_procs s !! pid; kp ← open_step k pid p err late; Some (set_proc s pid kp)
  | AAttachBegin pid =>
      p ← s_procs s !! pid; i ← p_fd p;
      if decide (p_point p = Opened) then if p_create p then Some (set_proc s pid (store k i Partial, at_point p Attaching)) else None else None
  | AAttachEnd pid =>
      p ← s_procs s !! pid; i ← p_fd p;
      if decide (p_point p = Attaching) then Some (set_proc s pid (store k i Initialised, at_point p Attached)) else None
  | AReady pid => p ← s_procs s !! pid; if decide (p_point p = Attached) then Some (set_proc s pid (ready k pid p)) else None
  | AUnlink pid => p ← s_procs s !! pid; if decide (p_point p = Ready) then Some (set_proc s pid (unlink k p)) else None
  | ADestroy pid => p ← s_procs s !! pid; kp ← destroy_step k pid p; Some (set_proc s pid kp)
  | AKill pid => p ← s_procs s !! pid; Some (set_proc s pid (close_fd k (p_fd p) pid, with_fd p None Killed))
  end.

Fixpoint run_schedule (s : Sys) (acts : list action) : option Sys :=
  match acts with [] => Some s | a :: acts' => s ← exec s a; run_schedule s acts' end.

Lemma exec_sound (s s' : Sys) (a : action) : exec s a = Some s' -> sstep s s'.
Proof.
  intros He. destruct a; cbn in He; repeat (case_match || simplify_option_eq); try discriminate; zbool.
  all: first [by eapply S_start|by eapply S_open|by eapply S_attach_begin|by eapply S_attach_end|by eapply S_ready|by eapply S_unlink|by eapply S_destroy|by eapply S_kill].
Qed.

Lemma run_reachable (s s' : Sys) (acts : list action) : run_schedule s acts = Some s' -> rtc sstep s s'.
Proof.
  revert s. induction acts as [|a acts IH]; intros s Hr; [injection Hr as ->; done|].
  cbn in Hr. destruct (exec s a) as [s1|] eqn:E; [|done]. cbn in Hr. econstructor; [by eapply exec_sound|by apply IH].
Qed.
End Segment.

(** ** Properties *)

(** C18: A process that opened an existing segment maps an object of
    exactly the size it asked for, holding a completely initialised ring: in
    every interleaving, with any system call failing and any deadline passing,
    it cannot slip in between the creation of the object, the truncation and the
    end of the initialisation.  The one exception the code admits is a creator
    that was killed or gave up on the way. *)
Theorem segment_open_means_initialised {Name : Type} `{Countable Name} (s : Sys (Name:=Name)) (pid i : nat) (p : Proc (Name:=Name)) :
  reachable s -> s_procs s !! pid = Some p -> p_create p = false -> p_point p = Opened -> p_fd p = Some i ->
  exists o c, k_objs (s_kernel s) !! i = Some o /\ ob_size o = p_size p /\ s_procs s !! ob_creator o = Some c /\
    p_create c = true /\ (ob_content o = Initialised \/ out_point (p_point c) = true).
Proof. apply opened_ring. Qed.

(** C34: At most one process owns a name, and whenever a process is about
    to unlink its name, in [unlink()], in the destructor or in the catch block of
    [open], the name still refers to the object that process created: no process
    ever removes another one's segment. *)
Theorem segment_unlinks_its_own {Name : Type} `{Countable Name} (s : Sys (Name:=Name)) (pid : nat) (p : Proc (Name:=Name)) :
  reachable s -> s_procs s !! pid = Some p -> p_owner p = true \/ p_point p = AtUnlink ->
  (exists i o, k_names (s_kernel s) !! p_name p = Some i /\ k_objs (s_kernel s) !! i = Some o /\ ob_creator o = pid) /\
  (forall q x, s_procs s !! q = Some x -> p_owner x = true -> p_name x = p_name p -> q = pid).
Proof.
  intros Hr Hp Hu. pose proof (reachable_inv s Hr) as Hinv. destruct (si_proc _ Hinv _ _ Hp) as (_ & Hcp & Hf).
  assert (Hcl : claims p).
  { destruct Hu as [Ho|Hpt]; [split; [by apply Hcp|by left]|]. rewrite Hpt in Hf. destruct (p_fd p) as [i|]; [|split; [done|right; by rewrite Hpt]].
    destruct Hf as (o & _ & Hok). unfold creator_ok, opener_ok in Hok. rewrite Hpt in Hok. by destruct (p_create p); [destruct Hok|]. }
  pose proof (si_claim _ Hinv _ _ Hp Hcl) as (i & o & Hn & Ho & Hcr). split; [eauto|]. intros q x Hx Hox En.
  destruct (si_proc _ Hinv _ _ Hx) as (_ & Hcx & _). destruct (si_claim _ Hinv _ _ Hx) as (j & o' & Hn' & Ho' & Hcr'); [split; [by apply Hcx|by left]|].
  rewrite En in Hn'. congruence.
Qed.

(** Process 1 creates, process 2 opens early, finds size 0, retries, and gets the ring once it is ready. *)
Definition demo_schedule : list (action (Name:=nat)) :=
  [AStart 1 7%nat 4096 true; AStart 2 7%nat 4096 false; AOpen 2 None false; AOpen 1 None false; AOpen 2 None false; AOpen 2 None false;
   AOpen 1 None false; AOpen 2 None false; AOpen 2 None false; AOpen 1 None false; AOpen 2 None false; AOpen 1 None false; AOpen 1 None false;
   AOpen 2 None false; AOpen 1 None false; AAttachBegin 1; AOpen 2 None false; AAttachEnd 1; AReady 1;
   AOpen 2 None false; AOpen 2 None false; AOpen 2 None false; AOpen 2 None false].
(** The creator dies in the middle of [Ring::attach]. *)
Definition demo_crash : list (action (Name:=nat)) :=
  [AStart 1 7%nat 4096 true; AOpen 1 None false; AOpen 1 None false; AOpen 1 None false; AOpen 1 None false; AOpen 1 None false; AAttachBegin 1;
   AKill 1; AStart 2 7%nat 4096 false; AOpen 2 None false; AOpen 2 None false; AOpen 2 None false; AOpen 2 None false; AOpen 2 None false].

Definition view (r : option (Sys (Name:=nat))) : option (option (point * option nat * bool) * option (point * bool) * option content) :=
  s ← r; Some ((fun p => (p_point p, p_fd p, p_create p)) <$> s_procs s !! 2%nat, (fun p => (p_point p, p_owner p)) <$> s_procs s !! 1%nat, ob_content <$> k_objs (s_kernel s) !! 0%nat).

Lemma view_inv (r : option (Sys (Name:=nat))) (a : point * option nat * bool) (b : point * bool) (c : content) :
  view r = Some (Some a, Some b, Some c) ->
  exists s p1 p2 o, r = Some s /\ s_procs s !! 1%nat = Some p1 /\ s_procs s !! 2%nat = Some p2 /\ k_objs (s_kernel s) !! 0%nat = Some o /\
    (p_point p2, p_fd p2, p_create p2) = a /\ (p_point p1, p_owner p1) = b /\ ob_content o = c.
Proof.
  destruct r as [s|]; [|done]. cbn. destruct (s_procs s !! 2%nat) eqn:E2, (s_procs s !! 1%nat) eqn:E1, (k_objs (s_kernel s) !! 0%nat) eqn:E0; try done.
  cbn. intros [= <- <- <-]. eexists _, _, _, _. split_and!; [done..].
Qed.

(** C40: The exception is real: the initialisation lock dies with its owner,
    so a creator killed inside [Ring::attach] leaves a segment of the right size
    whose ring is half written, and a process that opens it is let in. *)
Theorem segment_crash_exposes_partial_ring :
  exists (s : Sys (Name:=nat)) p i o, reachable s /\ s_procs s !! 2%nat = Some p /\ p_create p = false /\ p_point p = Opened /\ p_fd p = Some i /\
    k_objs (s_kernel s) !! i = Some o /\ ob_content o = Partial.
Proof.
  destruct (view_inv (run_schedule sys_init demo_crash) (Opened, Some 0%nat, false) (Killed, true) Partial) as (s & p1 & p2 & o & Hr & _ & H2 & Ho & Ev & _ & Hc);
    [vm_compute; reflexivity|]. injection Ev as Hpt Hfd Hcr. exists s, p2, 0%nat, o. split_and!; [exact (run_reachable _ _ _ Hr)|done..].
Qed.

(** ** Witnesses *)
Lemma demo_schedule_view : view (run_schedule sys_init demo_schedule) = Some (Some (Opened, Some 0%nat, false), Some (Ready, true), Some Initialised).
Proof. vm_compute. reflexivity. Qed.

Lemma segment_open_means_initialised_witness :
  exists (s : Sys (Name:=nat)) p i o, reachable s /\ s_procs s !! 2%nat = Some p /\ k_objs (s_kernel s) !! i = Some o /\ ob_size o = p_size p /\ ob_content o = Initialised.
Proof.
  destruct (view_inv _ _ _ _ demo_schedule_view) as (s & p1 & p2 & o & Hr & _ & H2 & Ho & Ev & _ & Hc). injection Ev as Hpt Hfd Hcr.
  pose proof (run_reachable _ _ _ Hr : reachable s) as Hreach.
  destruct (segment_open_means_initialised s 2 0 p2 Hreach H2 Hcr Hpt Hfd) as (o' & c & Ho' & Hsz & _).
  clear Hr. exists s, p2, 0%nat, o'. split_and!; [exact Hreach|exact H2|exact Ho'|exact Hsz|congruence].
Defined.

Lemma segment_unlinks_its_own_witness :
  exists (s : Sys (Name:=nat)) p i o, s_procs s !! 1%nat = Some p /\ k_names (s_kernel s) !! p_name p = Some i /\ k_objs (s_kernel s) !! i = Some o /\ ob_creator o = 1%nat.
Proof.
  destruct (view_inv _ _ _ _ demo_schedule_view) as (s & p1 & p2 & o & Hr & H1 & _ & _ & _ & Ev & _). injection Ev as Hpt Hown.
  destruct (segment_unlinks_its_own s 1 p1 (run_reachable _ _ _ Hr) H1 (or_introl Hown)) as ((i & o' & Hi) & _).
  exists s, p1, i, o'. split; [exact H1|exact Hi].
Defined.
