(* ===== verification/Config.v ===== *)
(** * Configurations: [parse_args] of the four programs

    [sender.cpp], [receiver.cpp], [consumer.cpp] and [producer.cpp]: the
    defaults, the options, the checks after the loop, and the exit status of
    [run] when they fail.  [std::exit(2)] is [Throw (ExitStatus 2)]. *)
From S2P Require Import Prelude Double Util Message Wire Samples Dedupe Fec Mutex Ring Producer Args.
From Stdlib Require Strings.String Strings.Ascii.
Import Strings.String.StringSyntax.
Local Delimit Scope string_scope with string.
Local Open Scope string_scope.
Local Open Scope Z_scope.

#[local] Infix "==" := String.eqb (at level 70, no associativity).
Definition str_empty (s : str) : bool := s == "".

(** ** Conversions as the options use them *)
Definition u32_arg (v : str) : res Z := let! n := stoull v in Ok (u32 n).

(** ** Consumer *)
Record CxArgs := mkCxArgs {
  ca_shm_name : str; ca_slots : Z; ca_count : Z; ca_from_edge : bool; ca_csv : str; ca_idle_ms : Z; ca_skip : Z
}.
#[global] Instance CxArgs_eta : Eta CxArgs :=
  fun x => mkCxArgs (ca_shm_name x) (ca_slots x) (ca_count x) (ca_from_edge x) (ca_csv x) (ca_idle_ms x) (ca_skip x).
Definition CxArgs_default : CxArgs := mkCxArgs "/fanout_ring" 1024 0 false "" 2000 0.

Definition consumer_flag (a : str) (c : CxArgs) : option CxArgs :=
  if a == "--from-edge" then Some (c <| ca_from_edge := true |>) else None.
Definition consumer_valued (a : str) : option (str -> CxArgs -> res CxArgs) :=
  if a == "--shm" then Some (fun v c => Ok (c <| ca_shm_name := v |>))
  else if a == "--slots" then Some (fun v c => let! n := u32_arg v in Ok (c <| ca_slots := n |>))
  else if a == "--count" then Some (fun v c => let! n := stoull v in Ok (c <| ca_count := n |>))
  else if a == "--csv" then Some (fun v c => Ok (c <| ca_csv := v |>))
  else if a == "--idle-ms" then Some (fun v c => let! n := stoull v in Ok (c <| ca_idle_ms := n |>))
  else if a == "--skip" then Some (fun v c => let! n := stoull v in Ok (c <| ca_skip := n |>))
  else None.
Definition consumer_parse_args (argv : list str) : res CxArgs :=
  let! c := parse_loop consumer_flag consumer_valued argv CxArgs_default in
  if negb (is_power_of_two (ca_slots c)) then Throw (ExitStatus 2) else Ok c.

(** ** Producer *)
Record PrArgs := mkPrArgs {
  pa_shm_name : str; pa_slots : Z; pa_count : Z; pa_rate : double; pa_start_delay_ms : Z; pa_wait_readers : Z; pa_kind : Kind
}.
#[global] Instance PrArgs_eta : Eta PrArgs :=
  fun x => mkPrArgs (pa_shm_name x) (pa_slots x) (pa_count x) (pa_rate x) (pa_start_delay_ms x) (pa_wait_readers x) (pa_kind x).
Definition PrArgs_default : PrArgs := mkPrArgs "/fanout_ring" 1024 1000000 (S754_zero false) 0 0 KMixed.

Definition parse_kind (s : str) : res Kind :=
  if s == "trade" then Ok KTrade
  else if s == "bbo" then Ok KBbo
  else if s == "book" then Ok KBook
  else if s == "mixed" then Ok KMixed
  else Throw (ExitStatus 2).
Definition kind_name (k : Kind) : str := match k with KTrade => "trade" | KBbo => "bbo" | KBook => "book" | KMixed => "mixed" end.

Definition producer_flag (a : str) (c : PrArgs) : option PrArgs := None.
Definition producer_valued (a : str) : option (str -> PrArgs -> res PrArgs) :=
  if a == "--shm" then Some (fun v c => Ok (c <| pa_shm_name := v |>))
  else if a == "--slots" then Some (fun v c => let! n := u32_arg v in Ok (c <| pa_slots := n |>))
  else if a == "--count" then Some (fun v c => let! n := stoull v in Ok (c <| pa_count := n |>))
  else if a == "--rate" then Some (fun v c => let! x := stod v in Ok (c <| pa_rate := x |>))
  else if a == "--wait-readers" then Some (fun v c => let! n := u32_arg v in Ok (c <| pa_wait_readers := n |>))
  else if a == "--start-delay-ms" then Some (fun v c => let! n := stoull v in Ok (c <| pa_start_delay_ms := n |>))
  else if a == "--type" then Some (fun v c => let! k := parse_kind v in Ok (c <| pa_kind := k |>))
  else None.
Definition producer_parse_args (argv : list str) : res PrArgs :=
  let! c := parse_loop producer_flag producer_valued argv PrArgs_default in
  if negb (is_power_of_two (pa_slots c)) then Throw (ExitStatus 2)
  else if SFltb (pa_rate c) (S754_zero false) then Throw (ExitStatus 2)
  else Ok c.

(** ** Receiver *)
Record RxArgs := mkRxArgs {
  ra_allow_insecure_udp : bool; ra_ack_publish : bool; ra_stream_reconnect : bool; ra_max_streams : Z; ra_out_shm : str; ra_slots : Z;
  ra_bind_host : str; ra_port : str; ra_count : Z; ra_idle_ms : Z; ra_rcvbuf : Z; ra_batch_size : Z; ra_dedupe_window : Z;
  ra_dedupe_enabled : bool; ra_fec_gens : Z; ra_fec_recovery_csv : str; ra_wait_readers : Z; ra_echo : bool; ra_unix_listen : str
}.
#[global] Instance RxArgs_eta : Eta RxArgs :=
  fun x => mkRxArgs (ra_allow_insecure_udp x) (ra_ack_publish x) (ra_stream_reconnect x) (ra_max_streams x) (ra_out_shm x) (ra_slots x)
    (ra_bind_host x) (ra_port x) (ra_count x) (ra_idle_ms x) (ra_rcvbuf x) (ra_batch_size x) (ra_dedupe_window x)
    (ra_dedupe_enabled x) (ra_fec_gens x) (ra_fec_recovery_csv x) (ra_wait_readers x) (ra_echo x) (ra_unix_listen x).
Definition RxArgs_default : RxArgs :=
  mkRxArgs false false false 16 "/fanout_ring_out" 1024 "0.0.0.0" "9000" 0 2000 (4 * 1024 * 1024) 32 65536 true 64 "" 0 false "".

Definition receiver_flag (a : str) (c : RxArgs) : option RxArgs :=
  if a == "--allow-insecure-udp" then Some (c <| ra_allow_insecure_udp := true |>)
  else if a == "--ack-publish" then Some (c <| ra_ack_publish := true |>)
  else if a == "--stream-reconnect" then Some (c <| ra_stream_reconnect := true |>)
  else if a == "--dedupe-disable" then Some (c <| ra_dedupe_enabled := false |>)
  else if a == "--echo" then Some (c <| ra_echo := true |>)
  else None.
Definition receiver_valued (a : str) : option (str -> RxArgs -> res RxArgs) :=
  if a == "--max-streams" then
    Some (fun v c => let! n := stoull v in
                     if (n =? 0) || (256 <? n) then Throw InvalidArgument else Ok (c <| ra_max_streams := u32 n |>))
  else if a == "--out-shm" then Some (fun v c => Ok (c <| ra_out_shm := v |>))
  else if a == "--slots" then Some (fun v c => let! n := u32_arg v in Ok (c <| ra_slots := n |>))
  else if a == "--bind" then Some (fun v c => Ok (c <| ra_bind_host := v |>))
  else if a == "--port" then Some (fun v c => Ok (c <| ra_port := v |>))
  else if a == "--count" then Some (fun v c => let! n := stoull v in Ok (c <| ra_count := n |>))
  else if a == "--idle-ms" then Some (fun v c => let! n := stoull v in Ok (c <| ra_idle_ms := n |>))
  else if a == "--rcvbuf" then Some (fun v c => let! n := stoi v in Ok (c <| ra_rcvbuf := n |>))
  else if a == "--batch-size" then Some (fun v c => let! n := u32_arg v in Ok (c <| ra_batch_size := n |>))
  else if a == "--dedupe-window" then Some (fun v c => let! n := stoull v in Ok (c <| ra_dedupe_window := n |>))
  else if a == "--fec-gens" then Some (fun v c => let! n := u32_arg v in Ok (c <| ra_fec_gens := n |>))
  else if a == "--fec-recovery-csv" then Some (fun v c => Ok (c <| ra_fec_recovery_csv := v |>))
  else if a == "--wait-readers" then Some (fun v c => let! n := u32_arg v in Ok (c <| ra_wait_readers := n |>))
  else if a == "--unix-listen" then Some (fun v c => Ok (c <| ra_unix_listen := v |>))
  else None.

(** The memory that the streams may need, in [uint64_t] arithmetic. *)
Definition stream_budget (c : RxArgs) : Z :=
  u64 (ra_max_streams c *
       u64 (u64 (u64 (ra_fec_gens c * kMaxGeneration) * Z.of_nat (max_frame + 32)) + ra_dedupe_window c / 8 +
            4 * Z.of_nat kSampleLimit * 8)).

Definition receiver_check (c : RxArgs) : res RxArgs :=
  let c := if ra_batch_size c =? 0 then c <| ra_batch_size := 1 |> else c in
  if 1024 <? ra_batch_size c then Throw (ExitStatus 2)
  else if negb (is_power_of_two (ra_slots c)) || negb (is_power_of_two (ra_dedupe_window c)) ||
          (ra_dedupe_window c <? 64) || (2 ^ 26 <? ra_dedupe_window c) then Throw (ExitStatus 2)
  else
    let c := if ra_fec_gens c =? 0 then c <| ra_fec_gens := 1 |> else c in
    if (65536 <? ra_fec_gens c) || (ra_rcvbuf c <=? 0) then Throw (ExitStatus 2)
    else if ra_echo c && negb (str_empty (ra_unix_listen c)) then Throw InvalidArgument
    else if 512 * 1024 * 1024 <? stream_budget c then Throw InvalidArgument
    else if str_empty (ra_unix_listen c) && (ra_ack_publish c || ra_stream_reconnect c) then Throw InvalidArgument
    else if str_empty (ra_unix_listen c) && negb (ra_allow_insecure_udp c) then Throw InvalidArgument
    else Ok c.
Definition receiver_parse_args (argv : list str) : res RxArgs :=
  let! c := parse_loop receiver_flag receiver_valued argv RxArgs_default in receiver_check c.

(** ** Sender *)
Record Destination := mkDestination { ds_host : str; ds_port : str }.
Record TxArgs := mkTxArgs {
  ta_stream_id : Z; ta_stream_epoch : Z; ta_allow_insecure_udp : bool; ta_durable_acks : bool; ta_in_shm : str; ta_slots : Z;
  ta_host : str; ta_port : str; ta_destinations : list Destination; ta_count : Z; ta_from_edge : bool; ta_idle_ms : Z; ta_sndbuf : Z;
  ta_repeat : Z; ta_send_workers : Z; ta_queue_bytes : Z; ta_batch_size : Z; ta_batch_timeout_us : Z; ta_fec_k : Z; ta_fec_parity : Z;
  ta_fec_timeout_us : Z; ta_test_drop_pct : double; ta_test_reorder_pct : double; ta_test_reorder_delay_us : Z; ta_test_seed : Z;
  ta_echo_out_shm : str; ta_rcvbuf : Z; ta_echo_timeout_ms : Z
}.
#[global] Instance TxArgs_eta : Eta TxArgs :=
  fun x => mkTxArgs (ta_stream_id x) (ta_stream_epoch x) (ta_allow_insecure_udp x) (ta_durable_acks x) (ta_in_shm x) (ta_slots x)
    (ta_host x) (ta_port x) (ta_destinations x) (ta_count x) (ta_from_edge x) (ta_idle_ms x) (ta_sndbuf x)
    (ta_repeat x) (ta_send_workers x) (ta_queue_bytes x) (ta_batch_size x) (ta_batch_timeout_us x) (ta_fec_k x) (ta_fec_parity x)
    (ta_fec_timeout_us x) (ta_test_drop_pct x) (ta_test_reorder_pct x) (ta_test_reorder_delay_us x) (ta_test_seed x)
    (ta_echo_out_shm x) (ta_rcvbuf x) (ta_echo_timeout_ms x).
Definition TxArgs_default : TxArgs :=
  mkTxArgs 0 0 false false "/fanout_ring" 1024 "127.0.0.1" "9000" [] 0 false 2000 (4 * 1024 * 1024)
    1 256 (4 * 1024 * 1024) 32 50 0 1 200 (S754_zero false) (S754_zero false) 0 1 "" (4 * 1024 * 1024) 2000.

(** [value.rfind(":")]: the characters before the last colon and those after it. *)
Fixpoint split_last_colon (l : list chr) : option (list chr * list chr) :=
  match l with
  | [] => None
  | c :: l' =>
    match split_last_colon l' with
    | Some (a, b) => Some (c :: a, b)
    | None => if char_code c =? 58 then Some ([], l') else None
    end
  end.

Definition parse_destination (value : str) : res Destination :=
  match split_last_colon (String.list_ascii_of_string value) with
  | None => Throw (ExitStatus 2)
  | Some (host, port) =>
    if (length host =? 0)%nat || (length port =? 0)%nat then Throw (ExitStatus 2)
    else Ok (mkDestination (String.string_of_list_ascii host) (String.string_of_list_ascii port))
  end.

Definition add_destination (d : Destination) (c : TxArgs) : TxArgs := c <| ta_destinations := (ta_destinations c ++ [d])%list |>.

Definition sender_flag (a : str) (c : TxArgs) : option TxArgs :=
  if a == "--durable-acks" then Some (c <| ta_durable_acks := true |>)
  else if a == "--allow-insecure-udp" then Some (c <| ta_allow_insecure_udp := true |>)
  else if a == "--from-edge" then Some (c <| ta_from_edge := true |>)
  else None.
Definition sender_valued (a : str) : option (str -> TxArgs -> res TxArgs) :=
  if a == "--stream-id" then Some (fun v c => let! n := stoull v in Ok (c <| ta_stream_id := n |>))
  else if a == "--stream-epoch" then Some (fun v c => let! n := stoull v in Ok (c <| ta_stream_epoch := n |>))
  else if a == "--in-shm" then Some (fun v c => Ok (c <| ta_in_shm := v |>))
  else if a == "--slots" then Some (fun v c => let! n := u32_arg v in Ok (c <| ta_slots := n |>))
  else if a == "--host" then Some (fun v c => Ok (c <| ta_host := v |>))
  else if a == "--port" then Some (fun v c => Ok (c <| ta_port := v |>))
  else if a == "--unix-dst" then Some (fun v c => Ok (add_destination (mkDestination v "") c))
  else if a == "--dst" then Some (fun v c => let! d := parse_destination v in Ok (add_destination d c))
  else if a == "--count" then Some (fun v c => let! n := stoull v in Ok (c <| ta_count := n |>))
  else if a == "--idle-ms" then Some (fun v c => let! n := stoull v in Ok (c <| ta_idle_ms := n |>))
  else if a == "--sndbuf" then Some (fun v c => let! n := stoi v in Ok (c <| ta_sndbuf := n |>))
  else if a == "--queue-bytes" then
    Some (fun v c => let! n := stoull v in
                     if (n <? 65536) || (64 * 1024 * 1024 <? n) then Throw InvalidArgument else Ok (c <| ta_queue_bytes := n |>))
  else if a == "--send-workers" then
    Some (fun v c => let! n := stoull v in if (n <? 1) || (256 <? n) then Throw InvalidArgument else Ok (c <| ta_send_workers := u32 n |>))
  else if a == "--repeat" then Some (fun v c => let! n := u32_arg v in Ok (c <| ta_repeat := n |>))
  else if a == "--batch-size" then Some (fun v c => let! n := u32_arg v in Ok (c <| ta_batch_size := n |>))
  else if a == "--batch-timeout-us" then Some (fun v c => let! n := stoull v in Ok (c <| ta_batch_timeout_us := n |>))
  else if a == "--fec-k" then
    Some (fun v c => let! n := stoull v in if kMaxGeneration <? n then Throw InvalidArgument else Ok (c <| ta_fec_k := u16 n |>))
  else if a == "--fec-parity" then
    Some (fun v c => let! n := stoull v in if (n <? 1) || (16 <? n) then Throw InvalidArgument else Ok (c <| ta_fec_parity := u16 n |>))
  else if a == "--fec-timeout-us" then Some (fun v c => let! n := stoull v in Ok (c <| ta_fec_timeout_us := n |>))
  else if a == "--test-drop-pct" then Some (fun v c => let! x := stod v in Ok (c <| ta_test_drop_pct := x |>))
  else if a == "--test-reorder-pct" then Some (fun v c => let! x := stod v in Ok (c <| ta_test_reorder_pct := x |>))
  else if a == "--test-reorder-delay-us" then Some (fun v c => let! n := stoull v in Ok (c <| ta_test_reorder_delay_us := n |>))
  else if a == "--test-seed" then Some (fun v c => let! n := stoull v in Ok (c <| ta_test_seed := n |>))
  else if a == "--echo-out-shm" then Some (fun v c => Ok (c <| ta_echo_out_shm := v |>))
  else if a == "--rcvbuf" then Some (fun v c => let! n := stoi v in Ok (c <| ta_rcvbuf := n |>))
  else if a == "--echo-timeout-ms" then Some (fun v c => let! n := stoull v in Ok (c <| ta_echo_timeout_ms := n |>))
  else None.

(** [x != 0.0] and the range check of a percentage. *)
Definition nonzero (x : double) : bool := negb (SFeqb x (S754_zero false)).
Definition bad_pct (x : double) : bool := SFltb x (S754_zero false) || SFltb (double_of 100) x.
Definition is_udp (d : Destination) : bool := negb (str_empty (ds_port d)).

(** [random_id]: [getrandom] with the eight bytes it returned, if it did. *)
Definition random_id (r : option Z) : res Z :=
  match r with Some id => if id =? 0 then Throw RuntimeError else Ok id | None => Throw RuntimeError end.

(** Echo mode: what it does not allow. *)
Definition echo_conflict (c : TxArgs) : res bool :=
  if str_empty (ta_echo_out_shm c) then Ok false
  else
    let! d := vget (ta_destinations c) 0 in
    Ok (str_empty (ds_port d) || negb (length (ta_destinations c) =? 1)%nat || negb (ta_repeat c =? 1) || negb (ta_fec_k c =? 0) ||
        nonzero (ta_test_drop_pct c) || nonzero (ta_test_reorder_pct c)).

(** The fixed defaults and the checks that exit. *)
Definition sender_normalise (c : TxArgs) : res TxArgs :=
  let c := if ta_repeat c =? 0 then c <| ta_repeat := 1 |> else c in
  let c := if ta_batch_size c =? 0 then c <| ta_batch_size := 1 |> else c in
  if 1024 <? ta_batch_size c then Throw (ExitStatus 2)
  else if negb (is_power_of_two (ta_slots c)) then Throw (ExitStatus 2)
  else if kMaxGeneration <? ta_fec_k c then Throw (ExitStatus 2)
  else if bad_pct (ta_test_drop_pct c) || bad_pct (ta_test_reorder_pct c) then Throw (ExitStatus 2)
  else if (256 <? length (ta_destinations c))%nat || (ta_sndbuf c <=? 0) || (ta_rcvbuf c <=? 0) then Throw (ExitStatus 2)
  else
    let c := if ta_fec_timeout_us c =? 0 then c <| ta_fec_timeout_us := 1 |> else c in
    Ok (if (length (ta_destinations c) =? 0)%nat then add_destination (mkDestination (ta_host c) (ta_port c)) c else c).

(** The checks that throw, and the stream's identity. *)
Definition sender_check (c : TxArgs) (rnd_id rnd_epoch : option Z) : res TxArgs :=
  let! conflict := echo_conflict c in
  if conflict then Throw (ExitStatus 2)
  else if existsb (fun d => is_udp d && negb (ta_allow_insecure_udp c)) (ta_destinations c) then Throw InvalidArgument
  else if ta_send_workers c <? Z.of_nat (length (ta_destinations c)) then Throw InvalidArgument
  else if 1024 * 1024 * 1024 <? u64 (ta_queue_bytes c * Z.of_nat (length (ta_destinations c))) then Throw InvalidArgument
  else if ta_durable_acks c && existsb is_udp (ta_destinations c) then Throw InvalidArgument
  else
    let! id := if ta_stream_id c =? 0 then random_id rnd_id else Ok (ta_stream_id c) in
    let! epoch := if ta_stream_epoch c =? 0 then random_id rnd_epoch else Ok (ta_stream_epoch c) in
    Ok (c <| ta_stream_id := id |> <| ta_stream_epoch := epoch |>).

Definition sender_parse_args (argv : list str) (rnd_id rnd_epoch : option Z) : res TxArgs :=
  let! c := parse_loop sender_flag sender_valued argv TxArgs_default in
  let! c := sender_normalise c in
  sender_check c rnd_id rnd_epoch.

(** ** [run]: the exit status of a command line that is not accepted

    [std::exit] ends the process; an exception is caught and [run] returns 2. *)
Definition rejected_status (f : fault) : Z := match f with ExitStatus n => n | _ => 2 end.

(** ** What an accepted command line satisfies *)

(** The faults of [parse_args]: every one of them makes the program exit with status 2. *)
Definition arg_fault (f : fault) : Prop := f = ExitStatus 2 \/ f = InvalidArgument \/ f = OutOfRange \/ f = RuntimeError.

Lemma arg_fault_status (f : fault) : arg_fault f -> rejected_status f = 2.
Proof. by intros [->|[->|[->| ->]]]. Qed.

Lemma conversion_arg_fault (f : fault) : conversion_fault f -> arg_fault f.
Proof. unfold conversion_fault, arg_fault. tauto. Qed.

Lemma u32_arg_wp (v : str) : wp arg_fault (in_range 32) (u32_arg v).
Proof.
  unfold u32_arg. eapply wp_bind; [eapply wp_mono; [apply stoull_wp|apply conversion_arg_fault|intros n Hn; exact Hn]|].
  intros n _. by apply wrap_range.
Qed.

(** Steps through one assignment: conversions first, then the new record. *)
Ltac assign_step :=
  match goal with
  | |- wp _ _ (rbind (u32_arg _) _) => eapply wp_bind; [apply u32_arg_wp|intros ? ?]
  | |- wp _ _ (rbind (stoull _) _) => eapply wp_bind; [eapply wp_mono; [apply stoull_wp|apply conversion_arg_fault|intros ? Hn; exact Hn]|intros ? ?]
  | |- wp _ _ (rbind (stoi _) _) => eapply wp_bind; [eapply wp_mono; [apply stoi_wp|apply conversion_arg_fault|intros ? Hn; exact Hn]|intros ? ?]
  | |- wp _ _ (rbind (stod _) _) => eapply wp_bind; [eapply wp_mono; [apply stod_wp|apply conversion_arg_fault|intros ? Hn; exact Hn]|intros ? ?]
  | |- wp _ _ (if ?b then _ else _) => destruct b eqn:?; [by right; left|]
  end.
(** Goes through the table of options. *)
Ltac each_option E :=
  lazymatch type of E with
  | (if String.eqb ?a ?s then _ else _) = Some _ => destruct (String.eqb a s); [injection E as <-|each_option E]
  | _ => discriminate E
  end.

Lemma consumer_parse_wp (argv : list str) :
  wp arg_fault (fun c => is_power_of_two (ca_slots c) = true /\ in_range 32 (ca_slots c) /\ in_range 64 (ca_count c) /\
                         in_range 64 (ca_idle_ms c) /\ in_range 64 (ca_skip c)) (consumer_parse_args argv).
Proof.
  unfold consumer_parse_args. eapply wp_bind.
  - apply (parse_loop_wp _ _ _ (fun c => in_range 32 (ca_slots c) /\ in_range 64 (ca_count c) /\ in_range 64 (ca_idle_ms c) /\ in_range 64 (ca_skip c))).
    + by left.
    + unfold in_range. cbn. lia.
    + intros a c c' Hc. unfold consumer_flag. destruct (String.eqb _ _); [|done]. intros [= <-]. exact Hc.
    + intros a v c assign Hc E. unfold consumer_valued in E. each_option E; repeat assign_step; unfold set_field; cbn; tauto.
  - intros c Hc. destruct (is_power_of_two (ca_slots c)) eqn:E; [|by left]. split; [exact E|exact Hc].
Qed.

Lemma producer_parse_wp (argv : list str) :
  wp arg_fault (fun c => is_power_of_two (pa_slots c) = true /\ in_range 32 (pa_slots c) /\ in_range 64 (pa_count c) /\
                         in_range 32 (pa_wait_readers c) /\ SFltb (pa_rate c) (S754_zero false) = false) (producer_parse_args argv).
Proof.
  unfold producer_parse_args. eapply wp_bind.
  - apply (parse_loop_wp _ _ _ (fun c => in_range 32 (pa_slots c) /\ in_range 64 (pa_count c) /\ in_range 32 (pa_wait_readers c))).
    + by left.
    + unfold in_range. cbn. lia.
    + done.
    + intros a v c assign Hc E. unfold producer_valued in E. each_option E; repeat assign_step; unfold set_field; cbn; try tauto.
      unfold parse_kind. repeat case_match; cbn; try tauto. by left.
  - intros c Hc. destruct (is_power_of_two (pa_slots c)) eqn:E; [|by left]. destruct (SFltb (pa_rate c) (S754_zero false)) eqn:E2; [by left|]. destruct Hc as (H1 & H2 & H3).
    exact (conj E (conj H1 (conj H2 (conj H3 E2)))).
Qed.

(** *** Receiver *)
Record rx_args_wf (c : RxArgs) : Prop := {
  rw_batch : 1 <= ra_batch_size c <= 1024;
  rw_slots : is_power_of_two (ra_slots c) = true /\ in_range 32 (ra_slots c);
  rw_window : is_power_of_two (ra_dedupe_window c) = true /\ 64 <= ra_dedupe_window c <= 2 ^ 26;
  rw_gens : 1 <= ra_fec_gens c <= 65536;
  rw_streams : 1 <= ra_max_streams c <= 256;
  rw_rcvbuf : 0 < ra_rcvbuf c < 2 ^ 31;
  rw_counts : in_range 64 (ra_count c) /\ in_range 64 (ra_idle_ms c);
  (** the budget, in exact arithmetic *)
  rw_memory : ra_max_streams c * (ra_fec_gens c * 128 * 1056 + ra_dedupe_window c / 8 + 4 * 65536 * 8) <= 512 * 1024 * 1024;
  rw_echo : ra_echo c = true -> str_empty (ra_unix_listen c) = true;
  rw_controls : ra_ack_publish c = true \/ ra_stream_reconnect c = true -> str_empty (ra_unix_listen c) = false;
  rw_secure : str_empty (ra_unix_listen c) = true -> ra_allow_insecure_udp c = true
}.

(** What the assignments keep true before the checks. *)
Definition rx_loose (c : RxArgs) : Prop :=
  in_range 32 (ra_slots c) /\ in_range 64 (ra_count c) /\ in_range 64 (ra_idle_ms c) /\ - 2 ^ 31 <= ra_rcvbuf c < 2 ^ 31 /\
  in_range 32 (ra_batch_size c) /\ in_range 64 (ra_dedupe_window c) /\ in_range 32 (ra_fec_gens c) /\ 1 <= ra_max_streams c <= 256.

Lemma kSampleLimit_Z : Z.of_nat kSampleLimit = 65536.
Proof. vm_compute. reflexivity. Qed.

(** The budget is computed without wrapping around. *)
Lemma stream_budget_exact (c : RxArgs) :
  1 <= ra_fec_gens c <= 65536 -> 0 <= ra_dedupe_window c <= 2 ^ 26 -> 1 <= ra_max_streams c <= 256 ->
  stream_budget c = ra_max_streams c * (ra_fec_gens c * 128 * 1056 + ra_dedupe_window c / 8 + 4 * 65536 * 8).
Proof.
  intros Hg Hw Hm. unfold stream_budget. rewrite kSampleLimit_Z. change kMaxGeneration with 128. change (Z.of_nat (max_frame + 32)) with 1056.
  assert (0 <= ra_dedupe_window c / 8 <= 2 ^ 23) by (split; [apply Z.div_pos; lia|apply Z.div_le_upper_bound; lia]).
  rewrite (wrap_small 64 (ra_fec_gens c * 128)) by (unfold in_range; lia).
  rewrite (wrap_small 64 (ra_fec_gens c * 128 * 1056)) by (unfold in_range; lia).
  rewrite (wrap_small 64 (_ + _ + _)) by (unfold in_range; lia). rewrite wrap_small by (unfold in_range; nia). done.
Qed.

Lemma rx_loose_default : rx_loose RxArgs_default.
Proof. unfold rx_loose, in_range. cbn. lia. Qed.

Lemma rx_loose_flag (a : str) (c c' : RxArgs) : rx_loose c -> receiver_flag a c = Some c' -> rx_loose c'.
Proof. intros Hc. unfold receiver_flag. repeat (destruct (String.eqb a _); [intros [= <-]; exact Hc|]). done. Qed.

Lemma rx_loose_valued (a v : str) (c : RxArgs) (assign : str -> RxArgs -> res RxArgs) :
  rx_loose c -> receiver_valued a = Some assign -> wp arg_fault rx_loose (assign v c).
Proof.
  intros Hc E. unfold receiver_valued in E. each_option E; repeat assign_step; unfold set_field, rx_loose in *; cbn; try tauto.
  zbool. rewrite wrap_small by (unfold in_range in *; lia). unfold in_range in *. intuition lia.
Qed.

Lemma receiver_check_wp (c : RxArgs) : rx_loose c -> wp arg_fault rx_args_wf (receiver_check c).
Proof.
  intros Hc. unfold receiver_check. set (c1 := if ra_batch_size c =? 0 then _ else c).
  assert (Hc1 : rx_loose c1 /\ 1 <= ra_batch_size c1).
  { unfold c1. destruct (Z.eqb_spec (ra_batch_size c) 0); unfold set_field, rx_loose, in_range in *; cbn; intuition lia. }
  clearbody c1. cbv zeta. destruct (Z.ltb_spec 1024 (ra_batch_size c1)); [by left|].
  destruct (negb (is_power_of_two (ra_slots c1)) || _ || _ || _) eqn:Ep; [by left|]. zbool.
  set (c2 := if ra_fec_gens c1 =? 0 then _ else c1).
  assert (Hc2 : rx_loose c2 /\ 1 <= ra_fec_gens c2 /\ ra_batch_size c2 = ra_batch_size c1 /\ ra_slots c2 = ra_slots c1 /\ ra_dedupe_window c2 = ra_dedupe_window c1).
  { unfold c2. destruct (Z.eqb_spec (ra_fec_gens c1) 0); unfold set_field, rx_loose, in_range in *; cbn; intuition lia. }
  clearbody c2. destruct Hc1 as [_ Hb], Hc2 as (Hc2 & Hg & Eb & Es & Ew). destruct (_ || _) eqn:Eg; [by left|]. zbool.
  destruct (ra_echo c2 && _) eqn:Ee; [by right; left|]. destruct (Z.ltb_spec (512 * 1024 * 1024) (stream_budget c2)); [by right; left|].
  destruct (str_empty (ra_unix_listen c2) && (_ || _)) eqn:Ea; [by right; left|]. destruct (str_empty (ra_unix_listen c2) && negb _) eqn:Ei; [by right; left|].
  unfold rx_loose in Hc2. cbn [wp]. rewrite stream_budget_exact in * by (try rewrite Ew; lia).
  constructor; [rewrite Eb; lia|rewrite Es; rewrite Es in Hc2; tauto|rewrite Ew; split; [done|lia]|lia|tauto|lia|tauto|lia| | |].
  - intros E. rewrite E in Ee. cbn in Ee. by apply negb_false_iff.
  - intros E. destruct (str_empty (ra_unix_listen c2)); [|done]. cbn in Ea. apply orb_false_iff in Ea. intuition congruence.
  - intros E. rewrite E in Ei. cbn in Ei. by apply negb_false_iff.
Qed.

Lemma receiver_parse_wp (argv : list str) : wp arg_fault rx_args_wf (receiver_parse_args argv).
Proof.
  unfold receiver_parse_args. eapply wp_bind; [|intros c Hc; by apply receiver_check_wp].
  apply parse_loop_wp; [by left|apply rx_loose_default|apply rx_loose_flag|apply rx_loose_valued].
Qed.

(** *** Sender *)
Record tx_args_wf (c : TxArgs) : Prop := {
  tw_repeat : 1 <= ta_repeat c < 2 ^ 32;
  tw_batch : 1 <= ta_batch_size c <= 1024;
  tw_slots : is_power_of_two (ta_slots c) = true /\ in_range 32 (ta_slots c);
  tw_fec : 0 <= ta_fec_k c <= 128 /\ 1 <= ta_fec_parity c <= 16 /\ 1 <= ta_fec_timeout_us c;
  tw_pct : bad_pct (ta_test_drop_pct c) = false /\ bad_pct (ta_test_reorder_pct c) = false;
  tw_buffers : 0 < ta_sndbuf c < 2 ^ 31 /\ 0 < ta_rcvbuf c < 2 ^ 31;
  tw_workers : 1 <= Z.of_nat (length (ta_destinations c)) <= ta_send_workers c /\ ta_send_workers c <= 256;
  tw_queues : 65536 <= ta_queue_bytes c /\ ta_queue_bytes c * Z.of_nat (length (ta_destinations c)) <= 1024 * 1024 * 1024;
  tw_secure d : d ∈ ta_destinations c -> is_udp d = true -> ta_allow_insecure_udp c = true /\ ta_durable_acks c = false;
  tw_echo : str_empty (ta_echo_out_shm c) = false ->
    (exists d, ta_destinations c = [d] /\ is_udp d = true) /\ ta_repeat c = 1 /\ ta_fec_k c = 0 /\
    nonzero (ta_test_drop_pct c) = false /\ nonzero (ta_test_reorder_pct c) = false;
  tw_identity : 0 < ta_stream_id c < 2 ^ 64 /\ 0 < ta_stream_epoch c < 2 ^ 64;
  tw_counts : in_range 64 (ta_count c) /\ in_range 64 (ta_idle_ms c) /\ in_range 64 (ta_batch_timeout_us c)
}.

(** What the assignments keep true before the checks. *)
Definition tx_loose (c : TxArgs) : Prop :=
  in_range 64 (ta_stream_id c) /\ in_range 64 (ta_stream_epoch c) /\ in_range 32 (ta_slots c) /\ in_range 64 (ta_count c) /\
  in_range 64 (ta_idle_ms c) /\ in_range 64 (ta_batch_timeout_us c) /\ - 2 ^ 31 <= ta_sndbuf c < 2 ^ 31 /\ - 2 ^ 31 <= ta_rcvbuf c < 2 ^ 31 /\
  in_range 32 (ta_repeat c) /\ in_range 32 (ta_batch_size c) /\ 1 <= ta_send_workers c <= 256 /\ 65536 <= ta_queue_bytes c <= 64 * 1024 * 1024 /\
  0 <= ta_fec_k c <= 128 /\ 1 <= ta_fec_parity c <= 16 /\ in_range 64 (ta_fec_timeout_us c).

Lemma tx_loose_default : tx_loose TxArgs_default.
Proof. unfold tx_loose, in_range. cbn. lia. Qed.

Lemma tx_loose_flag (a : str) (c c' : TxArgs) : tx_loose c -> sender_flag a c = Some c' -> tx_loose c'.
Proof. intros Hc. unfold sender_flag. repeat (destruct (String.eqb a _); [intros [= <-]; exact Hc|]). done. Qed.

Lemma parse_destination_wp (v : str) : wp arg_fault (fun d => is_udp d = true) (parse_destination v).
Proof.
  unfold parse_destination. destruct (split_last_colon _) as [[host port]|]; [|by left].
  destruct (_ || _) eqn:E; [by left|]. zbool. cbn. unfold is_udp, str_empty. cbn [ds_port]. by destruct port.
Qed.

Lemma tx_loose_valued (a v : str) (c : TxArgs) (assign : str -> TxArgs -> res TxArgs) :
  tx_loose c -> sender_valued a = Some assign -> wp arg_fault tx_loose (assign v c).
Proof.
  intros Hc E. unfold sender_valued in E.
  each_option E; repeat assign_step; try (eapply wp_bind; [apply parse_destination_wp|intros ? _]);
    unfold add_destination, set_field, tx_loose in *; cbn; try tauto.
  all: zbool; unfold in_range in *.
  - intuition lia.
  - rewrite wrap_small by (unfold in_range; lia). intuition lia.
  - change kMaxGeneration with 128 in *. rewrite wrap_small by (unfold in_range; lia). intuition lia.
  - rewrite wrap_small by (unfold in_range; lia). intuition lia.
Qed.

(** The state between the two groups of checks. *)
Definition tx_normal (c : TxArgs) : Prop :=
  tx_loose c /\ 1 <= ta_repeat c /\ 1 <= ta_batch_size c <= 1024 /\ is_power_of_two (ta_slots c) = true /\
  bad_pct (ta_test_drop_pct c) = false /\ bad_pct (ta_test_reorder_pct c) = false /\ 0 < ta_sndbuf c /\ 0 < ta_rcvbuf c /\
  1 <= ta_fec_timeout_us c /\ (1 <= length (ta_destinations c) <= 256)%nat.

Lemma sender_normalise_wp (c : TxArgs) : tx_loose c -> wp arg_fault tx_normal (sender_normalise c).
Proof.
  intros Hc. unfold sender_normalise. set (c1 := if ta_repeat c =? 0 then _ else c).
  assert (Hc1 : tx_loose c1 /\ 1 <= ta_repeat c1).
  { unfold c1. destruct (Z.eqb_spec (ta_repeat c) 0); unfold set_field, tx_loose, in_range in *; cbn; intuition lia. }
  clearbody c1. cbv zeta. set (c2 := if ta_batch_size c1 =? 0 then _ else c1).
  assert (Hc2 : tx_loose c2 /\ 1 <= ta_repeat c2 /\ 1 <= ta_batch_size c2).
  { unfold c2. destruct (Z.eqb_spec (ta_batch_size c1) 0); unfold set_field, tx_loose, in_range in *; cbn; intuition lia. }
  clearbody c2. destruct (Z.ltb_spec 1024 (ta_batch_size c2)); [by left|]. destruct (is_power_of_two (ta_slots c2)) eqn:Es; cbn [negb]; [|by left].
  destruct (kMaxGeneration <? ta_fec_k c2); [by left|]. destruct (bad_pct (ta_test_drop_pct c2) || _) eqn:Ep; [by left|].
  destruct ((256 <? length (ta_destinations c2))%nat || _ || _) eqn:Ed; [by left|]. zbool. set (c3 := if ta_fec_timeout_us c2 =? 0 then _ else c2).
  assert (Hc3 : tx_loose c3 /\ 1 <= ta_repeat c3 /\ 1 <= ta_batch_size c3 <= 1024 /\ is_power_of_two (ta_slots c3) = true /\
    bad_pct (ta_test_drop_pct c3) = false /\ bad_pct (ta_test_reorder_pct c3) = false /\ 0 < ta_sndbuf c3 /\ 0 < ta_rcvbuf c3 /\
    1 <= ta_fec_timeout_us c3 /\ (length (ta_destinations c3) <= 256)%nat).
  { unfold c3. destruct (Z.eqb_spec (ta_fec_timeout_us c2) 0); unfold set_field, tx_loose, in_range in *; cbn -[is_power_of_two bad_pct]; intuition lia. }
  clearbody c3. cbn [wp]. unfold tx_normal. destruct (Nat.eqb_spec (length (ta_destinations c3)) 0) as [E0|].
  - unfold add_destination, set_field. cbn -[is_power_of_two bad_pct]. rewrite length_app, E0. unfold tx_loose in *. cbn. intuition lia.
  - intuition lia.
Qed.

Lemma random_id_wp (r : option Z) : from_option (in_range 64) True r -> wp arg_fault (fun id => 0 < id < 2 ^ 64) (random_id r).
Proof.
  intros Hr. destruct r as [id|]; [|by right; right; right]. cbn in *. destruct (Z.eqb_spec id 0); [by right; right; right|].
  cbn. unfold in_range in Hr. lia.
Qed.

Lemma echo_conflict_wp (c : TxArgs) :
  (1 <= length (ta_destinations c))%nat ->
  wp arg_fault (fun b => b = false -> str_empty (ta_echo_out_shm c) = false ->
    (exists d, ta_destinations c = [d] /\ is_udp d = true) /\ ta_repeat c = 1 /\ ta_fec_k c = 0 /\
    nonzero (ta_test_drop_pct c) = false /\ nonzero (ta_test_reorder_pct c) = false) (echo_conflict c).
Proof.
  intros Hl. unfold echo_conflict. destruct (str_empty (ta_echo_out_shm c)) eqn:Ee; [done|].
  destruct (vget_lt (ta_destinations c) 0 Hl) as (d & -> & Hd). cbn [rbind wp]. intros Hb _. zbool.
  destruct (ta_destinations c) as [|d0 [|]]; cbn in *; try done. injection Hd as ->. split_and!; try done.
  exists d. split; [done|]. by apply negb_true_iff.
Qed.

Lemma sender_check_wp (c : TxArgs) (r1 r2 : option Z) :
  tx_normal c -> from_option (in_range 64) True r1 -> from_option (in_range 64) True r2 -> wp arg_fault tx_args_wf (sender_check c r1 r2).
Proof.
  intros (Hl & Hrep & Hb & Hs & Hp1 & Hp2 & Hsb & Hrb & Hft & Hd) H1 H2. unfold sender_check.
  eapply wp_bind; [apply echo_conflict_wp; lia|]. intros [] Hecho; [by left|]. specialize (Hecho eq_refl).
  destruct (existsb _ _) eqn:Eudp; [by right; left|].
  destruct (Z.ltb_spec (ta_send_workers c) (Z.of_nat (length (ta_destinations c)))); [by right; left|].
  unfold tx_loose, in_range in Hl. rewrite wrap_small by (unfold in_range; nia).
  destruct (Z.ltb_spec (1024 * 1024 * 1024) (ta_queue_bytes c * Z.of_nat (length (ta_destinations c)))); [by right; left|].
  destruct (ta_durable_acks c && _) eqn:Eack; [by right; left|].
  eapply wp_bind with (Q := fun id => 0 < id < 2 ^ 64).
  { destruct (Z.eqb_spec (ta_stream_id c) 0); [by apply random_id_wp|cbn; lia]. }
  intros id Hid. eapply wp_bind with (Q := fun id => 0 < id < 2 ^ 64).
  { destruct (Z.eqb_spec (ta_stream_epoch c) 0); [by apply random_id_wp|cbn; lia]. }
  intros ep Hep. cbn [wp]. unfold set_field.
  constructor; cbn -[is_power_of_two bad_pct nonzero str_empty Z.mul]; unfold in_range; try done; try lia; try (split; [done|lia]).
  intros d Hin Hu. assert (Hx : forall f, existsb f (ta_destinations c) = false -> f d = false).
  { intros f Hf. destruct (f d) eqn:Ef; [|done]. rewrite <- Hf. symmetry. apply existsb_exists. exists d. by rewrite <- list_elem_of_In. }
  split.
  - apply Hx in Eudp. rewrite Hu in Eudp. by apply negb_false_iff.
  - destruct (ta_durable_acks c); [|done]. cbn [andb] in Eack. apply Hx in Eack. congruence.
Qed.

Lemma sender_parse_wp (argv : list str) (r1 r2 : option Z) :
  from_option (in_range 64) True r1 -> from_option (in_range 64) True r2 -> wp arg_fault tx_args_wf (sender_parse_args argv r1 r2).
Proof.
  intros H1 H2. unfold sender_parse_args. eapply wp_bind.
  - apply parse_loop_wp; [by left|apply tx_loose_default|apply tx_loose_flag|apply tx_loose_valued].
  - intros c Hc. eapply wp_bind; [by apply sender_normalise_wp|]. intros c1 Hc1. by apply sender_check_wp.
Qed.

(** *** No later constructor rejects an accepted command line *)
Lemma ring_constructs (sizeof_Slot slots now : Z) (overwrite : bool) :
  is_power_of_two slots = true -> exists sh h, attach_create sizeof_Slot true slots overwrite now (fun _ => library_ok) = Ok (sh, h).
Proof.
  intros Hp. unfold attach_create. rewrite Hp. destruct (init_mutexes_ok 0 (S (Z.to_nat slots))) as (ms & E & _). cbn [negb orb]. rewrite E. by eexists _, _.
Qed.

Lemma encoder_constructs (k parity : Z) :
  0 <= k <= 128 -> 1 <= parity <= 16 -> exists e, Encoder_make (if k =? 0 then 1 else k) parity = Ok e.
Proof.
  intros Hk Hp. unfold Encoder_make. change kMaxGeneration with 128. destruct (_ || _) eqn:E; [|by eexists]. exfalso. repeat apply orb_true_iff in E as [E|E]; zbool.
  all: destruct (Z.eqb_spec k 0); lia.
Qed.

Lemma window_constructs (w : Z) : is_power_of_two w = true -> 64 <= w <= 2 ^ 26 -> exists win, Dedupe.make w = Some win.
Proof.
  intros Hp Hw. unfold is_power_of_two in Hp. unfold Dedupe.make. destruct (w =? 0); [done|]. cbn [negb andb] in Hp. rewrite Hp.
  destruct (Z.ltb_spec w 64); [lia|]. by eexists.
Qed.

(** ** Properties *)


(** The check of the rate is too weak: [--rate 1e-11] is accepted, and
    the interval [1e9 / rate] does not fit in 64 bits, so converting it is
    undefined behaviour. *)
Theorem producer_rate_overflows :
  exists c, producer_parse_args ["--rate"; "1e-11"] = Ok c /\ interval_of (pa_rate c) = Throw BadCast.
Proof. eexists. split; [vm_compute; reflexivity|]. vm_compute. reflexivity. Qed.

(** Nor do the percentage checks reject a NaN. *)
Example nan_percentage_accepted :
  exists c, sender_parse_args ["--unix-dst"; "/tmp/s"; "--test-drop-pct"; "nan"] (Some 1) (Some 2) = Ok c /\ ta_test_drop_pct c = S754_nan.
Proof. eexists. split; [vm_compute; reflexivity|]. reflexivity. Qed.

