(* ===== verification/Sockets.v ===== *)
(** * Opening sockets

    [open_udp_socket] of [sender.cpp], [open_bound_udp_socket] of
    [receiver.cpp] and [transport::unix_socket].  The kernel's descriptors and
    the options set on them are the state; what [getaddrinfo], [socket],
    [connect], [bind] and [listen] answer are inputs. *)
From S2P Require Import Prelude Args Config.
From Stdlib Require Strings.String.
Local Open Scope Z_scope.

Inductive sockopt :=
| ReuseAddr | SndBuf (n : Z) | RcvBuf (n : Z) | SndTimeo (sec usec : Z) | RcvTimeo (sec usec : Z) | NonBlock.

(** [net_open]: the open descriptors; [net_next]: the one [socket] returns next;
    [net_peer]: which of the addresses tried a descriptor is connected or bound to. *)
Record Net := mkNet { net_open : list nat; net_next : nat; net_opts : list (nat * sockopt); net_peer : list (nat * nat) }.

(** One entry of the [addrinfo] list: whether [socket] and then [connect] (or
    [bind]) succeed. *)
Record Addr := mkAddr { ad_socket : bool; ad_ready : bool }.

Definition net_socket (k : Net) : nat * Net := (net_next k, mkNet (net_next k :: net_open k) (S (net_next k)) (net_opts k) (net_peer k)).
Definition net_close (fd : nat) (k : Net) : Net := mkNet (List.filter (fun x => negb (x =? fd)%nat) (net_open k)) (net_next k) (net_opts k) (net_peer k).
Definition net_set (fd : nat) (os : list sockopt) (k : Net) : Net := mkNet (net_open k) (net_next k) (net_opts k ++ map (pair fd) os) (net_peer k).
Definition net_join (fd i : nat) (k : Net) : Net := mkNet (net_open k) (net_next k) (net_opts k) (net_peer k ++ [(fd, i)]).

(** [for (addrinfo* p = result; p; p = p->ai_next)]: [i] counts the entries. *)
Fixpoint try_addresses (os : list sockopt) (i : nat) (addrs : list Addr) (k : Net) : option nat * Net :=
  match addrs with
  | [] => (None, k)
  | a :: addrs' =>
    if negb (ad_socket a) then try_addresses os (S i) addrs' k
    else
      let '(fd, k) := net_socket k in
      let k := net_set fd os k in
      if ad_ready a then (Some fd, net_join fd i k) else try_addresses os (S i) addrs' (net_close fd k)
  end.

(** [sizeof(sockaddr_un::sun_path)] on Linux. *)
Definition sun_path_size : nat := 108.

(** [transport::unix_socket]: [rc] is the answer of [bind] or [connect]. *)
Record UnixEnv := mkUnix { ux_socket : bool; ux_rc : bool; ux_listen : bool }.
Definition unix_socket (path : str) (listener : bool) (env : UnixEnv) (k : Net) : res nat * Net :=
  if str_empty path || (sun_path_size <=? String.length path)%nat then (Throw InvalidArgument, k)
  else if negb (ux_socket env) then (Throw RuntimeError, k)
  else
    let '(fd, k) := net_socket k in
    if negb (ux_rc env) || (listener && negb (ux_listen env)) then (Throw RuntimeError, net_close fd k)
    else (Ok fd, net_join fd 0 k).

(** What [getaddrinfo] returns ([None] is an error), and whether [F_GETFL] does. *)
Record NetEnv := mkNetEnv { ne_addrs : option (list Addr); ne_flags : bool; ne_unix : UnixEnv }.

Definition echo_options (rcvbuf echo_timeout_ms : Z) : list sockopt :=
  if echo_timeout_ms =? 0 then [] else [RcvBuf rcvbuf; RcvTimeo (echo_timeout_ms / 1000) (echo_timeout_ms mod 1000 * 1000)].

Definition open_udp_socket (dst : Destination) (sndbuf rcvbuf echo_timeout_ms : Z) (env : NetEnv) (k : Net) : res nat * Net :=
  if str_empty (ds_port dst) then unix_socket (ds_host dst) false (ne_unix env) k
  else match ne_addrs env with
  | None => (Throw RuntimeError, k)
  | Some addrs =>
    match try_addresses ([SndBuf sndbuf; SndTimeo 2 0] ++ echo_options rcvbuf echo_timeout_ms) 0 addrs k with
    | (None, k) => (Throw RuntimeError, k)
    | (Some fd, k) => (Ok fd, if negb (echo_timeout_ms =? 0) && ne_flags env then net_set fd [NonBlock] k else k)
    end
  end.

Definition open_bound_udp_socket (rcvbuf : Z) (env : NetEnv) (k : Net) : res nat * Net :=
  match ne_addrs env with
  | None => (Throw RuntimeError, k)
  | Some addrs =>
    match try_addresses [ReuseAddr; RcvBuf rcvbuf] 0 addrs k with
    | (None, k) => (Throw RuntimeError, k)
    | (Some fd, k) => (Ok fd, if ne_flags env then net_set fd [NonBlock] k else k)
    end
  end.

(** The sender opens one socket per destination; an exception ends [run]. *)
Fixpoint open_sockets (a : TxArgs) (dsts : list Destination) (envs : list NetEnv) (k : Net) : res (list nat) * Net :=
  match dsts, envs with
  | [], _ => (Ok [], k)
  | _, [] => (Throw OutOfFuel, k)
  | dst :: dsts', env :: envs' =>
    let '(r, k) := open_udp_socket dst (ta_sndbuf a) (ta_rcvbuf a) (if str_empty (ta_echo_out_shm a) then 0 else ta_echo_timeout_ms a) env k in
    match r with
    | Throw f => (Throw f, k)
    | Ok fd => let '(r, k) := open_sockets a dsts' envs' k in (match r with Ok fds => Ok (fd :: fds) | Throw f => Throw f end, k)
    end
  end.

(** ** Descriptors are not leaked *)

(** The kernel hands out fresh descriptors. *)
Definition net_ok (k : Net) : Prop := Forall (fun fd => (fd < net_next k)%nat) (net_open k).

(** A call opened exactly its result, or nothing. *)
Definition opened (k k' : Net) (r : option nat) : Prop :=
  net_ok k' /\ match r with Some fd => net_open k' = fd :: net_open k /\ fd ∉ net_open k | None => net_open k' = net_open k end.

Lemma net_ok_fresh (k : Net) : net_ok k -> net_next k ∉ net_open k.
Proof. intros Hk Hin. unfold net_ok in Hk. rewrite Forall_forall in Hk. specialize (Hk _ Hin). lia. Qed.

Lemma close_fresh (k : Net) (os : list sockopt) :
  net_ok k -> let '(fd, k1) := net_socket k in net_ok (net_close fd (net_set fd os k1)) /\ net_open (net_close fd (net_set fd os k1)) = net_open k.
Proof.
  intros Hk. cbn. rewrite Nat.eqb_refl. cbn [negb].
  assert (E : List.filter (fun x => negb (x =? net_next k)%nat) (net_open k) = net_open k).
  { pose proof (net_ok_fresh k Hk) as Hf. clear Hk. revert Hf. induction (net_open k) as [|x l IH]; intros Hf; [done|]. cbn.
    apply not_elem_of_cons in Hf as [Hx Hl]. destruct (Nat.eqb_spec x (net_next k)); [congruence|]. cbn. by rewrite IH. }
  unfold net_ok. cbn. rewrite Nat.eqb_refl. cbn [negb]. rewrite E. split; [|done]. eapply Forall_impl; [exact Hk|]. cbn. lia.
Qed.

Lemma socket_opened (k : Net) (os : list sockopt) (i : nat) : net_ok k -> opened k (net_join (net_next k) i (net_set (net_next k) os (snd (net_socket k)))) (Some (net_next k)).
Proof.
  intros Hk. split; [|split; [done|by apply net_ok_fresh]]. unfold net_ok. cbn. apply Forall_cons. split; [lia|]. eapply Forall_impl; [exact Hk|]. cbn. lia.
Qed.

(** The first address that works is taken: all before it failed. *)
Lemma try_addresses_ok (os : list sockopt) (addrs : list Addr) (i : nat) (k k' : Net) (r : option nat) :
  net_ok k -> try_addresses os i addrs k = (r, k') -> opened k k' r /\
  match r with
  | Some fd => exists n a, addrs !! n = Some a /\ ad_socket a = true /\ ad_ready a = true /\ (fd, (i + n)%nat) ∈ net_peer k' /\
                 (forall o, o ∈ os -> (fd, o) ∈ net_opts k') /\ Forall (fun x => ad_socket x && ad_ready x = false) (take n addrs)
  | None => Forall (fun x => ad_socket x && ad_ready x = false) addrs
  end.
Proof.
  revert i k. induction addrs as [|a addrs IH]; intros i k Hk E; cbn [try_addresses] in E.
  { injection E as <- <-. split; [by split|by apply Forall_nil]. }
  assert (Hrec : forall k1, net_ok k1 -> net_open k1 = net_open k -> ad_socket a && ad_ready a = false -> try_addresses os (S i) addrs k1 = (r, k') ->
    opened k k' r /\ match r with
    | Some fd => exists n b, (a :: addrs) !! n = Some b /\ ad_socket b = true /\ ad_ready b = true /\ (fd, (i + n)%nat) ∈ net_peer k' /\
                 (forall o, o ∈ os -> (fd, o) ∈ net_opts k') /\ Forall (fun x => ad_socket x && ad_ready x = false) (take n (a :: addrs))
    | None => Forall (fun x => ad_socket x && ad_ready x = false) (a :: addrs)
    end).
  { intros k1 H1 Eo Ha E1. destruct (IH _ _ H1 E1) as [[O1 O2] Hr]. rewrite Eo in O2. split; [by split|]. destruct r as [fd|].
    - destruct Hr as (n & b & H2 & H3 & H4 & H5 & H6 & H7). exists (S n), b. replace (i + S n)%nat with (S i + n)%nat by lia.
      split_and!; try done. cbn. by apply Forall_cons.
    - by apply Forall_cons. }
  destruct (ad_socket a) eqn:Es; cbn [negb] in E; [|apply (Hrec k); [done|done|by rewrite ?Es|done]].
  cbn [net_socket] in E. destruct (ad_ready a) eqn:Ea.
  - injection E as <- <-. split; [by apply socket_opened|]. exists 0%nat, a. rewrite Nat.add_0_r. split_and!; [done|done|done| | |].
    + cbn. apply elem_of_app. right. by left.
    + intros o Ho. cbn. apply elem_of_app. right. by apply list_elem_of_fmap_2.
    + by apply Forall_nil.
  - destruct (close_fresh k os Hk) as [C1 C2]. eapply Hrec; [exact C1|exact C2|by rewrite ?Ea|exact E].
Qed.

Definition result (r : res nat) : option nat := match r with Ok fd => Some fd | Throw _ => None end.

Lemma unix_socket_ok (path : str) (listener : bool) (env : UnixEnv) (k k' : Net) (r : res nat) :
  net_ok k -> unix_socket path listener env k = (r, k') -> opened k k' (result r).
Proof.
  intros Hk E. unfold unix_socket in E. destruct (_ || _); [injection E as <- <-; by split|]. destruct (negb _); [injection E as <- <-; by split|].
  cbn [net_socket] in E. destruct (_ || _); injection E as <- <-; cbn [result].
  - destruct (close_fresh k [] Hk) as [C1 C2]. by split.
  - exact (socket_opened k [] 0 Hk).
Qed.

Lemma net_set_opened (k k' : Net) (r : option nat) (fd : nat) (os : list sockopt) : opened k k' r -> opened k (net_set fd os k') r.
Proof. done. Qed.

(** [fd] has the options [os] and is connected or bound to the first of the
    addresses that works. *)
Definition first_working (os : list sockopt) (addrs : list Addr) (fd : nat) (k : Net) : Prop :=
  (forall o, o ∈ os -> (fd, o) ∈ net_opts k) /\
  exists n x, (fd, n) ∈ net_peer k /\ addrs !! n = Some x /\ ad_socket x && ad_ready x = true /\
    Forall (fun x => ad_socket x && ad_ready x = false) (take n addrs).

(** The loop over the addresses and the non-blocking mode set at the end. *)
Lemma try_then_set_ok (os : list sockopt) (addrs : list Addr) (nonblock : bool) (k k' : Net) (r : res nat) :
  net_ok k ->
  match try_addresses os 0 addrs k with
  | (None, k) => (Throw RuntimeError, k)
  | (Some fd, k) => (Ok fd, if nonblock then net_set fd [NonBlock] k else k)
  end = (r, k') ->
  opened k k' (result r) /\ match r with Ok fd => first_working os addrs fd k' | Throw f => f = RuntimeError end.
Proof.
  intros Hk E. destruct (try_addresses os 0 addrs k) as [o k1] eqn:Et. apply try_addresses_ok in Et as [Ho Hf]; [|done].
  destruct o as [fd|]; injection E as <- <-; [|done]. split; [by destruct nonblock; [apply net_set_opened|]|].
  destruct Hf as (n & x & H1 & H2 & H3 & H4 & H5 & H6). cbn [Nat.add] in H4. split.
  - intros o' Ho'. destruct nonblock; [|by apply H5]. cbn. apply elem_of_app. left. by apply H5.
  - exists n, x. rewrite H2, H3. split_and!; [by destruct nonblock|done|done|done].
Qed.

Lemma open_udp_socket_ok (dst : Destination) (sndbuf rcvbuf ms : Z) (env : NetEnv) (k k' : Net) (r : res nat) :
  net_ok k -> open_udp_socket dst sndbuf rcvbuf ms env k = (r, k') ->
  opened k k' (result r) /\ forall fd addrs, r = Ok fd -> str_empty (ds_port dst) = false -> ne_addrs env = Some addrs ->
    first_working ([SndBuf sndbuf; SndTimeo 2 0] ++ echo_options rcvbuf ms) addrs fd k'.
Proof.
  intros Hk E. unfold open_udp_socket in E. destruct (str_empty _); [split; [by eapply unix_socket_ok|done]|].
  destruct (ne_addrs env) as [addrs|]; [|injection E as <- <-; by split]. apply try_then_set_ok in E as [Ho Hf]; [|done].
  split; [done|]. intros fd l -> _ [= <-]. exact Hf.
Qed.

Lemma open_bound_udp_socket_ok (rcvbuf : Z) (env : NetEnv) (k k' : Net) (r : res nat) :
  net_ok k -> open_bound_udp_socket rcvbuf env k = (r, k') ->
  opened k k' (result r) /\ forall fd addrs, r = Ok fd -> ne_addrs env = Some addrs -> first_working [ReuseAddr; RcvBuf rcvbuf] addrs fd k'.
Proof.
  intros Hk E. unfold open_bound_udp_socket in E. destruct (ne_addrs env) as [addrs|]; [|injection E as <- <-; by split].
  apply try_then_set_ok in E as [Ho Hf]; [|done]. split; [done|]. intros fd l -> [= <-]. exact Hf.
Qed.

Lemma open_sockets_ok (a : TxArgs) (dsts : list Destination) (envs : list NetEnv) (k k' : Net) (r : res (list nat)) :
  net_ok k -> open_sockets a dsts envs k = (r, k') -> net_ok k' /\
  exists fds, net_open k' = rev fds ++ net_open k /\ NoDup fds /\ (forall fd, fd ∈ fds -> fd ∉ net_open k) /\
    match r with Ok l => l = fds /\ length fds = length dsts | Throw _ => (length fds < length dsts)%nat end.
Proof.
  revert envs k k' r. induction dsts as [|dst dsts IH]; intros envs k k' r Hk E; cbn [open_sockets] in E.
  { injection E as <- <-. split; [done|]. exists []. split_and!; [done|constructor|by intros fd ?%elem_of_nil|done|done]. }
  destruct envs as [|env envs]. { injection E as <- <-. split; [done|]. exists []. cbn. split_and!; [done|constructor|by intros fd ?%elem_of_nil|lia]. }
  destruct (open_udp_socket _ _ _ _ _ k) as [r1 k1] eqn:E1. apply open_udp_socket_ok in E1 as [[Hk1 Ho] _]; [|done]. destruct r1 as [fd|f]; cbn [result] in Ho.
  - destruct (open_sockets a dsts envs k1) as [r2 k2] eqn:E2. destruct (IH _ _ _ _ Hk1 E2) as [Hk2 (fds & F1 & F2 & F3 & F4)]. destruct Ho as [Ho Hnew].
    injection E as <- <-. split; [done|]. exists (fd :: fds). rewrite Ho in F1, F3. cbn [rev length]. rewrite <- app_assoc. split_and!; [done| | |].
    + apply NoDup_cons. split; [|done]. intros Hin. apply (F3 fd Hin). by left.
    + intros x [->|Hx]%elem_of_cons; [done|]. specialize (F3 x Hx). by apply not_elem_of_cons in F3 as [_ ?].
    + destruct r2 as [l|f2]; [destruct F4 as [-> <-]; done|lia].
  - injection E as <- <-. split; [done|]. exists []. cbn. rewrite Ho. split_and!; [done|constructor|by intros x ?%elem_of_nil|lia].
Qed.

(** ** Properties *)

(** C35: Opening sockets leaks no descriptor, and the addresses are tried in
    order.  Whatever the resolver and the kernel answer, a call of
    [open_udp_socket], [open_bound_udp_socket] or [unix_socket] that throws has
    closed every descriptor it opened, and one that returns has opened exactly
    the descriptor it returns, a fresh one, with the socket options asked for
    and connected or bound to the first address that works; the sender ends up with one descriptor per
    destination, all different. *)
Theorem sockets_no_leak (a : TxArgs) (dst : Destination) (path : str) (listener : bool) (env : NetEnv) (envs : list NetEnv) (k : Net) :
  net_ok k ->
  (forall r k', open_udp_socket dst (ta_sndbuf a) (ta_rcvbuf a) (ta_echo_timeout_ms a) env k = (r, k') ->
     opened k k' (result r) /\ forall fd addrs, r = Ok fd -> str_empty (ds_port dst) = false -> ne_addrs env = Some addrs ->
       first_working ([SndBuf (ta_sndbuf a); SndTimeo 2 0] ++ echo_options (ta_rcvbuf a) (ta_echo_timeout_ms a)) addrs fd k') /\
  (forall r k', open_bound_udp_socket (ta_rcvbuf a) env k = (r, k') ->
     opened k k' (result r) /\ forall fd addrs, r = Ok fd -> ne_addrs env = Some addrs -> first_working [ReuseAddr; RcvBuf (ta_rcvbuf a)] addrs fd k') /\
  (forall r k', unix_socket path listener (ne_unix env) k = (r, k') -> opened k k' (result r)) /\
  (forall fds k', open_sockets a (ta_destinations a) envs k = (Ok fds, k') ->
     net_open k' = rev fds ++ net_open k /\ NoDup fds /\ length fds = length (ta_destinations a)).
Proof.
  intros Hk. split_and!; intros r k' E.
  - by eapply open_udp_socket_ok.
  - by eapply open_bound_udp_socket_ok.
  - by eapply unix_socket_ok.
  - destruct (open_sockets_ok _ _ _ _ _ _ Hk E) as [_ (l & F1 & F2 & _ & -> & F4)]. done.
Qed.

(** The first address fails to connect, the second works. *)
Definition demo_net : Net := mkNet [2; 1; 0]%nat 3 [] [].
Definition demo_net_env : NetEnv := mkNetEnv (Some [mkAddr true false; mkAddr true true]) true (mkUnix true true true).
Lemma sockets_no_leak_witness :
  exists k', open_bound_udp_socket 4096 demo_net_env demo_net = (Ok 4%nat, k') /\ opened demo_net k' (Some 4%nat).
Proof.
  assert (Hk : net_ok demo_net) by (repeat (apply Forall_cons; split; [cbn; lia|]); by apply Forall_nil).
  eexists. split; [vm_compute; reflexivity|].
  destruct (sockets_no_leak (TxArgs_default <| ta_rcvbuf := 4096 |>) (mkDestination String.EmptyString String.EmptyString) String.EmptyString true demo_net_env [] demo_net Hk) as (_ & H & _).
  destruct (H (Ok 4%nat) _ eq_refl) as [Ho _]. exact Ho.
Defined.
