(* ===== verification/ReceiverMain.v ===== *)
(** * The receiver as a program: [run] of [harness/src/receiver.cpp]

    [Receiver] models what a datagram does; this file adds everything around it:
    waiting for readers, accepting stream connections, the turn of the main loop
    with its receive call, echo mode, acknowledgements, reconnection, idle and
    error exits, and the summary with its exit status.  What the kernel and the
    clock would answer in a turn is a [RxTurn]; a turn uses the answers the code
    asks for.  Answers that run out stand for a process that was stopped. *)
From S2P Require Import Prelude Double Samples Message Wire Dedupe Fec FecDecoder Multiplex Sink Receiver Transport Batch Metrics Quantiles Args Producer Config.
From stdpp Require Import sorting.
From Stdlib Require Strings.String.
Import Strings.String.StringSyntax.
Local Delimit Scope string_scope with string.
Local Open Scope Z_scope.

(** ** Operations *)

(** One turn of the [accept_stream] loop: the stop flag, the clock, and, if
    [poll] reports the listener ready, what [accept] returns ([None] is -1; a
    connection is the bytes its peer is going to send). *)
Record AcceptTurn := mkAccept { at_stop : bool; at_now : Z; at_ready : option (option bytes) }.

Fixpoint accept_stream (deadline : Z) (turns : list AcceptTurn) : option bytes :=
  match turns with
  | [] => None
  | t :: turns' =>
    if negb (at_stop t) && (at_now t <? deadline) then
      match at_ready t with Some conn => conn | None => accept_stream deadline turns' end
    else None
  end.

(** What [recvmmsg] answers: messages, no message yet, or an error. *)
Inductive recv_answer := RecvGot (ms : list rx_message) | RecvAgain | RecvFail.

Record RxTurn := mkTurn {
  rt_stop : bool;                 (* should_stop() at the loop head *)
  rt_expire : Key -> Z;           (* the clock, once per stream *)
  rt_recv : recv_answer;          (* recvmmsg *)
  rt_ticks : list tick;           (* the transfers of receive_frame *)
  rt_stop2 : bool;                (* should_stop() before reconnecting *)
  rt_accept_now : Z; rt_accept : list AcceptTurn;
  rt_sends : list Z;              (* answers of sendmmsg *)
  rt_acks : list (list tick);     (* the transfers of the acknowledgements *)
  rt_now : Z; rt_now2 : Z         (* the clock while handling a frame, and at the end of the turn *)
}.

Inductive rx_flow := RxContinue | RxBreak | RxReturn (status : Z).

(** The state of [run]; [mn_echo] and [mn_acks] record what the kernel took. *)
Record RxMain (R : Type) := mkMain {
  mn_rx : Receiver R; mn_conn : bytes; mn_last_progress : Z; mn_echo : list bytes; mn_acks : bytes
}.
Arguments mkMain {R}. Arguments mn_rx {R}. Arguments mn_conn {R}. Arguments mn_last_progress {R}. Arguments mn_echo {R}. Arguments mn_acks {R}.

(** The loop around [sendmmsg] in echo mode: the messages taken, and whether all were. *)
Fixpoint echo_loop (sends : list Z) (ms : list bytes) : list bytes * bool :=
  match ms, sends with
  | [], _ => ([], true)
  | _, [] => ([], false)
  | _, sent :: sends' =>
    if sent <=? 0 then ([], false)
    else let n := Nat.min (Z.to_nat sent) (length ms) in
         let '(out, ok) := echo_loop sends' (drop n ms) in (take n ms ++ out, ok)
  end.

Section Main.
Context {R : Type} `{Sink R}.
Variable args : RxArgs.

(** What the datagram path reads of the configuration. *)
Definition rx_config : RxConfig := mkRxConfig (ra_count args) (ra_dedupe_enabled args) (ra_echo args).
Definition idle_ns : Z := u64 (ra_idle_ms args * 1000000).
Definition udp : bool := str_empty (ra_unix_listen args).

Definition set_rx (m : RxMain R) (rx : Receiver R) : RxMain R :=
  mkMain rx (mn_conn m) (mn_last_progress m) (mn_echo m) (mn_acks m).
Definition set_conn (m : RxMain R) (conn : bytes) : RxMain R :=
  mkMain (mn_rx m) conn (mn_last_progress m) (mn_echo m) (mn_acks m).
Definition set_progress (m : RxMain R) (t : Z) : RxMain R :=
  mkMain (mn_rx m) (mn_conn m) t (mn_echo m) (mn_acks m).

(** The loop over the received messages, with their acknowledgements. *)
Fixpoint rx_messages (m : RxMain R) (ms : list rx_message) (acks : list (list tick)) : res (rx_flow * RxMain R) :=
  match ms with
  | [] => Ok (RxContinue, m)
  | x :: ms' =>
    let! '(accepted, rx) := rx_datagram rx_config (mn_rx m) (m_trunc x) (m_raw x) (m_now x) in
    let m := set_rx m rx in
    match accepted with
    | Some accepted =>
      if ra_ack_publish args then
        let '(out, ok, _) := transfer_send (default [] (head acks)) [z2b (if accepted then 1 else 0)] in
        let m := mkMain (mn_rx m) (mn_conn m) (mn_last_progress m) (mn_echo m) (mn_acks m ++ out) in
        if negb ok && negb (ra_stream_reconnect args) then Ok (RxReturn 1, m)
        else rx_messages m ms' (tail acks)
      else rx_messages m ms' acks
    | None => rx_messages m ms' acks
    end
  end.

(** What the turn does with [n > 0] messages. *)
Definition rx_handle (m : RxMain R) (ms : list rx_message) (t : RxTurn) : res (rx_flow * RxMain R) :=
  if ra_echo args then
    let '(out, ok) := echo_loop (rt_sends t) (map m_raw ms) in
    let m := mkMain (mn_rx m) (mn_conn m) (mn_last_progress m) (mn_echo m ++ out) (mn_acks m) in
    if ok then Ok (RxContinue, set_progress (set_rx m (rx_echo (mn_rx m) (length ms))) (rt_now2 t))
    else Ok (RxReturn 1, m)
  else
    let! '(flow, m) := rx_messages m ms (rt_acks t) in
    match flow with RxContinue => Ok (RxContinue, set_progress m (rt_now2 t)) | _ => Ok (flow, m) end.

(** The end of a stream connection that is not replaced. *)
Definition rx_closed (m : RxMain R) : rx_flow :=
  if negb (ra_count args =? 0) && (rx_published (mn_rx m) <? ra_count args) then RxReturn 1 else RxBreak.

(** The body of the main loop. *)
Definition rx_turn (m : RxMain R) (t : RxTurn) : res (rx_flow * RxMain R) :=
  let m := set_rx m (rx_expire (mn_rx m) (rt_expire t)) in
  if udp then
    match rt_recv t with
    | RecvGot ms =>
      let ms := take (Z.to_nat (ra_batch_size args)) ms in
      if is_nil ms then Ok (RxContinue, m) else rx_handle m ms t
    | RecvAgain => if idle_ns <? u64 (rt_now t - mn_last_progress m) then Ok (RxBreak, m) else Ok (RxContinue, m)
    | RecvFail => Ok (RxReturn 1, m)
    end
  else
    let '(frame, conn, _) := receive_frame (rt_ticks t) (Z.of_nat datagram_cap) (mn_conn m) in
    let m := set_conn m conn in
    match frame with
    | Some raw => rx_handle m [mkMessage false raw (rt_now t)] t
    | None =>
      if ra_stream_reconnect args && negb (rt_stop2 t) then
        match accept_stream (u64 (rt_accept_now t + idle_ns)) (rt_accept t) with
        | Some conn => Ok (RxContinue, set_conn m conn)
        | None => Ok (rx_closed m, m)
        end
      else Ok (rx_closed m, m)
    end.

(** The main loop: [None] is the end of the loop, [Some s] a [return s]. *)
Fixpoint rx_main_loop (m : RxMain R) (turns : list RxTurn) : res (option Z * RxMain R) :=
  match turns with
  | [] => Ok (None, m)
  | t :: turns' =>
    if rt_stop t || negb (rx_continue rx_config (mn_rx m)) then Ok (None, m)
    else
      let! '(flow, m) := rx_turn m t in
      match flow with
      | RxContinue => rx_main_loop m turns'
      | RxBreak => Ok (None, m)
      | RxReturn s => Ok (Some s, m)
      end
  end.
End Main.

(** ** The summary *)

(** The order of [std::map]: by stream, then by epoch. *)
Definition key_le (x y : Key * Stream) : Prop :=
  key_stream (fst x) < key_stream (fst y) \/ (key_stream (fst x) = key_stream (fst y) /\ key_epoch (fst x) <= key_epoch (fst y)).
#[global] Instance key_le_dec : RelDecision key_le.
Proof. intros x y. unfold key_le. apply _. Defined.
Definition stream_items (ss : Streams) : list (Key * Stream) := merge_sort key_le (map_to_list (ss_values ss)).

(** A reservoir with the number of samples offered to it. *)
Definition merge_samples (r : list Z * Z) (source : list Z) : res (list Z * Z) :=
  forM source (fun x r => let n := u64 (snd r + 1) in let! v := sample (fst r) x n in Ok (v, n)) r.

(** [dc], [fc], [samples] and [split_samples] of [run]. *)
Record RxTotals := mkTotals {
  tt_dedupe : Dedupe.Counters; tt_fec : FecDecoder.Counters;
  tt_samples : list Z * Z; tt_by_k : list Z * Z; tt_by_timeout : list Z * Z; tt_by_flush : list Z * Z
}.
Definition totals_zero : RxTotals := mkTotals Counters_zero zero_counters ([], 0) ([], 0) ([], 0) ([], 0).

Definition add_dedupe (c d : Dedupe.Counters) : Dedupe.Counters :=
  Dedupe.mkCounters (u64 (accepted c + accepted d)) (u64 (duplicates c + duplicates d)) (u64 (too_old c + too_old d))
    (u64 (lost_confirmed c + lost_confirmed d)) (u64 (window_slides c + window_slides d))
    (Z.max (max_reorder_depth c) (max_reorder_depth d)) (u64 (receiver_seq_jump_raw c + receiver_seq_jump_raw d)).
Definition add_fec (c d : FecDecoder.Counters) : FecDecoder.Counters :=
  FecDecoder.mkCounters (u64 (fc_parity_received c + fc_parity_received d)) (u64 (fc_recovered c + fc_recovered d))
    (u64 (fc_unrecoverable_gens c + fc_unrecoverable_gens d)) (u64 (fc_recovered_by_k c + fc_recovered_by_k d))
    (u64 (fc_recovered_by_timeout c + fc_recovered_by_timeout d)) (u64 (fc_recovered_by_flush c + fc_recovered_by_flush d)).

(** The body of the loop over the streams. *)
Definition add_stream (item : Key * Stream) (t : RxTotals) : res RxTotals :=
  let stream := snd item in
  let decoder := retire_all (st_decoder stream) in
  let dc := add_dedupe (tt_dedupe t) (counters_ (st_dedupe stream)) in
  let fc := add_fec (tt_fec t) (dc_counters decoder) in
  let! all := merge_samples (tt_samples t) (dc_recovery_latencies decoder) in
  let! k := merge_samples (tt_by_k t) (samples_for decoder 0) in
  let! tm := merge_samples (tt_by_timeout t) (samples_for decoder 1) in
  let! fl := merge_samples (tt_by_flush t) (samples_for decoder 2) in
  Ok (mkTotals dc fc all k tm fl).

Definition rx_totals (ss : Streams) : res RxTotals := forM (stream_items ss) add_stream totals_zero.

(** The line [run] prints. *)
Record RxReport := mkRxReport {
  rr_received : Z; rr_published : Z; rr_echoed : Z; rr_rejected : Z;
  rr_accepted : Z; rr_duplicates : Z; rr_too_old : Z; rr_lost_confirmed : Z; rr_window_slides : Z;
  rr_max_reorder_depth : Z; rr_seq_jump : Z; rr_old_duplicates : Z;
  rr_fec : FecDecoder.Counters; rr_late_too_old : Z; rr_stats : RecoveryStats; rr_split : SplitRecoveryStats
}.

Section Run.
Context {R : Type} `{Sink R}.
Variable args : RxArgs.

Definition rx_report (rx : Receiver R) (t : RxTotals) : res RxReport :=
  let! rs := recovery_stats_for (fst (tt_samples t)) in
  let! k := recovery_stats_for (fst (tt_by_k t)) in
  let! tm := recovery_stats_for (fst (tt_by_timeout t)) in
  let! fl := recovery_stats_for (fst (tt_by_flush t)) in
  let dc := tt_dedupe t in
  let on (enabled disabled : Z) := if ra_dedupe_enabled args then enabled else disabled in
  Ok (mkRxReport (rx_received rx) (rx_published rx) (rx_echoed rx) (rx_rejected rx)
        (on (accepted dc) (rx_published rx)) (on (duplicates dc) (rx_old_duplicates rx)) (on (too_old dc) 0) (on (lost_confirmed dc) 0)
        (on (window_slides dc) 0) (on (max_reorder_depth dc) 0) (on (receiver_seq_jump_raw dc) 0) (rx_old_duplicates rx)
        (tt_fec t) (rx_late_too_old rx) rs (mkSplit k tm fl)).

(** What [fopen] and [fclose] of the CSV file answer. *)
Record Csv := mkCsv { csv_open : bool; csv_close : bool }.

(** After the loop: the summary, the CSV file and the exit status.  The report is
    not printed when the CSV file cannot be written. *)
Definition rx_finish (rx : Receiver R) (csv : Csv) : res (Z * option RxReport) :=
  let! t := rx_totals (rx_streams rx) in
  let! r := rx_report rx t in
  if negb (str_empty (ra_fec_recovery_csv args)) && (negb (csv_open csv) || negb (csv_close csv)) then Ok (1, None)
  else
    let delivered := if ra_echo args then rx_echoed rx else rx_published rx in
    Ok (if negb (ra_count args =? 0) && (delivered <? ra_count args) then 1 else 0, Some r).

(** Everything [run] asks of its environment after the ring has been attached. *)
Record RxEnv := mkEnv {
  re_attach_now : Z; re_attach : list (bool * Z * Z);       (* waiting for the readers *)
  re_accept_now : Z; re_accept : list AcceptTurn;           (* the first connection *)
  re_start : Z; re_turns : list RxTurn; re_csv : Csv
}.

Definition rx_start (ring : R) (conn : bytes) (now : Z) : RxMain R :=
  mkMain (rx_init ring (ra_max_streams args) (ra_fec_gens args) (ra_dedupe_window args)) conn now [] [].

(** The status, the final state and the report of a run. *)
Definition rx_run_main (ring : R) (env : RxEnv) : res (Z * option (RxMain R) * option RxReport) :=
  let! attached := wait_for_readers (ra_wait_readers args) (u64 (re_attach_now env + 5000000000)) (re_attach env) in
  if negb attached then Ok (1, None, None)
  else
    match (if udp args then Some [] else accept_stream (u64 (re_accept_now env + idle_ns args)) (re_accept env)) with
    | None => Ok (1, None, None)
    | Some conn =>
      let! '(early, m) := rx_main_loop args (rx_start ring conn (re_start env)) (re_turns env) in
      match early with
      | Some status => Ok (status, Some m, None)
      | None => let! '(status, r) := rx_finish (mn_rx m) (re_csv env) in Ok (status, Some m, r)
      end
    end.
End Run.

(** ** Sums over the streams *)
Definition msum (f : Stream -> Z) (m : gmap Key Stream) : Z := Zsum (map (fun x => f (snd x)) (map_to_list m)).

Lemma msum_empty (f : Stream -> Z) : msum f ∅ = 0.
Proof. unfold msum. by rewrite map_to_list_empty. Qed.

Lemma msum_insert (f : Stream -> Z) (m : gmap Key Stream) (k : Key) (s : Stream) : m !! k = None -> msum f (<[k:=s]> m) = f s + msum f m.
Proof. intros Hk. unfold msum. by rewrite (Permutation_map _ (map_to_list_insert m k s Hk)). Qed.

Lemma msum_update (f : Stream -> Z) (m : gmap Key Stream) (k : Key) (s s' : Stream) :
  m !! k = Some s -> msum f (<[k:=s']> m) = msum f m - f s + f s'.
Proof.
  intros Hk. rewrite <- (insert_delete_id m k s Hk) at 2. rewrite <- insert_delete_eq.
  rewrite !msum_insert by apply lookup_delete_eq. lia.
Qed.

Lemma msum_imap (f : Stream -> Z) (g : Key -> Stream -> Stream) (m : gmap Key Stream) :
  (forall k s, f (g k s) = f s) -> msum f (map_imap (fun k s => Some (g k s)) m) = msum f m.
Proof.
  intros Hg. induction m as [|k s m Hk IH] using map_ind; [done|].
  rewrite (map_imap_insert_Some _ k s _ (g k s)) by done. rewrite !msum_insert; [by rewrite Hg, IH|done|by rewrite map_lookup_imap, Hk].
Qed.

(** ** Accounting

    What the published counter and the windows' counters say of the ring. *)
Definition w_accepted (s : Stream) : Z := accepted (counters_ (st_dedupe s)).
Definition w_seen (s : Stream) : Z := seen_count (counters_ (st_dedupe s)).

Section Accounting.
Context {R : Type} `{SinkLaws R}.
Variables (cfg : RxConfig) (lim : Z).

Record acct_rel (p p' : PubState R) : Prop := {
  al_range : in_range 64 (ps_published p) -> in_range 64 (ps_published p');
  al_logs : exists l o, sink_log (ps_ring p') = sink_log (ps_ring p) ++ l /\ ps_observed p' = ps_observed p ++ o /\
    cong (ps_published p') (ps_published p + Z.of_nat (length l)) /\
    (cfg_dedupe_enabled cfg = true -> ps_old_duplicates p' = ps_old_duplicates p /\
       cong (accepted (counters_ (ps_dedupe p'))) (accepted (counters_ (ps_dedupe p)) + Z.of_nat (length l)) /\
       cong (seen_count (counters_ (ps_dedupe p'))) (seen_count (counters_ (ps_dedupe p)) + Z.of_nat (length o)))
}.

#[local] Instance acct_rel_preorder : PreOrder acct_rel.
Proof.
  split.
  - intros p. constructor; [done|]. exists [], []. rewrite !app_nil_r, !Z.add_0_r. done.
  - intros p1 p2 p3 [R1 (l1 & o1 & L1 & O1 & P1 & D1)] [R2 (l2 & o2 & L2 & O2 & P2 & D2)]. constructor; [tauto|].
    exists (l1 ++ l2), (o1 ++ o2). rewrite L2, L1, O2, O1, !app_assoc, !length_app, !Nat2Z.inj_add. split_and!; [done..| |].
    + rewrite P2, P1. apply cong_of_eq. lia.
    + intros Hen. destruct (D1 Hen) as (E1 & A1 & S1), (D2 Hen) as (E2 & A2 & S2). split_and!; [congruence| |].
      * rewrite A2, A1. apply cong_of_eq. lia.
      * rewrite S2, S1. apply cong_of_eq. lia.
Qed.

Lemma publish_frame_acct (k : Key) (f : bytes) (r : bool) (c : Z) (p p' : PubState R) (b : bool) :
  publish_frame cfg k f r c p = Ok (b, p') -> acct_rel p p'.
Proof.
  intros Hp. unfold publish_frame in Hp. destruct (decode f) as [native|]; [|injection Hp as <- <-; reflexivity].
  destruct (native_read _ native) as [h|]; [|done]. cbn [rbind] in Hp.
  destruct (negb (stream_id h =? _) || _); [injection Hp as <- <-; reflexivity|].
  assert (Hrange : forall z, in_range 64 (u64 z)) by (intros z; apply wrap_range; lia).
  destruct (cfg_dedupe_enabled cfg) eqn:Hen; cbn [negb] in Hp.
  - destruct (observe (ps_dedupe p) (seq_id h)) as [[res w]|] eqn:Ho; [|done]. cbn [rbind] in Hp. apply observe_counts in Ho as [Ha Hs].
    destruct (is_accept res).
    + destruct (sink_publish (ps_ring p) native) as [ring|] eqn:Hpub; [|done]. injection Hp as <- <-. constructor; cbn; [done|].
      exists [native], [(k, seq_id h)]. rewrite cong_u64. split_and!; [by apply sink_publish_log|done|reflexivity|intros _; split_and!; [done|exact Ha|exact Hs]].
    + injection Hp as <- <-. constructor; cbn; [done|]. exists [], [(k, seq_id h)]. rewrite app_nil_r. split_and!; [done|done|apply cong_of_eq; cbn; lia|intros _; split_and!; [done|exact Ha|exact Hs]].
  - destruct (_ <? _); [|injection Hp as <- <-; constructor; cbn; [done|]; exists [], []; rewrite !app_nil_r, Z.add_0_r; split_and!; [done|done|reflexivity|congruence]].
    destruct (sink_publish (ps_ring p) native) as [ring|] eqn:Hpub; [|done]. injection Hp as <- <-. constructor; cbn; [done|].
    exists [native], []. rewrite app_nil_r, cong_u64. split_and!; [by apply sink_publish_log|done|reflexivity|congruence].
Qed.

(** The counters of the receiver describe the ring and the windows. *)
Record rx_acct (rx : Receiver R) : Prop := {
  ra_range : in_range 64 (rx_published rx);
  ra_published : cong (rx_published rx) (Z.of_nat (length (sink_log (rx_ring rx))));
  ra_windows : cfg_dedupe_enabled cfg = true -> rx_old_duplicates rx = 0 /\
    cong (msum w_accepted (ss_values (rx_streams rx))) (Z.of_nat (length (sink_log (rx_ring rx)))) /\
    cong (msum w_seen (ss_values (rx_streams rx))) (Z.of_nat (length (rx_observed rx)));
  ra_limit : ss_limit (rx_streams rx) = lim /\ Z.of_nat (size (ss_values (rx_streams rx))) <= Z.max 0 lim
}.

(** [get] adds at most an empty stream. *)
Lemma get_acct (ss ss' : Streams) (key : Key) (o : option Stream) :
  Streams_get ss key = Ok (o, ss') -> ss_limit ss = lim /\ Z.of_nat (size (ss_values ss)) <= Z.max 0 lim ->
  msum w_accepted (ss_values ss') = msum w_accepted (ss_values ss) /\ msum w_seen (ss_values ss') = msum w_seen (ss_values ss) /\
  (ss_limit ss' = lim /\ Z.of_nat (size (ss_values ss')) <= Z.max 0 lim) /\ (forall s, o = Some s -> ss_values ss' !! key = Some s).
Proof.
  unfold Streams_get. intros Hg [Hlim Hl]. destruct (ss_values ss !! key) as [s|] eqn:Hs; [injection Hg as <- <-; split_and!; try done; by intros ? [= <-]|].
  destruct (Z.leb_spec (ss_limit ss) (Z.of_nat (size (ss_values ss)))); [by injection Hg as <- <-|].
  destruct (Stream_make _ _) as [s|] eqn:Em; [|done]. injection Hg as <- <-. cbn.
  assert (w_accepted s = 0 /\ w_seen s = 0) as [E1 E2].
  { unfold Stream_make, make in Em. destruct (_ || _ || _); [done|]. by injection Em as <-. }
  rewrite !msum_insert by done. rewrite map_size_insert_None by done. split_and!; try lia. intros ? [= <-]. apply lookup_insert_eq.
Qed.

Lemma rx_reject_acct (rx : Receiver R) (ss : Streams) (key : Key) :
  rx_acct rx -> msum w_accepted (ss_values ss) = msum w_accepted (ss_values (rx_streams rx)) ->
  msum w_seen (ss_values ss) = msum w_seen (ss_values (rx_streams rx)) -> ss_limit ss = lim /\ Z.of_nat (size (ss_values ss)) <= Z.max 0 lim ->
  rx_acct (rx_reject rx ss key).
Proof. intros [A1 A2 A3 A4] E1 E2 E3. constructor; cbn; [done..| |done]. rewrite E1, E2. done. Qed.

Lemma rx_datagram_acct (rx rx' : Receiver R) (trunc : bool) (raw : bytes) (now : Z) (b : option bool) :
  rx_acct rx -> rx_datagram cfg rx trunc raw now = Ok (b, rx') -> rx_acct rx'.
Proof.
  intros Ha Hd. unfold rx_datagram in Hd. destruct trunc; [injection Hd as <- <-; by apply rx_reject_acct; try apply Ha|].
  destruct (mux_unwrap raw (rx_current_key rx)) as [[[ok payload] key]|]; [|done]. cbn [rbind] in Hd.
  destruct ok; cbn [negb] in Hd; [|injection Hd as <- <-; by apply rx_reject_acct; try apply Ha].
  destruct (Streams_get (rx_streams rx) key) as [[o ss]|] eqn:Hg; [|done]. cbn [rbind] in Hd.
  destruct (get_acct _ _ _ _ Hg (ra_limit _ Ha)) as (E1 & E2 & E4 & E5).
  destruct o as [stream|]; [|injection Hd as <- <-; by apply rx_reject_acct].
  specialize (E5 stream eq_refl). set (p := mkPub _ _ _ _ _ _ _) in Hd.
  destruct (receive _ _ _ _ p) as [[[acc d] p']|] eqn:Hr; [|done]. injection Hd as <- <-.
  pose proof (receive_rel (publish_frame cfg key) acct_rel (fun f r c p b p' Hp => publish_frame_acct key f r c p p' b Hp) _ _ _ _ _ _ _ Hr)
    as [Hrange (l & ob & L & O & P & D)]. cbn in L, O, P, D, Hrange. destruct Ha as [A1 A2 A3 A4].
  constructor; cbn; [by apply Hrange| | |].
  - rewrite P, A2, L, length_app. apply cong_of_eq. lia.
  - intros Hen. destruct (D Hen) as (D1 & D2 & D3), (A3 Hen) as (B1 & B2 & B3). split; [congruence|].
    rewrite !(msum_update _ _ _ _ _ E5), E1, E2. unfold w_accepted at 2 3, w_seen at 2 3. cbn [st_dedupe].
    rewrite D2, D3, B2, B3, L, O, !length_app, !Nat2Z.inj_add. split; apply cong_of_eq; lia.
  - by rewrite map_size_insert_Some.
Qed.

Lemma rx_expire_acct (rx : Receiver R) (now : Key -> Z) : rx_acct rx -> rx_acct (rx_expire rx now).
Proof.
  intros [A1 A2 A3 A4]. constructor; cbn; [done..| |].
  - by rewrite !(msum_imap _ (fun k s => mkStream (expire (st_decoder s) (now k) 1000000000) (st_dedupe s) (st_last_seq s))).
  - destruct A4 as [A4 A5]. split; [done|]. etrans; [|exact A5]. apply inj_le. rewrite <- !size_dom. apply subseteq_size. intros k. rewrite !elem_of_dom, map_lookup_imap.
    destruct (ss_values (rx_streams rx) !! k); [done|]. intros Hs. by apply is_Some_None in Hs.
Qed.
End Accounting.

(** ** The summary never faults *)
Definition reservoir (n : Z) (r : list Z * Z) : Prop := (length (fst r) <= kSampleLimit)%nat /\ 0 <= snd r <= n.

Lemma merge_samples_ok (source : list Z) (r : list Z * Z) (n : Z) :
  reservoir n r -> n + Z.of_nat (length source) < 2 ^ 64 ->
  exists r', merge_samples r source = Ok r' /\ reservoir (n + Z.of_nat (length source)) r'.
Proof.
  revert r n. unfold merge_samples. induction source as [|x source IH]; intros r n [Hl Hn] Hb; cbn [forM length] in *; [exists r; split; [done|]; by rewrite Z.add_0_r|].
  rewrite (wrap_small 64 (snd r + 1)) by (unfold in_range; lia).
  destruct (sample_ok (fst r) x (snd r + 1) Hl ltac:(lia)) as (v & -> & Hv & _). cbn [rbind].
  destruct (IH (v, snd r + 1) (n + 1)) as (r' & -> & Hr'); [split; [done|cbn; lia]|lia|]. exists r'. split; [done|].
  by replace (n + Z.of_nat (S (length source))) with (n + 1 + Z.of_nat (length source)) by lia.
Qed.

Lemma reservoir_mono (n m : Z) (r : list Z * Z) : n <= m -> reservoir n r -> reservoir m r.
Proof. unfold reservoir. intuition lia. Qed.

(** What the totals say after the streams [items]. *)
Record totals_ok (items : list (Key * Stream)) (t : RxTotals) : Prop := {
  to_range : in_range 64 (accepted (tt_dedupe t));
  to_accepted : cong (accepted (tt_dedupe t)) (Zsum (map (fun x => w_accepted (snd x)) items));
  to_seen : cong (seen_count (tt_dedupe t)) (Zsum (map (fun x => w_seen (snd x)) items));
  to_fec : cong (fc_recovered (tt_fec t)) (fc_recovered_by_k (tt_fec t) + fc_recovered_by_timeout (tt_fec t) + fc_recovered_by_flush (tt_fec t));
  to_all : Forall (reservoir (65536 * Z.of_nat (length items))) [tt_samples t; tt_by_k t; tt_by_timeout t; tt_by_flush t]
}.

Lemma totals_ok_zero : totals_ok [] totals_zero.
Proof.
  constructor; cbn; [unfold in_range; lia|reflexivity..|].
  repeat (apply Forall_cons; split; [split; [apply Nat.le_0_l|cbn; lia]|]). by apply Forall_nil.
Qed.

Lemma retire_all_samples (d : Decoder) :
  dc_recovery_latencies (retire_all d) = dc_recovery_latencies d /\ dc_recovery_by_k (retire_all d) = dc_recovery_by_k d /\
  dc_recovery_by_timeout (retire_all d) = dc_recovery_by_timeout d /\ dc_recovery_by_flush (retire_all d) = dc_recovery_by_flush d.
Proof. unfold retire_all. by destruct (sweep finalize (dc_counters d) (dc_slots d)). Qed.

Lemma add_stream_ok (N : Z) (items : list (Key * Stream)) (item : Key * Stream) (t : RxTotals) :
  wf_decoder N (st_decoder (snd item)) -> (length items < 1000)%nat -> totals_ok items t ->
  exists t', add_stream item t = Ok t' /\ totals_ok (items ++ [item]) t'.
Proof.
  intros Hd Hlen [T1 T2 T3 T4 T5]. apply retire_all_wf in Hd. unfold add_stream. set (d := retire_all _) in *. clearbody d.
  rewrite !Forall_cons in T5. destruct T5 as (R1 & R2 & R3 & R4 & _).
  assert (Hmerge : forall r src, reservoir (65536 * Z.of_nat (length items)) r -> (length src <= kSampleLimit)%nat ->
    exists r', merge_samples r src = Ok r' /\ reservoir (65536 * Z.of_nat (length (items ++ [item]))) r').
  { intros r src Hr Hs. apply inj_le in Hs. rewrite kSampleLimit_Z in Hs. destruct (merge_samples_ok src r _ Hr ltac:(lia)) as (r' & E & Hr').
    exists r'. split; [done|]. eapply reservoir_mono; [|exact Hr']. rewrite length_app. cbn. lia. }
  destruct (Hmerge _ (dc_recovery_latencies d) R1) as (r1 & E1 & S1); [exact (proj2 (wd_all _ _ Hd))|]. destruct (Hmerge _ (samples_for d 0) R2) as (r2 & E2 & S2); [exact (proj2 (wd_by_k _ _ Hd))|].
  destruct (Hmerge _ (samples_for d 1) R3) as (r3 & E3 & S3); [exact (proj2 (wd_by_timeout _ _ Hd))|]. destruct (Hmerge _ (samples_for d 2) R4) as (r4 & E4 & S4); [exact (proj2 (wd_by_flush _ _ Hd))|].
  rewrite E1, E2, E3, E4. cbn [rbind]. eexists. split; [done|]. constructor; cbn.
  - apply wrap_range. lia.
  - rewrite cong_u64, T2, map_app, Zsum_app. apply cong_of_eq. cbn. unfold w_accepted. lia.
  - unfold seen_count. cbn. rewrite !cong_u64, map_app, Zsum_app, <- T3. apply cong_of_eq. cbn. unfold w_seen, seen_count. lia.
  - rewrite !cong_u64, T4. pose proof (wd_counters _ _ Hd) as Hc. unfold wf_counters in Hc. rewrite Hc, cong_u64. apply cong_of_eq. lia.
  - repeat (apply Forall_cons; split; [done|]). by apply Forall_nil.
Qed.

Lemma rx_totals_ok (N : Z) (ss : Streams) :
  (forall k s, ss_values ss !! k = Some s -> wf_decoder N (st_decoder s)) -> Z.of_nat (size (ss_values ss)) <= 256 ->
  exists t, rx_totals ss = Ok t /\ in_range 64 (accepted (tt_dedupe t)) /\
    cong (accepted (tt_dedupe t)) (msum w_accepted (ss_values ss)) /\ cong (seen_count (tt_dedupe t)) (msum w_seen (ss_values ss)) /\
    cong (fc_recovered (tt_fec t)) (fc_recovered_by_k (tt_fec t) + fc_recovered_by_timeout (tt_fec t) + fc_recovered_by_flush (tt_fec t)) /\
    Forall (fun r => (length (fst r) <= kSampleLimit)%nat) [tt_samples t; tt_by_k t; tt_by_timeout t; tt_by_flush t].
Proof.
  intros Hd Hsize. unfold rx_totals. assert (Hp : stream_items ss ≡ₚ map_to_list (ss_values ss)) by apply merge_sort_Permutation.
  assert (Hlen : (length (stream_items ss) <= 256)%nat) by (rewrite Hp, length_map_to_list; lia).
  destruct (forM_invariant totals_ok add_stream (stream_items ss) [] totals_zero) as (t & E & Ht).
  - apply totals_ok_zero.
  - intros pre item post t Hsplit Ht. apply (add_stream_ok N); [|apply (f_equal length) in Hsplit; rewrite length_app in Hsplit; cbn in *; lia|done].
    destruct item as [k s]. apply (Hd k), elem_of_map_to_list. rewrite <- Hp, Hsplit. apply elem_of_app. right. by left.
  - exists t. cbn [app] in Ht. destruct Ht as [T1 T2 T3 T4 T5].
    assert (Hsum : forall f, msum f (ss_values ss) = Zsum (map (fun x => f (snd x)) (stream_items ss))) by (intros f; unfold msum; by rewrite (Permutation_map _ Hp)).
    rewrite !Hsum. split; [exact E|]. split; [exact T1|]. split; [exact T2|]. split; [exact T3|]. split; [exact T4|].
    eapply Forall_impl; [exact T5|]. by intros r [? _].
Qed.

(** ** The main loop *)
Section Correct.
Context {R : Type} `{SinkLaws R}.
Variable args : RxArgs.
Hypothesis Hargs : rx_args_wf args.
Hypothesis sink_total : forall (ring : R) f, exists ring', sink_publish ring f = Ok ring'.

(** Everything that holds of the receiver after [N] messages. *)
Definition rx_full (N : Z) (rx : Receiver R) : Prop :=
  rx_inv (rx_config args) (ra_dedupe_window args) N rx /\ rx_acct (rx_config args) (ra_max_streams args) rx.

Lemma args_window : exists w0, Dedupe.make (ra_dedupe_window args) = Some w0 /\ in_range 64 (ra_dedupe_window args).
Proof using Hargs.
  destruct (rw_window args Hargs) as [Hp Hr]. destruct (window_constructs (ra_dedupe_window args) Hp ltac:(lia)) as [w0 Hw]. exists w0. split; [done|].
  unfold in_range. lia.
Qed.

Lemma rx_datagram_full (N : Z) (rx : Receiver R) (trunc : bool) (raw : bytes) (now : Z) :
  rx_full N rx -> 0 <= N -> N + 1 < 2 ^ 64 ->
  exists b rx', rx_datagram (rx_config args) rx trunc raw now = Ok (b, rx') /\ rx_full (N + 1) rx' /\ rx_echoed rx' = rx_echoed rx.
Proof using All.
  intros [Hi Ha] Hpos HN. destruct args_window as (w0 & Hw & Hr).
  destruct (rx_datagram_inv (rx_config args) _ Hr w0 Hw sink_total N rx trunc raw now Hi Hpos HN) as (b & rx' & E & Hi').
  exists b, rx'. split; [done|]. split; [split; [done|by eapply rx_datagram_acct]|]. unfold rx_datagram in E. by run_inv.
Qed.

Lemma rx_expire_full (N : Z) (rx : Receiver R) (now : Key -> Z) : rx_full N rx -> 0 <= N < 2 ^ 64 -> rx_full N (rx_expire rx now).
Proof using All.
  intros [Hi Ha] HN. split; [|by apply rx_expire_acct]. destruct args_window as (w0 & Hw & Hr). by apply (rx_expire_inv (rx_config args) _ Hr w0 Hw sink_total).
Qed.

Lemma rx_full_mono (N M : Z) (rx : Receiver R) : N <= M -> rx_full N rx -> rx_full M rx.
Proof using All. intros HNM [Hi Ha]. split; [|done]. destruct args_window as (w0 & Hw & Hr). by apply (rx_inv_mono _ _ Hr w0 Hw sink_total N M). Qed.

Lemma rx_messages_ok (ms : list rx_message) (m : RxMain R) (acks : list (list tick)) (N : Z) :
  rx_full N (mn_rx m) -> 0 <= N -> N + Z.of_nat (length ms) < 2 ^ 64 ->
  exists flow m', rx_messages args m ms acks = Ok (flow, m') /\ rx_full (N + Z.of_nat (length ms)) (mn_rx m') /\
    rx_echoed (mn_rx m') = rx_echoed (mn_rx m) /\ mn_echo m' = mn_echo m /\ (flow = RxContinue \/ flow = RxReturn 1).
Proof using All.
  revert m acks N. induction ms as [|x ms IH]; intros m acks N Hm Hpos HN; cbn [rx_messages length] in *.
  { exists RxContinue, m. rewrite Z.add_0_r. by split_and!; [..|left]. }
  destruct (rx_datagram_full N (mn_rx m) (m_trunc x) (m_raw x) (m_now x) Hm Hpos ltac:(lia)) as (b & rx1 & -> & H1 & He). cbn [rbind].
  replace (N + Z.of_nat (S (length ms))) with (N + 1 + Z.of_nat (length ms)) by lia.
  assert (Hrec : forall m1 acks1, mn_rx m1 = rx1 -> mn_echo m1 = mn_echo m ->
    exists flow m', rx_messages args m1 ms acks1 = Ok (flow, m') /\ rx_full (N + 1 + Z.of_nat (length ms)) (mn_rx m') /\
      rx_echoed (mn_rx m') = rx_echoed (mn_rx m) /\ mn_echo m' = mn_echo m /\ (flow = RxContinue \/ flow = RxReturn 1)).
  { intros m1 acks1 E1 E2. rewrite <- E1 in H1. destruct (IH m1 acks1 (N + 1) H1 ltac:(lia) ltac:(lia)) as (flow & m' & E & F1 & F2 & F3 & F4).
    exists flow, m'. split_and!; congruence || done. }
  destruct b as [b|]; [|by apply Hrec]. destruct (ra_ack_publish args); [|by apply Hrec].
  destruct (transfer_send _ _) as [[out ok] ?]. destruct (negb ok && _); [|by apply Hrec].
  eexists _, _. split; [done|]. split_and!; cbn; [|done..|by right]. eapply rx_full_mono; [|exact H1]. lia.
Qed.

Lemma rx_echo_full (N : Z) (rx : Receiver R) (n : nat) : rx_full N rx -> rx_full N (rx_echo rx n).
Proof using All. intros [[I1 I2 I3 I4 I5] [A1 A2 A3 A4]]. by split; constructor. Qed.

Lemma rx_handle_ok (m : RxMain R) (ms : list rx_message) (t : RxTurn) (N : Z) :
  rx_full N (mn_rx m) -> 0 <= N -> N + Z.of_nat (length ms) < 2 ^ 64 ->
  exists flow m', rx_handle args m ms t = Ok (flow, m') /\ rx_full (N + Z.of_nat (length ms)) (mn_rx m') /\ (flow = RxContinue \/ flow = RxReturn 1).
Proof using All.
  intros Hm Hpos HN. unfold rx_handle. destruct (ra_echo args).
  - destruct (echo_loop _ _) as [out ok]. destruct ok; eexists _, _; (split; [done|]); (split; [|by (left + right)]); cbn.
    + apply rx_echo_full. eapply rx_full_mono; [|exact Hm]. lia.
    + eapply rx_full_mono; [|exact Hm]. lia.
  - destruct (rx_messages_ok ms m (rt_acks t) N Hm Hpos HN) as (flow & m' & -> & Hf & _ & _ & Hflow). cbn [rbind].
    destruct Hflow as [->| ->]; eexists _, _; (split; [done|]); (split; [done|by (left + right)]).
Qed.

(** One turn handles at most 1024 messages. *)
Lemma rx_turn_ok (m : RxMain R) (t : RxTurn) (N : Z) :
  rx_full N (mn_rx m) -> 0 <= N -> N + 1024 < 2 ^ 64 ->
  exists flow m', rx_turn args m t = Ok (flow, m') /\ rx_full (N + 1024) (mn_rx m') /\ (forall s, flow = RxReturn s -> s = 1).
Proof using All.
  intros Hm Hpos HN. unfold rx_turn. set (m0 := set_rx m _).
  assert (Hm0 : rx_full N (mn_rx m0)) by (apply rx_expire_full; [done|lia]). clearbody m0.
  assert (Hstay : rx_full (N + 1024) (mn_rx m0)) by (eapply rx_full_mono; [|exact Hm0]; lia).
  assert (Hclosed : forall s, rx_closed args m0 = RxReturn s -> s = 1) by (unfold rx_closed; destruct (_ && _); congruence).
  assert (Hhandle : forall m1 ms, mn_rx m1 = mn_rx m0 -> (length ms <= 1024)%nat ->
    exists flow m', rx_handle args m1 ms t = Ok (flow, m') /\ rx_full (N + 1024) (mn_rx m') /\ (forall s, flow = RxReturn s -> s = 1)).
  { intros m1 ms E Hl. rewrite <- E in Hm0. destruct (rx_handle_ok m1 ms t N Hm0 Hpos ltac:(lia)) as (flow & m' & -> & Hf & Hflow).
    exists flow, m'. split; [done|]. split; [eapply rx_full_mono; [|exact Hf]; lia|]. by intros s ->; destruct Hflow as [?|[= ->]]. }
  destruct (udp args).
  - destruct (rt_recv t) as [ms| |].
    + pose proof (rw_batch args Hargs). destruct (is_nil _); [by eexists _, _|]. apply Hhandle; [done|]. rewrite length_take. lia.
    + destruct (_ <? _); by eexists _, _.
    + eexists _, _. split; [done|]. split; [done|]. congruence.
  - destruct (receive_frame _ _ _) as [[frame conn] ?]. destruct frame as [raw|]; [apply Hhandle; [done|cbn; lia]|].
    destruct (_ && _); [|eexists _, _; split; [done|]; split; [done|exact Hclosed]].
    destruct (accept_stream _ _); [by eexists _, _|eexists _, _; split; [done|]; split; [done|exact Hclosed]].
Qed.

Lemma rx_main_loop_ok (turns : list RxTurn) (m : RxMain R) (N : Z) :
  rx_full N (mn_rx m) -> 0 <= N -> N + 1024 * Z.of_nat (length turns) < 2 ^ 64 ->
  exists early m', rx_main_loop args m turns = Ok (early, m') /\ rx_full (N + 1024 * Z.of_nat (length turns)) (mn_rx m') /\
    (forall s, early = Some s -> s = 1).
Proof using All.
  revert m N. induction turns as [|t turns IH]; intros m N Hm Hpos HN; cbn [rx_main_loop length] in *.
  { exists None, m. split; [done|]. by rewrite Z.add_0_r. }
  destruct (_ || _); [exists None, m; split; [done|]; split; [eapply rx_full_mono; [|exact Hm]; lia|done]|].
  destruct (rx_turn_ok m t N Hm Hpos ltac:(lia)) as (flow & m1 & -> & H1 & Hs). cbn [rbind].
  assert (H1' : rx_full (N + 1024 * Z.of_nat (S (length turns))) (mn_rx m1)) by (eapply rx_full_mono; [|exact H1]; lia).
  destruct flow as [| |s]; [|by eexists _, _|].
  - destruct (IH m1 (N + 1024) H1 ltac:(lia) ltac:(lia)) as (early & m2 & -> & H2 & Hs2). eexists _, _. split; [done|].
    by replace (N + 1024 * Z.of_nat (S (length turns))) with (N + 1024 + 1024 * Z.of_nat (length turns)) by lia.
  - eexists _, _. split; [done|]. split; [done|]. intros s' [= <-]. by apply Hs.
Qed.
End Correct.

(** ** Echo mode *)
Lemma echo_loop_prefix (sends : list Z) (ms out : list bytes) (ok : bool) :
  echo_loop sends ms = (out, ok) -> exists rest, ms = out ++ rest /\ (ok = true -> rest = []).
Proof.
  revert ms out. induction sends as [|sent sends IH]; intros [|x ms] out E; cbn [echo_loop] in E; try (injection E as <- <-; by eexists).
  destruct (_ <=? _); [injection E as <- <-; by eexists|].
  set (n := Nat.min _ _) in E. destruct (echo_loop sends (drop n (x :: ms))) as [out1 ok1] eqn:E1. injection E as <- <-.
  destruct (IH _ _ E1) as (rest & Hr & Hok). exists rest. by rewrite <- app_assoc, <- Hr, take_drop.
Qed.

(** The datagrams a turn offers. *)
Definition turn_raws (args : RxArgs) (t : RxTurn) : list bytes :=
  match rt_recv t with RecvGot ms => map m_raw (take (Z.to_nat (ra_batch_size args)) ms) | _ => [] end.

Section Echo.
Context {R : Type} `{Sink R}.
Variable args : RxArgs.
Hypothesis Hudp : udp args = true.
Hypothesis Hecho : ra_echo args = true.

(** Echoing keeps the ring and counts what was sent back. *)
Record echo_step (m m' : RxMain R) (out : list bytes) : Prop := {
  es_ring : rx_ring (mn_rx m') = rx_ring (mn_rx m);
  es_echo : mn_echo m' = mn_echo m ++ out;
  es_range : in_range 64 (rx_echoed (mn_rx m)) -> in_range 64 (rx_echoed (mn_rx m'))
}.
Definition echo_counted (m m' : RxMain R) (n : nat) : Prop :=
  cong (rx_echoed (mn_rx m')) (rx_echoed (mn_rx m) + Z.of_nat n).

Lemma echo_turn (m m' : RxMain R) (t : RxTurn) (flow : rx_flow) :
  rx_turn args m t = Ok (flow, m') -> exists out rest, turn_raws args t = out ++ rest /\ echo_step m m' out /\
    (flow = RxContinue -> rest = []) /\ ((forall s, flow <> RxReturn s) -> echo_counted m m' (length out)).
Proof using All.
  unfold rx_turn, turn_raws, echo_counted. rewrite Hudp. set (m0 := set_rx m _). destruct (rt_recv t) as [ms| |].
  - set (b := take _ ms). destruct (is_nil b) eqn:Hb.
    { intros [= <- <-]. destruct b; [|done]. exists [], []. split_and!; [done|split; cbn; [done|by rewrite app_nil_r|done]|done|].
      intros _. apply cong_of_eq. cbn. lia. }
    unfold rx_handle. rewrite Hecho. destruct (echo_loop _ _) as [out ok] eqn:E. apply echo_loop_prefix in E as (rest & Hr & Hok).
    destruct ok; intros [= <- <-]; exists out, rest; (split; [done|]).
    + specialize (Hok eq_refl) as ->. rewrite app_nil_r in Hr. split_and!; [|done|].
      * split; cbn; [done..|]. intros _. apply wrap_range. lia.
      * intros _. cbn. rewrite cong_u64. apply cong_of_eq. rewrite <- Hr, length_map. lia.
    + split_and!; [by split|done|]. intros Hs. by destruct (Hs 1).
  - destruct (_ <? _); intros [= <- <-]; exists [], []; (split; [done|]);
      (split; [split; cbn; [done|by rewrite app_nil_r|done]|]); split; try done; intros _; apply cong_of_eq; cbn; lia.
  - intros [= <- <-]. exists [], []. split; [done|]. split; [split; cbn; [done|by rewrite app_nil_r|done]|]. split; [done|]. intros Hs. by destruct (Hs 1).
Qed.

Lemma echo_main_loop (turns : list RxTurn) (m m' : RxMain R) (early : option Z) :
  rx_main_loop args m turns = Ok (early, m') -> exists out rest, concat (map (turn_raws args) turns) = out ++ rest /\ echo_step m m' out /\
    (early = None -> echo_counted m m' (length out)).
Proof using All.
  assert (Hrefl : forall m0 : RxMain R, echo_step m0 m0 [] /\ echo_counted m0 m0 0).
  { intros m0. split; [split; [done|by rewrite app_nil_r|done]|]. apply cong_of_eq. cbn. lia. }
  revert m. induction turns as [|t turns IH]; intros m E; cbn [rx_main_loop map concat] in *.
  { injection E as <- <-. exists [], []. split; [done|]. destruct (Hrefl m). done. }
  destruct (_ || _). { injection E as <- <-. exists [], (turn_raws args t ++ concat (map (turn_raws args) turns)). destruct (Hrefl m). done. }
  destruct (rx_turn args m t) as [[flow m1]|] eqn:Et; [|done]. cbn [rbind] in E. apply echo_turn in Et as (out & rest & Hr & [S1 S2 S3] & Hc & Hn).
  rewrite Hr. destruct flow as [| |s].
  - rewrite (Hc eq_refl) in *. rewrite app_nil_r. destruct (IH m1 E) as (out2 & rest2 & Hr2 & [T1 T2 T3] & Hn2). exists (out ++ out2), rest2.
    split; [by rewrite Hr2, app_assoc|]. split; [split; [congruence|by rewrite T2, S2, app_assoc|auto]|].
    intros Hs. unfold echo_counted in *. rewrite Hn2, Hn by done. rewrite length_app. apply cong_of_eq. lia.
  - injection E as <- <-. exists out, (rest ++ concat (map (turn_raws args) turns)). split; [by rewrite app_assoc|]. split; [by split|].
    intros _. by apply Hn.
  - injection E as <- <-. exists out, (rest ++ concat (map (turn_raws args) turns)). split; [by rewrite app_assoc|]. split; [by split|done].
Qed.
End Echo.

(** ** The whole run *)
Section Whole.
Context {R : Type} `{SinkLaws R}.
Variable args : RxArgs.
Hypothesis Hargs : rx_args_wf args.
Hypothesis sink_total : forall (ring : R) f, exists ring', sink_publish ring f = Ok ring'.

(** How a run that got as far as the loop ends. *)
Inductive ended (ring : R) (env : RxEnv) : Z -> RxMain R -> option RxReport -> Prop :=
| ended_early (m : RxMain R) (conn : bytes) :
    rx_main_loop args (rx_start args ring conn (re_start env)) (re_turns env) = Ok (Some 1, m) -> ended ring env 1 m None
| ended_finish (m : RxMain R) (conn : bytes) (status : Z) (r : option RxReport) :
    rx_main_loop args (rx_start args ring conn (re_start env)) (re_turns env) = Ok (None, m) ->
    rx_finish args (mn_rx m) (re_csv env) = Ok (status, r) -> ended ring env status m r.

(** What is true of the state a run ends in. *)
Definition sound (rx : Receiver R) : Prop :=
  Forall real_frame (sink_log (rx_ring rx)) /\
  (observed_ok (ra_dedupe_window args) (rx_observed rx) -> forall k, NoDup (seqs_of k (sink_log (rx_ring rx)))) /\
  rx_published rx = u64 (Z.of_nat (length (sink_log (rx_ring rx)))).

(** What is true of the printed report. *)
Record report_ok (rx : Receiver R) (r : RxReport) : Prop := {
  ro_delivered : rr_published r = u64 (Z.of_nat (length (sink_log (rx_ring rx)))) /\ rr_accepted r = rr_published r;
  ro_seen : ra_dedupe_enabled args = true -> cong (rr_accepted r + rr_duplicates r + rr_too_old r) (Z.of_nat (length (rx_observed rx)));
  ro_fec : cong (fc_recovered (rr_fec r)) (fc_recovered_by_k (rr_fec r) + fc_recovered_by_timeout (rr_fec r) + fc_recovered_by_flush (rr_fec r));
  ro_stats : exists t, rx_totals (rx_streams rx) = Ok t /\ stats_of (fst (tt_samples t)) (rr_stats r) /\
    stats_of (fst (tt_by_k t)) (by_k (rr_split r)) /\ stats_of (fst (tt_by_timeout t)) (by_timeout (rr_split r)) /\ stats_of (fst (tt_by_flush t)) (by_flush (rr_split r))
}.

Lemma full_sound (N : Z) (rx : Receiver R) : rx_full args N rx -> sound rx.
Proof using All.
  intros [Hi Ha]. split_and!; [apply Hi| |apply cong_eq; apply Ha]. intros Ho k. pose proof (ri_table _ _ _ _ Hi Ho k) as Ht.
  destruct (ss_values (rx_streams rx) !! k) as [s|]; [|rewrite Ht; constructor].
  unfold stream_ok in Ht. destruct (cfg_dedupe_enabled (rx_config args)); [|apply Ht]. destruct Ht as [[_ ->]|(st & _ & _ & ?)]; [constructor|done].
Qed.

Lemma rx_finish_ok (N : Z) (rx : Receiver R) (csv : Csv) :
  rx_full args N rx -> exists status r, rx_finish args rx csv = Ok (status, r) /\ (status = 0 \/ status = 1) /\
    (status = 0 -> ra_count args = 0 \/ ra_count args <= (if ra_echo args then rx_echoed rx else rx_published rx)) /\
    (status = 0 -> r <> None) /\ (forall x, r = Some x -> report_ok rx x).
Proof using All.
  intros [Hi Ha]. destruct (ra_limit _ _ _ Ha) as [_ Hsize]. pose proof (rw_streams args Hargs).
  destruct (rx_totals_ok N (rx_streams rx)) as (t & Et & T1 & T2 & T3 & T4 & T5); [intros k s Hs; by apply (ri_stream _ _ _ _ Hi k)|lia|].
  rewrite !Forall_cons in T5. destruct T5 as (L1 & L2 & L3 & L4 & _).
  destruct (recovery_stats_ok _ L1) as (s1 & E1 & Q1). destruct (recovery_stats_ok _ L2) as (s2 & E2 & Q2).
  destruct (recovery_stats_ok _ L3) as (s3 & E3 & Q3). destruct (recovery_stats_ok _ L4) as (s4 & E4 & Q4).
  unfold rx_finish, rx_report. rewrite Et. cbn [rbind]. rewrite E1, E2, E3, E4. cbn [rbind]. set (r := mkRxReport _ _ _ _ _ _ _ _ _ _ _ _ _ _ _ _).
  assert (Hr : report_ok rx r).
  { destruct Ha as [A1 A2 A3 A4]. apply cong_eq in A2 as A2'; [|done]. constructor.
    - cbn. split; [done|]. destruct (ra_dedupe_enabled args) eqn:Hen; [|done]. destruct (A3 Hen) as (_ & B2 & _).
      rewrite A2'. apply cong_eq; [by rewrite T2|done].
    - cbn. intros Hen. rewrite Hen. destruct (A3 Hen) as (_ & _ & B3). unfold seen_count in T3. by rewrite T3.
    - exact T4.
    - exists t. cbn. by split_and!. }
  clearbody r. destruct (_ && _); [exists 1, None; split_and!; [done|by right|done..]|].
  eexists _, _. split; [done|]. destruct (negb (ra_count args =? 0) && _) eqn:Ec.
  - split_and!; [by right|done|done|by intros x [= <-]].
  - split_and!; [by left| |done|by intros x [= <-]]. intros _. destruct (Z.eqb_spec (ra_count args) 0); [by left|]. right. cbn in Ec. zbool. lia.
Qed.

Lemma rx_start_full (ring : R) (conn : bytes) (now : Z) : sink_log ring = [] -> rx_full args 0 (mn_rx (rx_start args ring conn now)).
Proof using All.
  intros Hl. destruct (args_window args Hargs) as (w0 & Hw & Hr). pose proof (rw_gens args Hargs). pose proof (rw_streams args Hargs). split.
  - apply (rx_init_inv _ _ Hr w0 Hw sink_total); [lia|done].
  - constructor; cbn; rewrite ?Hl; [unfold in_range; lia|reflexivity| |].
    + intros _. by rewrite !msum_empty.
    + rewrite map_size_empty. lia.
Qed.

(** Every run ends in one of the ways the code foresees. *)
Lemma rx_run_main_ok (ring : R) (env : RxEnv) :
  sink_log ring = [] -> 1024 * Z.of_nat (length (re_turns env)) < 2 ^ 64 ->
  wp (fun f => f = OutOfFuel)
    (fun '(status, om, r) => (status = 0 \/ status = 1) /\ (status = 0 -> om <> None) /\
       forall m, om = Some m -> ended ring env status m r /\ exists N, rx_full args N (mn_rx m))
    (rx_run_main args ring env).
Proof using All.
  intros Hl Hb. unfold rx_run_main. apply wp_bind with (fun _ => True).
  { generalize (re_attach env) as turns. induction turns as [|[[stop readers] now] turns IH]; cbn; [done|].
    destruct (_ || _); [done|]. by destruct (_ <? _). }
  intros attached _. destruct attached; cbn [negb]; [|split_and!; [by right|done..]].
  destruct (if udp args then Some [] else _) as [conn|]; [|split_and!; [by right|done..]].
  destruct (rx_main_loop_ok args Hargs sink_total (re_turns env) (rx_start args ring conn (re_start env)) 0 (rx_start_full ring conn (re_start env) Hl))
    as (early & m & E & Hf & Hs); [lia|lia|]. rewrite E. cbn [rbind]. destruct early as [s|].
  - rewrite (Hs s eq_refl) in *. cbn. split_and!; [by right|done|]. intros m' [= <-]. split; [by eapply ended_early|by eexists].
  - destruct (rx_finish_ok _ _ (re_csv env) Hf) as (status & r & Ef & H1 & H2 & _). rewrite Ef. cbn. split_and!; [done|done|].
    intros m' [= <-]. split; [by eapply ended_finish|by eexists].
Qed.
End Whole.

(** ** Properties *)

(** The receiver as a program.  For every configuration that
    [parse_args] lets through and whatever the network, the listener, the clock
    and the signals do: [run] ends without a fault (waiting for readers, it ends
    when its clock does); its status is 0 or 1, and 0 only if the loop ran to its
    end and, with [--count], that many frames were published (or echoed); and in
    every case the ring holds only validated frames of nonzero identity, none
    twice, as many as [published] says. *)
Theorem receiver_run_correct {R : Type} `{SinkLaws R} (args : RxArgs) (ring : R) (env : RxEnv) :
  rx_args_wf args -> (forall (r : R) f, exists r', sink_publish r f = Ok r') -> sink_log ring = [] ->
  1024 * Z.of_nat (length (re_turns env)) < 2 ^ 64 ->
  wp (fun f => f = OutOfFuel)
    (fun '(status, om, r) =>
       (status = 0 \/ status = 1) /\
       (status = 0 -> exists m, om = Some m /\ (ra_count args = 0 \/ ra_count args <= (if ra_echo args then rx_echoed (mn_rx m) else rx_published (mn_rx m)))) /\
       (forall m, om = Some m -> sound args (mn_rx m)))
    (rx_run_main args ring env).
Proof.
  intros Hargs Hsink Hl Hb. eapply wp_mono; [by apply rx_run_main_ok|done|]. intros [[status om] r] (Hs & H0' & Hm). split_and!; [done| |].
  - intros Hst. destruct om as [m|]; [|by destruct (H0' Hst)]. exists m. split; [done|]. destruct (Hm m eq_refl) as [He [N Hf]].
    destruct (rx_finish_ok args Hargs Hsink N (mn_rx m) (re_csv env) Hf) as (st' & r' & E & _ & H2 & _).
    subst status. inversion He as [|? ? ? ? _ E2]. subst. rewrite E2 in E. injection E as <- <-. by apply H2.
  - intros m ->. destruct (Hm m eq_refl) as [_ [N Hf]]. by eapply full_sound.
Qed.

(** C25: The report tells the truth.  When [run] prints its summary, after
    whatever input: [published] is the number of frames in the ring (modulo
    2^64) and [accepted], summed over the windows of all streams, is the same
    number; with the windows enabled [accepted], [duplicates] and [too_old] add up to
    the number of frames they were shown; every recovered frame is attributed to
    one close reason; and the recovery percentiles are the quantiles of the
    merged samples. *)
Theorem receiver_report_exact {R : Type} `{SinkLaws R} (args : RxArgs) (ring : R) (env : RxEnv) (status : Z) (m : RxMain R) (r : RxReport) :
  rx_args_wf args -> (forall (r : R) f, exists r', sink_publish r f = Ok r') -> sink_log ring = [] ->
  1024 * Z.of_nat (length (re_turns env)) < 2 ^ 64 ->
  rx_run_main args ring env = Ok (status, Some m, Some r) -> report_ok args (mn_rx m) r.
Proof.
  intros Hargs Hsink Hl Hb E. pose proof (rx_run_main_ok args Hargs Hsink ring env Hl Hb) as Hw. rewrite E in Hw. destruct Hw as (_ & _ & Hm).
  destruct (Hm m eq_refl) as [He [N Hf]]. destruct (rx_finish_ok args Hargs Hsink N (mn_rx m) (re_csv env) Hf) as (st' & r' & E' & _ & _ & _ & H4).
  inversion He as [|? ? ? ? _ E2]. subst. rewrite E2 in E'. injection E' as <- <-. by apply H4.
Qed.

(** Echo mode sends back what arrived.  In every run the datagrams
    handed to the kernel are an initial segment of the datagrams received, byte
    for byte and in order; nothing is published; and the count the exit status
    is judged by is their number (modulo 2^64). *)
Theorem receiver_echo_exact {R : Type} `{SinkLaws R} (args : RxArgs) (ring : R) (env : RxEnv) (status : Z) (m : RxMain R) (r : option RxReport) :
  rx_args_wf args -> ra_echo args = true -> (forall (r : R) f, exists r', sink_publish r f = Ok r') -> sink_log ring = [] ->
  1024 * Z.of_nat (length (re_turns env)) < 2 ^ 64 ->
  rx_run_main args ring env = Ok (status, Some m, r) ->
  rx_ring (mn_rx m) = ring /\ (exists rest, concat (map (turn_raws args) (re_turns env)) = mn_echo m ++ rest) /\
  (status = 0 -> rx_echoed (mn_rx m) = u64 (Z.of_nat (length (mn_echo m)))).
Proof.
  intros Hargs Hecho Hsink Hl Hb E. pose proof (rx_run_main_ok args Hargs Hsink ring env Hl Hb) as Hw. rewrite E in Hw. destruct Hw as (_ & _ & Hm).
  destruct (Hm m eq_refl) as [He _]. pose proof (rw_echo args Hargs Hecho) as Hudp.
  assert (Hloop : exists early conn, rx_main_loop args (rx_start args ring conn (re_start env)) (re_turns env) = Ok (early, m) /\ (status = 0 -> early = None)).
  { inversion He; subst; eexists _, _; split; done. }
  destruct Hloop as (early & conn & El & Hst). destruct (echo_main_loop args Hudp Hecho _ _ _ _ El) as (out & rest & Hc & [S1 S2 S3] & Hn).
  cbn in S1, S2, S3. subst out. split_and!; [done|by exists rest|]. intros Hs%Hst%Hn. unfold echo_counted in Hs. cbn in Hs.
  apply cong_eq; [done|]. apply S3. unfold in_range. lia.
Qed.

(** ** Witnesses *)
Definition demo_udp_args : RxArgs := RxArgs_default <| ra_allow_insecure_udp := true |> <| ra_count := 1 |>.
Definition demo_echo_args : RxArgs := demo_udp_args <| ra_echo := true |> <| ra_count := 2 |>.
Definition demo_stream_args : RxArgs := RxArgs_default <| ra_ack_publish := true |> <| ra_unix_listen := "/run/rx"%string |>.

Definition demo_args_ok (a : RxArgs) : Prop := match receiver_check a with Ok a' => a' = a | Throw _ => False end.
Lemma demo_args_wf (a : RxArgs) : rx_loose a -> demo_args_ok a -> rx_args_wf a.
Proof. intros Hl Ha. pose proof (receiver_check_wp a Hl) as Hw. unfold demo_args_ok in Ha. destruct (receiver_check a); [by subst|done]. Qed.
Lemma demo_udp_wf : rx_args_wf demo_udp_args.
Proof. apply demo_args_wf; [unfold rx_loose, in_range; cbn; lia|vm_compute; reflexivity]. Qed.
Lemma demo_echo_wf : rx_args_wf demo_echo_args.
Proof. apply demo_args_wf; [unfold rx_loose, in_range; cbn; lia|vm_compute; reflexivity]. Qed.

Definition quiet_turn : RxTurn := mkTurn false (fun _ => 7) RecvAgain [] false 0 [] [] [] 8 9.
Definition demo_turn (r : recv_answer) (sends : list Z) : RxTurn := mkTurn false (fun _ => 7) r [] false 0 [] sends [] 8 9.
Definition demo_env (turns : list RxTurn) : RxEnv := mkEnv 1 [(false, 0, 2)] 3 [] 4 turns (mkCsv true true).

Definition demo_udp_env : RxEnv :=
  demo_env [quiet_turn; demo_turn (RecvGot [mkMessage true demo_datagram 5; mkMessage false demo_datagram 6; mkMessage false demo_datagram 7]) []].
Definition demo_echo_env : RxEnv := demo_env [demo_turn (RecvGot [mkMessage false demo_datagram 5; mkMessage false demo_wire 6]) [1; 1]].

(** The numbers of a run. *)
Definition run_view (r : res (Z * option (RxMain (list bytes)) * option RxReport)) : option (Z * nat * nat * option (Z * Z * Z)) :=
  match r with
  | Ok (status, Some m, r) => Some (status, length (rx_ring (mn_rx m)), length (mn_echo m), (fun r => (rr_received r, rr_accepted r, rr_duplicates r)) <$> r)
  | _ => None
  end.
Lemma run_view_inv (r : res (Z * option (RxMain (list bytes)) * option RxReport)) (status : Z) (n e : nat) (x : Z * Z * Z) :
  run_view r = Some (status, n, e, Some x) ->
  exists m rep, r = Ok (status, Some m, Some rep) /\ length (rx_ring (mn_rx m)) = n /\ length (mn_echo m) = e /\ (rr_received rep, rr_accepted rep, rr_duplicates rep) = x.
Proof. destruct r as [[[s [m|]] [rep|]]|]; try done. intros [= <- <- <- <-]. by exists m, rep. Qed.

Lemma demo_udp_run : run_view (rx_run_main demo_udp_args ([] : list bytes) demo_udp_env) = Some (0, 1%nat, 0%nat, Some (3, 1, 0)).
Proof. vm_compute. reflexivity. Qed.
Lemma demo_echo_run : run_view (rx_run_main demo_echo_args ([] : list bytes) demo_echo_env) = Some (0, 0%nat, 2%nat, Some (2, 0, 0)).
Proof. vm_compute. reflexivity. Qed.

Lemma list_sink_total : forall (r : list bytes) f, exists r', sink_publish r f = Ok r'.
Proof. intros r f. by eexists. Qed.

Lemma receiver_run_correct_witness :
  exists m r, rx_run_main demo_udp_args ([] : list bytes) demo_udp_env = Ok (0, Some m, Some r) /\ length (rx_ring (mn_rx m)) = 1%nat /\ sound demo_udp_args (mn_rx m).
Proof.
  destruct (run_view_inv _ _ _ _ _ demo_udp_run) as (m & r & E & Hn & _). exists m, r. split; [exact E|]. split; [exact Hn|].
  pose proof (receiver_run_correct demo_udp_args ([] : list bytes) demo_udp_env demo_udp_wf list_sink_total eq_refl ltac:(cbn; lia)) as Hw.
  rewrite E in Hw. destruct Hw as (_ & _ & Hm). exact (Hm m eq_refl).
Defined.

Lemma receiver_report_exact_witness :
  exists m r, rx_run_main demo_udp_args ([] : list bytes) demo_udp_env = Ok (0, Some m, Some r) /\ rr_accepted r = 1 /\ report_ok demo_udp_args (mn_rx m) r.
Proof.
  destruct (run_view_inv _ _ _ _ _ demo_udp_run) as (m & r & E & _ & _ & Hx). exists m, r. split; [exact E|]. split; [congruence|].
  exact (receiver_report_exact demo_udp_args ([] : list bytes) demo_udp_env 0 m r demo_udp_wf list_sink_total eq_refl ltac:(cbn; lia) E).
Defined.

Lemma receiver_echo_exact_witness :
  exists m r, rx_run_main demo_echo_args ([] : list bytes) demo_echo_env = Ok (0, Some m, r) /\ length (mn_echo m) = 2%nat /\
    exists rest, concat (map (turn_raws demo_echo_args) (re_turns demo_echo_env)) = mn_echo m ++ rest.
Proof.
  destruct (run_view_inv _ _ _ _ _ demo_echo_run) as (m & r & E & _ & He & _). exists m, (Some r). split; [exact E|]. split; [exact He|].
  destruct (receiver_echo_exact demo_echo_args ([] : list bytes) demo_echo_env 0 m (Some r) demo_echo_wf eq_refl list_sink_total eq_refl ltac:(cbn; lia) E)
    as (_ & Hr & _). exact Hr.
Defined.

(** An acknowledgement does not mean publication: a frame below the window of
    its stream is acknowledged with 1 like the one before it, and dropped. *)
Definition demo_stream_datagram (seq : Z) : bytes :=
  match build_trade 7 (Some 9) demo_clocks seq with
  | Ok (m, _) => match encode (native_image m) with Ok w => mux_wrap (mkKey 7 9) w | Throw _ => [] end
  | Throw _ => []
  end.
Definition demo_stream_frame (seq : Z) : bytes := prefix2 (Z.of_nat (length (demo_stream_datagram seq))) ++ demo_stream_datagram seq.
Definition stream_turn : RxTurn := mkTurn false (fun _ => 7) RecvAgain (repeat (TMoved 400) 4) false 0 [] [] [[TMoved 1]] 8 9.
Definition demo_stream_env : RxEnv :=
  mkEnv 1 [(false, 0, 2)] 3 [mkAccept false 4 (Some (Some (demo_stream_frame 100 ++ demo_stream_frame 5)))] 4
    [stream_turn; stream_turn; demo_turn RecvAgain []] (mkCsv true true).

Example acknowledged_but_dropped :
  match rx_run_main demo_stream_args ([] : list bytes) demo_stream_env with
  | Ok (_, Some m, Some r) => mn_acks m = map z2b [1; 1] /\ length (rx_ring (mn_rx m)) = 1%nat /\ rr_too_old r = 1
  | _ => False
  end.
Proof. vm_compute. done. Qed.
