(* ===== verification/SenderMain.v ===== *)
(** * The sender as a program: [run] of [harness/src/sender.cpp]

    [Sender] models the loop and the final flush; this file adds the
    configuration it runs under, the wait for outstanding echoes, the end of the
    fan-out queues, the printed summary and the exit status. *)
From S2P Require Import Prelude Double Samples Message Wire Fec Multiplex Sink Ring Transport Batch Fanout Sender SenderCorrect Metrics Quantiles Args Config.
From Stdlib Require Strings.String.
Import Strings.String.StringSyntax.
Local Delimit Scope string_scope with string.
Local Open Scope Z_scope.

(** ** Operations *)

(** What the loop reads of [Config]; [sockets] are the descriptors opened for
    the destinations. *)
Definition tx_config (a : TxArgs) (sockets : list (nat * option bool)) : TxConfig :=
  mkTxConfig (mkKey (ta_stream_id a) (ta_stream_epoch a)) (ta_durable_acks a) (ta_count a) (ta_idle_ms a) (Z.to_nat (ta_repeat a))
    (Z.to_nat (ta_batch_size a)) (ta_batch_timeout_us a) (ta_fec_k a) (ta_fec_parity a) (ta_fec_timeout_us a)
    (ta_test_drop_pct a) (ta_test_reorder_pct a) (ta_test_reorder_delay_us a) (negb (str_empty (ta_echo_out_shm a))) sockets.

(** The line [run] prints. *)
Record TxReport := mkTxReport {
  sr_sent : Z; sr_counters : SendCounters; sr_echoed : Z; sr_lapped : Z; sr_skipped : Z; sr_fast_path : bool;
  sr_duration_ns : Z; sr_active_ns : Z; sr_idle_terminated : bool; sr_effective_rate : double;
  sr_fec : Fs; sr_fec_overhead_pct : double; sr_arrival : Distribution; sr_dropped : Z; sr_reordered : Z
}.

Section Run.
Context {R : Type} `{Sink R}.
Variable cfg : TxConfig.

(** [idle_terminated]: the loop ended at [idle_check]. *)
Fixpoint idle_terminated (stops : list bool) (t : Tx R) : bool :=
  match stops with
  | [] => false
  | stop :: stops' =>
    if stop || negb (more_wanted cfg t) then false
    else match tx_iteration cfg t with
         | Ok (Continue, t) => idle_terminated stops' t
         | Ok (IdleBreak, _) => true
         | _ => false
         end
  end.

(** [while (echo_state.received < send_counters.packets)]; the clock is read once
    per turn.  The flag is false when [run] returned 1. *)
Fixpoint echo_wait (clock : list Z) (deadline packets : Z) (evs : list echo_event) (ring : R) (received : Z)
    : res (bool * list echo_event * R * Z) :=
  if received <? packets then
    match clock with
    | [] => Ok (false, evs, ring, received)
    | now :: clock' =>
      let! '(ok, evs, ring, received) := drain_echo evs ring received in
      if negb ok || (deadline <? now) then Ok (false, evs, ring, received)
      else echo_wait clock' deadline packets evs ring received
    end
  else Ok (true, evs, ring, received).

(** [static_cast<double>(n) * scale / static_cast<double>(d)], 0 when [d] is. *)
Definition scaled_ratio (n scale d : Z) : double :=
  if d =? 0 then S754_zero false else ddiv (dmul (double_of n) (double_of scale)) (double_of d).

Definition tx_report (idle : bool) (duration : Z) (c : SendCounters) (t : Tx R) : res TxReport :=
  let idle_ns := u64 (tx_idle_ms cfg * 1000000) in
  let active := if idle && (idle_ns <? duration) then duration - idle_ns else duration in
  let! arrival := distribution (f_intervals (t_fs t)) in
  Ok (mkTxReport (t_sent t) c (t_echo_received t) (t_lapped t) (t_skipped t) (plain_fast_path cfg) duration active idle
        (scaled_ratio (t_sent t) 1000000000 active) (t_fs t) (scaled_ratio (f_parity_bytes (t_fs t)) 100 (f_data_bytes (t_fs t)))
        arrival (e_dropped (t_em t)) (e_reordered (t_em t))).

(** What the environment answers; [se_dests] are the destinations of the fan-out
    when [finish] has joined their workers. *)
Record TxEnv := mkTxEnv {
  se_edge : Z; se_from_edge : bool; se_io : World; se_draws : list bool; se_reads : list (FrameStatus * bytes * Z); se_stops : list bool;
  se_echo : list echo_event; se_echo_now : Z; se_echo_timeout_ms : Z; se_echo_clock : list Z; se_dests : list Dest; se_start : Z; se_end : Z
}.

(** [run] once the ring and the sockets are open: the status and, when it gets
    that far, the report. *)
Definition tx_main (echo_ring : R) (env : TxEnv) : res (Z * Tx R * option TxReport) :=
  let! t0 := tx_init cfg echo_ring (if se_from_edge env then se_edge env else 0) (se_io env) (se_draws env) (se_reads env) (se_echo env) in
  let! '(ok, t) := tx_run cfg (se_stops env) t0 in
  if negb ok then Ok (1, t, None)
  else
    let packets := sc_packets (o_counters (e_out (t_em t))) in
    let! '(ok, evs, ring, received) :=
      if tx_echo cfg
      then echo_wait (se_echo_clock env) (u64 (se_echo_now env + u64 (se_echo_timeout_ms env * 1000000))) packets (t_echo t) (t_echo_ring t) (t_echo_received t)
      else Ok (true, t_echo t, t_echo_ring t, t_echo_received t) in
    let t := mkTx (t_em t) (t_fs t) (t_reads t) (t_read_index t) (t_sent t) (t_lapped t) (t_skipped t) (t_last_progress t) evs ring received (t_taken t) in
    if negb ok then Ok (1, t, None)
    else
      let '(destinations_ok, c) := if fanout cfg then finish (se_dests env) (o_counters (e_out (t_em t))) else (true, o_counters (e_out (t_em t))) in
      let! r := tx_report (idle_terminated (se_stops env) t0) (u64 (se_end env - se_start env)) c t in
      Ok ((if negb destinations_ok then 1 else if negb (tx_count cfg =? 0) && (t_sent t <? tx_count cfg) then 1 else 0), t, Some r).
End Run.

(** ** Correctness *)
Section Correct.
Context {R : Type} `{Sink R}.
Variables (args : TxArgs) (sockets : list (nat * option bool)).
#[local] Abbreviation cfg := (tx_config args sockets).
Hypothesis Hargs : tx_args_wf args.
Lemma config_batch : (1 <= tx_batch_size cfg)%nat.
Proof using Hargs. pose proof (tw_batch args Hargs). cbn. lia. Qed.
Lemma config_fec : 0 <= tx_fec_k cfg <= 128.
Proof using Hargs. exact (proj1 (tw_fec args Hargs)). Qed.
Lemma config_parity : 1 <= tx_fec_parity cfg <= 16.
Proof using Hargs. exact (proj1 (proj2 (tw_fec args Hargs))). Qed.

(** Echo mode is off, or the configuration has been checked for it. *)
Lemma config_echo : str_empty (ta_echo_out_shm args) = true \/ (length sockets <= 1)%nat /\ (forall (r : R) f, exists r', sink_publish r f = Ok r') -> echo_safe R cfg.
Proof using Type.
  intros [He|[Hl Hs]]; [left; cbn; by rewrite He|right]. split; [|done]. unfold fanout. cbn. by destruct sockets as [|s0 [|s1 l]]; cbn in *; [| |lia].
Qed.

Lemma echo_wait_total (clock : list Z) (deadline packets : Z) (evs : list echo_event) (ring : R) (n : Z) :
  (forall (r : R) f, exists r', sink_publish r f = Ok r') -> exists ok evs' ring' n', echo_wait clock deadline packets evs ring n = Ok (ok, evs', ring', n').
Proof using Type.
  intros Hs. revert evs ring n. induction clock as [|now clock IH]; intros evs ring n; cbn [echo_wait]; (destruct (n <? packets); [|by eexists _, _, _, _]); [by eexists _, _, _, _|].
  destruct (drain_echo_total evs ring n Hs) as (ok & e1 & r1 & n1 & ->). cbn [rbind]. destruct (_ || _); [by eexists _, _, _, _|apply IH].
Qed.

(** The encoder accepts the configuration. *)
Lemma tx_init_total (ring : R) (start : Z) (io : World) (draws : list bool) (reads : list (FrameStatus * bytes * Z)) (evs : list echo_event) :
  exists t0, tx_init cfg ring start io draws reads evs = Ok t0.
Proof using Hargs.
  unfold tx_init. destruct (steady_now_ns io) as [now io']. destruct (tw_fec args Hargs) as (Hk & Hp & _).
  destruct (encoder_constructs (ta_fec_k args) (ta_fec_parity args) Hk Hp) as [e He]. cbn [tx_fec_k tx_fec_parity tx_config]. rewrite He. by eexists.
Qed.

(** What the workers did: each destination was offered the flushed batches, and
    its worker has exited. *)
Definition joined (env : TxEnv) (flushed : list (list bytes)) : Prop :=
  Forall2 (fun d s => dreach (ta_queue_bytes args) (tx_batch_size cfg) (tx_repeat cfg) (tx_durable_acks cfg) s d /\ d_worker d = Exited /\
                      d_offered d = flushed) (se_dests env) sockets.

(** Every destination's socket has taken every flushed batch, in order. *)
Definition delivered (env : TxEnv) (t : Tx R) : Prop :=
  if fanout cfg
  then Forall2 (fun d s => d_wire d = flat_map (wire_of_work (tx_repeat cfg) s) (o_flushed (e_out (t_em t)))) (se_dests env) sockets
  else wd_wire (o_io (e_out (t_em t))) = flat_map (plan_of cfg) (o_flushed (e_out (t_em t))).

Lemma finish_delivered (env : TxEnv) (flushed : list (list bytes)) (c : SendCounters) :
  joined env flushed -> fst (finish (se_dests env) c) = true ->
  Forall2 (fun d s => d_wire d = flat_map (wire_of_work (tx_repeat cfg) s) flushed) (se_dests env) sockets.
Proof.
  intros Hj Hf. assert (Hd := finish_delivers (ta_queue_bytes args) (tx_batch_size cfg) (tx_repeat cfg) (tx_durable_acks cfg) (se_dests env) sockets c).
  specialize (Hd (Forall2_impl _ _ _ _ Hj (fun d s x => conj (proj1 x) (proj1 (proj2 x)))) Hf). unfold joined in Hj.
  rewrite Forall2_lookup in *. intros i. specialize (Hj i). specialize (Hd i).
  destruct Hj as [d s (_ & _ & Ho)|]; [|constructor]. inversion Hd as [? ? (_ & Hw & _)|]; subst. constructor. exact Hw.
Qed.
End Correct.

(** How a run of the program ends; the delivery by the fan-out is conditional on
    what its workers did. *)
Lemma tx_main_outcome {R : Type} `{Sink R} (args : TxArgs) (sockets : list (nat * option bool)) (echo_ring : R) (env : TxEnv) :
  tx_args_wf args -> echo_safe R (tx_config args sockets) ->
  tx_test_drop (tx_config args sockets) = false -> tx_test_reorder (tx_config args sockets) = false ->
  wd_wire (se_io env) = [] -> Z.of_nat (length (se_reads env)) < 2 ^ 64 ->
  wp (fun f => f = InvalidArgument /\ exists out resume s, In (kOk, out, resume) (se_reads env) /\ stamp (tx_config args sockets) out = Ok s /\ validate_frame s = false)
    (fun '(status, t, r) => (status = 0 \/ status = 1) /\
       (status = 0 -> sent_all (tx_config args sockets) (se_reads env) t /\ ((forall t0 t, tx_init (tx_config args sockets) echo_ring (if se_from_edge env then se_edge env else 0) (se_io env) (se_draws env) (se_reads env) (se_echo env) = Ok t0 ->
     tx_run (tx_config args sockets) (se_stops env) t0 = Ok (true, t) -> fanout (tx_config args sockets) = true ->
     joined args sockets env (o_flushed (e_out (t_em t)))) -> delivered args sockets env t) /\
          (ta_count args = 0 \/ ta_count args <= Z.of_nat (length (t_taken t))) /\
          exists rep, r = Some rep /\ sr_sent rep = Z.of_nat (length (t_taken t)) /\
            (f_intervals (t_fs t) <> [] -> is_quantile 50 100 (f_intervals (t_fs t)) (di_p50 (sr_arrival rep)) /\
               is_quantile 99 100 (f_intervals (t_fs t)) (di_p99 (sr_arrival rep)) /\ is_max (f_intervals (t_fs t)) (di_max (sr_arrival rep)))))
    (tx_main (tx_config args sockets) echo_ring env).
Proof.
  intros Hargs C4 Hd Hr Hw Hb. set (cfg := tx_config args sockets) in *.
  pose proof (config_batch args sockets Hargs) as C1. pose proof (config_fec args sockets Hargs) as C2. pose proof (config_parity args sockets Hargs) as C3.
  unfold tx_main.
  destruct (tx_init_total args sockets Hargs echo_ring (if se_from_edge env then se_edge env else 0) (se_io env) (se_draws env) (se_reads env) (se_echo env)) as [t0 E0].
  fold cfg in E0, C1, C2, C3, C4. rewrite E0. cbn [rbind].
  pose proof (tx_run_outcome cfg C1 C2 C3 C4 echo_ring _ _ _ _ _ t0 (se_stops env) Hd Hr Hw Hb E0) as Hout.
  destruct (tx_init_ok cfg C1 C2 C3 _ _ _ _ _ _ t0 Hw Hb E0) as [Hi Hroom].
  pose proof (tx_run_ok cfg C1 C2 C3 C4 (se_reads env) (se_stops env) t0 Hi Hroom) as Hinv.
  destruct (tx_run cfg (se_stops env) t0) as [[ok t]|f] eqn:Er; cbn [rbind]; [|exact Hout].
  destruct ok; cbn [negb]; [|split; [by right|done]]. destruct (Hinv eq_refl) as (Hti & _). cbn [snd] in Hti.
  assert (Hwait : forall d, exists ok evs ring n, (if tx_echo cfg then echo_wait (se_echo_clock env) d (sc_packets (o_counters (e_out (t_em t)))) (t_echo t) (t_echo_ring t) (t_echo_received t)
    else Ok (true, t_echo t, t_echo_ring t, t_echo_received t)) = Ok (ok, evs, ring, n)).
  { intros d. destruct C4 as [->|[_ Hs]]; [by eexists _, _, _, _|]. destruct (tx_echo cfg); [by apply echo_wait_total|by eexists _, _, _, _]. }
  destruct (Hwait (u64 (se_echo_now env + u64 (se_echo_timeout_ms env * 1000000)))) as (eok & evs & ering & en & ->). cbn [rbind].
  destruct eok; cbn [negb]; [|split; [by right|done]].
  destruct (distribution_ok (f_intervals (t_fs t)) (fo_iv _ _ (proj1 (ti_fs _ _ _ Hti)))) as (di & Edi & Hdi).
  destruct (if fanout cfg then _ else _) as [dok c] eqn:Ef. unfold tx_report. cbn [t_fs t_sent]. rewrite Edi. cbn [rbind wp].
  split; [destruct dok; cbn [negb]; [destruct (_ && _)|]; auto|]. intros Hst. destruct dok; [|done]. cbn [negb] in Hst.
  destruct (negb (tx_count cfg =? 0) && _) eqn:Ec; [done|]. split_and!.
  - exact Hout.
  - intros Hj. unfold delivered. fold cfg. destruct (fanout cfg) eqn:Hfan; [|by apply Hout]. eapply finish_delivered; [by apply (Hj t0 t)|by rewrite Ef].
  - cbn [t_taken t_sent] in *. rewrite (ti_sent _ _ _ Hti) in Ec. change (tx_count cfg) with (ta_count args) in Ec.
    destruct (Z.eqb_spec (ta_count args) 0); [by left|right]. cbn in Ec. zbool. lia.
  - eexists. split; [done|]. cbn [sr_sent sr_arrival t_taken t_fs]. split; [apply (ti_sent _ _ _ Hti)|]. intros Hne. by destruct Hdi as [[? _]|?].
Qed.

(** ** Properties *)

(** The sender as a program, from its command line to its exit status.
    For every configuration [parse_args] lets through (without the echo and the
    impairment options): [run] ends, with a status of 0 or 1, or with
    the exception for a frame of the ring that is not a message, which [main] turns into 1.
    Status 0 means delivery: as many frames as [--count] asked for were read,
    every one was sent, in order and encoded under the sender's identity, and
    every destination's socket, with one destination or with the fan-out queues,
    has taken all of it.  The report counts the frames taken, and its arrival
    percentiles are the quantiles of the sampled intervals. *)
Theorem sender_exit_zero_means_delivered {R : Type} `{Sink R} (args : TxArgs) (sockets : list (nat * option bool)) (echo_ring : R) (env : TxEnv) :
  tx_args_wf args -> str_empty (ta_echo_out_shm args) = true ->
  tx_test_drop (tx_config args sockets) = false -> tx_test_reorder (tx_config args sockets) = false ->
  wd_wire (se_io env) = [] -> Z.of_nat (length (se_reads env)) < 2 ^ 64 ->
  (forall t0 t, tx_init (tx_config args sockets) echo_ring (if se_from_edge env then se_edge env else 0) (se_io env) (se_draws env) (se_reads env) (se_echo env) = Ok t0 ->
     tx_run (tx_config args sockets) (se_stops env) t0 = Ok (true, t) -> fanout (tx_config args sockets) = true ->
     joined args sockets env (o_flushed (e_out (t_em t)))) ->
  wp (fun f => f = InvalidArgument /\ exists out resume s, In (kOk, out, resume) (se_reads env) /\ stamp (tx_config args sockets) out = Ok s /\ validate_frame s = false)
    (fun '(status, t, r) => (status = 0 \/ status = 1) /\
       (status = 0 -> sent_all (tx_config args sockets) (se_reads env) t /\ delivered args sockets env t /\
          (ta_count args = 0 \/ ta_count args <= Z.of_nat (length (t_taken t))) /\
          exists rep, r = Some rep /\ sr_sent rep = Z.of_nat (length (t_taken t)) /\
            (f_intervals (t_fs t) <> [] -> is_quantile 50 100 (f_intervals (t_fs t)) (di_p50 (sr_arrival rep)) /\
               is_quantile 99 100 (f_intervals (t_fs t)) (di_p99 (sr_arrival rep)) /\ is_max (f_intervals (t_fs t)) (di_max (sr_arrival rep)))))
    (tx_main (tx_config args sockets) echo_ring env).
Proof.
  intros Hargs Hecho Hd Hr Hw Hb Hj. eapply wp_mono; [apply tx_main_outcome; [done|by apply config_echo; left|done|done|done|done]|done|].
  intros [[status t] r] [Hs Hz]. split; [done|]. intros H0. destruct (Hz H0) as (Hsent & Hdel & Hrest). split_and!; [done|by apply Hdel|apply Hrest|apply Hrest].
Qed.

(** ** Witness: two frames to one UDP destination *)
Definition demo_tx_argv : list str :=
  ["--dst"; "127.0.0.1:9000"; "--allow-insecure-udp"; "--count"; "2"; "--batch-size"; "4"; "--stream-id"; "7"; "--stream-epoch"; "9"]%string.
Definition demo_tx_args : TxArgs := match sender_parse_args demo_tx_argv None None with Ok c => c | Throw _ => TxArgs_default end.
Definition demo_tx_sockets : list (nat * option bool) := [(3%nat, Some false)].
Definition demo_tx_env : TxEnv :=
  mkTxEnv 0 false (mkWorld [] [STook [None; None]] [] [] []) [] [(kOk, demo_frame, 0); (kOk, demo_frame, 0)] [false; false; false] [] 0 0 [] [] 10 20.

Lemma demo_tx_wf : tx_args_wf demo_tx_args.
Proof.
  pose proof (sender_parse_wp demo_tx_argv None None I I) as Hw. unfold demo_tx_args.
  assert (Hok : exists c, sender_parse_args demo_tx_argv None None = Ok c) by (eexists; vm_compute; reflexivity). destruct Hok as [c E]. by rewrite E in Hw |- *.
Qed.

Definition tx_view (r : res (Z * Tx (list bytes) * option TxReport)) : option (Z * nat) := match r with Ok (s, t, _) => Some (s, length (t_taken t)) | Throw _ => None end.
Lemma tx_view_inv (r : res (Z * Tx (list bytes) * option TxReport)) (s : Z) (n : nat) :
  tx_view r = Some (s, n) -> exists t rep, r = Ok (s, t, rep) /\ length (t_taken t) = n.
Proof. destruct r as [[[s' t] rep]|]; [|done]. intros [= <- <-]. eauto. Qed.
Lemma demo_tx_main_view : tx_view (tx_main (tx_config demo_tx_args demo_tx_sockets) ([] : list bytes) demo_tx_env) = Some (0, 2%nat).
Proof. vm_compute. reflexivity. Qed.

Lemma sender_exit_zero_means_delivered_witness :
  exists t r, tx_main (tx_config demo_tx_args demo_tx_sockets) ([] : list bytes) demo_tx_env = Ok (0, t, r) /\ length (t_taken t) = 2%nat /\
    delivered demo_tx_args demo_tx_sockets demo_tx_env t.
Proof.
  destruct (tx_view_inv _ _ _ demo_tx_main_view) as (t & r & E & Hn). exists t, r. split; [exact E|]. split; [exact Hn|].
  pose proof (sender_exit_zero_means_delivered (R := list bytes) demo_tx_args demo_tx_sockets [] demo_tx_env demo_tx_wf) as Hw.
  rewrite E in Hw. apply Hw; [vm_compute; reflexivity..|cbn; lia| |reflexivity]. intros t0 t1 _ _ Hf. vm_compute in Hf. discriminate Hf.
Defined.
