(* ===== verification/SenderEcho.v ===== *)
(** * The sender in echo mode: [harness/src/sender.cpp]

    With [--echo-out-shm] the sender expects its datagrams back, decodes them
    and publishes them to a second ring ([drain_echo], in every turn of the loop),
    and ends only when as many came back as it sent.  What [recv] answers is the
    list of events of [Sender]. *)
From S2P Require Import Prelude Double Samples Message Wire Fec Multiplex Sink Ring Transport Batch Fanout Sender SenderCorrect Metrics Quantiles Args Config SenderMain.
From Stdlib Require Strings.String.
Import Strings.String.StringSyntax.
Local Delimit Scope string_scope with string.
Local Open Scope Z_scope.

(** The datagram of an answer, and the frame it is turned into. *)
Definition echo_datagram (ev : echo_event) : option bytes := match ev with EGot d => Some d | _ => None end.
Definition reflected (d : bytes) : option bytes :=
  if (length d =? 0)%nat || (length d <? sizeof_Header)%nat then None
  else match mux_unwrap d (mkKey 0 0) with Ok (true, payload, _) => decode payload | _ => None end.

Section Echo.
Context {R : Type} `{SinkLaws R}.

(** The answers [consumed] put the frames [fs] into the echo ring, one for each
    datagram, and counted them. *)
Definition echoes (consumed : list echo_event) (ring ring' : R) (n n' : Z) : Prop :=
  exists fs, Forall2 (fun d f => reflected d = Some f) (omap echo_datagram consumed) fs /\ sink_log ring' = sink_log ring ++ fs /\
    (in_range 64 n -> n' = u64 (n + Z.of_nat (length fs))).

Lemma echoes_none (evs : list echo_event) (ring : R) (n : Z) : omap echo_datagram evs = [] -> echoes evs ring ring n n.
Proof. intros E. exists []. rewrite E, app_nil_r, Z.add_0_r. split_and!; [done|done|]. intros Hn. by rewrite wrap_small. Qed.

Lemma echoes_trans (e1 e2 : list echo_event) (r1 r2 r3 : R) (n1 n2 n3 : Z) : echoes e1 r1 r2 n1 n2 -> echoes e2 r2 r3 n2 n3 -> echoes (e1 ++ e2) r1 r3 n1 n3.
Proof.
  intros (f1 & F1 & L1 & C1) (f2 & F2 & L2 & C2). exists (f1 ++ f2). rewrite omap_app, L2, L1, app_assoc. split_and!; [by apply Forall2_app|done|].
  intros Hn. rewrite C2 by (rewrite (C1 Hn); apply wrap_range; lia). rewrite (C1 Hn), wrap_add_l, length_app. f_equal. lia.
Qed.

(** [drain_echo] that ends well. *)
Lemma drain_echo_echoes (evs evs' : list echo_event) (ring ring' : R) (n n' : Z) :
  drain_echo evs ring n = Ok (true, evs', ring', n') -> exists consumed, evs = consumed ++ evs' /\ echoes consumed ring ring' n n'.
Proof using All.
  revert ring n. induction evs as [|[d| | |] evs IH]; intros ring n E; cbn [drain_echo] in E.
  - injection E as <- <- <-. exists []. split; [done|by apply echoes_none].
  - destruct (_ || _) eqn:El; [done|]. destruct (mux_unwrap d _) as [[[ok payload] k]|] eqn:Eu; [|done]. cbn [rbind] in E. destruct ok; [|done]. cbn [negb] in E.
    destruct (decode payload) as [f|] eqn:Ed; [|done]. destruct (sink_publish ring f) as [r1|] eqn:Ep; [|done]. cbn [rbind] in E.
    destruct (IH _ _ E) as (consumed & -> & He). exists (EGot d :: consumed). split; [done|]. apply (echoes_trans [EGot d] consumed ring r1 ring' n (u64 (n + 1)) n'); [|done].
    exists [f]. split_and!; [|by apply sink_publish_log|done]. cbn. apply Forall2_cons. split; [|constructor]. unfold reflected. by rewrite El, Eu.
  - destruct (IH _ _ E) as (consumed & -> & He). exists (EIntr :: consumed). split; [done|]. by apply (echoes_trans [EIntr] consumed ring ring ring' n n n'); [apply echoes_none|].
  - injection E as <- <- <-. exists [EAgain]. split; [done|by apply echoes_none].
  - done.
Qed.

(** The wait that ends well has them all. *)
Lemma echo_wait_echoes (clock : list Z) (deadline packets : Z) (evs evs' : list echo_event) (ring ring' : R) (n n' : Z) :
  echo_wait clock deadline packets evs ring n = Ok (true, evs', ring', n') ->
  packets <= n' /\ exists consumed, evs = consumed ++ evs' /\ echoes consumed ring ring' n n'.
Proof using All.
  revert evs ring n. induction clock as [|now clock IH]; intros evs ring n E; cbn [echo_wait] in E; (destruct (Z.ltb_spec n packets); [|
    injection E as <- <- <-; split; [done|]; exists []; split; [done|by apply echoes_none]]); [done|].
  destruct (drain_echo evs ring n) as [[[[ok e1] r1] n1]|] eqn:Ed; [|done]. cbn [rbind] in E. destruct ok; cbn [negb orb] in E; [|done]. destruct (deadline <? now); [done|].
  apply drain_echo_echoes in Ed as (c1 & -> & He1). destruct (IH _ _ _ E) as (Hp & c2 & -> & He2). split; [done|]. exists (c1 ++ c2). split; [by rewrite app_assoc|]. by eapply echoes_trans.
Qed.
End Echo.

(** ** The rest of the loop leaves the echoes alone *)
Section Frame.
Context {R : Type} `{Sink R}.
Variable cfg : TxConfig.

Definition echo_of (t : Tx R) : list echo_event * R * Z := (t_echo t, t_echo_ring t, t_echo_received t).
#[local] Abbreviation keeps_echo t m := (wp any_fault (fun r => echo_of (snd r) = echo_of t) m).

Lemma flush_tx_echo (t : Tx R) : keeps_echo t (flush_tx cfg t).
Proof. unfold flush_tx. destruct (flush_batch cfg _) as [[ok o]|]; done. Qed.

Lemma now_tx_echo (t : Tx R) : echo_of (snd (now_tx t)) = echo_of t.
Proof. unfold now_tx. by destruct (now_em _). Qed.

Lemma fast_fill_echo (room : nat) (t : Tx R) (now : Z) (made : bool) : keeps_echo t (fast_fill cfg room t now made).
Proof.
  revert t made. induction room as [|room IH]; intros t made; cbn [fast_fill]; [done|]. destruct (negb _); [done|].
  destruct (next_read (t_reads t)) as [[[st out] resume] reads]. destruct st; try done.
  destruct (stamp cfg out) as [fr|]; [|done]. cbn [rbind]. destruct (encode fr) as [enc|]; [|done]. cbn [rbind].
  destruct (fast_take _ _ _ _ _) as [b|]; [|done]. cbn [rbind]. eapply wp_mono; [apply IH|done|]. by intros r ->.
Qed.

Lemma fast_path_echo (t : Tx R) (now : Z) : keeps_echo t (fast_path cfg t now).
Proof.
  unfold fast_path. eapply wp_bind; [apply fast_fill_echo|]. intros [[made ok] t1] E1. cbn in E1. destruct ok; [|done]. cbn [negb].
  assert (Hm : forall (c : bool) (t : Tx R), keeps_echo t (if c then flush_tx cfg t else Ok (true, t)) /\ keeps_echo t (if c then Ok (true, t) else flush_tx cfg t)).
  { intros [] t'; split; try done; apply flush_tx_echo. }
  eapply wp_bind; [apply Hm|]. intros [ok t2] E2. cbn [snd] in E2. destruct ok; cbn [negb]; [|by rewrite <- E1]. set (t3 := if made then _ else t2).
  assert (E3 : echo_of t3 = echo_of t) by (unfold t3; rewrite <- E1, <- E2; by destruct made).
  eapply wp_bind; [apply Hm|]. intros [ok t4] E4. cbn [snd] in E4. destruct ok; cbn [negb]; [|cbn; congruence].
  destruct made; [cbn; congruence|]. pose proof (now_tx_echo t4) as E5. destruct (now_tx t4) as [n5 t5]. cbn in *. congruence.
Qed.

Lemma slow_path_echo (t : Tx R) (now : Z) : keeps_echo t (slow_path cfg t now).
Proof.
  unfold slow_path. destruct (next_read (t_reads t)) as [[[st out] resume] reads]. destruct st; try done.
  - destruct (stamp cfg out) as [fr|]; [|done]. cbn [rbind]. destruct (encode fr) as [enc|]; [|done]. cbn [rbind].
    destruct (note_arrival _ _ _ _) as [f|]; [|done]. cbn [rbind]. destruct (send_encoded _ _ _ _ _) as [[[ok e] f']|]; [|done]. cbn [rbind]. by destruct ok.
  - pose proof (now_tx_echo (with_reads t reads)) as E1. destruct (now_tx _) as [n t2]. cbn [snd] in E1. destruct (flush_pending_em _ _ _ _) as [[ok e]|]; [|done]. cbn [rbind].
    destruct ok; cbn [negb]; [|exact E1]. eapply wp_bind; [apply flush_tx_echo|]. intros [ok t3] E3. cbn in E3. destruct ok; cbn; rewrite E3; exact E1.
Qed.

(** A turn: the echoes are drained, and then left alone. *)
Lemma tx_iteration_echo (t t' : Tx R) (oc : outcome) :
  tx_echo cfg = true -> tx_iteration cfg t = Ok (oc, t') -> oc <> Exit1 ->
  drain_echo (t_echo t) (t_echo_ring t) (t_echo_received t) = Ok (true, t_echo t', t_echo_ring t', t_echo_received t').
Proof.
  intros He E Hoc. unfold tx_iteration in E. rewrite He in E. destruct (drain_echo _ _ _) as [[[[ok evs] ring] rec]|]; [|done]. cbn [rbind] in E.
  destruct ok; cbn [negb] in E; [|by injection E as <- <-]. set (t0 := mkTx _ _ _ _ _ _ _ _ _ _ _ _) in E. pose proof (now_tx_echo t0) as E1. destruct (now_tx t0) as [now t1]. cbn [snd] in E1.
  destruct (if _ && _ then flush_tx cfg t1 else _) as [[ok2 t2]|] eqn:Ef; [|done]. cbn [rbind] in E. destruct ok2; cbn [negb] in E; [|by injection E as <- <-].
  assert (E2 : echo_of t2 = echo_of t0).
  { rewrite <- E1. destruct (_ && _); [pose proof (flush_tx_echo t1) as Hf; by rewrite Ef in Hf|by injection Ef as <-]. }
  destruct (if _ && _ && _ then _ else _) as [[ok3 t3]|] eqn:Eg; [|done]. cbn [rbind] in E. destruct ok3; cbn [negb] in E; [|by injection E as <- <-].
  assert (E3 : echo_of t3 = echo_of t0).
  { rewrite <- E2. destruct (_ && _ && _); [|by injection Eg as <-]. destruct (close_generation _ _ _ _) as [[[okg e] f]|]; [|done]. cbn [rbind] in Eg. by injection Eg as _ <-. }
  assert (E4 : echo_of t' = echo_of t0).
  { rewrite <- E3. destruct (plain_fast_path cfg); [pose proof (fast_path_echo t3 now) as Hp|pose proof (slow_path_echo t3 now) as Hp]; by rewrite E in Hp. }
  unfold echo_of in E4. cbn in E4. by injection E4 as -> -> ->.
Qed.

Lemma tx_finish_echo (t : Tx R) : keeps_echo t (tx_finish cfg t).
Proof.
  unfold tx_finish. destruct (close_generation _ _ _ _) as [[[ok e] f]|]; [|done]. cbn [rbind]. destruct ok; [|done]. cbn [negb].
  pose proof (now_tx_echo (with_em t e f)) as E1. destruct (now_tx _) as [n t1]. cbn [snd] in E1. destruct (flush_pending_em _ _ _ _) as [[ok e1]|]; [|done]. cbn [rbind].
  destruct ok; cbn [negb]; [|exact E1]. eapply wp_mono; [apply flush_tx_echo|done|]. intros r ->. exact E1.
Qed.
End Frame.

(** ** A whole run *)

(** The parts of a run that exits with status 0. *)
Lemma tx_main_zero_inv {R : Type} `{Sink R} (cfg : TxConfig) (echo_ring : R) (env : TxEnv) (t : Tx R) (r : option TxReport) :
  tx_main cfg echo_ring env = Ok (0, t, r) ->
  exists t0 t1, tx_init cfg echo_ring (if se_from_edge env then se_edge env else 0) (se_io env) (se_draws env) (se_reads env) (se_echo env) = Ok t0 /\
    tx_run cfg (se_stops env) t0 = Ok (true, t1) /\ t_em t = t_em t1 /\ t_taken t = t_taken t1 /\
    (tx_echo cfg = true -> exists deadline,
       echo_wait (se_echo_clock env) deadline (sc_packets (o_counters (e_out (t_em t)))) (t_echo t1) (t_echo_ring t1) (t_echo_received t1) =
         Ok (true, t_echo t, t_echo_ring t, t_echo_received t)).
Proof.
  unfold tx_main. destruct (tx_init _ _ _ _ _ _ _) as [t0|]; [|done]. cbn [rbind]. destruct (tx_run cfg (se_stops env) t0) as [[ok t1]|] eqn:Er; [|done].
  cbn [rbind]. destruct ok; cbn [negb]; [|done]. destruct (if tx_echo cfg then _ else _) as [[[[ok evs] ring] n]|] eqn:Ew; [|done]. cbn [rbind]. destruct ok; cbn [negb]; [|done].
  destruct (if fanout cfg then _ else _) as [dok c]. destruct (tx_report _ _ _ _ _) as [rep|]; [|done]. cbn [rbind]. intros [= _ <- _]. exists t0, t1.
  split_and!; [done|done|done|done|]. intros He. rewrite He in Ew. by eexists.
Qed.

Section Run.
Context {R : Type} `{SinkLaws R}.
Variable cfg : TxConfig.
Hypothesis Hecho : tx_echo cfg = true.

Lemma tx_loop_echoes (stops : list bool) (t t' : Tx R) :
  tx_loop cfg stops t = Ok (true, t') ->
  exists consumed, t_echo t = consumed ++ t_echo t' /\ echoes consumed (t_echo_ring t) (t_echo_ring t') (t_echo_received t) (t_echo_received t').
Proof using All.
  revert t. induction stops as [|stop stops IH]; intros t E; cbn [tx_loop] in E; [injection E as <-; exists []; split; [done|by apply echoes_none]|].
  destruct (stop || _); [injection E as <-; exists []; split; [done|by apply echoes_none]|]. destruct (tx_iteration cfg t) as [[oc t1]|] eqn:Ei; [|done]. cbn [rbind] in E.
  assert (Hoc : oc <> Exit1) by (by destruct oc). pose proof (tx_iteration_echo cfg t t1 oc Hecho Ei Hoc) as Hd. apply drain_echo_echoes in Hd as (c1 & E1 & He1).
  destruct oc; [|injection E as <-; by exists c1|done]. destruct (IH t1 E) as (c2 & E2 & He2). exists (c1 ++ c2). rewrite E1, E2, app_assoc. split; [done|]. by eapply echoes_trans.
Qed.

Lemma tx_main_echoes (echo_ring : R) (env : TxEnv) (t : Tx R) (r : option TxReport) :
  tx_main cfg echo_ring env = Ok (0, t, r) ->
  sc_packets (o_counters (e_out (t_em t))) <= t_echo_received t /\
  exists consumed, se_echo env = consumed ++ t_echo t /\ echoes consumed echo_ring (t_echo_ring t) 0 (t_echo_received t).
Proof using All.
  intros (t0 & t1 & E0 & Er & _ & _ & Hw)%tx_main_zero_inv. destruct (Hw Hecho) as [d Ew]. apply echo_wait_echoes in Ew as (Hp & c2 & E2 & He2). split; [done|].
  unfold tx_run in Er. destruct (tx_loop cfg (se_stops env) t0) as [[ok t2]|] eqn:El; [|done]. cbn [rbind] in Er. destruct ok; [|done]. cbn [negb] in Er.
  pose proof (tx_finish_echo cfg t2) as Hf. rewrite Er in Hf. cbn in Hf. injection Hf as Hf1 Hf2 Hf3. apply tx_loop_echoes in El as (c1 & E1 & He1).
  unfold tx_init in E0. destruct (steady_now_ns _). destruct (Encoder_make _ _); [|done]. cbn [rbind] in E0. injection E0 as <-. cbn [t_echo t_echo_ring t_echo_received] in *.
  exists (c1 ++ c2). rewrite E1, <- Hf1, E2, app_assoc. split; [done|]. rewrite Hf2, Hf3 in He2. by eapply echoes_trans.
Qed.
End Run.

(** What comes back of one's own datagrams. *)
Lemma reflected_own (key : Key) (w f : bytes) : wf_key key -> key_stream key <> 0 -> key_epoch key <> 0 -> reflected (mux_wrap key w) = Some f -> decode w = Some f.
Proof.
  intros Hk H1 H2. unfold reflected. destruct (_ || _); [done|]. rewrite (unwrap_wrap key (mkKey 0 0) w Hk). destruct (Z.eqb_spec (key_stream key) 0), (Z.eqb_spec (key_epoch key) 0); done.
Qed.

(** ** What an accepted echo configuration is *)
Lemma zero_pct (x : double) : nonzero x = false -> SFltb (S754_zero false) x = false.
Proof. destruct x as [[]|[]| |[] m e]; done. Qed.

Section Config.
Variables (args : TxArgs) (sockets : list (nat * option bool)).
#[local] Abbreviation cfg := (tx_config args sockets).
Hypothesis Hargs : tx_args_wf args.
Hypothesis Hecho : str_empty (ta_echo_out_shm args) = false.
Hypothesis Hsockets : length sockets = length (ta_destinations args).

Lemma echo_config :
  tx_echo cfg = true /\ fanout cfg = false /\ tx_test_drop cfg = false /\ tx_test_reorder cfg = false /\ tx_fec_k cfg = 0 /\ tx_repeat cfg = 1%nat /\ exists s, sockets = [s].
Proof using All.
  destruct (tw_echo args Hargs Hecho) as ((d & Hd & _) & Hrep & Hk & Hp1 & Hp2). rewrite Hd in Hsockets. destruct sockets as [|s [|]]; try done.
  split_and!; [cbn; by rewrite Hecho|done|by apply zero_pct|by apply zero_pct|done|cbn; by rewrite Hrep|by exists s].
Qed.

(** One datagram on the wire for each one flushed. *)
Lemma length_echo_plan (bs : list (list bytes)) : length (flat_map (plan_of cfg) bs) = length (concat bs).
Proof using All.
  destruct echo_config as (_ & _ & _ & _ & _ & Hr & s & Hs). induction bs as [|ms bs IH]; [done|]. cbn [flat_map concat]. rewrite !length_app, IH. f_equal.
  unfold plan_of. change (tx_sockets cfg) with sockets. rewrite Hr, Hs. cbn [flat_map List.seq]. by rewrite !app_nil_r, length_map.
Qed.

Section Ended.
Context {R : Type} `{SinkLaws R}.
Variables (echo_ring : R) (env : TxEnv) (t : Tx R) (r : option TxReport).
Hypothesis Hsink : forall (r : R) f, exists r', sink_publish r f = Ok r'.
Hypothesis Hio : wd_wire (se_io env) = [] /\ Z.of_nat (length (se_reads env)) < 2 ^ 64.
Hypothesis Hmain : tx_main cfg echo_ring env = Ok (0, t, r).

(** The packets counted are the messages taken. *)
Lemma echo_packets : sc_packets (o_counters (e_out (t_em t))) = Z.of_nat (length (t_taken t)).
Proof using All.
  destruct echo_config as (Htx & Hfan & Hd & Hro & Hk & _ & s & Hs). destruct Hio as [Hw Hb].
  pose proof (config_batch args sockets Hargs) as C1. pose proof (config_fec args sockets Hargs) as C2. pose proof (config_parity args sockets Hargs) as C3.
  assert (C4 : echo_safe R cfg) by (by right).
  destruct (tx_main_zero_inv _ _ _ _ _ Hmain) as (t0 & t1 & E0 & Er & -> & -> & _). destruct (tx_init_ok cfg C1 C2 C3 _ _ _ _ _ _ t0 Hw Hb E0) as [Hi Hroom].
  pose proof (tx_run_ok cfg C1 C2 C3 C4 (se_reads env) (se_stops env) t0 Hi Hroom) as Hrun. rewrite Er in Hrun. cbn [wp fst snd] in Hrun.
  pose proof (tx_run_outcome cfg C1 C2 C3 C4 echo_ring _ _ _ _ _ t0 (se_stops env) Hd Hro Hw Hb E0) as Hout. rewrite Er in Hout.
  destruct (Hrun eq_refl) as (Hti & _). pose proof (oo_packets _ _ (ti_out _ _ _ Hti) Hfan) as Hp. pose proof (oo_wire _ _ (ti_out _ _ _ Hti) Hfan) as Hwire.
  unfold tallied in Hp. rewrite Hp, Hwire, length_echo_plan. destruct Hout as (_ & Hds & _). rewrite Hds, Hk. cbn [Z.eqb]. rewrite length_map.
  apply wrap_small. pose proof (ti_bound _ _ _ Hti). unfold in_range. lia.
Qed.

(** What comes back of one's own datagrams, each at most once, is everything. *)
Lemma echoes_complete (ds fs : list bytes) :
  sent_all cfg (se_reads env) t -> Forall2 (fun d f => reflected d = Some f) ds fs -> (length (t_taken t) <= length fs)%nat ->
  ds ⊆+ concat (o_flushed (e_out (t_em t))) -> fs ≡ₚ omap decode (t_taken t) /\ length fs = length (t_taken t).
Proof using Hargs Hecho Hsockets.
  intros (_ & Hds & _) Hfs Hlen Hsub. destruct echo_config as (_ & _ & _ & _ & Hk & _). rewrite Hds, Hk in Hsub. cbn [Z.eqb] in Hsub.
  apply submseteq_length_Permutation in Hsub; [|by rewrite length_map, (Forall2_length _ _ _ Hfs)]. apply Permutation_map_inv in Hsub as (ws & -> & Hws).
  rewrite Hws. pose proof (Forall2_length _ _ _ Hfs) as Hl. rewrite length_map in Hl. split; [|lia]. clear - Hfs Hargs.
  destruct (tw_identity _ Hargs) as [Hid1 Hid2]. assert (Hkey : wf_key (tx_key cfg)) by (unfold wf_key, in_range; cbn; lia).
  revert fs Hfs. induction ws as [|w ws IH]; intros fs Hfs; cbn [map] in Hfs; inversion Hfs as [|? f ? fs' Hf Hfs']; subst; [done|].
  apply reflected_own in Hf; [|done|cbn; lia|cbn; lia]. cbn. rewrite Hf. by rewrite <- IH.
Qed.

(** C14: The sender in echo mode.  If it exits with status 0, every frame it
    read was sent in order under its identity; the echo ring has gained one frame
    for each datagram that came back, decoded from it, in that order; their
    number is the number it reports and at least that of the messages it sent.  So
    if what came back are datagrams it sent, each at most once, the echo ring has
    gained every message, decoded, exactly once. *)
Theorem sender_echo_round_trip :
  Z.of_nat (length (se_echo env)) < 2 ^ 64 ->
  sent_all cfg (se_reads env) t /\
  exists consumed fs, se_echo env = consumed ++ t_echo t /\ Forall2 (fun d f => reflected d = Some f) (omap echo_datagram consumed) fs /\
    sink_log (t_echo_ring t) = sink_log echo_ring ++ fs /\ t_echo_received t = Z.of_nat (length fs) /\ (length (t_taken t) <= length fs)%nat /\
    (omap echo_datagram consumed ⊆+ concat (o_flushed (e_out (t_em t))) -> fs ≡ₚ omap decode (t_taken t) /\ length fs = length (t_taken t)).
Proof using All.
  intros Hb. destruct echo_config as (Htx & Hfan & Hd & Hro & _ & _ & _). destruct Hio as [Hw Hr]. assert (C4 : echo_safe R cfg) by (by right).
  pose proof (tx_main_outcome args sockets echo_ring env Hargs C4 Hd Hro Hw Hr) as Hout. rewrite Hmain in Hout. destruct (proj2 Hout eq_refl) as (Hsent & _).
  split; [done|]. destruct (tx_main_echoes cfg Htx echo_ring env t r Hmain) as (Hp & consumed & Hc & fs & Hfs & Hlog & Hn). rewrite echo_packets in Hp.
  assert (Hl : (length fs <= length (se_echo env))%nat).
  { rewrite <- (Forall2_length _ _ _ Hfs), Hc, length_app. clear. induction consumed as [|[] consumed IH]; cbn; lia. }
  specialize (Hn ltac:(unfold in_range; lia)). rewrite wrap_small in Hn by (unfold in_range; lia). cbn [Z.add] in Hn.
  exists consumed, fs. split_and!; [done|done|done|done|lia|]. apply echoes_complete; [done|done|lia].
Qed.
End Ended.
End Config.

(** ** Witness: two messages, which come back in the other order *)
Definition demo_echo_argv : list str := (demo_tx_argv ++ ["--echo-out-shm"; "/echo"])%string.
Definition demo_echo_tx_args : TxArgs := match sender_parse_args demo_echo_argv None None with Ok c => c | Throw _ => TxArgs_default end.
Definition demo_reflected : list bytes :=
  match tx_main (tx_config demo_tx_args demo_tx_sockets) ([] : list bytes) demo_tx_env with Ok (_, t, _) => concat (o_flushed (e_out (t_em t))) | Throw _ => [] end.
Definition demo_echo_tx_env : TxEnv :=
  mkTxEnv 0 false (mkWorld [] [STook [None; None]] [] [] []) [] [(kOk, demo_frame, 0); (kOk, demo_frame, 0)] [false; false; false]
    [EAgain; EAgain; EGot (nth 1 demo_reflected []); EIntr; EGot (nth 0 demo_reflected []); EAgain] 0 1000 [1; 1] [] 10 20.
#[local] Abbreviation demo_echo_run := (tx_main (tx_config demo_echo_tx_args demo_tx_sockets) ([] : list bytes) demo_echo_tx_env).

Lemma demo_echo_tx_wf : tx_args_wf demo_echo_tx_args.
Proof.
  pose proof (sender_parse_wp demo_echo_argv None None I I) as Hw. unfold demo_echo_tx_args.
  assert (Hok : exists c, sender_parse_args demo_echo_argv None None = Ok c) by (eexists; vm_compute; reflexivity). destruct Hok as [c E]. by rewrite E in Hw |- *.
Qed.
Lemma demo_echo_on : str_empty (ta_echo_out_shm demo_echo_tx_args) = false /\ length demo_tx_sockets = length (ta_destinations demo_echo_tx_args).
Proof. split; vm_compute; reflexivity. Qed.
Lemma demo_echo_view : tx_view demo_echo_run = Some (0, 2%nat).
Proof. vm_compute. reflexivity. Qed.
Lemma demo_echo_sink (r : list bytes) (f : bytes) : exists r', sink_publish r f = Ok r'.
Proof. by eexists. Qed.

Lemma sender_echo_round_trip_witness :
  exists t rep, demo_echo_run = Ok (0, t, rep) /\ (2 <= length (t_echo_ring t))%nat /\ t_echo_received t = Z.of_nat (length (t_echo_ring t)).
Proof.
  destruct (tx_view_inv _ _ _ demo_echo_view) as (t & rep & E & Hn). exists t, rep. split; [exact E|].
  assert (Hio : wd_wire (se_io demo_echo_tx_env) = [] /\ Z.of_nat (length (se_reads demo_echo_tx_env)) < 2 ^ 64) by (split; [reflexivity|cbn; lia]).
  destruct (sender_echo_round_trip demo_echo_tx_args demo_tx_sockets demo_echo_tx_wf (proj1 demo_echo_on) (proj2 demo_echo_on) (R := list bytes) [] demo_echo_tx_env t rep
    demo_echo_sink Hio E ltac:(cbn; lia)) as (_ & consumed & fs & _ & _ & Hlog & Hrec & Hlen & _).
  change (t_echo_ring t = fs) in Hlog. rewrite Hlog, <- Hn. split; [exact Hlen|exact Hrec].
Defined.
