(* ===== verification/Programs.v ===== *)
(** * The producer and the consumer as programs

    [run] of [harness/src/producer.cpp] and [harness/src/consumer.cpp] from the
    command line to the exit status, once the segment is mapped and the ring
    attached.  The sender and the receiver are in [SenderMain] and
    [ReceiverMain]. *)
From S2P Require Import Prelude Double Message Wire Multiplex Sink Ring Metrics Consumer Args Producer Config.
From Stdlib Require Strings.String.
Import Strings.String.StringSyntax.
Local Delimit Scope string_scope with string.
Local Open Scope Z_scope.

(** ** Operations *)

(** What the environment answers the producer. *)
Record PrEnv := mkPrEnv { pe_pid : Z; pe_attach_now : Z; pe_attach : list (bool * Z * Z); pe_start : Z; pe_events : list ProdEvent }.

Definition prod_config (a : PrArgs) (interval pid : Z) : ProdConfig := mkProdConfig (pa_kind a) (pa_count a) interval pid.

(** The status and, if the loop was entered, the state it ended in. *)
Definition prod_main {R : Type} `{Sink R} (argv : list str) (ring : R) (env : PrEnv) : res (Z * option (Prod R)) :=
  match producer_parse_args argv with
  | Throw f => Ok (rejected_status f, None)
  | Ok a =>
    let! attached := wait_for_readers (pa_wait_readers a) (u64 (pe_attach_now env + 5000000000)) (pe_attach env) in
    if negb attached then Ok (1, None)
    else
      let! interval := interval_of (pa_rate a) in
      let! p := prod_loop (prod_config a interval (pe_pid env)) (prod_init ring (pe_start env)) (pe_events env) in
      Ok (0, Some p)
  end.

(** What the environment answers the consumer: whether the record file opens
    and closes, the live edge, the clock, and the turns of the loop. *)
Record CxEnv := mkCxEnv { xe_open : bool; xe_close : bool; xe_edge : Z; xe_now : Z; xe_events : list CxEvent }.

Definition cx_config (a : CxArgs) : CxConfig :=
  mkCxConfig (ca_count a) (ca_from_edge a) (negb (str_empty (ca_csv a))) (ca_idle_ms a) (ca_skip a).

(** The status and, if the summary is printed, the final state and the report. *)
Definition cx_main (argv : list str) (env : CxEnv) : res (Z * option (Cx * Report)) :=
  match consumer_parse_args argv with
  | Throw f => Ok (rejected_status f, None)
  | Ok a =>
    let cfg := cx_config a in
    if cx_csv cfg && negb (xe_open env) then Ok (1, None)
    else
      let! '(ok, c) := cx_loop cfg (cx_init cfg (xe_edge env) (xe_now env)) (xe_events env) in
      if negb ok then Ok (1, None)
      else if cx_csv cfg && negb (xe_close env) then Ok (1, None)
      else let! '(r, code) := cx_summary cfg c in Ok (code, Some (c, r))
  end.

(** ** The producer *)

Lemma interval_range (rate : double) (i : Z) : interval_of rate = Ok i -> in_range 64 i.
Proof.
  unfold interval_of, uint64_of_double, in_range. destruct (SFltb _ _); [|intros [= <-]; lia].
  destruct (trunc_double _) as [z|]; [|done]. destruct (_ && _) eqn:E; [|done]. zbool. intros [= <-]. lia.
Qed.

Lemma wait_for_readers_fault (wanted deadline : Z) (turns : list (bool * Z * Z)) : wp (fun f => f = OutOfFuel) (fun _ => True) (wait_for_readers wanted deadline turns).
Proof. induction turns as [|[[s r] n] turns IH]; [done|]. cbn. destruct (_ || _); [done|]. destruct (_ <? _); done. Qed.

Lemma interval_fault (rate : double) : wp (fun f => f = BadCast) (in_range 64) (interval_of rate).
Proof.
  destruct (interval_of rate) as [i|f] eqn:E; [by apply (interval_range rate)|]. cbn. unfold interval_of, uint64_of_double in E.
  repeat case_match; by simplify_eq.
Qed.

(** What a fault of the program can be: one of the ring, the conversion of a
    rate too small, or inputs that end inside a wait. *)
Definition prod_main_fault {R : Type} `{Sink R} (f : fault) : Prop :=
  (exists (r : R) fr, sink_publish r fr = Throw f) \/ f = BadCast \/ f = OutOfFuel.

(** What status 0 means: the messages 1..n of one stream were published, all
    [--count] of them unless a stop was requested or the inputs end. *)
Definition produced {R : Type} `{Sink R} (a : PrArgs) (pid : Z) (evs : list ProdEvent) (ring0 : R) (p : Prod R) : Prop :=
  exists fs epoch, sink_log (pr_ring p) = sink_log ring0 ++ fs /\ pr_seq p = Z.of_nat (length fs) /\
    (forall i f, fs !! i = Some f -> is_message pid epoch (pa_kind a) (Z.of_nat i + 1) f) /\
    (pa_count a = 0 \/ Z.of_nat (length fs) <= pa_count a) /\
    ((pa_count a <> 0 /\ Z.of_nat (length fs) = pa_count a) \/ Exists (fun ev => pv_stop ev = true) evs \/ length fs = length evs).

Lemma prod_main_ok {R : Type} `{SinkLaws R} (argv : list str) (ring : R) (env : PrEnv) :
  0 <= pe_start env -> Forall (fun ev => wf_clocks (pv_clocks ev)) (pe_events env) -> Z.of_nat (length (pe_events env)) < 2 ^ 64 ->
  wp (prod_main_fault (R:=R))
    (fun '(status, op) => (status = 0 \/ status = 1 \/ status = 2) /\
       (status = 0 <-> exists p, op = Some p) /\
       forall p, op = Some p -> exists a, producer_parse_args argv = Ok a /\ produced a (pe_pid env) (pe_events env) ring p)
    (prod_main argv ring env).
Proof.
  intros Hst Hck Hb. unfold prod_main. pose proof (producer_parse_wp argv) as Hp. destruct (producer_parse_args argv) as [a|f] eqn:Ea.
  2: { rewrite (arg_fault_status f Hp). cbn. split_and!; [auto|split; [done|by intros [? ?]]|done]. }
  destruct Hp as (_ & _ & Hc & _). eapply wp_bind; [eapply wp_mono; [apply wait_for_readers_fault|by right; right|exact (fun _ x => x)]|].
  intros [] _; cbn [negb]; [|cbn; split_and!; [auto|split; [done|by intros [? ?]]|done]].
  eapply wp_bind; [eapply wp_mono; [apply interval_fault|by right; left|exact (fun _ x => x)]|]. intros i [Hi _].
  set (cfg := prod_config a i (pe_pid env)).
  eapply wp_bind.
  { eapply wp_mono; [apply (prod_loop_ok cfg ring (pe_start env) (pe_events env) [] _ Hst Hi (prod_inv_init cfg ring (pe_start env)) Hck)| |exact (fun _ x => x)].
    - cbn. lia. - right. cbn. unfold in_range in Hc. lia. - intros f [Hf|[Hf _]]; [by left|by right; right]. }
  intros p (fs & Hpi & Hend & Hn). cbn [app] in *. cbn [wp]. split_and!; [auto|split; [by exists p|done]|]. intros p' [= <-]. exists a. split; [done|].
  exists fs, (default 0 (pr_epoch p)). split_and!; [apply Hpi|apply Hpi|apply (pi_frames _ _ _ _ _ Hpi)|done|].
  unfold prod_ended in Hend. rewrite (pi_seq _ _ _ _ _ Hpi) in Hend. exact Hend.
Qed.

(** ** The consumer *)

(** What the state and the report say of the frames [fs] read from the ring. *)
Definition consumed (a : CxArgs) (fs : list bytes) (c : Cx) (r : Report) : Prop :=
  cx_inv (cx_config a) fs c /\ cx_summary (cx_config a) c = Ok (r, if negb (ca_count a =? 0) && (cs_received c <? ca_count a) then 1 else 0) /\
  rp_received r = Z.of_nat (length (drop (Z.to_nat (ca_skip a)) fs)).

Lemma cx_inv_counted (cfg : CxConfig) (fs : list bytes) (c : Cx) : cx_inv cfg fs c -> cs_received c = Z.of_nat (length (drop (Z.to_nat (cx_skip cfg)) fs)).
Proof. intros Hi. rewrite (ci_received _ _ _ Hi). f_equal. pose proof (f_equal length (ci_frames _ _ _ Hi)) as E. by rewrite !length_map in E. Qed.

Lemma cx_main_ok (argv : list str) (env : CxEnv) :
  Z.of_nat (length (xe_events env)) < 2 ^ 64 ->
  exists status o, cx_main argv env = Ok (status, o) /\ (status = 0 \/ status = 1 \/ status = 2) /\
    (status = 0 -> exists x, o = Some x) /\
    forall c r, o = Some (c, r) -> exists a fs, consumer_parse_args argv = Ok a /\ fs `prefix_of` omap ev_frame (xe_events env) /\ consumed a fs c r /\
      (status = 0 <-> ca_count a = 0 \/ ca_count a <= rp_received r).
Proof.
  intros Hb. unfold cx_main. pose proof (consumer_parse_wp argv) as Hp. destruct (consumer_parse_args argv) as [a|f] eqn:Ea.
  2: { rewrite (arg_fault_status f Hp). eexists _, _. split; [done|]. split_and!; [auto|done|done]. }
  destruct Hp as (_ & _ & _ & _ & Hs). destruct (cx_csv _ && negb (xe_open env)); [eexists _, _; split; [done|]; split_and!; [auto|done|done]|].
  pose proof (cx_loop_ok (cx_config a) Hs (xe_events env) [] _ (cx_inv_init (cx_config a) Hs (xe_edge env) (xe_now env)) Hb) as Hl.
  apply wp_returns in Hl as ([ok c] & E & Hok). rewrite E. cbn [rbind fst snd app] in *.
  destruct ok; cbn [negb]; [|eexists _, _; split; [done|]; split_and!; [auto|done|done]]. destruct (Hok eq_refl) as (fs & Hpre & Hi).
  destruct (cx_csv _ && negb (xe_close env)); [eexists _, _; split; [done|]; split_and!; [auto|done|done]|].
  destruct (cx_summary_ok (cx_config a) fs c Hi) as (r & code & Er & Hr & ->). rewrite Er. cbn [rbind].
  pose proof (cx_inv_counted _ _ _ Hi) as Hcnt. eexists _, _. split; [done|]. split_and!.
  - destruct (_ && _); auto.
  - intros _. by eexists.
  - intros c' r' [= <- <-]. exists a, fs. split_and!; [done|done|split_and!; [done|done|by rewrite Hr, Hcnt]|].
    rewrite Hr. change (cx_count (cx_config a)) with (ca_count a) in *. destruct (Z.eqb_spec (ca_count a) 0), (Z.ltb_spec (cs_received c) (ca_count a)); cbn; intuition lia.
Qed.

(** A run in which one stream arrived complete reports no loss. *)
Lemma one_stream_records (key : Key) (l : list Z) (seen : list (Key * (Z * Z))) :
  map (fun e => (fst e, fst (snd e))) seen = map (pair key) l ->
  map fst (stream_records key seen) = l /\ forall k, k <> key -> stream_records k seen = [].
Proof.
  revert l. induction seen as [|[k [s x]] seen IH]; intros [|y l] E; try done. injection E as -> -> E. destruct (IH l E) as [H1 H2].
  unfold stream_records in *. cbn. rewrite bool_decide_true by done. cbn. split; [by f_equal|]. intros k' Hk. rewrite bool_decide_false by congruence. by apply H2.
Qed.

Lemma complete_stream_report (n : nat) (rs : list (Z * Z)) (a : Accumulator) :
  acc_inv rs a -> map fst rs ≡ₚ seqZ 1 (Z.of_nat n) -> (0 < n)%nat -> Z.of_nat n < 2 ^ 64 ->
  exists r, report a = Ok r /\ rp_expected r = Z.of_nat n /\ rp_dropped r = 0.
Proof.
  intros Ha Hrs Hn Hb. assert (Hl : length rs = n) by (rewrite <- (length_map fst), Hrs, length_seqZ; lia).
  assert (Hne : rs <> []) by (intros ->; cbn in Hl; lia). destruct (report_ok rs a Ha Hne) as (r & Er & Hr & He & Hd & _). exists r. split; [done|].
  destruct (ai_first _ _ Ha Hne) as [F1 F2]. destruct (ai_last _ _ Ha Hne) as [L1 L2]. rewrite <- list_elem_of_In in F1, L1. rewrite Hrs in F1, F2, L1, L2.
  apply elem_of_seqZ in F1, L1. rewrite Forall_forall in F2, L2.
  specialize (F2 1 ltac:(apply elem_of_seqZ; lia)). specialize (L2 (Z.of_nat n) ltac:(apply elem_of_seqZ; lia)).
  replace (ac_last_seq a - ac_first_seq a + 1) with (Z.of_nat n) in He by lia. rewrite wrap_small in He by (unfold in_range; lia). lia.
Qed.

(** The summary of a run that counted the messages 1..n of one stream, in any
    order. *)
Lemma complete_summary (a : CxArgs) (fs : list bytes) (c : Cx) (r : Report) (key : Key) (n : nat) :
  consumed a fs c r -> ca_skip a = 0 -> map frame_id fs ≡ₚ map (pair key) (seqZ 1 (Z.of_nat n)) -> Z.of_nat n < 2 ^ 64 ->
  map (fun e => (fst e, fst (snd e))) (cs_seen c) = map frame_id fs /\ rp_received r = Z.of_nat n /\ rp_expected r = Z.of_nat n /\ rp_dropped r = 0.
Proof.
  intros (Hi & Hsum & Hrec) Hskip Hfs Hb. rewrite Hskip in Hrec. change (drop (Z.to_nat 0) fs) with fs in Hrec.
  assert (Hlen : length fs = n) by (apply Permutation_length in Hfs; rewrite !length_map, length_seqZ in Hfs; lia).
  pose proof (ci_frames _ _ _ Hi) as Hseen. cbn [cx_config cx_skip] in Hseen. rewrite Hskip in Hseen. change (drop (Z.to_nat 0) fs) with fs in Hseen.
  split; [done|]. split; [lia|]. apply Permutation_map_inv in Hfs as (l & Hl & Hperm). rewrite Hl in Hseen. destruct (one_stream_records _ _ _ Hseen) as [Hone Hother].
  unfold cx_summary in Hsum. destruct (report (cs_acc c)) as [r0|]; [|done]. cbn [rbind] in Hsum.
  assert (Hothers : forall k, k <> key -> cs_streams c !! k = None).
  { intros k Hk. destruct (cs_streams c !! k) as [x|] eqn:Ex; [|done]. destruct (ci_stream _ _ _ Hi k x Ex) as [_ Hne]. by destruct (Hne (Hother k Hk)). }
  destruct (cs_streams c !! key) as [acc|] eqn:Ek.
  - destruct (ci_stream _ _ _ Hi key acc Ek) as [Ha Hne].
    assert (Hn : (0 < n)%nat). { destruct n; [|lia]. destruct Hne. apply (map_eq_nil fst). rewrite Hone. by apply Permutation_nil. }
    destruct (complete_stream_report n (stream_records key (cs_seen c)) acc Ha ltac:(by rewrite Hone) Hn Hb) as (rs & Er & He & Hd).
    assert (Hm : cs_streams c = {[key := acc]}). { apply map_eq. intros k. destruct (decide (k = key)) as [->|Hk]; [by rewrite Ek, lookup_singleton_eq|by rewrite lookup_singleton_ne, Hothers]. }
    rewrite Hm, map_to_list_singleton in Hsum. cbn [sum_reports] in Hsum. rewrite Er in Hsum. cbn [rbind sum_reports] in Hsum. injection Hsum as <-.
    cbn [rp_expected rp_dropped]. rewrite He, Hd. rewrite !wrap_small by (unfold in_range; lia). lia.
  - assert (Hm : cs_streams c = ∅). { apply map_eq. intros k. rewrite lookup_empty. destruct (decide (k = key)) as [->|Hk]; [done|by apply Hothers]. }
    rewrite (ci_none _ _ _ Hi key Ek) in Hone. cbn in Hone. subst l. apply Permutation_length in Hperm. rewrite length_seqZ in Hperm. cbn in Hperm.
    rewrite Hm, map_to_list_empty in Hsum. cbn [sum_reports rbind] in Hsum. injection Hsum as <-. cbn. lia.
Qed.

(** ** Properties *)

(** The producer as a program: whatever its arguments, clocks and
    readers are, it exits with 0, 1 or 2; 0 exactly if it went through its
    publishing loop, and then its ring has gained the valid messages 1, 2, 3, ...
    of one stream and of the kind asked for: all [--count] of them, unless a stop
    was requested.  The only ways not to exit are an exception of the ring and the
    conversion of a rate too small. *)
Theorem producer_program_correct {R : Type} `{SinkLaws R} (argv : list str) (ring : R) (env : PrEnv) :
  0 <= pe_start env -> Forall (fun ev => wf_clocks (pv_clocks ev)) (pe_events env) -> Z.of_nat (length (pe_events env)) < 2 ^ 64 ->
  wp (prod_main_fault (R:=R))
    (fun '(status, op) => (status = 0 \/ status = 1 \/ status = 2) /\
       (status = 0 <-> exists p, op = Some p) /\
       forall p, op = Some p -> exists a, producer_parse_args argv = Ok a /\ produced a (pe_pid env) (pe_events env) ring p)
    (prod_main argv ring env).
Proof. apply prod_main_ok. Qed.

(** The consumer as a program: for every command line and everything the
    ring and the record file do, it exits without a fault with 0, 1 or 2.  When
    it prints its summary, the frames it counted are those read from the ring
    after the first [--skip]; and its status is 0 exactly if there was a summary
    and it counted as many frames as [--count] asked for. *)
Theorem consumer_program_correct (argv : list str) (env : CxEnv) :
  Z.of_nat (length (xe_events env)) < 2 ^ 64 ->
  exists status o, cx_main argv env = Ok (status, o) /\ (status = 0 \/ status = 1 \/ status = 2) /\
    (status = 0 -> exists x, o = Some x) /\
    forall c r, o = Some (c, r) -> exists a fs, consumer_parse_args argv = Ok a /\ fs `prefix_of` omap ev_frame (xe_events env) /\ consumed a fs c r /\
      (status = 0 <-> ca_count a = 0 \/ ca_count a <= rp_received r).
Proof. apply cx_main_ok. Qed.

(** ** Witnesses *)
Definition demo_prod_argv : list str := ["--count"; "2"; "--rate"; "5000"]%string.
Definition demo_prod_env : PrEnv := mkPrEnv 4242 0 [(false, 0, 0)] 10 demo_prod_events.
Definition prod_view (r : res (Z * option (Prod (list bytes)))) : option (Z * Z) := match r with Ok (s, Some p) => Some (s, pr_seq p) | _ => None end.
Lemma prod_view_inv (r : res (Z * option (Prod (list bytes)))) (s n : Z) : prod_view r = Some (s, n) -> exists p, r = Ok (s, Some p) /\ pr_seq p = n.
Proof. destruct r as [[s' [p|]]|]; [|done|done]. intros [= <- <-]. by exists p. Qed.
Lemma demo_prod_view : prod_view (prod_main demo_prod_argv ([] : list bytes) demo_prod_env) = Some (0, 2).
Proof. vm_compute. reflexivity. Qed.

Lemma producer_program_correct_witness :
  exists p a, prod_main demo_prod_argv ([] : list bytes) demo_prod_env = Ok (0, Some p) /\ pr_seq p = 2 /\
    produced a 4242 demo_prod_events ([] : list bytes) p.
Proof.
  destruct (prod_view_inv _ _ _ demo_prod_view) as (p & E & Hn).
  pose proof (producer_program_correct (R := list bytes) demo_prod_argv [] demo_prod_env ltac:(cbn; lia) demo_clocks_wf ltac:(cbn; lia)) as Hw.
  rewrite E in Hw. destruct Hw as (_ & _ & Hp). destruct (Hp p eq_refl) as (a & _ & Ha). exists p, a. split; [exact E|]. split; [exact Hn|exact Ha].
Defined.

Definition demo_cx_argv : list str := ["--csv"; "/tmp/r"; "--skip"; "1"; "--count"; "2"]%string.
Definition demo_cx_env : CxEnv := mkCxEnv true true 0 0 demo_events.
Definition cx_view (r : res (Z * option (Cx * Report))) : option (Z * Z) := match r with Ok (s, Some (_, r)) => Some (s, rp_received r) | _ => None end.
Lemma cx_view_inv (r : res (Z * option (Cx * Report))) (s n : Z) : cx_view r = Some (s, n) -> exists c rep, r = Ok (s, Some (c, rep)) /\ rp_received rep = n.
Proof. destruct r as [[s' [[c rep]|]]|]; [|done|done]. intros [= <- <-]. by exists c, rep. Qed.
Lemma demo_cx_view : cx_view (cx_main demo_cx_argv demo_cx_env) = Some (0, 2).
Proof. vm_compute. reflexivity. Qed.

Lemma consumer_program_correct_witness :
  exists c r a fs, cx_main demo_cx_argv demo_cx_env = Ok (0, Some (c, r)) /\ rp_received r = 2 /\
    fs `prefix_of` omap ev_frame demo_events /\ consumed a fs c r.
Proof.
  destruct (cx_view_inv _ _ _ demo_cx_view) as (c & r & E & Hr).
  destruct (consumer_program_correct demo_cx_argv demo_cx_env ltac:(cbn; lia)) as (st & o & E' & _ & _ & H).
  rewrite E in E'. injection E' as <- <-. destruct (H c r eq_refl) as (a & fs & _ & Hp & Hc & _).
  exists c, r, a, fs. split; [exact E|]. split; [exact Hr|]. split; [exact Hp|exact Hc].
Defined.
