(* ===== verification/Mains.v ===== *)
(** * The four programs as processes

    [run] and [main] of [harness/src/producer.cpp], [sender.cpp], [receiver.cpp]
    and [consumer.cpp] from the command line to the exit status of the process:
    parsing, opening of the rings and the sockets, the run proper ([Programs],
    [SenderMain], [ReceiverMain]) and the handler of [main].  What [Segment::open] and [Ring::attach] answer is an
    input; they are modelled in [Segment] and [Ring]. *)
From S2P Require Import Prelude Double Samples Message Wire Dedupe Fec FecDecoder Multiplex Sink Ring Receiver Transport Batch Fanout Sender SenderCorrect Metrics Quantiles Consumer Args Producer Config Programs Sockets ReceiverMain SenderMain.
From Stdlib Require Strings.String.
Import Strings.String.StringSyntax.
Local Delimit Scope string_scope with string.
Local Open Scope Z_scope.

(** ** Operations *)

(** The faults that are [std::exception]s. *)
Definition is_exception (f : fault) : bool :=
  match f with InvalidArgument | LengthError | RuntimeError | LogicError | OutOfRange => true | _ => false end.

(** [main]: the status [run] returns, or that of [std::exit], or 1 for an
    exception; [None] when [run] did not return. *)
Definition process {A : Type} (r : res (Z * A)) : res (Z * option A) :=
  match r with
  | Ok (s, a) => Ok (s, Some a)
  | Throw (ExitStatus n) => Ok (n, None)
  | Throw f => if is_exception f then Ok (1, None) else Throw f
  end.

(** [for (int fd : sockets) close(fd)]. *)
Definition close_sockets (fds : list nat) (k : Net) : Net := fold_left (fun k fd => net_close fd k) fds k.

(** The producer creates its ring once the command line is accepted; [out] is
    what [Segment::open] and [Ring::attach] answer. *)
Definition prod_program {R : Type} `{Sink R} (argv : list str) (out : res R) (env : PrEnv) : res (Z * option (Prod R)) :=
  match producer_parse_args argv with
  | Throw f => Ok (rejected_status f, None)
  | Ok _ => let! ring := out in prod_main argv ring env
  end.
Definition producer_main {R : Type} `{Sink R} (argv : list str) (out : res R) (env : PrEnv) : res (Z * option (option (Prod R))) :=
  process (prod_program argv out env).

(** The consumer attaches to a ring; [input] is whether that succeeds. *)
Definition cx_program (argv : list str) (input : res unit) (env : CxEnv) : res (Z * option (Cx * Report)) :=
  match consumer_parse_args argv with
  | Throw f => Ok (rejected_status f, None)
  | Ok _ => let! _ := input in cx_main argv env
  end.
Definition consumer_main (argv : list str) (input : res unit) (env : CxEnv) : res (Z * option (option (Cx * Report))) :=
  process (cx_program argv input env).

Section Sender.
Context {E : Type} `{Sink E}.

(** What the environment answers the sender: the random identity, the live edge
    of the input ring once it is attached, the echo ring, the resolver and the
    kernel for the sockets, the type of a socket, and the rest of [run]. *)
Record TxProc := mkTxProc {
  tp_random_id : option Z; tp_random_epoch : option Z; tp_in : res Z; tp_unattached : E; tp_echo : res E;
  tp_net : Net; tp_net_env : list NetEnv; tp_kind : nat -> option bool; tp_env : TxEnv
}.

(** The answers, with what [run] takes from the configuration. *)
Definition tx_environment (a : TxArgs) (edge : Z) (e : TxEnv) : TxEnv :=
  mkTxEnv edge (ta_from_edge a) (se_io e) (se_draws e) (se_reads e) (se_stops e) (se_echo e) (se_echo_now e) (ta_echo_timeout_ms a)
    (se_echo_clock e) (se_dests e) (se_start e) (se_end e).

(** What is left of a run: the sockets, the final state and the report. *)
#[local] Abbreviation tx_end := (list (nat * option bool) * Tx E * option TxReport)%type.

(** From the opening of the sockets on; every [return] is after [close_sockets]. *)
Definition tx_connected (a : TxArgs) (edge : Z) (echo : E) (w : TxProc) : res (Z * option tx_end) * Net :=
  match open_sockets a (ta_destinations a) (tp_net_env w) (tp_net w) with
  | (Throw f, k) => (Throw f, k)
  | (Ok fds, k) =>
    let sockets := map (fun fd => (fd, tp_kind w fd)) fds in
    match tx_main (tx_config a sockets) echo (tx_environment a edge (tp_env w)) with
    | Ok (s, t, r) => (Ok (s, Some (sockets, t, r)), close_sockets fds k)
    | Throw f => (Throw f, k)
    end
  end.

Definition tx_program (argv : list str) (w : TxProc) : res (Z * option tx_end) * Net :=
  match sender_parse_args argv (tp_random_id w) (tp_random_epoch w) with
  | Throw f => (Ok (rejected_status f, None), tp_net w)
  | Ok a =>
    match tp_in w, (if str_empty (ta_echo_out_shm a) then Ok (tp_unattached w) else tp_echo w) with
    | Throw f, _ => (Throw f, tp_net w)
    | _, Throw f => (Throw f, tp_net w)
    | Ok edge, Ok echo => tx_connected a edge echo w
    end
  end.

Definition sender_main (argv : list str) (w : TxProc) : res (Z * option (option tx_end)) := process (fst (tx_program argv w)).
End Sender.
Arguments TxProc : clear implicits.

Section Receiver.
Context {R : Type} `{Sink R}.

(** What the environment answers the receiver: its ring once it is created and
    attached, the resolver and the kernel for the socket, and the rest of [run]. *)
Record RxProc := mkRxProc { rp_out : res R; rp_net : Net; rp_net_env : NetEnv; rp_env : RxEnv }.

Definition rx_socket (a : RxArgs) (w : RxProc) : res nat * Net :=
  if udp a then open_bound_udp_socket (ra_rcvbuf a) (rp_net_env w) (rp_net w)
  else unix_socket (ra_unix_listen a) true (ne_unix (rp_net_env w)) (rp_net w).

Definition rx_program (argv : list str) (w : RxProc) : res (Z * option (RxMain R * option RxReport)) :=
  match receiver_parse_args argv with
  | Throw f => Ok (rejected_status f, None)
  | Ok a =>
    let! ring := rp_out w in
    let! _ := fst (rx_socket a w) in
    let! '(s, m, r) := rx_run_main a ring (rp_env w) in
    Ok (s, match m with Some m => Some (m, r) | None => None end)
  end.

Definition receiver_main (argv : list str) (w : RxProc) : res (Z * option (option (RxMain R * option RxReport))) := process (rx_program argv w).
End Receiver.
Arguments RxProc : clear implicits.

(** ** Sockets *)

Lemma unix_socket_throws (path : str) (listener : bool) (env : UnixEnv) (k k' : Net) (f : fault) :
  unix_socket path listener env k = (Throw f, k') -> is_exception f = true.
Proof. unfold unix_socket. repeat case_match; by intros [= <- _]. Qed.

Lemma open_sockets_throws (a : TxArgs) (dsts : list Destination) (envs : list NetEnv) (k k' : Net) (f : fault) :
  (length dsts <= length envs)%nat -> open_sockets a dsts envs k = (Throw f, k') -> is_exception f = true.
Proof.
  revert envs k. induction dsts as [|dst dsts IH]; intros [|env envs] k Hl E; try done; [cbn in Hl; lia|]. cbn [open_sockets length] in *.
  destruct (open_udp_socket _ _ _ _ env k) as [r1 k1] eqn:E1. destruct r1 as [fd|f1].
  - destruct (open_sockets a dsts envs k1) as [r2 k2] eqn:E2. destruct r2 as [l|f2]; [done|]. injection E as -> ->. apply (IH envs k1); [lia|done].
  - injection E as -> ->. unfold open_udp_socket in E1. destruct (str_empty _); [by eapply unix_socket_throws|].
    repeat case_match; simplify_eq; done.
Qed.

Lemma rx_socket_throws {R : Type} (a : RxArgs) (w : RxProc R) (f : fault) : fst (rx_socket a w) = Throw f -> is_exception f = true.
Proof.
  unfold rx_socket. destruct (udp a).
  - unfold open_bound_udp_socket. repeat case_match; cbn; by intros [= <-].
  - destruct (unix_socket _ _ _ _) as [r k'] eqn:E. cbn. intros ->. by eapply unix_socket_throws.
Qed.

Lemma net_close_notin (fd : nat) (l : list nat) : fd ∉ l -> List.filter (fun x => negb (x =? fd)%nat) l = l.
Proof.
  induction l as [|x l IH]; intros Hf; [done|]. cbn. apply not_elem_of_cons in Hf as [Hx Hl]. destruct (Nat.eqb_spec x fd); [congruence|]. cbn. by rewrite IH.
Qed.

(** Closing what was opened leaves what was open before. *)
Lemma close_sockets_open (fds l : list nat) (k : Net) :
  NoDup fds -> (forall fd, fd ∈ fds -> fd ∉ l) -> net_open k = rev fds ++ l -> net_open (close_sockets fds k) = l.
Proof.
  revert k. induction fds as [|fd fds IH]; intros k Hnd Hfr E; [done|]. apply NoDup_cons in Hnd as [Hin Hnd]. cbn [close_sockets fold_left].
  apply (IH (net_close fd k) Hnd); [intros x Hx; apply Hfr; by right|]. cbn [net_close net_open]. rewrite E. cbn [rev]. rewrite <- app_assoc, List.filter_app. cbn [app List.filter].
  rewrite Nat.eqb_refl. cbn [negb]. rewrite !net_close_notin; [done|apply Hfr; by left|]. intros Hx%list_elem_of_In%in_rev%list_elem_of_In. done.
Qed.

(** ** The producer and the consumer *)

Lemma prod_main_status {R : Type} `{Sink R} (argv : list str) (ring : R) (env : PrEnv) (a : PrArgs) (s : Z) (o : option (Prod R)) :
  producer_parse_args argv = Ok a -> prod_main argv ring env = Ok (s, o) -> s = 0 \/ s = 1.
Proof.
  intros Ea. unfold prod_main. rewrite Ea. destruct (wait_for_readers _ _ _) as [[]|]; cbn [rbind negb]; [|intros [= <- _]; auto|done].
  destruct (interval_of _); cbn [rbind]; [|done]. destruct (prod_loop _ _ _); cbn [rbind]; [|done]. intros [= <- _]. auto.
Qed.

Lemma cx_main_status (argv : list str) (env : CxEnv) (a : CxArgs) (s : Z) (o : option (Cx * Report)) :
  consumer_parse_args argv = Ok a -> cx_main argv env = Ok (s, o) -> s = 0 \/ s = 1.
Proof.
  intros Ea. unfold cx_main. rewrite Ea. destruct (_ && _); [intros [= <- _]; auto|]. destruct (cx_loop _ _ _) as [[[] c]|]; cbn [rbind negb]; [|intros [= <- _]; auto|done].
  destruct (_ && _); [intros [= <- _]; auto|]. unfold cx_summary. destruct (report _); cbn [rbind]; [|done]. destruct (sum_reports _ _ _) as [[e d]|]; cbn [rbind]; [|done].
  intros [= <- _]. destruct (_ && _); auto.
Qed.

(** C21: The producer as a process: [main] exits with 0, 1 or 2, whatever the
    command line, the segment, the ring, the readers and the clocks do, unless the
    inputs end during a wait or the rate is too small for the conversion; 2
    exactly for a command line [parse_args] does not accept; 0 exactly if the
    publishing loop ran to its end, and then the ring has gained the valid
    messages 1, 2, 3, ... of one stream and of the kind asked for, all [--count]
    of them unless a stop was requested. *)
Theorem producer_process_correct {R : Type} `{SinkLaws R} (argv : list str) (out : res R) (env : PrEnv) :
  (forall f, out = Throw f -> is_exception f = true) -> (forall (r : R) f e, sink_publish r f = Throw e -> is_exception e = true) ->
  0 <= pe_start env -> Forall (fun ev => wf_clocks (pv_clocks ev)) (pe_events env) -> Z.of_nat (length (pe_events env)) < 2 ^ 64 ->
  wp (fun f => f = BadCast \/ f = OutOfFuel)
    (fun '(s, o) => (s = 0 \/ s = 1 \/ s = 2) /\ (s = 2 <-> exists f, producer_parse_args argv = Throw f) /\
       (s = 0 <-> exists p, o = Some (Some p)) /\
       forall p, o = Some (Some p) -> exists a ring, producer_parse_args argv = Ok a /\ out = Ok ring /\ produced a (pe_pid env) (pe_events env) ring p)
    (producer_main argv out env).
Proof.
  intros Hout Hring Hst Hck Hb. unfold producer_main, prod_program. pose proof (producer_parse_wp argv) as Hp. destruct (producer_parse_args argv) as [a|f] eqn:Ea; cbn [wp] in Hp.
  2: { rewrite (arg_fault_status f Hp). cbn. split_and!; [auto|split; [by exists f|done]|split; [done|by intros [? ?]]|done]. }
  assert (Hno : forall s : Z, s = 0 \/ s = 1 -> (s = 2 <-> exists f, @Ok PrArgs a = Throw f)) by (intros s Hs; split; [lia|by intros [? ?]]).
  destruct out as [ring|f]; cbn [rbind].
  2: { specialize (Hout f eq_refl). destruct f; try done; cbn; (split_and!; [auto|apply Hno; auto|split; [done|by intros [? ?]]|done]). }
  pose proof (prod_main_ok argv ring env Hst Hck Hb) as Hw. destruct (prod_main argv ring env) as [[s o]|f] eqn:Em; cbn [wp process] in *.
  - pose proof (prod_main_status argv ring env a s o Ea Em) as Hs. destruct Hw as (_ & H0' & Hp'). split_and!; [tauto|by apply Hno|rewrite H0'; split; intros [p E]; exists p; congruence|].
    intros p [= ->]. destruct (Hp' p eq_refl) as (a' & Ea' & Hpr). exists a, ring. rewrite Ea in Ea'. injection Ea' as <-. done.
  - destruct Hw as [(r & fr & Hf)|Hf]; [|by destruct Hf as [-> | ->]; cbn; auto]. specialize (Hring _ _ _ Hf).
    destruct f; try done; cbn; (split_and!; [auto|apply Hno; auto|split; [done|by intros [? ?]]|done]).
Qed.

(** C22: The consumer as a process: for every command line and everything the
    segment, the ring and the record file do, [main] exits with 0, 1 or 2: 2
    exactly for a command line [parse_args] does not accept; 0 exactly if it
    attached, printed its summary and counted as many frames as [--count] asked
    for.  What it counted are the frames read from the ring after the first
    [--skip]. *)
Theorem consumer_process_correct (argv : list str) (input : res unit) (env : CxEnv) :
  (forall f, input = Throw f -> is_exception f = true) -> Z.of_nat (length (xe_events env)) < 2 ^ 64 ->
  exists s o, consumer_main argv input env = Ok (s, o) /\ (s = 0 \/ s = 1 \/ s = 2) /\ (s = 2 <-> exists f, consumer_parse_args argv = Throw f) /\
    (s = 0 <-> exists a c r, consumer_parse_args argv = Ok a /\ o = Some (Some (c, r)) /\ (ca_count a = 0 \/ ca_count a <= rp_received r)) /\
    forall c r, o = Some (Some (c, r)) -> exists a fs, consumer_parse_args argv = Ok a /\ input = Ok tt /\ fs `prefix_of` omap ev_frame (xe_events env) /\ consumed a fs c r.
Proof.
  intros Hin Hb. unfold consumer_main, cx_program. pose proof (consumer_parse_wp argv) as Hp. destruct (consumer_parse_args argv) as [a|f] eqn:Ea; cbn [wp] in Hp.
  2: { rewrite (arg_fault_status f Hp). eexists _, _. split; [done|]. split_and!; [auto|split; [by exists f|done]|split; [done|by intros (? & ? & ? & ? & _)]|done]. }
  assert (Hno : forall s : Z, s = 0 \/ s = 1 -> (s = 2 <-> exists f, @Ok CxArgs a = Throw f)) by (intros s Hs; split; [lia|by intros [? ?]]).
  destruct input as [[]|f]; cbn [rbind].
  2: { specialize (Hin f eq_refl). eexists 1, None. split; [destruct f; done|]. split_and!; [auto|apply Hno; auto|split; [done|by intros (? & ? & ? & _ & ? & _)]|done]. }
  destruct (cx_main_ok argv env Hb) as (s & o & Em & _ & H0' & Hc). rewrite Em. pose proof (cx_main_status argv env a s o Ea Em) as Hs. eexists _, _. split; [done|].
  split_and!; [tauto|by apply Hno| |].
  - split.
    + intros Hz. destruct (H0' Hz) as [[c r] ->]. destruct (Hc c r eq_refl) as (a' & fs & Ea' & _ & _ & Hst). rewrite Ea in Ea'. injection Ea' as <-. exists a, c, r. split_and!; [done|done|by apply Hst].
    + intros (a1 & c & r & [= <-] & [= ->] & Hcnt). destruct (Hc c r eq_refl) as (a' & fs & Ea' & _ & _ & Hst). rewrite Ea in Ea'. injection Ea' as <-. by apply Hst.
  - intros c r [= ->]. destruct (Hc c r eq_refl) as (a' & fs & Ea' & Hpre & Hcs & _). rewrite Ea in Ea'. injection Ea' as <-. by exists a, fs.
Qed.

(** ** The sender *)

(** The threads of the fan-out did what [Fanout] says and have exited. *)
Definition workers_joined {E : Type} `{Sink E} (a : TxArgs) (sockets : list (nat * option bool)) (echo : E) (env : TxEnv) : Prop :=
  forall t0 t, tx_init (tx_config a sockets) echo (if se_from_edge env then se_edge env else 0) (se_io env) (se_draws env) (se_reads env) (se_echo env) = Ok t0 ->
    tx_run (tx_config a sockets) (se_stops env) t0 = Ok (true, t) -> fanout (tx_config a sockets) = true -> joined a sockets env (o_flushed (e_out (t_em t))).

(** No test impairments. *)
Definition plain_options (a : TxArgs) : Prop :=
  forall sockets, tx_test_drop (tx_config a sockets) = false /\ tx_test_reorder (tx_config a sockets) = false.

(** What status 0 of the sender means. *)
Definition sent_and_delivered {E : Type} (a : TxArgs) (env : TxEnv) (sockets : list (nat * option bool)) (t : Tx E) (r : option TxReport) : Prop :=
  NoDup (map fst sockets) /\ length sockets = length (ta_destinations a) /\
  sent_all (tx_config a sockets) (se_reads env) t /\ delivered a sockets env t /\
  (ta_count a = 0 \/ ta_count a <= Z.of_nat (length (t_taken t))) /\ exists rep, r = Some rep /\ sr_sent rep = Z.of_nat (length (t_taken t)).

Section SenderCorrect.
Context {E : Type} `{Sink E}.
Variables (argv : list str) (w : TxProc E).
Hypothesis Hids : from_option (in_range 64) True (tp_random_id w) /\ from_option (in_range 64) True (tp_random_epoch w).
Hypothesis Hin : forall f, tp_in w = Throw f -> is_exception f = true.
Hypothesis Hnet : net_ok (tp_net w).
Hypothesis Hio : wd_wire (se_io (tp_env w)) = [] /\ Z.of_nat (length (se_reads (tp_env w))) < 2 ^ 64.
Hypothesis Hplain : forall a, sender_parse_args argv (tp_random_id w) (tp_random_epoch w) = Ok a ->
  plain_options a /\ (length (ta_destinations a) <= length (tp_net_env w))%nat.
(** In echo mode the second ring takes every frame. *)
Hypothesis Hecho : forall a, sender_parse_args argv (tp_random_id w) (tp_random_epoch w) = Ok a ->
  str_empty (ta_echo_out_shm a) = true \/ (forall f, tp_echo w = Throw f -> is_exception f = true) /\ (forall (r : E) f, exists r', sink_publish r f = Ok r').
Hypothesis Hworkers : forall a edge echo fds k, sender_parse_args argv (tp_random_id w) (tp_random_epoch w) = Ok a -> tp_in w = Ok edge ->
  open_sockets a (ta_destinations a) (tp_net_env w) (tp_net w) = (Ok fds, k) ->
  workers_joined a (map (fun fd => (fd, tp_kind w fd)) fds) echo (tx_environment a edge (tp_env w)).

(** How [run] ends once the command line is accepted and the ring attached. *)
Lemma tx_connected_ok (a : TxArgs) (edge : Z) (echo : E) :
  sender_parse_args argv (tp_random_id w) (tp_random_epoch w) = Ok a -> tp_in w = Ok edge ->
  match tx_connected a edge echo w with
  | (Ok (s, o), k) => (s = 0 \/ s = 1) /\ net_open k = net_open (tp_net w) /\
      (s = 0 -> exists sockets t r, o = Some (sockets, t, r) /\ sent_and_delivered a (tx_environment a edge (tp_env w)) sockets t r)
  | (Throw f, _) => is_exception f = true
  end.
Proof using All.
  intros Ea Ee. destruct (Hplain a Ea) as [Htest Hlen]. destruct Hids as [Hi1 Hi2]. destruct Hio as [Hw Hr].
  pose proof (sender_parse_wp argv (tp_random_id w) (tp_random_epoch w) Hi1 Hi2) as Hwf. rewrite Ea in Hwf. cbn in Hwf.
  unfold tx_connected. destruct (open_sockets a (ta_destinations a) (tp_net_env w) (tp_net w)) as [rs k] eqn:Eo.
  destruct rs as [fds|f]; [|by eapply open_sockets_throws]. destruct (open_sockets_ok _ _ _ _ _ _ Hnet Eo) as [_ (l & L1 & L2 & L3 & -> & L4)].
  set (sockets := map _ l). destruct (Htest sockets) as [Hd Hro].
  assert (Hsafe : echo_safe E (tx_config a sockets)).
  { apply config_echo. destruct (str_empty (ta_echo_out_shm a)) eqn:Ec; [by left|right]. destruct (Hecho a Ea) as [|[_ Hs]]; [congruence|]. split; [|done].
    destruct (tw_echo a Hwf Ec) as ((d & Hdst & _) & _). unfold sockets. rewrite length_map, L4, Hdst. done. }
  pose proof (tx_main_outcome a sockets echo (tx_environment a edge (tp_env w)) Hwf Hsafe Hd Hro Hw Hr) as Hout.
  destruct (tx_main _ _ _) as [[[s t] r]|f]; [|by destruct Hout as [-> _]]. destruct Hout as [Hs H0']. split_and!; [done|by apply close_sockets_open|].
  intros Hz. destruct (H0' Hz) as (Hsent & Hdel & Hcnt & rep & Hrep & Hsr & _). exists sockets, t, r. split; [done|]. split_and!; [|unfold sockets; by rewrite length_map|done| |done|by exists rep].
  - unfold sockets. rewrite map_map. cbn. by rewrite map_id.
  - apply Hdel. by apply (Hworkers a edge echo l k).
Qed.

Lemma sender_main_ok :
  exists s o, sender_main argv w = Ok (s, o) /\ (s = 0 \/ s = 1 \/ s = 2) /\
    (s = 2 <-> exists f, sender_parse_args argv (tp_random_id w) (tp_random_epoch w) = Throw f) /\
    (s = 0 -> exists a edge sockets t r, sender_parse_args argv (tp_random_id w) (tp_random_epoch w) = Ok a /\ tp_in w = Ok edge /\
       o = Some (Some (sockets, t, r)) /\ sent_and_delivered a (tx_environment a edge (tp_env w)) sockets t r) /\
    (o <> None -> net_open (snd (tx_program argv w)) = net_open (tp_net w)).
Proof using All.
  unfold sender_main, tx_program. destruct Hids as [Hi1 Hi2]. pose proof (sender_parse_wp argv (tp_random_id w) (tp_random_epoch w) Hi1 Hi2) as Hwf.
  pose proof tx_connected_ok as Hrun. pose proof Hecho as He.
  destruct (sender_parse_args argv (tp_random_id w) (tp_random_epoch w)) as [a|f]; cbn [wp] in Hwf.
  2: { rewrite (arg_fault_status f Hwf). eexists _, _. split; [done|]. split_and!; [auto|split; [by exists f|done]|done|done]. }
  destruct (tp_in w) as [edge|f] eqn:Ee.
  2: { pose proof (Hin f eq_refl) as Hx. eexists _, _. split; [cbn; rewrite Hx; by destruct f|]. split_and!; [auto|split; [done|by intros [? ?]]|done|done]. }
  destruct (if str_empty (ta_echo_out_shm a) then _ else _) as [echo|f] eqn:Eecho.
  2: { destruct (He a eq_refl) as [Hoff|[Hx _]]; [by rewrite Hoff in Eecho|]. destruct (str_empty _); [done|]. specialize (Hx f Eecho).
       eexists _, _. split; [cbn; rewrite Hx; by destruct f|]. split_and!; [auto|split; [done|by intros [? ?]]|done|done]. }
  specialize (Hrun a edge echo eq_refl eq_refl). destruct (tx_connected a edge echo w) as [[[s o]|f] k]; cbn [fst snd].
  - destruct Hrun as (Hs & Hk & H0'). eexists _, _. split; [done|]. split_and!; [tauto|split; [lia|by intros [? ?]]| |done].
    intros Hz. destruct (H0' Hz) as (sockets & t & r & -> & Hsd). by exists a, edge, sockets, t, r.
  - eexists _, _. split; [cbn; rewrite Hrun; by destruct f|]. split_and!; [auto|split; [done|by intros [? ?]]|done|done].
Qed.

End SenderCorrect.

(** ** The receiver *)

Lemma rx_finish_zero {R : Type} (a : RxArgs) (rx : Receiver R) (csv : Csv) (r : option RxReport) :
  rx_finish a rx csv = Ok (0, r) -> ra_count a = 0 \/ ra_count a <= (if ra_echo a then rx_echoed rx else rx_published rx).
Proof.
  unfold rx_finish. destruct (rx_totals _) as [t|]; cbn [rbind]; [|done]. destruct (rx_report a rx t) as [x|]; cbn [rbind]; [|done].
  destruct (Z.eqb_spec (ra_count a) 0); [by left|]. destruct (_ && _); [by intros [=]|]. destruct (Z.ltb_spec (if ra_echo a then rx_echoed rx else rx_published rx) (ra_count a)); cbn; [by intros [=]|by right].
Qed.

(** How [run] of the receiver ends. *)
Lemma rx_program_ok {R : Type} `{SinkLaws R} (argv : list str) (w : RxProc R) :
  (forall ring, rp_out w = Ok ring -> sink_log ring = []) -> (forall f, rp_out w = Throw f -> is_exception f = true) ->
  (forall (r : R) f, exists r', sink_publish r f = Ok r') -> 1024 * Z.of_nat (length (re_turns (rp_env w))) < 2 ^ 64 ->
  wp (fun f => (exists a, receiver_parse_args argv = Ok a) /\ (is_exception f = true \/ f = OutOfFuel))
    (fun '(s, o) => (s = 0 \/ s = 1 \/ s = 2) /\ (s = 2 <-> exists f, receiver_parse_args argv = Throw f) /\ (s = 0 -> o <> None) /\
       forall m r, o = Some (m, r) -> exists a ring, receiver_parse_args argv = Ok a /\ rx_args_wf a /\ rp_out w = Ok ring /\ ended a ring (rp_env w) s m r /\ sound a (mn_rx m))
    (rx_program argv w).
Proof.
  intros Hring Hthrow Hsink Hb. unfold rx_program. pose proof (receiver_parse_wp argv) as Hp. destruct (receiver_parse_args argv) as [a|f]; cbn [wp] in Hp.
  2: { rewrite (arg_fault_status f Hp). cbn. split_and!; [auto|split; [by exists f|done]|done|done]. }
  destruct (rp_out w) as [ring|f]; [|cbn; split; [by exists a|left; by apply Hthrow]]. cbn [rbind].
  destruct (fst (rx_socket a w)) as [fd|f] eqn:Es; [|cbn; split; [by exists a|left; by eapply rx_socket_throws]]. cbn [rbind].
  eapply wp_bind; [eapply wp_mono; [apply (rx_run_main_ok a Hp Hsink ring (rp_env w)); [by apply Hring|done]|intros f ->; split; [by exists a|by right]|exact (fun _ x => x)]|].
  intros [[s om] r] (Hs & H0' & Hm). cbn [wp]. split_and!; [tauto|split; [lia|by intros [? ?]]|intros Hz; by destruct om; [|destruct (H0' Hz)]|].
  intros m r' E. destruct om as [m0|]; [|done]. injection E as -> ->. destruct (Hm m eq_refl) as [He [N Hf]]. exists a, ring. split_and!; [done|done|done|done|by eapply full_sound].
Qed.


(** ** Witnesses *)
Definition producer_view (r : res (Z * option (option (Prod (list bytes))))) : option (Z * Z) :=
  match r with Ok (s, Some (Some p)) => Some (s, pr_seq p) | _ => None end.
Lemma producer_view_inv (r : res (Z * option (option (Prod (list bytes))))) (s n : Z) :
  producer_view r = Some (s, n) -> exists p, r = Ok (s, Some (Some p)) /\ pr_seq p = n.
Proof. destruct r as [[s' [[p|]|]]|]; try done. intros [= -> <-]. by exists p. Qed.
Lemma demo_producer_view : producer_view (producer_main demo_prod_argv (Ok ([] : list bytes)) demo_prod_env) = Some (0, 2).
Proof. vm_compute. reflexivity. Qed.

Lemma producer_process_correct_witness :
  exists p a, producer_main demo_prod_argv (Ok ([] : list bytes)) demo_prod_env = Ok (0, Some (Some p)) /\ pr_seq p = 2 /\
    produced a 4242 demo_prod_events ([] : list bytes) p.
Proof.
  destruct (producer_view_inv _ _ _ demo_producer_view) as (p & E & Hn).
  assert (Ho : forall f, Ok ([] : list bytes) = Throw f -> is_exception f = true) by done.
  assert (Hr : forall (r : list bytes) f e, sink_publish r f = Throw e -> is_exception e = true) by done.
  pose proof (producer_process_correct (R := list bytes) demo_prod_argv (Ok []) demo_prod_env Ho Hr ltac:(cbn; lia) demo_clocks_wf ltac:(cbn; lia)) as Hw.
  rewrite E in Hw. destruct Hw as (_ & _ & _ & Hp). destruct (Hp p eq_refl) as (a & ring & _ & [= <-] & Hpr). exists p, a. split; [exact E|]. split; [exact Hn|]. exact Hpr.
Defined.

Definition consumer_view (r : res (Z * option (option (Cx * Report)))) : option (Z * Z) :=
  match r with Ok (s, Some (Some (_, r))) => Some (s, rp_received r) | _ => None end.
Lemma consumer_view_inv (r : res (Z * option (option (Cx * Report)))) (s n : Z) :
  consumer_view r = Some (s, n) -> exists c rep, r = Ok (s, Some (Some (c, rep))) /\ rp_received rep = n.
Proof. destruct r as [[s' [[[c rep]|]|]]|]; try done. intros [= -> <-]. by exists c, rep. Qed.
Lemma demo_consumer_main_view : consumer_view (consumer_main demo_cx_argv (Ok tt) demo_cx_env) = Some (0, 2).
Proof. vm_compute. reflexivity. Qed.

Lemma consumer_process_correct_witness :
  exists c r a fs, consumer_main demo_cx_argv (Ok tt) demo_cx_env = Ok (0, Some (Some (c, r))) /\ rp_received r = 2 /\
    fs `prefix_of` omap ev_frame demo_events /\ consumed a fs c r.
Proof.
  destruct (consumer_view_inv _ _ _ demo_consumer_main_view) as (c & r & E & Hr).
  assert (Hi : forall f, Ok tt = Throw f -> is_exception f = true) by done.
  destruct (consumer_process_correct demo_cx_argv (Ok tt) demo_cx_env Hi ltac:(cbn; lia)) as (s & o & E' & _ & _ & _ & H).
  rewrite E in E'. injection E' as <- <-. destruct (H c r eq_refl) as (a & fs & _ & _ & Hpre & Hc). exists c, r, a, fs.
  split; [exact E|]. split; [exact Hr|]. split; [exact Hpre|exact Hc].
Defined.

Definition demo_tx_proc : TxProc (list bytes) :=
  mkTxProc None None (Ok 0) [] (Throw RuntimeError) demo_net [demo_net_env] (fun _ => Some false) demo_tx_env.
Definition sender_view (r : res (Z * option (option (list (nat * option bool) * Tx (list bytes) * option TxReport)))) : option (Z * nat) :=
  match r with Ok (s, Some (Some (_, t, _))) => Some (s, length (t_taken t)) | _ => None end.
Lemma demo_sender_view : sender_view (sender_main demo_tx_argv demo_tx_proc) = Some (0, 2%nat).
Proof. vm_compute. reflexivity. Qed.
Lemma demo_tx_parsed (a : TxArgs) : sender_parse_args demo_tx_argv None None = Ok a -> a = demo_tx_args.
Proof. unfold demo_tx_args. by intros ->. Qed.
Lemma demo_tx_plain : plain_options demo_tx_args /\ (length (ta_destinations demo_tx_args) <= 1)%nat.
Proof. split; [intros sockets; split; vm_compute; reflexivity|vm_compute; lia]. Qed.
Lemma demo_net_ok : net_ok demo_net.
Proof. repeat (apply Forall_cons; split; [cbn; lia|]); by apply Forall_nil. Qed.
Lemma demo_tx_alone (fds : list nat) (k : Net) : open_sockets demo_tx_args (ta_destinations demo_tx_args) [demo_net_env] demo_net = (Ok fds, k) ->
  fanout (tx_config demo_tx_args (map (fun fd => (fd, Some false)) fds)) = false.
Proof.
  intros Eo. destruct (open_sockets_ok _ _ _ _ _ _ demo_net_ok Eo) as [_ (l & _ & _ & _ & -> & Hl)]. pose proof (proj2 demo_tx_plain) as H1.
  destruct l as [|x [|y l]]; [done|done|cbn in Hl; lia].
Qed.


Definition demo_rx_argv : list str := ["--allow-insecure-udp"; "--count"; "1"]%string.
Definition demo_rx_proc : RxProc (list bytes) := mkRxProc (Ok []) demo_net demo_net_env demo_udp_env.
Definition receiver_view (r : res (Z * option (option (RxMain (list bytes) * option RxReport)))) : option (Z * nat) :=
  match r with Ok (s, Some (Some (m, _))) => Some (s, length (rx_ring (mn_rx m))) | _ => None end.
Lemma demo_receiver_view : receiver_view (receiver_main demo_rx_argv demo_rx_proc) = Some (0, 1%nat).
Proof. vm_compute. reflexivity. Qed.

