(* ===== verification/Pipeline.v ===== *)
(** * From ring to ring

    The components together: the producer writes messages to a ring, the sender
    reads, stamps, encodes and sends them, the network loses, duplicates and
    reorders datagrams, the receiver decodes, deduplicates and publishes.  The
    network is a list of arrivals; everything else is the code of the other
    files.  Without FEC, the receiver publishes each message exactly once, at its
    first arrival, as long as reordering stays within the deduplication window. *)
From S2P Require Import Prelude Message Wire Dedupe Fec FecDecoder Multiplex Sink Ring Receiver Batch Fanout Sender SenderCorrect Args Config Producer Metrics Consumer Programs SenderMain.
From Stdlib Require Strings.String.
Import Strings.String.StringSyntax.
Local Delimit Scope string_scope with string.
Local Open Scope Z_scope.

(** ** Arrivals

    [past] holds the sequence numbers that have arrived, the latest first.  A
    datagram is within reach of a window of [size] if it is less than [size]
    behind every earlier arrival and not before the first one. *)
Definition in_reach (size : Z) (past : list Z) (s : Z) : bool :=
  forallb (fun p => p - size <? s) past && (List.last past s <=? s).

Fixpoint in_window (size : Z) (past arr : list Z) : bool :=
  match arr with [] => true | s :: arr' => in_reach size past s && in_window size (s :: past) arr' end.

(** The arrivals without those that had arrived before. *)
Fixpoint first_arrivals (past arr : list Z) : list Z :=
  match arr with
  | [] => []
  | s :: arr' => (if decide (s ∈ past) then [] else [s]) ++ first_arrivals (s :: past) arr'
  end.

Lemma first_arrivals_app (a b past : list Z) : first_arrivals past (a ++ b) = first_arrivals past a ++ first_arrivals (rev a ++ past) b.
Proof. revert past. induction a as [|s a IH]; intros past; [done|]. cbn. rewrite IH, <- !app_assoc. done. Qed.

Lemma in_window_app (size : Z) (a b past : list Z) : in_window size past (a ++ b) = in_window size past a && in_window size (rev a ++ past) b.
Proof. revert past. induction a as [|s a IH]; intros past; [done|]. cbn. by rewrite IH, <- app_assoc, andb_assoc. Qed.

Lemma first_arrivals_elem (x : Z) (arr past : list Z) : x ∈ first_arrivals past arr <-> x ∈ arr /\ x ∉ past.
Proof.
  revert past. induction arr as [|s arr IH]; intros past; cbn [first_arrivals]; [set_solver|].
  rewrite elem_of_app, IH. destruct (decide (s ∈ past)); destruct (decide (x = s)); set_solver.
Qed.

Lemma first_arrivals_NoDup (arr past : list Z) : NoDup (first_arrivals past arr).
Proof.
  revert past. induction arr as [|s arr IH]; intros past; cbn [first_arrivals]; [constructor|]. apply NoDup_app. split_and!; [|intros x Hx|apply IH].
  - destruct (decide _); [constructor|apply NoDup_singleton].
  - rewrite first_arrivals_elem. destruct (decide _); set_solver.
Qed.

(** In order and without loss, every arrival is a first one within reach. *)
Lemma first_arrivals_in_order (n : nat) (a : Z) (past : list Z) :
  (forall x, x ∈ past -> x < a) -> first_arrivals past (seqZ a (Z.of_nat n)) = seqZ a (Z.of_nat n).
Proof.
  revert a past. induction n as [|n IH]; intros a past Hp; [done|].
  rewrite seqZ_cons by lia. cbn [first_arrivals]. rewrite decide_False by (intros Hx%Hp; lia).
  replace (Z.pred (Z.of_nat (S n))) with (Z.of_nat n) by lia. cbn [app]. f_equal. apply IH. intros x [->|Hx%Hp]%elem_of_cons; lia.
Qed.

(** ** The window sees every first arrival *)

(** What the window knows of the arrivals: everything below the base has been
    accepted or is out of reach. *)
Definition follows (size : Z) (st : Spec.state) (past : list Z) : Prop :=
  (forall x, x ∈ Spec.seen st <-> x ∈ past) /\ (forall d, List.last past d = Spec.first st) /\
  forall x, Spec.first st <= x < Spec.base st -> x ∈ past \/ exists p, p ∈ past /\ x <= p - size.

Lemma in_reach_spec (size : Z) (past : list Z) (s : Z) :
  in_reach size past s = true -> (forall p, p ∈ past -> p - size < s) /\ List.last past s <= s.
Proof.
  unfold in_reach. intros [Hf Hl]%andb_true_iff. split; [|lia]. intros p Hp%list_elem_of_In. rewrite forallb_forall in Hf. specialize (Hf p Hp). lia.
Qed.

Lemma follows_step (size : Z) (st st' : Spec.state) (past : list Z) (s : Z) (r : ObserveResult) :
  0 < size -> past <> [] -> follows size st past -> in_reach size past s = true -> Spec.step size st s r st' ->
  is_accept r = negb (bool_decide (s ∈ past)) /\ follows size st' (s :: past).
Proof.
  intros Hz Hne (Hseen & Hfirst & Hbase) [Hr Hl]%in_reach_spec Hst. rewrite Hfirst in Hl.
  assert (Hlast : forall d, List.last (s :: past) d = Spec.first st) by (intros d; destruct past; [done|apply (Hfirst d)]).
  assert (Hold : s ∈ past -> follows size st (s :: past)).
  { intros Hin. split_and!; [intros x; rewrite Hseen; set_solver|done|]. intros x Hx. destruct (Hbase x Hx) as [?|(p & ? & ?)]; [left; set_solver|right; exists p; set_solver]. }
  assert (Hnew : forall b0 b', Spec.advanced ({[s]} ∪ Spec.seen st) b0 b' -> (b0 <= Spec.base st \/ b0 <= s - size + 1) ->
            follows size (Spec.mkState ({[s]} ∪ Spec.seen st) b' (Spec.first st)) (s :: past)).
  { intros b0 b' (Hb1 & Hb2 & Hb3) Hb0. split_and!; cbn; [set_solver|done|]. intros x Hx. destruct (Z.lt_ge_cases x b0).
    - destruct Hb0 as [Hb0|Hb0]; [|right; exists s; split; [set_solver|lia]].
      destruct (Hbase x ltac:(lia)) as [?|(p & ? & ?)]; [left; set_solver|right; exists p; set_solver].
    - left. specialize (Hb3 x ltac:(lia)). set_solver. }
  inversion Hst as [Hlt|? Hin|b' ? Hnin Hadv|b' ? Hnin Hadv]; subst; cbn [is_accept].
  - assert (Hin : s ∈ past). { destruct (Hbase s ltac:(lia)) as [?|(p & Hp & ?)]; [done|]. specialize (Hr p Hp). lia. }
    rewrite bool_decide_true by done. split; [done|by apply Hold].
  - apply Hseen in Hin. rewrite bool_decide_true by done. split; [done|by apply Hold].
  - rewrite Hseen in Hnin. rewrite bool_decide_false by done. split; [done|]. eapply Hnew; [done|lia].
  - rewrite Hseen in Hnin. rewrite bool_decide_false by done. split; [done|]. eapply Hnew; [done|lia].
Qed.

(** The window, fresh or in use, after the arrivals [past]. *)
Definition window_at (size : Z) (past : list Z) (w : Window) : Prop :=
  (past = [] /\ Dedupe.make size = Some w) \/ (past <> [] /\ exists st, rep w st /\ size_ w = size /\ follows size st past).

Lemma follows_first (size : Z) (st' : Spec.state) (s : Z) (r : ObserveResult) :
  0 < size -> Spec.step size (Spec.mkState ∅ s s) s r st' -> is_accept r = true /\ follows size st' [s].
Proof.
  intros Hz Hst. inversion Hst as [Hlt|? Hin|b' ? Hnin (H1 & H2 & H3)|b' Hr]; subst; cbn in *; try lia; [set_solver|].
  split; [done|]. split_and!; cbn; [set_solver|done|]. intros x Hx. left. specialize (H3 x Hx). set_solver.
Qed.

Lemma observe_at (size : Z) (past : list Z) (w : Window) (s : Z) :
  in_range 64 size -> window_at size past w -> ok_seq size s -> in_reach size past s = true ->
  exists r w', observe w s = Ok (r, w') /\ is_accept r = negb (bool_decide (s ∈ past)) /\ window_at size (s :: past) w'.
Proof.
  intros Hsz [[-> Hmk]|(Hne & st & Hrep & Hz & Ht)] Hs Hr.
  - destruct (make_shape size w Hsz Hmk) as (_ & H64 & _). destruct (fresh_observe_init size w s Hsz Hs Hmk) as [Hrep Hz].
    destruct (observe_core_refines _ _ s Hrep) as (r & w' & st' & Ho & Hst & Hrep' & Hz'); [by rewrite Hz|]. rewrite Hz in Hst.
    destruct (follows_first size st' s r ltac:(lia) Hst) as [Ha Ht]. exists r, w'. split; [exact Ho|]. split; [done|].
    right. split; [done|]. exists st'. split_and!; [done|lia|done].
  - destruct (observe_refines w st s Hrep) as (r & w' & st' & Ho & Hst & Hrep' & Hz'); [by rewrite Hz|]. rewrite Hz in Hst.
    pose proof (shape_size w (rep_shape _ _ Hrep)). destruct (follows_step size st st' past s r ltac:(lia) Hne Ht Hr Hst) as [Ha Ht'].
    exists r, w'. split_and!; [done|done|]. right. split; [done|]. exists st'. split_and!; [done|lia|done].
Qed.

(** ** What a message is on its way *)

Lemma header_at (d : bytes) (h : Header) :
  native_read (@get_Header) d = Ok h -> d = @put_Header native_io h ++ drop sizeof_Header d /\ wf_Header h.
Proof.
  unfold native_read. destruct (@get_Header native_io _) as [[h' r]|] eqn:Hg; [|done]. cbn. intros [= ->].
  destruct (get_Header_consumes _ _ _ _ (Nat.le_0_l _) Hg) as (e & rest & Hd & _ & -> & Hw). rewrite drop_0 in Hd. split; [|done].
  rewrite Hd at 2. rewrite drop_app_length' by (by rewrite length_put_Header). exact Hd.
Qed.

Lemma read_header (h : Header) (rest : bytes) : wf_Header h -> native_read (@get_Header) (@put_Header native_io h ++ rest) = Ok h.
Proof. intros Hw. unfold native_read. by rewrite (get_Header_reads h Hw _ O rest) by (by rewrite drop_0). Qed.

(** The header is in the first 40 bytes. *)
Lemma header_take (d d' : bytes) (n : nat) (h : Header) :
  (40 <= n)%nat -> take n d = take n d' -> native_read (@get_Header) d = Ok h -> native_read (@get_Header) d' = Ok h.
Proof.
  intros Hn Ht Hh. destruct (header_at d h Hh) as [Hd Hw]. pose proof (length_put_Header (io:=native_io) h) as Hl. unfold sizeof_Header in Hl.
  assert (Hp : take 40 d' = @put_Header native_io h).
  { apply (f_equal (take 40)) in Ht. rewrite !take_take in Ht. replace (40 `min` n)%nat with 40%nat in Ht by lia. rewrite <- Ht, Hd.
    by rewrite take_app_length' by lia. }
  rewrite <- (take_drop 40 d'), Hp. by apply read_header.
Qed.

(** Under the sender's identity, encoded, decoded: what the receiver publishes
    for the frame [f] of the sender's ring. *)
Definition carried (cfg : TxConfig) (f f' : bytes) : Prop :=
  exists s w, stamp cfg f = Ok s /\ encode s = Ok w /\ decode w = Some f'.

(** The messages [ws], in order, decode to the frames [all], numbered from 1
    under the identity [key]. *)
Definition carries (key : Key) (ws all : list bytes) : Prop :=
  forall i w, ws !! i = Some w -> exists f' h', all !! i = Some f' /\ decode w = Some f' /\ native_read (@get_Header) f' = Ok h' /\
    seq_id h' = Z.of_nat i + 1 /\ stream_id h' = key_stream key /\ stream_epoch h' = key_epoch key.

Lemma carries_frame (key : Key) (ws all : list bytes) (i : nat) (f : bytes) :
  carries key ws all -> length ws = length all -> all !! i = Some f -> frame_id f = (key, Z.of_nat i + 1).
Proof.
  intros Hcar Hlen Hf. destruct (lookup_lt_is_Some_2 ws i) as [w Hw]; [rewrite Hlen; by eapply lookup_lt_Some|].
  destruct (Hcar i w Hw) as (f' & h' & Hf' & _ & Hh & Hs & Hid & Hep). rewrite Hf in Hf'. injection Hf' as <-.
  unfold frame_id. rewrite Hh, Hs, Hid, Hep. by destruct key.
Qed.

Lemma carries_ids (key : Key) (ws all : list bytes) :
  carries key ws all -> length ws = length all -> map frame_id all = map (pair key) (seqZ 1 (Z.of_nat (length all))).
Proof.
  intros Hcar Hlen. apply list_eq. intros i. change (map ?g ?l) with (g <$> l). rewrite !list_lookup_fmap. destruct (all !! i) as [f|] eqn:Ef; cbn.
  - rewrite (carries_frame key ws all i f Hcar Hlen Ef). apply lookup_lt_Some in Ef. rewrite lookup_seqZ_lt by lia. cbn. do 2 f_equal. lia.
  - apply lookup_ge_None in Ef. by rewrite lookup_seqZ_ge by lia.
Qed.

(** A consumer that exits with status 0 having been asked for all of a ring
    has read all of it. *)
Lemma counted_all (argv : list str) (env : CxEnv) (a : CxArgs) (c : Cx) (r : Report) (log : list bytes) :
  Z.of_nat (length (xe_events env)) < 2 ^ 64 -> consumer_parse_args argv = Ok a -> ca_skip a = 0 -> ca_count a = Z.of_nat (length log) ->
  omap ev_frame (xe_events env) `prefix_of` log -> cx_main argv env = Ok (0, Some (c, r)) -> consumed a log c r.
Proof.
  intros Hlen Ea Hskip Hcnt Hevs Hcx. destruct (cx_main_ok argv env Hlen) as (st & o & E & _ & _ & Ho). rewrite Hcx in E. injection E as <- <-.
  destruct (Ho c r eq_refl) as (a' & fs & Ea' & Hpre & Hc & Hst). rewrite Ea in Ea'. injection Ea' as <-.
  assert (Hle : (length log <= length fs)%nat).
  { destruct (proj1 Hst eq_refl) as [H0|Hge]; [lia|]. rewrite (proj2 (proj2 Hc)), Hskip in Hge. change (drop (Z.to_nat 0) fs) with fs in Hge. lia. }
  assert (Hpl : fs `prefix_of` log) by (by etrans). destruct Hpl as [tl Hl]. pose proof (f_equal length Hl) as Hll. rewrite length_app in Hll.
  assert (tl = []) as -> by (apply length_zero_iff_nil; lia). rewrite app_nil_r in Hl. by subst.
Qed.

Lemma stamp_header (cfg : TxConfig) (f s : bytes) (h : Header) :
  wf_key (tx_key cfg) -> stamp cfg f = Ok s -> native_read (@get_Header) f = Ok h ->
  native_read (@get_Header) s = Ok (mkHeader (seq_id h) (send_ts_ns h) (type_ h) (version h) (body_len h) (key_stream (tx_key cfg)) (key_epoch (tx_key cfg))).
Proof.
  intros [Hk1 Hk2] Hs Hh. destruct (header_at f h Hh) as [Hf Hw]. pose proof (length_put_Header (io:=native_io) h) as Hl.
  assert (Hlf : length f = (sizeof_Header + length (drop sizeof_Header f))%nat) by (rewrite Hf at 1; by rewrite length_app, Hl).
  unfold stamp in Hs. destruct (Nat.ltb_spec (length f) sizeof_Header); [lia|].
  assert (Ht : take sizeof_Header f = @put_Header native_io h) by (rewrite Hf; by rewrite take_app_length' by done).
  rewrite Ht, <- (app_nil_r (@put_Header native_io h)), read_header in Hs by done. cbn [rbind] in Hs.
  unfold overwrite in Hs. destruct (_ <=? _)%nat in Hs; [|done]. apply (inj Ok) in Hs as <-. rewrite take_0. cbn [app]. set (h' := mkHeader _ _ _ _ _ _ _). rewrite read_header; [done|].
  unfold wf_Header, h' in *. cbn. tauto.
Qed.

Lemma encode_carries (cfg : TxConfig) (f w : bytes) (h : Header) :
  wf_key (tx_key cfg) -> encodes cfg f w -> native_read (@get_Header) f = Ok h ->
  exists f' h', carried cfg f f' /\ decode w = Some f' /\ native_read (@get_Header) f' = Ok h' /\
    seq_id h' = seq_id h /\ stream_id h' = key_stream (tx_key cfg) /\ stream_epoch h' = key_epoch (tx_key cfg).
Proof.
  intros Hk (s & Hs & He) Hh. pose proof (stamp_header cfg f s h Hk Hs Hh) as Hsh.
  assert (Hv : validate_frame s = true) by (unfold encode in He; by destruct (validate_frame s)).
  destruct (encode_validated s Hv) as (w' & f' & He' & Hd & Hl & Ht & Hn). rewrite He in He'. apply (inj Ok) in He' as <-.
  exists f'. eexists. split; [by exists s, w|]. split; [done|]. split; [by apply (header_take s f' (length w - 4)); [lia|done|]|done].
Qed.

(** A wire frame is not taken for a FEC datagram. *)
Lemma wire_not_fec {P : Type} (publish : bytes -> bool -> Z -> P -> res (bool * P)) (d : Decoder) (w f : bytes) (now : Z) (p : P) :
  decode w = Some f -> receive publish d w now p = (let! '(ok, p) := publish w false 0 p in Ok (ok, d, p)).
Proof.
  intros Hd. destruct (decode_inv w f Hd) as (rest & _ & _ & Hw & _). unfold receive.
  destruct (Nat.ltb_spec (length w) kEnvelopeSize) as [|Hl]; [done|].
  destruct (read_envelope_total w Hl) as (e & -> & _ & He). cbn [rbind].
  destruct (Z.eqb_spec (env_magic e) kMagic) as [Hm|]; [|done]. exfalso.
  apply (f_equal (take 4)) in He. rewrite Hw in He. unfold envelope_bytes in He. rewrite Hm in He.
  rewrite <- app_assoc, !take_app_length' in He by done. vm_compute in He. done.
Qed.

(** ** The receiver *)
Section Receive.
Context {R : Type} `{SinkLaws R}.
Variables (cfg : RxConfig) (key : Key) (sz : Z) (frame : Z -> bytes).
Hypothesis Hsink : forall (r : R) f, exists r', sink_publish r f = Ok r'.
Hypothesis Hkey : wf_key key /\ key_stream key <> 0 /\ key_epoch key <> 0.
Hypothesis Hsz : in_range 64 sz.
Hypothesis Hdedupe : cfg_dedupe_enabled cfg = true.

(** The message brings the datagram of the frame numbered [s]. *)
Definition brings (m : rx_message) (s : Z) : Prop :=
  m_trunc m = false /\ ok_seq sz s /\ exists w h, m_raw m = mux_wrap key w /\ decode w = Some (frame s) /\
    native_read (@get_Header) (frame s) = Ok h /\ seq_id h = s /\ stream_id h = key_stream key /\ stream_epoch h = key_epoch key.

(** The table gives the stream a window that has seen the arrivals [past]. *)
Definition rx_at (past : list Z) (rx : Receiver R) : Prop :=
  exists st ss, Streams_get (rx_streams rx) key = Ok (Some st, ss) /\ window_at sz past (st_dedupe st).

Lemma rx_datagram_at (past : list Z) (rx : Receiver R) (m : rx_message) (s : Z) :
  rx_at past rx -> brings m s -> in_reach sz past s = true ->
  exists rx', rx_datagram cfg rx (m_trunc m) (m_raw m) (m_now m) = Ok (Some true, rx') /\ rx_at (s :: past) rx' /\
    sink_log (rx_ring rx') = sink_log (rx_ring rx) ++ map frame (if decide (s ∈ past) then [] else [s]).
Proof using All.
  intros (st & ss & Hget & Hw) (Htr & Hok & w & h & Hraw & Hdec & Hh & Hseq & Hid & Hep) Hr.
  destruct Hkey as (Hwk & Hk1 & Hk2). apply Z.eqb_neq in Hk1, Hk2.
  destruct (observe_at sz past (st_dedupe st) s Hsz Hw Hok Hr) as (r & w' & Ho & Ha & Hw').
  destruct (Hsink (rx_ring rx) (frame s)) as [ring' Hp].
  unfold rx_datagram. rewrite Htr, Hraw, unwrap_wrap by done. rewrite Hk1, Hk2. cbn [rbind negb orb]. rewrite Hget. cbn [rbind].
  rewrite (wire_not_fec _ _ _ _ _ _ Hdec). unfold publish_frame. rewrite Hdec, Hh, Hdedupe. cbn [rbind negb ps_dedupe ps_ring].
  rewrite Hid, Hep, !Z.eqb_refl, Hseq, Ho. cbn [negb orb rbind andb]. rewrite Ha, Hp.
  destruct (decide (s ∈ past)) as [Hin|Hin]; [rewrite bool_decide_true by done|rewrite bool_decide_false by done]; cbn [negb rbind].
  all: eexists; split; [done|]; split; [|cbn [rx_ring ps_ring map]; rewrite ?app_nil_r; try done; by apply sink_publish_log].
  all: eexists _, _; split; [unfold Streams_get; cbn; by rewrite lookup_insert_eq|exact Hw'].
Qed.

Lemma rx_batch_at (ms : list rx_message) (arr past : list Z) (rx : Receiver R) :
  rx_at past rx -> Forall2 brings ms arr -> in_window sz past arr = true ->
  exists rx', rx_batch cfg rx ms = Ok rx' /\ rx_at (rev arr ++ past) rx' /\
    sink_log (rx_ring rx') = sink_log (rx_ring rx) ++ map frame (first_arrivals past arr).
Proof using All.
  intros Hat Hb. revert past rx Hat. induction Hb as [|m s ms arr Hm Hms IH]; intros past rx Hat Hw.
  { exists rx. split_and!; [done|done|]. by rewrite app_nil_r. }
  cbn [in_window] in Hw. apply andb_true_iff in Hw as [Hr Hw].
  destruct (rx_datagram_at past rx m s Hat Hm Hr) as (rx1 & E1 & Hat1 & L1). destruct (IH _ _ Hat1 Hw) as (rx2 & E2 & Hat2 & L2).
  exists rx2. cbn [rx_batch first_arrivals rev]. rewrite E1. cbn [rbind]. split; [done|]. rewrite <- app_assoc. split; [done|].
  by rewrite L2, L1, map_app, app_assoc.
Qed.

Lemma rx_expire_at (past : list Z) (rx : Receiver R) (now : Key -> Z) : rx_at past rx -> rx_at past (rx_expire rx now).
Proof. intros (st & ss & Hget & Hw). destruct (rx_expire_get rx now key st ss Hget) as (ss' & E). by eexists _, ss'. Qed.

Lemma rx_run_at (its : list ((Key -> Z) * list rx_message)) (arr past : list Z) (rx : Receiver R) :
  cfg_count cfg = 0 -> cfg_echo cfg = false -> rx_at past rx -> Forall2 brings (concat (map snd its)) arr -> in_window sz past arr = true ->
  exists rx', rx_run cfg rx its = Ok rx' /\ sink_log (rx_ring rx') = sink_log (rx_ring rx) ++ map frame (first_arrivals past arr).
Proof using All.
  intros Hc He. revert arr past rx. induction its as [|[now batch] its IH]; intros arr past rx Hat Hb Hw.
  { inversion Hb; subst. exists rx. split; [done|]. by rewrite app_nil_r. }
  cbn [map concat snd] in Hb. apply Forall2_app_inv_l in Hb as (a & b & Ha & Hb & ->). rewrite in_window_app in Hw. apply andb_true_iff in Hw as [Hw1 Hw2].
  destruct (rx_batch_at batch a past _ (rx_expire_at past rx now Hat) Ha Hw1) as (rx1 & E1 & Hat1 & L1).
  destruct (IH b _ rx1 Hat1 Hb Hw2) as (rx2 & E2 & L2). exists rx2. cbn [rx_run]. unfold rx_continue, rx_iteration. rewrite Hc, He. cbn [Z.eqb orb].
  rewrite E1. cbn [rbind]. split; [done|]. rewrite L2, L1, first_arrivals_app, map_app, app_assoc. done.
Qed.
End Receive.

(** ** The whole way *)

(** The network between the datagrams [ds] of a sender and what a receiver is
    given: each message is, untruncated, the datagram its arrival numbers; loss,
    duplication and order are those of [arr]. *)
Definition network (ds : list bytes) (arr : list Z) (ms : list rx_message) : Prop :=
  Forall2 (fun m s => m_trunc m = false /\ 1 <= s /\ ds !! Z.to_nat (s - 1) = Some (m_raw m)) ms arr.

Definition numbered (all : list bytes) (s : Z) : bytes := nth (Z.to_nat (s - 1)) all [].

Lemma numbered_all (all : list bytes) : map (numbered all) (seqZ 1 (Z.of_nat (length all))) = all.
Proof.
  apply list_eq. intros i. change (map ?g ?l) with (g <$> l). rewrite list_lookup_fmap. destruct (Nat.lt_ge_cases i (length all)) as [Hi|Hi].
  - rewrite lookup_seqZ_lt by lia. cbn. unfold numbered. replace (Z.to_nat (1 + Z.of_nat i - 1)) with i by lia.
    destruct (lookup_lt_is_Some_2 all i Hi) as [x Hx]. by rewrite Hx, (nth_lookup_Some _ _ _ _ Hx).
  - rewrite lookup_seqZ_ge by lia. cbn. symmetry. by apply lookup_ge_None.
Qed.

Lemma all_arrived (n : nat) (arr : list Z) :
  (forall s, s ∈ arr -> 1 <= s <= Z.of_nat n) -> (forall s, 1 <= s <= Z.of_nat n -> s ∈ arr) -> first_arrivals [] arr ≡ₚ seqZ 1 (Z.of_nat n).
Proof.
  intros Hr Hall. apply NoDup_Permutation; [apply first_arrivals_NoDup|apply NoDup_seqZ|]. intros x. rewrite first_arrivals_elem, elem_of_seqZ.
  split; [intros [Hx%Hr _]; lia|]. intros Hx. split; [apply Hall; lia|set_solver].
Qed.

(** The messages the sender took from the producer's ring, as datagrams. *)
Lemma sender_carries (cfg : TxConfig) (pid epoch : Z) (kind : Kind) (fs ws : list bytes) :
  wf_key (tx_key cfg) -> (forall i f, fs !! i = Some f -> is_message pid epoch kind (Z.of_nat i + 1) f) -> Forall2 (encodes cfg) fs ws ->
  exists all, Forall2 (carried cfg) fs all /\ length ws = length all /\
    carries (tx_key cfg) ws all.
Proof.
  intros Hk Hf He. revert Hf.
  assert (Hgen : forall n, (forall i f, fs !! i = Some f -> is_message pid epoch kind (Z.of_nat (n + i) + 1) f) ->
    exists all, Forall2 (carried cfg) fs all /\ length ws = length all /\
      forall i w, ws !! i = Some w -> exists f' h', all !! i = Some f' /\ decode w = Some f' /\ native_read (@get_Header) f' = Ok h' /\
        seq_id h' = Z.of_nat (n + i) + 1 /\ stream_id h' = key_stream (tx_key cfg) /\ stream_epoch h' = key_epoch (tx_key cfg)); [|exact (Hgen O)].
  induction He as [|f w fs ws Hw _ IH]; intros n Hf; [exists []; split_and!; [constructor|done|done]|].
  destruct (Hf O f eq_refl) as (_ & h & Hh & Hseq & _). destruct (encode_carries cfg f w h Hk Hw Hh) as (f' & h' & Hc & Hd & Hh' & Hs' & Hid).
  destruct (IH (S n)) as (all & Hall & Hlen & Hi). { intros i g Hg. specialize (Hf (S i) g Hg). by replace (n + S i)%nat with (S n + i)%nat in Hf by lia. }
  exists (f' :: all). split_and!; [by constructor|cbn; by rewrite Hlen|]. intros [|i] v Hv.
  - injection Hv as <-. exists f', h'. split_and!; try done; [by rewrite Hs', Hseq|apply Hid|apply Hid].
  - destruct (Hi i v Hv) as (g & k & ? & ? & ? & Hq & ?). exists g, k. split_and!; try done; [|tauto|tauto]. rewrite Hq. lia.
Qed.

(** A sender that took as many frames as its ring had took all of them. *)
Lemma took_all {R : Type} (cfg : TxConfig) (reads : list (FrameStatus * bytes * Z)) (t : Tx R) (fs : list bytes) :
  sent_all cfg reads t -> omap read_frame reads = fs -> (length fs <= length (t_taken t))%nat -> Forall2 (encodes cfg) fs (t_taken t).
Proof.
  intros ((consumed & Hreads & Hf) & _) Hfs Hlen.
  rewrite Hreads, omap_app in Hfs. pose proof (Forall2_length _ _ _ Hf) as Hl. rewrite <- Hfs, length_app in Hlen.
  assert (omap read_frame (t_reads t) = []) as Hnil by (apply length_zero_iff_nil; lia). by rewrite Hnil, app_nil_r in Hfs; subst.
Qed.

(** The frames taken, when they are the messages of a producer. *)
Lemma carried_messages {R : Type} (cfg : TxConfig) (reads : list (FrameStatus * bytes * Z)) (t : Tx R) (fs : list bytes) (pid epoch : Z) (kind : Kind) :
  wf_key (tx_key cfg) -> sent_all cfg reads t -> omap read_frame reads = fs -> (length fs <= length (t_taken t))%nat ->
  (forall i f, fs !! i = Some f -> is_message pid epoch kind (Z.of_nat i + 1) f) ->
  exists all, Forall2 (carried cfg) fs all /\ length (t_taken t) = length all /\
    carries (tx_key cfg) (t_taken t) all.
Proof. intros Hk Hsent Hfs Hlen Hmsg. apply (sender_carries cfg pid epoch kind fs (t_taken t) Hk Hmsg). by apply (took_all cfg reads). Qed.

(** What the network brings of a sender's datagrams. *)
Lemma network_brings (key : Key) (sz n : Z) (ws all : list bytes) (arr : list Z) (ms : list rx_message) :
  n + sz + 1 < 2 ^ 64 -> 0 <= sz /\ n = Z.of_nat (length all) /\ length ws = length all ->
  carries key ws all ->
  network (map (mux_wrap key) ws) arr ms -> Forall2 (brings key sz (numbered all)) ms arr /\ forall s, s ∈ arr -> 1 <= s <= n.
Proof.
  intros Hroom (Hsz & Hn & Hlen) Hcar Hnet.
  assert (Hone : forall m s, m_trunc m = false /\ 1 <= s /\ map (mux_wrap key) ws !! Z.to_nat (s - 1) = Some (m_raw m) -> brings key sz (numbered all) m s /\ 1 <= s <= n).
  { intros m s (Htr & Hs & Hw). change (map ?g ?l) with (g <$> l) in Hw. apply list_lookup_fmap_Some in Hw as (w & Hraw & Hw).
    pose proof (lookup_lt_Some _ _ _ Hw). destruct (Hcar _ w Hw) as (f' & h' & Hf' & Hd & Hh & Hseq & Hid).
    assert (Hnum : numbered all s = f') by (unfold numbered; by rewrite (nth_lookup_Some _ _ _ _ Hf')).
    split; [|lia]. split; [done|]. split; [unfold ok_seq; lia|]. exists w, h'. rewrite Hnum, Hraw. split_and!; try done; [lia|apply Hid|apply Hid]. }
  split; [eapply Forall2_impl; [exact Hnet|]; intros m s Hm; by apply Hone|]. intros s Hs. apply list_elem_of_lookup in Hs as [i Hi].
  destruct (Forall2_lookup_r _ _ _ _ _ Hnet Hi) as (m & _ & Hm). by apply (Hone m s).
Qed.

Lemma rx_init_at {R : Type} `{Sink R} (key : Key) (sz : Z) (w0 : Window) (ring : R) (max_streams gens : Z) :
  Dedupe.make sz = Some w0 -> 1 <= max_streams -> rx_at key sz [] (rx_init ring max_streams gens sz).
Proof.
  intros Hw Hm. unfold rx_at, Streams_get. cbn. rewrite lookup_empty, map_size_empty. destruct (Z.leb_spec max_streams (Z.of_nat 0)); [lia|].
  unfold Stream_make. rewrite Hw. cbn. eexists _, _. split; [reflexivity|]. by left.
Qed.

(** *** The run

    The hypotheses of the theorems below: the producer and the sender exited
    with status 0, the sender having been asked for as many frames as there were
    and having read the producer's ring; the receiver is given datagrams of the
    sender only. *)
Section Run.
Context {R : Type} `{SinkLaws R} {Ech : Type} `{Sink Ech}.
Hypothesis Hsink : forall (r : R) f, exists r', sink_publish r f = Ok r'.

Variables (pargv : list str) (ring0 : R) (penv : PrEnv) (p : Prod R).
Hypothesis Hclocks : 0 <= pe_start penv /\ Forall (fun ev => wf_clocks (pv_clocks ev)) (pe_events penv) /\ Z.of_nat (length (pe_events penv)) < 2 ^ 64.
Hypothesis Hempty : sink_log ring0 = [].
Hypothesis Hprod : prod_main pargv ring0 penv = Ok (0, Some p).

Variables (targs : TxArgs) (sockets : list (nat * option bool)) (echo_ring : Ech) (env : TxEnv) (t : Tx Ech) (rep : option TxReport).
#[local] Abbreviation txcfg := (tx_config targs sockets).
Hypothesis Hargs : tx_args_wf targs.
Hypothesis Hplain : str_empty (ta_echo_out_shm targs) = true /\ tx_test_drop txcfg = false /\ tx_test_reorder txcfg = false.
Hypothesis Hio : wd_wire (se_io env) = [] /\ Z.of_nat (length (se_reads env)) < 2 ^ 64.
Hypothesis Hreads : omap read_frame (se_reads env) = sink_log (pr_ring p).
Hypothesis Hcount : ta_count targs = pr_seq p.
Hypothesis Htx : tx_main txcfg echo_ring env = Ok (0, t, rep).

Lemma sender_key : wf_key (tx_key txcfg) /\ key_stream (tx_key txcfg) <> 0 /\ key_epoch (tx_key txcfg) <> 0.
Proof using Hargs. destruct (tw_identity _ Hargs) as [Hid1 Hid2]. clear - Hid1 Hid2. unfold wf_key, in_range. cbn. lia. Qed.

(** The sender took the producer's messages and sent what it says it sent. *)
Lemma sent_messages :
  exists all, Forall2 (carried txcfg) (sink_log (pr_ring p)) all /\ Z.of_nat (length all) = pr_seq p /\
    length (t_taken t) = length all /\ sent_all txcfg (se_reads env) t /\
    carries (tx_key txcfg) (t_taken t) all.
Proof using All.
  destruct Hclocks as (Hst & Hck & Hevs). pose proof (prod_main_ok pargv ring0 penv Hst Hck Hevs) as Hp. rewrite Hprod in Hp.
  destruct Hp as (_ & _ & Hp). destruct (Hp p eq_refl) as (a & _ & fs & epoch & Hlog & Hseq & Hmsg & _). rewrite Hempty in Hlog. cbn [app] in Hlog.
  destruct Hplain as (Hecho & Hdr & Hro). destruct Hio as [Hwire Hrl].
  pose proof (tx_main_outcome targs sockets echo_ring env Hargs (config_echo targs sockets (or_introl Hecho)) Hdr Hro Hwire Hrl) as Hout. rewrite Htx in Hout.
  destruct (proj2 Hout eq_refl) as (Hsent & _ & Hcnt & _).
  rewrite Hlog in Hreads. rewrite Hcount, Hseq in Hcnt.
  destruct (carried_messages txcfg _ t fs _ _ _ (proj1 sender_key) Hsent Hreads ltac:(lia) Hmsg) as (all & Hall & Hlen & Hcar).
  exists all. rewrite Hlog. split_and!; [done|by rewrite Hseq, (Forall2_length _ _ _ Hall)|done|done|done].
Qed.

(** Without FEC, the receiver. *)
Hypothesis Hnofec : ta_fec_k targs = 0.
Variables (rcfg : RxConfig) (ring : R) (max_streams gens sz : Z) (its : list ((Key -> Z) * list rx_message)) (arr : list Z).
Hypothesis Hrx : cfg_dedupe_enabled rcfg = true /\ cfg_count rcfg = 0 /\ cfg_echo rcfg = false.
Hypothesis Hwindow : in_range 64 sz /\ is_Some (Dedupe.make sz) /\ pr_seq p + sz + 1 < 2 ^ 64.
Hypothesis Hstreams : 1 <= max_streams.
Hypothesis Hnet : network (concat (o_flushed (e_out (t_em t)))) arr (concat (map snd its)).
Hypothesis Hreach : in_window sz [] arr = true.

(** The receiver's ring after the run. *)
Lemma received_messages :
  exists all rx, Forall2 (carried txcfg) (sink_log (pr_ring p)) all /\ Z.of_nat (length all) = pr_seq p /\
    map frame_id all = map (pair (tx_key txcfg)) (seqZ 1 (Z.of_nat (length all))) /\
    rx_run rcfg (rx_init ring max_streams gens sz) its = Ok rx /\
    sink_log (rx_ring rx) = sink_log ring ++ map (numbered all) (first_arrivals [] arr) /\ (forall s, s ∈ arr -> 1 <= s <= pr_seq p).
Proof using All.
  destruct sent_messages as (all & Hall & Hn & Hlen & (_ & Hds & _) & Hcar). rewrite (Hnofec : tx_fec_k txcfg = 0) in Hds. cbn [Z.eqb] in Hds. destruct Hwindow as (Hsz & [w0 Hw0] & Hroom). destruct Hrx as (Hded & Hc0 & He0).
  destruct (make_shape sz w0 Hsz Hw0) as (_ & H64 & _).
  assert (Hb : Forall2 (brings (tx_key txcfg) sz (numbered all)) (concat (map snd its)) arr /\ forall s, s ∈ arr -> 1 <= s <= pr_seq p).
  { rewrite Hds in Hnet. apply (network_brings _ _ _ (t_taken t)); [done|lia|done|done]. }
  destruct (rx_run_at rcfg (tx_key txcfg) sz (numbered all) Hsink sender_key Hsz Hded its arr [] (rx_init ring max_streams gens sz) Hc0 He0) as (rx & Hrun & Hlog);
    [by apply (rx_init_at _ _ w0)|apply Hb|done|]. cbn [rx_ring rx_init] in Hlog.
  exists all, rx. split_and!; [done|done|by apply (carries_ids _ (t_taken t))|done|done|apply Hb].
Qed.


(** All four programs together, on a network that delivers in order and
    without loss: if they exit with status 0, each having been asked for as many
    messages as the producer wrote and the consumer having read the receiver's
    ring, the consumer has counted the messages 1 to n, in order, all under
    the sender's identity, and reports n received, n expected and none dropped. *)
Theorem system_delivers (cargv : list str) (cenv : CxEnv) (a : CxArgs) (c : Cx) (r : Report) :
  arr = seqZ 1 (pr_seq p) -> sink_log ring = [] ->
  Z.of_nat (length (xe_events cenv)) < 2 ^ 64 -> consumer_parse_args cargv = Ok a -> ca_skip a = 0 -> ca_count a = pr_seq p ->
  (forall rx, rx_run rcfg (rx_init ring max_streams gens sz) its = Ok rx -> omap ev_frame (xe_events cenv) = sink_log (rx_ring rx)) ->
  cx_main cargv cenv = Ok (0, Some (c, r)) ->
  map (fun e => (fst e, fst (snd e))) (cs_seen c) = map (pair (tx_key txcfg)) (seqZ 1 (pr_seq p)) /\
  rp_received r = pr_seq p /\ rp_expected r = pr_seq p /\ rp_dropped r = 0.
Proof using All.
  intros Harr Hring Hlen Ea Hskip Hcnt Hevs Hcx. destruct received_messages as (all & rx & _ & Hn & Hid & Hrun & Hlog & _).
  specialize (Hevs rx Hrun). rewrite Hlog, Hring, Harr, <- Hn, first_arrivals_in_order, numbered_all in Hevs by (intros x Hx; by apply elem_of_nil in Hx).
  cbn [app] in Hevs. destruct (complete_summary a all c r (tx_key txcfg) (length all)) as (Hseen & Hrep).
  - apply (counted_all cargv cenv); [done|done|done|lia|by rewrite Hevs|done].
  - done.
  - by rewrite Hid.
  - destruct Hwindow as (Hz & _ & Hroom). unfold in_range in Hz. lia.
  - rewrite Hseen, Hid, Hn. by rewrite Hn in Hrep.
Qed.
End Run.

(** ** Witnesses: two messages, once with the first datagram duplicated, and
    once all the way to the consumer *)
Definition demo_produced : list bytes :=
  match prod_main demo_prod_argv ([] : list bytes) demo_prod_env with Ok (_, Some p) => sink_log (pr_ring p) | _ => [] end.
Definition demo_pipe_env : TxEnv :=
  mkTxEnv 0 false (mkWorld [] [STook [None; None]] [] [] []) [] (map (fun f => (kOk, f, 0)) demo_produced) [false; false; false] [] 0 0 [] [] 10 20.
Definition demo_sent : list bytes :=
  match tx_main (tx_config demo_tx_args demo_tx_sockets) ([] : list bytes) demo_pipe_env with Ok (_, t, _) => concat (o_flushed (e_out (t_em t))) | Throw _ => [] end.
Definition demo_received (arr : list Z) : list ((Key -> Z) * list rx_message) :=
  [(fun _ => 0, map (fun s => mkMessage false (nth (Z.to_nat (s - 1)) demo_sent []) 5) arr)].
Definition demo_delivered : list bytes :=
  match rx_run demo_cfg (rx_init ([] : list bytes) 4 8 64) (demo_received [1; 2]) with Ok rx => rx_ring rx | Throw _ => [] end.
Definition demo_consumer_argv : list str := ["--count"; "2"]%string.
Definition demo_consumer_args : CxArgs := match consumer_parse_args demo_consumer_argv with Ok a => a | Throw _ => CxArgs_default end.
Definition demo_consumer_env : CxEnv := mkCxEnv true true 0 0 (map (fun f => mkCxEvent false (kOk, f, 0) 2000 1 true) demo_delivered).

Lemma demo_pipe_view : tx_view (tx_main (tx_config demo_tx_args demo_tx_sockets) ([] : list bytes) demo_pipe_env) = Some (0, 2%nat).
Proof. vm_compute. reflexivity. Qed.
Lemma demo_lengths : length demo_produced = 2%nat /\ length demo_sent = 2%nat /\ length demo_delivered = 2%nat.
Proof. vm_compute. split_and!; reflexivity. Qed.
Lemma demo_consumer_view : cx_view (cx_main demo_consumer_argv demo_consumer_env) = Some (0, 2).
Proof. vm_compute. reflexivity. Qed.
Lemma demo_consumer_parsed : consumer_parse_args demo_consumer_argv = Ok demo_consumer_args.
Proof. vm_compute. reflexivity. Qed.

(** The hypotheses about the producer and the sender hold in the example. *)
Lemma demo_clocks_ok : 0 <= pe_start demo_prod_env /\ Forall (fun ev => wf_clocks (pv_clocks ev)) (pe_events demo_prod_env) /\
  Z.of_nat (length (pe_events demo_prod_env)) < 2 ^ 64.
Proof. split_and!; [cbn; lia|exact demo_clocks_wf|cbn; lia]. Qed.
Lemma demo_plain : str_empty (ta_echo_out_shm demo_tx_args) = true /\ tx_test_drop (tx_config demo_tx_args demo_tx_sockets) = false /\ tx_test_reorder (tx_config demo_tx_args demo_tx_sockets) = false.
Proof. split_and!; vm_compute; reflexivity. Qed.
Lemma demo_no_fec : ta_fec_k demo_tx_args = 0.
Proof. vm_compute. reflexivity. Qed.
Lemma demo_pipe_io : wd_wire (se_io demo_pipe_env) = [] /\ Z.of_nat (length (se_reads demo_pipe_env)) < 2 ^ 64.
Proof. split; [done|]. unfold demo_pipe_env. cbn [se_reads]. rewrite length_map, (proj1 demo_lengths). cbn. lia. Qed.
Lemma demo_pipe_reads : omap read_frame (se_reads demo_pipe_env) = demo_produced.
Proof. unfold demo_pipe_env. cbn [se_reads]. induction demo_produced as [|f l IH]; [done|]. cbn. by f_equal. Qed.
Lemma demo_consumer_reads : omap ev_frame (xe_events demo_consumer_env) = demo_delivered.
Proof. unfold demo_consumer_env. cbn [xe_events]. induction demo_delivered as [|f l IH]; [done|]. cbn. by f_equal. Qed.

Lemma demo_network (arr : list Z) : Forall (fun s => 1 <= s <= 2) arr -> network demo_sent arr (concat (map snd (demo_received arr))).
Proof.
  unfold network, demo_received. cbn [map concat snd]. rewrite app_nil_r. intros Ha.
  induction Ha as [|s arr Hs _ IH]; cbn [map]; [constructor|]. apply Forall2_cons. split; [|exact IH]. split; [reflexivity|]. split; [lia|].
  destruct (lookup_lt_is_Some_2 demo_sent (Z.to_nat (s - 1))) as [d Hd]; [rewrite (proj1 (proj2 demo_lengths)); lia|].
  cbn [m_raw]. rewrite Hd. f_equal. symmetry. exact (nth_lookup_Some _ _ _ _ Hd).
Qed.

(** What the runs of the two programs are. *)
Lemma demo_runs : exists p t rep, prod_main demo_prod_argv ([] : list bytes) demo_prod_env = Ok (0, Some p) /\ pr_seq p = 2 /\
  tx_main (tx_config demo_tx_args demo_tx_sockets) ([] : list bytes) demo_pipe_env = Ok (0, t, rep) /\
  omap read_frame (se_reads demo_pipe_env) = sink_log (pr_ring p) /\ concat (o_flushed (e_out (t_em t))) = demo_sent /\ length (sink_log (pr_ring p)) = 2%nat.
Proof.
  destruct (prod_view_inv _ _ _ demo_prod_view) as (p & E & Hs). destruct (tx_view_inv _ _ _ demo_pipe_view) as (t & rep & Et & _).
  assert (Hp : demo_produced = sink_log (pr_ring p)) by (unfold demo_produced; by rewrite E).
  exists p, t, rep. split_and!; [exact E|exact Hs|exact Et|by rewrite demo_pipe_reads|unfold demo_sent; by rewrite Et|rewrite <- Hp; apply demo_lengths].
Qed.

Lemma demo_window : in_range 64 64 /\ is_Some (Dedupe.make 64) /\ 2 + 64 + 1 < 2 ^ 64.
Proof. split_and!; [unfold in_range; lia|eexists; vm_compute; reflexivity|lia]. Qed.
Lemma demo_rx : cfg_dedupe_enabled demo_cfg = true /\ cfg_count demo_cfg = 0 /\ cfg_echo demo_cfg = false.
Proof. done. Qed.
Lemma demo_counts : ta_count demo_tx_args = 2 /\ ca_skip demo_consumer_args = 0 /\ ca_count demo_consumer_args = 2.
Proof. vm_compute. split_and!; reflexivity. Qed.
Lemma demo_arrivals_ok : Forall (fun s => 1 <= s <= 2) [1; 2; 1] /\ Forall (fun s => 1 <= s <= 2) [1; 2].
Proof. split; repeat (apply Forall_cons; split; [lia|]); by apply Forall_nil. Qed.
Lemma demo_sink (r : list bytes) (f : bytes) : exists r', sink_publish r f = Ok r'.
Proof. by eexists. Qed.


Lemma system_delivers_witness :
  exists c r, cx_main demo_consumer_argv demo_consumer_env = Ok (0, Some (c, r)) /\ map (fun e => fst (snd e)) (cs_seen c) = [1; 2] /\ rp_dropped r = 0.
Proof.
  destruct demo_runs as (p & t & rep & E & Hs & Et & Hr & Hd & Hl). destruct (cx_view_inv _ _ _ demo_consumer_view) as (c & r & Ec & _). exists c, r.
  assert (Hz : [1; 2] = seqZ 1 (pr_seq p)) by (rewrite Hs; reflexivity).
  assert (Hw : in_range 64 64 /\ is_Some (Dedupe.make 64) /\ pr_seq p + 64 + 1 < 2 ^ 64) by (rewrite Hs; exact demo_window). assert (Hm : 1 <= 4) by lia.
  assert (Hn : network (concat (o_flushed (e_out (t_em t)))) [1; 2] (concat (map snd (demo_received [1; 2])))) by (rewrite Hd; apply demo_network, demo_arrivals_ok).
  destruct (system_delivers (R:=list bytes) (Ech:=list bytes) demo_sink demo_prod_argv [] demo_prod_env p demo_clocks_ok eq_refl E
    demo_tx_args demo_tx_sockets [] demo_pipe_env t rep demo_tx_wf demo_plain demo_pipe_io Hr (eq_trans (proj1 demo_counts) (eq_sym Hs)) Et demo_no_fec
    demo_cfg [] 4 8 64 (demo_received [1; 2]) [1; 2] demo_rx Hw Hm
    Hn eq_refl
    demo_consumer_argv demo_consumer_env demo_consumer_args c r Hz eq_refl) as (Hseen & _ & _ & Hdrop).
  1: unfold demo_consumer_env; cbn [xe_events]; rewrite length_map, (proj2 (proj2 demo_lengths)); cbn; lia.
  1: exact demo_consumer_parsed.
  1: exact (proj1 (proj2 demo_counts)).
  1: exact (eq_trans (proj2 (proj2 demo_counts)) (eq_sym Hs)).
  1: intros rx Hrun; rewrite demo_consumer_reads; unfold demo_delivered; by rewrite Hrun.
  1: exact Ec.
  split; [exact Ec|]. split; [|exact Hdrop]. apply (f_equal (map snd)) in Hseen. rewrite !map_map in Hseen. rewrite <- Hz in Hseen. exact Hseen.
Defined.
