(* ===== verification/FecPipeline.v ===== *)
(** * From ring to ring with forward error correction

    [Pipeline] follows the programs without FEC; here the sender groups its
    frames into generations and the receiver rebuilds lost ones.  The receiver,
    on the datagrams of one stream, is that stream's decoder ([rx_iterate_decoder]),
    [FecStream] says which frames the decoder hands on, and the history of the
    deduplication window says which of those reach the ring. *)
From S2P Require Import Prelude Message Wire Samples Dedupe GF256 Gauss Fec FecDecoder FecRecovery FecStream Multiplex Sink Ring Receiver Batch Fanout Sender SenderCorrect Args Config Producer Metrics Consumer Programs SenderMain Pipeline.
From Stdlib Require Import Sorting.Sorted.
From Stdlib Require Strings.String.
Import Strings.String.StringSyntax.
Local Delimit Scope string_scope with string.
Local Open Scope Z_scope.

(** ** The history of a window

    [acc] are the numbers accepted, in order.  A number shown to the window is
    accepted, or it came before the first one accepted, or a whole window behind
    one accepted: nothing else is lost to deduplication. *)
Definition missed (size : Z) (acc : list Z) (x : Z) : Prop :=
  (exists a, head acc = Some a /\ x < a) \/ exists p, p ∈ acc /\ x + size <= p.
Definition accounted (size : Z) (acc : list Z) (x : Z) : Prop := x ∈ acc \/ missed size acc x.

Lemma accounted_app (size : Z) (acc more : list Z) (x : Z) : accounted size acc x -> accounted size (acc ++ more) x.
Proof.
  intros [H|[(a & Ha & Hx)|(p & Hp & Hx)]].
  - left. apply elem_of_app. by left.
  - right. left. exists a. split; [|done]. by destruct acc.
  - right. right. exists p. split; [apply elem_of_app; by left|done].
Qed.

Record history_of (size : Z) (st : Spec.state) (obs acc : list Z) : Prop := {
  hy_first : head acc = Some (Spec.first st);
  hy_seen x : x ∈ Spec.seen st <-> x ∈ acc;
  hy_nodup : NoDup acc;
  hy_base x : Spec.first st <= x < Spec.base st -> x ∈ acc \/ exists p, p ∈ acc /\ x + size <= p;
  hy_obs : Forall (accounted size acc) obs;
  hy_acc x : x ∈ acc -> x ∈ obs
}.

Definition history (size : Z) (w : Window) (obs acc : list Z) : Prop :=
  (obs = [] /\ acc = [] /\ Dedupe.make size = Some w) \/ exists st, rep w st /\ size_ w = size /\ history_of size st obs acc.

(** A number that is accepted. *)
Lemma history_accept (size : Z) (st : Spec.state) (obs acc : list Z) (s from b' : Z) :
  history_of size st obs acc -> s ∉ Spec.seen st -> Spec.advanced ({[s]} ∪ Spec.seen st) from b' -> from <= Spec.base st \/ from <= s - size + 1 ->
  history_of size (Spec.mkState ({[s]} ∪ Spec.seen st) b' (Spec.first st)) (obs ++ [s]) (acc ++ [s]).
Proof.
  intros [H1 H2 H3 H4 H5 H6] Hs (Hb1 & Hb2 & Hb3) Hf. constructor; cbn.
  - by destruct acc.
  - intros x. rewrite elem_of_union, H2, elem_of_app, list_elem_of_singleton, elem_of_singleton. tauto.
  - apply NoDup_app. split_and!; [done| |apply NoDup_singleton]. intros x Hx ->%list_elem_of_singleton. by apply Hs, H2.
  - intros x Hx. destruct (Z.lt_ge_cases x from) as [Hlt|Hge].
    + destruct (Z.lt_ge_cases x (Spec.base st)) as [Hb|Hb].
      * destruct (H4 x ltac:(lia)) as [?|(p & ? & ?)]; [left; set_solver|right; exists p; set_solver].
      * right. exists s. split; [set_solver|lia].
    + left. specialize (Hb3 x ltac:(lia)). rewrite elem_of_union, elem_of_singleton, H2 in Hb3. set_solver.
  - apply Forall_app. split; [eapply Forall_impl; [exact H5|]; intros x; apply accounted_app|]. apply Forall_singleton. left. set_solver.
  - intros x. rewrite !elem_of_app. intros [Hx%H6|Hx]; auto.
Qed.

(** A number that is not. *)
Lemma history_reject (size : Z) (st : Spec.state) (obs acc : list Z) (s : Z) :
  history_of size st obs acc -> accounted size acc s -> history_of size st (obs ++ [s]) acc.
Proof. intros [] Hs. constructor; try done; [apply Forall_app; split; [done|by apply Forall_singleton]|]. intros x Hx. apply elem_of_app. auto. Qed.

Lemma history_step (size : Z) (st st' : Spec.state) (obs acc : list Z) (s : Z) (r : ObserveResult) :
  history_of size st obs acc -> Spec.step size st s r st' -> history_of size st' (obs ++ [s]) (acc ++ if is_accept r then [s] else []).
Proof.
  intros Hh Hst. destruct Hst as [Hlt|? Hin|b' ? Hnin Hadv|b' ? Hnin Hadv]; cbn [is_accept]; rewrite ?app_nil_r.
  - apply history_reject; [done|]. destruct (Z.lt_ge_cases s (Spec.first st)) as [Hf|Hf]; [right; left; exists (Spec.first st); split; [apply Hh|done]|].
    destruct (hy_base _ _ _ _ Hh s ltac:(lia)); [by left|by right; right].
  - apply history_reject; [done|]. left. by apply (hy_seen _ _ _ _ Hh).
  - eapply history_accept; [done|done|exact Hadv|lia].
  - eapply history_accept; [done|done|exact Hadv|lia].
Qed.

Lemma observe_history (size : Z) (w : Window) (obs acc : list Z) (s : Z) :
  in_range 64 size -> history size w obs acc -> ok_seq size s ->
  exists r w', observe w s = Ok (r, w') /\ history size w' (obs ++ [s]) (acc ++ if is_accept r then [s] else []).
Proof.
  intros Hsz [(-> & -> & Hmk)|(st & Hrep & Hz & Hh)] Hs.
  - destruct (make_shape size w Hsz Hmk) as (_ & H64 & _). destruct (fresh_observe_init size w s Hsz Hs Hmk) as [Hrep Hz].
    destruct (observe_core_refines _ _ s Hrep) as (r & w' & st' & Ho & Hst & Hrep' & Hz'); [by rewrite Hz|]. rewrite Hz in Hst.
    exists r, w'. split; [exact Ho|]. right. exists st'. split_and!; [done|lia|].
    inversion Hst as [Hlt|? Hin|b' ? Hnin (H1 & H2 & H3)|b' Hr]; subst; cbn [Spec.base Spec.seen] in *; [lia|set_solver| |lia].
    cbn [is_accept app]. constructor; cbn; [done|set_solver|apply NoDup_singleton| |apply Forall_singleton; left; set_solver|done].
    intros x Hx. left. specialize (H3 x Hx). set_solver.
  - destruct (observe_refines w st s Hrep) as (r & w' & st' & Ho & Hst & Hrep' & Hz'); [by rewrite Hz|]. rewrite Hz in Hst.
    exists r, w'. split; [done|]. right. exists st'. split_and!; [done|lia|by apply (history_step size st)].
Qed.

Lemma history_facts (size : Z) (w : Window) (obs acc : list Z) : history size w obs acc ->
  NoDup acc /\ Forall (accounted size acc) obs /\ (forall x, x ∈ acc -> x ∈ obs) /\ forall a x, head acc = Some a -> x ∈ acc -> a <= x.
Proof.
  intros [(-> & -> & _)|(st & Hrep & _ & Hh)]; [split_and!; [constructor|constructor|done|done]|]. split_and!; [apply Hh..|].
  intros a x Ha Hx. rewrite (hy_first _ _ _ _ Hh) in Ha. injection Ha as <-. apply (rep_seen _ _ Hrep). by apply (hy_seen _ _ _ _ Hh).
Qed.

(** ** The receiver is its stream's decoder *)
Section Receive.
Context {R : Type} `{SinkLaws R}.
Variables (cfg : RxConfig) (key : Key).
Hypothesis Hkey : wf_key key /\ key_stream key <> 0 /\ key_epoch key <> 0.
Hypothesis Hloop : cfg_echo cfg = false.

(** The stream of [key], in the table or about to be made, has the decoder [d],
    and the callback works on [q]. *)
Definition rx_state (d : Decoder) (q : PubState R) (rx : Receiver R) : Prop :=
  exists st ss, Streams_get (rx_streams rx) key = Ok (Some st, ss) /\ st_decoder st = d /\
    q = mkPub (st_dedupe st) (st_last_seq st) (rx_ring rx) (rx_published rx) (rx_old_duplicates rx) (rx_late_too_old rx) (rx_observed rx).

(** A message of the stream, and what its decoder sees of a run. *)
Definition of_stream (m : rx_message) : Prop := m_trunc m = false /\ exists w, m_raw m = mux_wrap key w.
Definition batch_events (ms : list rx_message) : list decoder_event := map (fun m => EvReceive (drop header_size (m_raw m)) (m_now m)) ms.
Definition stream_events (its : list ((Key -> Z) * list rx_message)) : list decoder_event :=
  flat_map (fun it => EvExpire (fst it key) 1000000000 :: batch_events (snd it)) its.

Lemma drop_wrap (w : bytes) : drop header_size (mux_wrap key w) = w.
Proof using Type. unfold mux_wrap. by rewrite drop_app_length' by (by rewrite length_key_bytes). Qed.

Lemma rx_datagram_decoder (d d' : Decoder) (q q' : PubState R) (rx : Receiver R) (m : rx_message) (b : bool) :
  rx_state d q rx -> of_stream m -> receive (publish_frame cfg key) d (drop header_size (m_raw m)) (m_now m) q = Ok (b, d', q') ->
  exists rx', rx_datagram cfg rx (m_trunc m) (m_raw m) (m_now m) = Ok (Some b, rx') /\ rx_state d' q' rx'.
Proof using Hkey.
  intros (st & ss & Hget & <- & ->) (Htr & w & Hraw) Hrec. rewrite Hraw, drop_wrap in Hrec.
  destruct Hkey as (Hwk & Hk1 & Hk2). apply Z.eqb_neq in Hk1, Hk2.
  unfold rx_datagram. rewrite Htr, Hraw, unwrap_wrap by done. rewrite Hk1, Hk2. cbn [rbind negb orb]. rewrite Hget. cbn [rbind]. rewrite Hrec. cbn [rbind].
  eexists. split; [done|]. eexists _, _. split; [unfold Streams_get; cbn; by rewrite lookup_insert_eq|]. split; [done|]. by destruct q'.
Qed.

Lemma rx_batch_decoder (ms : list rx_message) (d d' : Decoder) (q q' : PubState R) (rx : Receiver R) :
  rx_state d q rx -> Forall of_stream ms -> decoder_run (publish_frame cfg key) (batch_events ms) d q = Ok (d', q') ->
  exists rx', rx_batch cfg rx ms = Ok rx' /\ rx_state d' q' rx'.
Proof using Hkey.
  intros Hst Hms. revert d q rx Hst. induction Hms as [|m ms Hm _ IH]; intros d q rx Hst Hrun; cbn [batch_events map decoder_run rx_batch] in *.
  { injection Hrun as <- <-. by exists rx. }
  destruct (receive _ d _ _ q) as [[[b d1] q1]|] eqn:Hrec; [|done]. cbn [rbind] in Hrun.
  destruct (rx_datagram_decoder d d1 q q1 rx m b Hst Hm Hrec) as (rx1 & -> & Hst1). cbn [rbind]. by apply (IH d1 q1 rx1).
Qed.

Lemma rx_expire_decoder (d : Decoder) (q : PubState R) (rx : Receiver R) (now : Key -> Z) :
  rx_state d q rx -> rx_state (expire d (now key) 1000000000) q (rx_expire rx now).
Proof using Type. intros (st & ss & Hget & <- & ->). destruct (rx_expire_get rx now key st ss Hget) as (ss' & E). by eexists _, ss'. Qed.

Lemma rx_iterate_decoder (its : list ((Key -> Z) * list rx_message)) (d d' : Decoder) (q q' : PubState R) (rx : Receiver R) :
  rx_state d q rx -> Forall of_stream (concat (map snd its)) -> decoder_run (publish_frame cfg key) (stream_events its) d q = Ok (d', q') ->
  exists rx', rx_iterate cfg rx its = Ok rx' /\ rx_state d' q' rx'.
Proof using Hkey Hloop.
  revert d q rx. induction its as [|[now batch] its IH]; intros d q rx Hst Hms Hrun.
  { cbn in Hrun. injection Hrun as <- <-. by exists rx. }
  cbn [map concat snd] in Hms. apply Forall_app in Hms as [Hb Hms]. cbn [stream_events flat_map fst snd app decoder_run] in Hrun.
  rewrite decoder_run_app in Hrun. destruct (decoder_run _ (batch_events batch) _ q) as [[d1 q1]|] eqn:Hrun1; [|done]. cbn [rbind] in Hrun.
  cbn [rx_iterate]. unfold rx_iteration. rewrite Hloop.
  destruct (rx_batch_decoder batch _ d1 q q1 _ (rx_expire_decoder d q rx now Hst) Hb Hrun1) as (rx1 & -> & Hst1). cbn [rbind].
  by apply (IH d1 q1 rx1).
Qed.

Lemma rx_init_state (ring : R) (max_streams gens sz : Z) (w0 : Window) :
  Dedupe.make sz = Some w0 -> 1 <= max_streams -> rx_state (Decoder_make gens) (mkPub w0 0 ring 0 0 0 []) (rx_init ring max_streams gens sz).
Proof using Type.
  intros Hw Hm. unfold rx_state, Streams_get. cbn. rewrite lookup_empty, map_size_empty. destruct (Z.leb_spec max_streams (Z.of_nat 0)); [lia|].
  unfold Stream_make. rewrite Hw. cbn. eexists _, _. split; [reflexivity|]. done.
Qed.

(** *** What the callback does with genuine frames *)
Variables (sz : Z) (frame : Z -> bytes).
Hypothesis Hsink : forall (r : R) f, exists r', sink_publish r f = Ok r'.
Hypothesis Hsz : in_range 64 sz.
Hypothesis Hdedupe : cfg_dedupe_enabled cfg = true.

Definition seq_of (f : bytes) : Z :=
  match decode f with Some n => match native_read (@get_Header) n with Ok h => seq_id h | Throw _ => 0 end | None => 0 end.

(** A wire frame of the stream with a message that [frame] numbers. *)
Definition genuine_frame (f : bytes) : Prop :=
  exists h, decode f = Some (frame (seq_of f)) /\ native_read (@get_Header) (frame (seq_of f)) = Ok h /\ seq_id h = seq_of f /\
    stream_id h = key_stream key /\ stream_epoch h = key_epoch key /\ ok_seq sz (seq_of f).

Definition pub_at (log0 : list bytes) (obs acc : list Z) (q : PubState R) : Prop :=
  history sz (ps_dedupe q) obs acc /\ sink_log (ps_ring q) = log0 ++ map frame acc.
Definition hand_on (f : bytes) (r : bool) (c : Z) (q : PubState R) : PubState R :=
  match publish_frame cfg key f r c q with Ok (_, q') => q' | Throw _ => q end.

Lemma hand_on_at (log0 : list bytes) (obs acc : list Z) (f : bytes) (r : bool) (c : Z) (q : PubState R) :
  genuine_frame f -> pub_at log0 obs acc q ->
  publish_frame cfg key f r c q = Ok (true, hand_on f r c q) /\ exists more, pub_at log0 (obs ++ [seq_of f]) (acc ++ more) (hand_on f r c q).
Proof using All.
  intros (h & Hdec & Hh & Hseq & Hid & Hep & Hok) [Hw Hlog].
  destruct (observe_history sz (ps_dedupe q) obs acc (seq_of f) Hsz Hw Hok) as (res & w' & Ho & Hw').
  destruct (Hsink (ps_ring q) (frame (seq_of f))) as [ring' Hp].
  assert (exists q', publish_frame cfg key f r c q = Ok (true, q') /\ ps_dedupe q' = w' /\
    sink_log (ps_ring q') = sink_log (ps_ring q) ++ map frame (if is_accept res then [seq_of f] else [])) as (q' & E & Ew & El).
  { unfold publish_frame. rewrite Hdec, Hh, Hdedupe. cbn [rbind negb]. rewrite Hid, Hep, !Z.eqb_refl, Hseq, Ho. cbn [negb orb rbind]. rewrite Hp.
    destruct (is_accept res); cbn [rbind]; (eexists; split; [done|]; split; [done|]; cbn [ps_ring map]); [by apply sink_publish_log|by rewrite app_nil_r]. }
  unfold hand_on. rewrite E. split; [done|]. eexists. split; [rewrite Ew; exact Hw'|]. by rewrite El, Hlog, map_app, app_assoc.
Qed.

Lemma hand_on_all (log0 : list bytes) (log : list (bytes * bool * Z)) (obs acc : list Z) (q : PubState R) :
  (forall f, logged log f -> genuine_frame f) -> pub_at log0 obs acc q ->
  exists more, pub_at log0 (obs ++ map (fun x => seq_of (fst (fst x))) log) (acc ++ more) (deliver_all hand_on log q).
Proof using All.
  revert obs acc q. induction log as [|[[f r] c] log IH]; intros obs acc q Hf Hq.
  { exists []. cbn. by rewrite !app_nil_r. }
  destruct (hand_on_at log0 obs acc f r c q (Hf f (or_introl eq_refl)) Hq) as [_ (m1 & H1)].
  destruct (IH _ _ _ (fun g Hg => Hf g (or_intror Hg)) H1) as (m2 & H2). exists (m1 ++ m2). rewrite <- !app_assoc in H2. exact H2.
Qed.
End Receive.

(** ** The sender's generations *)

(** The generation number in the envelope of a datagram; the code reads it the
    same way. *)
Definition generation (raw : bytes) : Z :=
  match read_envelope (drop header_size raw) with Ok e => env_gen_id e | Throw _ => -1 end.

Definition spec_of (g : Encoder * Z * BuiltGeneration) : GenSpec :=
  mkGenSpec (en_frames (fst (fst g))) (snd (fst g)) (Z.to_nat (en_max_len (fst (fst g)))).

(** What is received, in order, and the clock readings of the stream. *)
Definition messages (its : list ((Key -> Z) * list rx_message)) : list rx_message := concat (map snd its).
Definition clocks (key : Key) (its : list ((Key -> Z) * list rx_message)) : list Z :=
  flat_map (fun it => fst it key :: map m_now (snd it)) its.

Section Generations.
Variables (cfg : TxConfig) (gens : list (Encoder * Z * BuiltGeneration)).
#[local] Abbreviation key := (tx_key cfg).
#[local] Abbreviation K := (tx_fec_k cfg).
#[local] Abbreviation p := (tx_fec_parity cfg).
#[local] Abbreviation specs := (map spec_of gens).
Hypothesis Hfec : 1 <= K <= 128 /\ 1 <= p <= 16.
Hypothesis Hcount : Z.of_nat (length gens) <= 2 ^ 32.
Hypothesis Hgens : forall i g, gens !! i = Some g -> gen_ok cfg i g.

Lemma specs_ok (i : nat) (G : GenSpec) : specs !! i = Some G ->
  1 <= Z.of_nat (length (gs_frames G)) <= K /\ (gs_max G <= 1024)%nat /\ 0 <= gs_reason G <= 2 /\
  forall f, In f (gs_frames G) -> (1 <= length f <= gs_max G)%nat.
Proof using Hgens.
  clear Hcount Hfec. change (map ?h ?l) with (h <$> l). rewrite list_lookup_fmap_Some. intros ([[enc reason] b] & -> & Hg). destruct (Hgens i _ Hg) as ([H1 H2 H3 H4 H5] & Hne & Hk & _ & Hr & _).
  rewrite Forall_forall in H5. cbn. split_and!; try lia; [destruct (en_frames enc); [done|cbn [length]; lia]|]. intros f Hin%list_elem_of_In. specialize (H5 f Hin). lia.
Qed.

Definition wrapped (i : nat) (s : shard_id) : bytes := mux_wrap key (packet_of K p i (gen_at specs i) s).

Lemma generation_wrapped (i : nat) (s : shard_id) : (i < length gens)%nat -> valid_in p (gen_at specs i) s -> generation (wrapped i s) = Z.of_nat i.
Proof using All.
  intros Hi Hs. assert (HG : specs !! i = Some (gen_at specs i)) by (apply gen_at_lookup; by rewrite length_map).
  destruct (specs_ok i _ HG) as (Hn & HM & Hr & Hf). unfold generation, wrapped, mux_wrap. rewrite drop_app_length' by (by rewrite length_key_bytes).
  unfold packet_of. destruct s as [j|row]; cbn [packet]; unfold valid_in, valid in Hs.
  - unfold data_pkt. assert (1 <= length (nth j (gs_frames (gen_at specs i)) []) <= gs_max (gen_at specs i))%nat by (apply Hf, nth_In; lia).
    rewrite read_envelope_app; [done|]. unfold wf_envelope, data_env, in_range, kMagic. cbn. lia.
  - unfold parity_pkt. rewrite read_envelope_app; [done|]. unfold wf_envelope, parity_env, in_range, kMagic. cbn. lia.
Qed.

(** A datagram of the sender is a shard of one of its generations. *)
Lemma sent_wrapped (raw : bytes) : In raw (map (mux_wrap key) (flat_map (fun g => all_datagrams (snd g)) gens)) ->
  exists i s, (i < length gens)%nat /\ valid_in p (gen_at specs i) s /\ raw = wrapped i s.
Proof using All.
  intros (w & <- & ([[enc reason] b] & Hin & Hw)%in_flat_map)%in_map_iff. apply list_elem_of_In, list_elem_of_lookup in Hin as [i Hi].
  pose proof (lookup_lt_Some _ _ _ Hi) as Hlt. destruct (Hgens i _ Hi) as (He & Hne & Hk & Hp & Hr & enc' & Hc). rewrite Encoder_close_ok in Hc by done.
  injection Hc as <- _. rewrite wrap_small in Hw by (unfold in_range; lia). unfold all_datagrams in Hw. cbn [snd bg_data bg_parity bg_extra_parity] in Hw.
  destruct (arrivals_shards (en_frames enc) (en_k enc) (en_parity_count enc) (Z.of_nat i) reason (Z.to_nat (en_max_len enc)) [w]) as (ids & Hids & Hval); [lia|by intros d [<-|[]]|].
  destruct ids as [|s [|]]; [done| |done]. injection Hids as ->. exists i, s. unfold wrapped, packet_of, valid_in.
  assert (gen_at specs i = spec_of (enc, reason, mkBuilt (map (data_pkt (en_k enc) (u32 (Z.of_nat i)) (en_frames enc)) (List.seq 0 (length (en_frames enc))))
        (parity_pkt (en_parity_count enc) (u32 (Z.of_nat i)) reason (en_frames enc) (Z.to_nat (en_max_len enc)) 0)
        (map (parity_pkt (en_parity_count enc) (u32 (Z.of_nat i)) reason (en_frames enc) (Z.to_nat (en_max_len enc))) (List.seq 1 (Z.to_nat (en_parity_count enc) - 1))))) as ->.
  { unfold gen_at. apply nth_lookup_Some. change (map ?h ?l) with (h <$> l). rewrite list_lookup_fmap, Hi. done. }
  cbn [spec_of gs_frames gs_reason gs_max fst snd]. rewrite <- Hk, <- Hp. split_and!; [done|apply Hval; by left|done].
Qed.

(** What the trace of a run says of its messages. *)
Definition raw_of (a : arrival) : option bytes := match a with Arrive i s _ => Some (wrapped i s) | Sweep _ => None end.
Record traced (its : list ((Key -> Z) * list rx_message)) (tr : list arrival) : Prop := {
  tc_events : map (event_of K p specs 1000000000) tr = stream_events key its;
  tc_sent : Forall (sent_in p specs) tr;
  tc_clocks : map clock_of tr = clocks key its;
  tc_raw : omap raw_of tr = map m_raw (messages its)
}.

Lemma traced_app (its1 its2 : list ((Key -> Z) * list rx_message)) (tr1 tr2 : list arrival) :
  traced its1 tr1 -> traced its2 tr2 -> traced (its1 ++ its2) (tr1 ++ tr2).
Proof using Type.
  intros [A1 A2 A3 A4] [B1 B2 B3 B4]. unfold messages in *. constructor; unfold messages, stream_events, clocks in *.
  - by rewrite map_app, flat_map_app, A1, B1.
  - by apply Forall_app.
  - by rewrite map_app, flat_map_app, A3, B3.
  - by rewrite omap_app, !map_app, concat_app, map_app, A4, B4.
Qed.

Lemma traced_batch (ms : list rx_message) :
  Forall (fun m => In (m_raw m) (map (mux_wrap key) (flat_map (fun g => all_datagrams (snd g)) gens))) ms ->
  exists tr, map (event_of K p specs 1000000000) tr = batch_events ms /\ Forall (sent_in p specs) tr /\ map clock_of tr = map m_now ms /\ omap raw_of tr = map m_raw ms.
Proof using All.
  induction 1 as [|m ms Hm _ (tr & E1 & E2 & E3 & E4)]; [by exists []|]. destruct (sent_wrapped (m_raw m) Hm) as (i & s & Hi & Hs & Hraw).
  exists (Arrive i s (m_now m) :: tr). split_and!.
  - unfold batch_events in *. cbn [map event_of]. rewrite E1, Hraw. unfold wrapped, mux_wrap. by rewrite drop_app_length' by (by rewrite length_key_bytes).
  - constructor; [split; [by rewrite length_map|done]|done].
  - cbn [map clock_of]. by rewrite E3.
  - transitivity (wrapped i s :: omap raw_of tr); [done|]. rewrite E4, <- Hraw. done.
Qed.

Lemma traced_run (its : list ((Key -> Z) * list rx_message)) :
  Forall (fun m => In (m_raw m) (map (mux_wrap key) (flat_map (fun g => all_datagrams (snd g)) gens))) (messages its) -> exists tr, traced its tr.
Proof using All.
  induction its as [|[now batch] its IH]; intros Hms; [by exists []|]. unfold messages in Hms. cbn [map concat snd] in Hms. apply Forall_app in Hms as [Hb Hms].
  destruct (traced_batch batch Hb) as (tr1 & E1 & E2 & E3 & E4). destruct (IH Hms) as (tr2 & T2). exists ((Sweep (now key) :: tr1) ++ tr2).
  apply (traced_app [(now, batch)] its); [|done]. constructor; cbn [map stream_events flat_map event_of clocks clock_of messages concat snd fst omap list_omap raw_of].
  - by rewrite E1, app_nil_r.
  - by constructor.
  - by rewrite E3, app_nil_r.
  - by rewrite E4, app_nil_r.
Qed.

(** The shards of generation [i] in a trace, seen from the messages. *)
Lemma traced_shards (its : list ((Key -> Z) * list rx_message)) (tr : list arrival) (i : nat) :
  traced its tr -> forall raw, In raw (map m_raw (messages its)) -> generation raw = Z.of_nat i -> In raw (map (wrapped i) (omap (shard_of i) tr)).
Proof using All.
  intros [_ Hs _ <-] raw Hraw Hg. apply list_elem_of_In, list_elem_of_omap in Hraw as (a & Ha & Hr). rewrite Forall_forall in Hs. specialize (Hs a Ha).
  destruct a as [i' s now|]; [|done]. cbn [raw_of] in Hr. cbn [sent_in] in Hs. injection Hr as <-. destruct Hs as [Hi Hv]. rewrite length_map in Hi. rewrite generation_wrapped in Hg by done.
  apply Nat2Z.inj in Hg as ->. apply in_map. apply list_elem_of_In, list_elem_of_omap. exists (Arrive i s now). split; [done|]. cbn. by rewrite decide_True.
Qed.

Lemma traced_generation (its : list ((Key -> Z) * list rx_message)) (tr : list arrival) (Q : Z -> Prop) :
  traced its tr -> Forall (fun m => Q (generation (m_raw m))) (messages its) -> Forall (fun a => match a with Arrive i _ _ => Q (Z.of_nat i) | Sweep _ => True end) tr.
Proof using All.
  intros [_ Hs _ Hr] Hq. rewrite Forall_forall in Hs. rewrite Forall_forall in Hq. apply Forall_forall. intros [i s now|] Ha; [|done]. destruct (Hs _ Ha) as [Hi Hv]. rewrite length_map in Hi.
  assert (Hin : wrapped i s ∈ map m_raw (messages its)) by (rewrite <- Hr; apply list_elem_of_omap; by exists (Arrive i s now)).
  change (map ?g ?l) with (g <$> l) in Hin. apply list_elem_of_fmap in Hin as (m & Hm & Hin). specialize (Hq m Hin). by rewrite <- Hm, generation_wrapped in Hq.
Qed.
End Generations.

(** ** What is published

    Enough of generation [i] arrives in the iterations [mid]: none of it came
    before, no datagram of another generation takes its slot, the steady clock
    goes forward and stays within the second after which a generation expires,
    and [need] distinct datagrams of the generation are among the messages. *)
Record enough (key : Key) (n : Z) (i need : nat) (before mid : list ((Key -> Z) * list rx_message)) : Prop := {
  eg_before : Forall (fun m => generation (m_raw m) <> Z.of_nat i) (messages before);
  eg_slot : Forall (fun m => generation (m_raw m) = Z.of_nat i \/ generation (m_raw m) mod n <> Z.of_nat i mod n) (messages mid);
  eg_clock : exists lo, 0 < lo /\ Sorted Z.le (lo :: clocks key mid) /\ Forall (fun c => c < 2 ^ 64 /\ c - lo < 1000000000) (clocks key mid);
  eg_distinct : exists ds, List.NoDup ds /\ (need <= length ds)%nat /\
    forall raw, In raw ds -> In raw (map m_raw (messages mid)) /\ generation raw = Z.of_nat i
}.

Lemma length_events (key : Key) (its : list ((Key -> Z) * list rx_message)) : length (stream_events key its) = (length its + length (messages its))%nat.
Proof.
  unfold messages, stream_events. induction its as [|[now b] its IH]; [done|]. cbn [flat_map fst snd map concat length app].
  rewrite !length_app, IH. unfold batch_events. rewrite length_map. lia.
Qed.

Section Outcome.
Context {R : Type} `{SinkLaws R}.
Variables (rcfg : RxConfig) (key : Key) (sz n max_streams : Z) (frame : Z -> bytes) (ring : R) (w0 : Window) (member : bytes -> Prop).
Hypothesis Hkey : wf_key key /\ key_stream key <> 0 /\ key_epoch key <> 0.
Hypothesis Hloop : cfg_echo rcfg = false.
Hypothesis Hsink : forall (r : R) f, exists r', sink_publish r f = Ok r'.
Hypothesis Hsz : in_range 64 sz.
Hypothesis Hdedupe : cfg_dedupe_enabled rcfg = true.
Hypothesis Hw0 : Dedupe.make sz = Some w0.
Hypothesis Hn : 1 <= n /\ 1 <= max_streams.
Hypothesis Hframes : forall f, member f -> genuine_frame key sz frame f.

#[local] Abbreviation publish := (publish_frame rcfg key).
#[local] Abbreviation q0 := (mkPub w0 0 ring 0 0 0 []).
#[local] Abbreviation seqs log := (map (fun x : bytes * bool * Z => seq_of (fst (fst x))) log).

(** The run handed on [log] and published [acc]. *)
Record outcome (its : list ((Key -> Z) * list rx_message)) (rx : Receiver R) (log : list (bytes * bool * Z)) (acc : list Z) : Prop := {
  oc_run : rx_iterate rcfg (rx_init ring max_streams n sz) its = Ok rx;
  oc_log f : logged log f -> member f;
  oc_nodup : NoDup acc;
  oc_accounted : Forall (accounted sz acc) (seqs log);
  oc_seen x : x ∈ acc -> x ∈ seqs log;
  oc_first a x : head acc = Some a -> x ∈ acc -> a <= x;
  oc_ring : sink_log (rx_ring rx) = sink_log ring ++ map frame acc
}.

Definition keeps (q : PubState R) : Prop := exists obs acc, pub_at sz frame (sink_log ring) obs acc q.
Lemma hands_on (f : bytes) (r : bool) (c : Z) (q : PubState R) :
  member f -> keeps q -> publish f r c q = Ok (true, hand_on rcfg key f r c q) /\ keeps (hand_on rcfg key f r c q).
Proof using All.
  intros Hf (obs & acc & Hq). destruct (hand_on_at rcfg key Hkey Hloop sz frame Hsink Hsz Hdedupe (sink_log ring) obs acc f r c q (Hframes f Hf) Hq) as [E (more & Hm)].
  split; [exact E|]. by eexists _, _.
Qed.

Lemma begins : pub_at sz frame (sink_log ring) [] [] q0.
Proof using Hw0. split; [by left|]. cbn. by rewrite app_nil_r. Qed.

Lemma outcome_of_run (its : list ((Key -> Z) * list rx_message)) (d : Decoder) (log : list (bytes * bool * Z)) :
  Forall (of_stream key) (messages its) -> (forall f, logged log f -> member f) ->
  decoder_run publish (stream_events key its) (Decoder_make n) q0 = Ok (d, deliver_all (hand_on rcfg key) log q0) ->
  exists rx acc, outcome its rx log acc.
Proof using All.
  intros Hof Hlog Hrun.
  destruct (rx_iterate_decoder rcfg key Hkey Hloop its _ d q0 _ _ (rx_init_state key ring max_streams n sz w0 Hw0 (proj2 Hn)) Hof Hrun) as (rx & Erx & st & ss & _ & _ & Eq).
  destruct (hand_on_all rcfg key Hkey Hloop sz frame Hsink Hsz Hdedupe (sink_log ring) log [] [] q0 (fun f Hf => Hframes f (Hlog f Hf)) begins) as (acc & Hw & Hring).
  destruct (history_facts _ _ _ _ Hw) as (Hnd & Hacc & Hin & Hfst). rewrite Eq in Hring. exists rx, acc. by constructor.
Qed.

(** The messages published determine their numbers. *)
Lemma outcome_unique (its : list ((Key -> Z) * list rx_message)) (rx rx' : Receiver R) (log log' : list (bytes * bool * Z)) (acc acc' : list Z) :
  outcome its rx log acc -> outcome its rx' log' acc' -> acc = acc'.
Proof using Hframes.
  intros O1 O2. pose proof (oc_run _ _ _ _ O1) as E. rewrite (oc_run _ _ _ _ O2) in E. injection E as ->.
  pose proof (oc_ring _ _ _ _ O1) as L. rewrite (oc_ring _ _ _ _ O2) in L. apply app_inv_head in L.
  set (num f := match native_read (@get_Header) f with Ok h => seq_id h | Throw _ => 0 end).
  assert (Hnum : forall log acc rx, outcome its rx log acc -> map num (map frame acc) = acc).
  { intros lg ac r Ho. rewrite map_map. transitivity (map (fun x => x) ac); [|apply map_id]. apply map_ext_in. intros x Hx%list_elem_of_In%(oc_seen _ _ _ _ Ho).
    change (map ?g ?l) with (g <$> l) in Hx. apply list_elem_of_fmap in Hx as (y & -> & Hy).
    destruct (Hframes (fst (fst y))) as (h & _ & Hh & Hq & _); [|unfold num; by rewrite Hh].
    apply (oc_log _ _ _ _ Ho). unfold logged. apply in_map_iff. exists y. split; [done|by apply list_elem_of_In]. }
  rewrite <- (Hnum _ _ _ O1), <- (Hnum _ _ _ O2). by rewrite L.
Qed.

(** Without FEC every payload is handed on as it is. *)
Lemma plain_run (evs : list decoder_event) (d : Decoder) (q : PubState R) :
  keeps q -> Forall (fun ev => match ev with EvReceive f _ => member f | EvExpire _ _ => True | EvRetire => False end) evs ->
  exists d' log, decoder_run publish evs d q = Ok (d', deliver_all (hand_on rcfg key) log q) /\ forall f, logged log f -> member f.
Proof using All.
  intros Hq Hevs. revert d q Hq. induction Hevs as [|[f now|now ttl|] evs Hev _ IH]; intros d q Hq; [by exists d, []| | |done]; cbn [decoder_run].
  - destruct (Hframes f Hev) as (h & Hdec & _). rewrite (wire_not_fec _ _ _ _ _ _ Hdec). destruct (hands_on f false 0 q Hev Hq) as [-> Hq']. cbn [rbind].
    destruct (IH d _ Hq') as (d' & log & E & Hlog). exists d', ((f, false, 0) :: log). split; [exact E|]. intros g [<-|Hg]; [done|by apply Hlog].
  - apply IH. exact Hq.
Qed.

Lemma plain_outcome (its : list ((Key -> Z) * list rx_message)) :
  Forall (fun m => m_trunc m = false /\ exists f, member f /\ m_raw m = mux_wrap key f) (messages its) -> exists rx log acc, outcome its rx log acc.
Proof using All.
  intros Hms. destruct (plain_run (stream_events key its) (Decoder_make n) q0) as (d & log & Hrun & Hlog); [by eexists _, _; exact begins| |].
  - unfold stream_events, messages in *. induction its as [|[now b] its IH]; [constructor|]. cbn [map concat snd flat_map fst] in *. apply Forall_app in Hms as [Hb Hms].
    apply Forall_app. split; [|by apply IH]. constructor; [done|]. apply Forall_map. eapply Forall_impl; [exact Hb|]. intros m (_ & f & Hf & ->). change (member (drop header_size (mux_wrap key f))). by rewrite drop_wrap.
  - destruct (outcome_of_run its d log) as (rx & acc & Ho); [|done|done|by exists rx, log, acc].
    eapply Forall_impl; [exact Hms|]. intros m (Htr & f & _ & Hraw). split; [done|by exists f].
Qed.
End Outcome.

Section Published.
Context {R : Type} `{SinkLaws R}.
Variables (rcfg : RxConfig) (cfg : TxConfig) (gens : list (Encoder * Z * BuiltGeneration)) (sz n max_streams : Z) (frame : Z -> bytes) (ring : R) (w0 : Window).
#[local] Abbreviation key := (tx_key cfg).
#[local] Abbreviation specs := (map spec_of gens).
Hypothesis Hkey : wf_key key /\ key_stream key <> 0 /\ key_epoch key <> 0.
Hypothesis Hloop : cfg_echo rcfg = false.
Hypothesis Hfec : 1 <= tx_fec_k cfg <= 128 /\ 1 <= tx_fec_parity cfg <= 16.
Hypothesis Hcount : Z.of_nat (length gens) <= 2 ^ 32.
Hypothesis Hgens : forall i g, gens !! i = Some g -> gen_ok cfg i g.
Hypothesis Hsink : forall (r : R) f, exists r', sink_publish r f = Ok r'.
Hypothesis Hsz : in_range 64 sz.
Hypothesis Hdedupe : cfg_dedupe_enabled rcfg = true.
Hypothesis Hw0 : Dedupe.make sz = Some w0.
Hypothesis Hn : 1 <= n /\ 1 <= max_streams.
Hypothesis Hframes : forall f, in_stream specs f -> genuine_frame key sz frame f.

#[local] Abbreviation publish := (publish_frame rcfg key).
#[local] Abbreviation q0 := (mkPub w0 0 ring 0 0 0 []).
#[local] Abbreviation fec_outcome := (outcome rcfg sz n max_streams frame ring (in_stream specs)).
#[local] Abbreviation fec_hands_on := (hands_on rcfg key sz n max_streams frame ring w0 (in_stream specs) Hkey Hloop Hsink Hsz Hdedupe Hw0 Hn Hframes).
Definition from_sender (m : rx_message) : Prop :=
  m_trunc m = false /\ In (m_raw m) (map (mux_wrap key) (flat_map (fun g => all_datagrams (snd g)) gens)).

Lemma sender_streams (its : list ((Key -> Z) * list rx_message)) : Forall from_sender (messages its) -> Forall (of_stream key) (messages its).
Proof using Type. intros Hms. eapply Forall_impl; [exact Hms|]. intros m [Htr (w & Hw & _)%in_map_iff]. split; [done|by exists w]. Qed.

#[local] Abbreviation few its := (Z.of_nat (length its + length (messages its)) < 2 ^ 64).

Lemma traced_length (its : list ((Key -> Z) * list rx_message)) (tr : list arrival) : traced cfg gens its tr -> few its -> 0 + Z.of_nat (length tr) < 2 ^ 64.
Proof using Type. intros Ht Hf. pose proof (f_equal length (tc_events _ _ _ _ Ht)) as E. rewrite length_map, length_events in E. lia. Qed.

Lemma sender_raws (its : list ((Key -> Z) * list rx_message)) : Forall from_sender (messages its) ->
  Forall (fun m => In (m_raw m) (map (mux_wrap key) (flat_map (fun g => all_datagrams (snd g)) gens))) (messages its).
Proof using Type. intros Hms. eapply Forall_impl; [exact Hms|]. by intros m [_ Hm]. Qed.

Lemma outcome_exists (its : list ((Key -> Z) * list rx_message)) : Forall from_sender (messages its) -> few its -> exists rx log acc, fec_outcome its rx log acc.
Proof using All.
  intros Hms Hfew. destruct (traced_run cfg gens Hfec Hcount Hgens its (sender_raws its Hms)) as (tr & Ht).
  destruct (stream_run (tx_fec_k cfg) (tx_fec_parity cfg) specs (proj2 (proj1 Hfec)) (proj2 Hfec) ltac:(rewrite length_map; exact Hcount) (specs_ok cfg gens Hgens)
    publish (hand_on rcfg key) (keeps sz frame ring) fec_hands_on 1000000000 tr 0 (Decoder_make n) q0 (Decoder_make_wf n ltac:(lia)) (traced_length its tr Ht Hfew)
    (genuine_make _ _ _ n) (tc_sent _ _ _ _ Ht)) as (d & log & Hrun & _ & Htv); [by eexists _, _; exact (begins sz frame ring w0 Hw0)|].
  rewrite (tc_events _ _ _ _ Ht) in Hrun. destruct (outcome_of_run rcfg key sz n max_streams frame ring w0 (in_stream specs) Hkey Hloop Hsink Hsz Hdedupe Hw0 Hn Hframes its d log (sender_streams its Hms) (tv_log _ _ _ _ _ _ _ _ Htv) Hrun) as (rx & acc & Ho). by exists rx, log, acc.
Qed.

Lemma outcome_recovers (before mid after : list ((Key -> Z) * list rx_message)) (i : nat) (G : GenSpec) :
  Forall from_sender (messages (before ++ mid ++ after)) -> few (before ++ mid ++ after) -> specs !! i = Some G ->
  enough key n i (length (gs_frames G)) before mid ->
  exists rx log acc, fec_outcome (before ++ mid ++ after) rx log acc /\ forall f, In f (gs_frames G) -> logged log f.
Proof using All.
  intros Hms Hfew HG [Hbefore Hslot (lo & Hlo & Hsort & Hclock) (ds & Hnd & Hneed & Hds)].
  destruct (specs_ok cfg gens Hgens i G HG) as (Hlen & _). assert (HGi : gen_at specs i = G) by (unfold gen_at; by rewrite (nth_lookup_Some _ _ _ _ HG)).
  pose proof (sender_raws _ Hms) as Hraws. unfold messages in Hraws. rewrite !map_app, !concat_app, !Forall_app in Hraws. destruct Hraws as (Hr1 & Hr2 & Hr3).
  destruct (traced_run cfg gens Hfec Hcount Hgens before Hr1) as (t1 & T1). destruct (traced_run cfg gens Hfec Hcount Hgens mid Hr2) as (t2 & T2).
  destruct (traced_run cfg gens Hfec Hcount Hgens after Hr3) as (t3 & T3).
  pose proof (traced_app cfg gens _ _ _ _ T1 (traced_app cfg gens _ _ _ _ T2 T3)) as Ht.
  destruct (incl_map_inv (wrapped cfg gens i) ds (omap (shard_of i) t2)) as (ids & -> & Hids).
  { intros raw Hraw. destruct (Hds raw Hraw) as [Hin Hg]. by apply (traced_shards cfg gens Hfec Hcount Hgens mid t2 i T2). }
  rewrite length_map in Hneed. apply NoDup_map_inv in Hnd.
  destruct (stream_recovers (tx_fec_k cfg) (tx_fec_parity cfg) specs (proj2 (proj1 Hfec)) (proj2 Hfec) ltac:(rewrite length_map; exact Hcount) (specs_ok cfg gens Hgens)
    publish (hand_on rcfg key) (keeps sz frame ring) fec_hands_on 1000000000 n t1 t2 t3 i ids lo q0 (proj1 Hn)) as (d & log & Hrun & Hlog & Hall).
  - exact (traced_length _ _ Ht Hfew).
  - apply Ht.
  - by eexists _, _; exact (begins sz frame ring w0 Hw0).
  - eapply Forall_impl; [exact (traced_generation cfg gens Hfec Hcount Hgens before t1 (fun g => g <> Z.of_nat i) T1 Hbefore)|].
    intros [i' s now|] Ha; [|done]. cbn. destruct (decide (i' = i)) as [->|]; [by destruct Ha|done].
  - eapply Forall_impl; [exact (traced_generation cfg gens Hfec Hcount Hgens mid t2 (fun g => g = Z.of_nat i \/ g mod n <> Z.of_nat i mod n) T2 Hslot)|].
    intros [i' s now|] Ha; [|done]. cbn. destruct Ha as [Ha|Ha]; [left; lia|by right].
  - done.
  - by rewrite (tc_clocks _ _ _ _ T2).
  - rewrite <- (tc_clocks _ _ _ _ T2) in Hclock. by apply Forall_map in Hclock.
  - done.
  - done.
  - rewrite HGi. lia.
  - rewrite (tc_events _ _ _ _ Ht) in Hrun. destruct (outcome_of_run rcfg key sz n max_streams frame ring w0 (in_stream specs) Hkey Hloop Hsink Hsz Hdedupe Hw0 Hn Hframes _ d log (sender_streams _ Hms) Hlog Hrun) as (rx & acc & Ho).
    exists rx, log, acc. split; [done|]. by rewrite HGi in Hall.
Qed.

End Published.

(** ** What the sender sent *)
Section Sent.
Context {E : Type}.
Variables (cfg : TxConfig) (reads : list (FrameStatus * bytes * Z)) (t : Tx E) (all : list bytes) (sz : Z).
Hypothesis Hsent : sent_all cfg reads t.
Hypothesis Hlen : length (t_taken t) = length all.
Hypothesis Hroom : 0 <= sz /\ Z.of_nat (length all) + sz + 1 < 2 ^ 64 /\ Z.of_nat (length all) <= 2 ^ 32.
Hypothesis Hcar : carries (tx_key cfg) (t_taken t) all.
#[local] Abbreviation gens := (f_built (t_fs t)).

Lemma taken_genuine (j : nat) (w : bytes) : t_taken t !! j = Some w ->
  seq_of w = Z.of_nat j + 1 /\ Z.of_nat j + 1 <= Z.of_nat (length all) /\ genuine_frame (tx_key cfg) sz (numbered all) w.
Proof using Hroom Hcar.
  intros Hw. destruct (Hcar j w Hw) as (f' & h' & Hf' & Hd & Hh & Hs & Hid & Hep). assert (Hq : seq_of w = Z.of_nat j + 1) by (unfold seq_of; by rewrite Hd, Hh).
  assert (numbered all (seq_of w) = f') as Ef. { rewrite Hq. unfold numbered. replace (Z.to_nat (Z.of_nat j + 1 - 1)) with j by (clear; lia). by rewrite (nth_lookup_Some _ _ _ _ Hf'). }
  pose proof (lookup_lt_Some _ _ _ Hf') as Hj. split_and!; [done|clear - Hj; lia|]. exists h'. rewrite Ef, Hq. split_and!; [done|done|done|done|done|].
  unfold ok_seq. clear - Hj Hroom. lia.
Qed.

(** With FEC: the generations hold the frames taken, and their datagrams are
    what was sent. *)
Lemma sent_generations : tx_fec_k cfg <> 0 ->
  Z.of_nat (length gens) <= 2 ^ 32 /\ (forall i g, gens !! i = Some g -> gen_ok cfg i g) /\
  concat (o_flushed (e_out (t_em t))) = map (mux_wrap (tx_key cfg)) (flat_map (fun g => all_datagrams (snd g)) gens) /\
  forall f, in_stream (map spec_of gens) f -> exists j, t_taken t !! j = Some f.
Proof using Hsent Hlen Hroom.
  intros Hk. destruct Hsent as (_ & Hds & Hbuilt & _). destruct (Hbuilt Hk) as [Htaken Hgens]. apply Z.eqb_neq in Hk. rewrite Hk in Hds. split_and!; [|done|done|].
  - pose proof (length_flat_map_ge (fun g => en_frames (fst (fst g))) gens) as Hge. rewrite <- Htaken in Hge.
    assert (Hbt : (length gens <= length (t_taken t))%nat); [|clear - Hbt Hlen Hroom; lia]. apply Hge. intros [[enc reason] b] Hx. apply list_elem_of_lookup in Hx as [i Hi].
    apply (Hgens i _ Hi).
  - intros f (i & G & HG & Hf). change (map ?g ?l) with (g <$> l) in HG. apply list_lookup_fmap_Some in HG as (g & -> & Hg). cbn in Hf.
    apply list_elem_of_lookup. rewrite Htaken. apply list_elem_of_In, in_flat_map. exists g. split; [|done]. apply list_elem_of_In, list_elem_of_lookup. by exists i.
Qed.

(** What is published has a number of the sender. *)
Lemma outcome_range {R : Type} `{Sink R} (rcfg : RxConfig) (n max_streams : Z) (ring : R) (member : bytes -> Prop) its rx log acc :
  (forall f, member f -> exists j, t_taken t !! j = Some f) -> outcome rcfg sz n max_streams (numbered all) ring member its rx log acc ->
  forall s, s ∈ acc -> 1 <= s <= Z.of_nat (length all).
Proof using Hroom Hcar.
  intros Hm Ho s Hs%(oc_seen _ _ _ _ _ _ _ _ _ _ _ Ho). change (map ?g ?l) with (g <$> l) in Hs. apply list_elem_of_fmap in Hs as (x & -> & Hx).
  destruct (Hm (fst (fst x))) as (j & Hj); [apply (oc_log _ _ _ _ _ _ _ _ _ _ _ Ho); unfold logged; apply in_map_iff; exists x; split; [done|by apply list_elem_of_In]|].
  destruct (taken_genuine j _ Hj) as (-> & Hj' & _). clear - Hj'. lia.
Qed.
End Sent.

(** ** From the producer's ring to the receiver's *)
Section Run.
Context {R : Type} `{SinkLaws R} {Ech : Type} `{Sink Ech}.
Hypothesis Hsink : forall (r : R) f, exists r', sink_publish r f = Ok r'.

Variables (pargv : list str) (ring0 : R) (penv : PrEnv) (p : Prod R).
Hypothesis Hclocks : 0 <= pe_start penv /\ Forall (fun ev => wf_clocks (pv_clocks ev)) (pe_events penv) /\ Z.of_nat (length (pe_events penv)) < 2 ^ 64.
Hypothesis Hempty : sink_log ring0 = [].
Hypothesis Hprod : prod_main pargv ring0 penv = Ok (0, Some p).

Variables (targs : TxArgs) (sockets : list (nat * option bool)) (echo_ring : Ech) (env : TxEnv) (t : Tx Ech) (rep : option TxReport).
#[local] Abbreviation txcfg := (tx_config targs sockets).
Hypothesis Hargs : tx_args_wf targs.
Hypothesis Hplain : str_empty (ta_echo_out_shm targs) = true /\ tx_test_drop txcfg = false /\ tx_test_reorder txcfg = false.
Hypothesis Hio : wd_wire (se_io env) = [] /\ Z.of_nat (length (se_reads env)) < 2 ^ 64.
Hypothesis Hreads : omap read_frame (se_reads env) = sink_log (pr_ring p).
Hypothesis Hcount : ta_count targs = pr_seq p.
Hypothesis Htx : tx_main txcfg echo_ring env = Ok (0, t, rep).
Hypothesis Hfec : ta_fec_k targs <> 0.

Variables (rcfg : RxConfig) (ring : R) (max_streams gens sz : Z) (its : list ((Key -> Z) * list rx_message)).
Hypothesis Hrx : cfg_dedupe_enabled rcfg = true /\ cfg_count rcfg = 0 /\ cfg_echo rcfg = false.
Hypothesis Hwindow : in_range 64 sz /\ is_Some (Dedupe.make sz) /\ pr_seq p + sz + 1 < 2 ^ 64 /\ pr_seq p <= 2 ^ 32.
Hypothesis Hsizes : 1 <= gens /\ 1 <= max_streams /\ Z.of_nat (length its + length (messages its)) < 2 ^ 64.
Hypothesis Hnet : Forall (fun m => m_trunc m = false /\ In (m_raw m) (concat (o_flushed (e_out (t_em t))))) (messages its).

#[local] Abbreviation bs := (f_built (t_fs t)).

End Run.

(** ** Witness: a generation of two messages, the second one lost *)
Definition demo_fec_argv : list str := (demo_tx_argv ++ ["--fec-k"; "2"; "--fec-parity"; "1"])%string.
Definition demo_fec_args : TxArgs := match sender_parse_args demo_fec_argv None None with Ok c => c | Throw _ => TxArgs_default end.
Definition demo_fec_env : TxEnv :=
  mkTxEnv 0 false (mkWorld [] [STook [None; None; None]] [] [] []) [] (map (fun f => (kOk, f, 0)) demo_produced) [false; false; false] [] 0 0 [] [] 10 20.
#[local] Abbreviation demo_fec_run := (tx_main (tx_config demo_fec_args demo_tx_sockets) ([] : list bytes) demo_fec_env).
Definition demo_fec_sent : list bytes := match demo_fec_run with Ok (_, t, _) => concat (o_flushed (e_out (t_em t))) | Throw _ => [] end.
Definition demo_fec_received (arr : list nat) : list ((Key -> Z) * list rx_message) :=
  [(fun _ => 1, map (fun i => mkMessage false (nth i demo_fec_sent []) 5) arr)].

(** The run of the sender: status, the messages of the one generation, and that
    the three datagrams carry its number and the first and the last differ. *)
Definition fec_view (r : res (Z * Tx (list bytes) * option TxReport)) : option (Z * nat * bool) :=
  match r with
  | Ok (s, t, _) => match f_built (t_fs t) with [(enc, _, _)] => Some (s, length (t_taken t), bool_decide (t_taken t = en_frames enc)) | _ => None end
  | Throw _ => None
  end.
Lemma fec_view_inv (r : res (Z * Tx (list bytes) * option TxReport)) (s : Z) (n : nat) :
  fec_view r = Some (s, n, true) ->
  exists t rep enc reason b, r = Ok (s, t, rep) /\ f_built (t_fs t) !! O = Some (enc, reason, b) /\ t_taken t = en_frames enc /\ length (t_taken t) = n.
Proof.
  destruct r as [[[s' t] rep]|]; [|done]. cbn. destruct (f_built (t_fs t)) as [|[[enc reason] b] [|]] eqn:E; try done. intros [= -> <- Hb].
  apply bool_decide_eq_true in Hb. exists t, rep, enc, reason, b. rewrite E. split_and!; done.
Qed.
Lemma demo_fec_view : fec_view demo_fec_run = Some (0, 2%nat, true).
Proof. vm_compute. reflexivity. Qed.
Lemma demo_fec_datagrams : length demo_fec_sent = 3%nat /\ map generation demo_fec_sent = [0; 0; 0] /\ bool_decide (nth 0 demo_fec_sent [] = nth 2 demo_fec_sent []) = false.
Proof. vm_compute. split_and!; reflexivity. Qed.
Lemma demo_fec_wf : tx_args_wf demo_fec_args.
Proof.
  pose proof (sender_parse_wp demo_fec_argv None None I I) as Hw. unfold demo_fec_args.
  assert (Hok : exists c, sender_parse_args demo_fec_argv None None = Ok c) by (eexists; vm_compute; reflexivity). destruct Hok as [c E]. by rewrite E in Hw |- *.
Qed.
Lemma demo_fec_plain : str_empty (ta_echo_out_shm demo_fec_args) = true /\ tx_test_drop (tx_config demo_fec_args demo_tx_sockets) = false /\ tx_test_reorder (tx_config demo_fec_args demo_tx_sockets) = false.
Proof. split_and!; vm_compute; reflexivity. Qed.
Lemma demo_fec_counts : ta_count demo_fec_args = 2 /\ ta_fec_k demo_fec_args <> 0.
Proof. split; [vm_compute; reflexivity|vm_compute; discriminate]. Qed.
Lemma demo_fec_io : wd_wire (se_io demo_fec_env) = [] /\ Z.of_nat (length (se_reads demo_fec_env)) < 2 ^ 64.
Proof. exact demo_pipe_io. Qed.

Lemma demo_fec_sizes : 1 <= 8 /\ 1 <= 4 /\ Z.of_nat (length (demo_fec_received [0; 2]%nat) + length (messages (demo_fec_received [0; 2]%nat))) < 2 ^ 64.
Proof. split_and!; cbn; lia. Qed.
Lemma demo_fec_generation (i : nat) : (i < 3)%nat -> generation (nth i demo_fec_sent []) = 0.
Proof.
  intros Hi. pose proof (proj1 (proj2 demo_fec_datagrams)) as Hg. revert Hg. generalize demo_fec_sent as l. intros l Hg.
  destruct l as [|d0 [|d1 [|d2 [|]]]]; try discriminate Hg. injection Hg as H0 H1 H2. destruct i as [|[|[|i]]]; [exact H0|exact H1|exact H2|lia].
Qed.
Lemma demo_fec_net : Forall (fun m => m_trunc m = false /\ In (m_raw m) demo_fec_sent) (messages (demo_fec_received [0; 2]%nat)).
Proof.
  destruct demo_fec_datagrams as (Hl & _). unfold messages, demo_fec_received. cbn [map concat snd app].
  repeat (apply Forall_cons; split; [split; [done|]; cbn [m_raw]; apply nth_In; rewrite Hl; lia|]). by apply Forall_nil.
Qed.
Lemma demo_fec_enough : enough (tx_key (tx_config demo_fec_args demo_tx_sockets)) 8 0 2 [] (demo_fec_received [0; 2]%nat).
Proof.
  destruct demo_fec_datagrams as (_ & _ & Hne). apply bool_decide_eq_false in Hne.
  constructor; unfold messages, demo_fec_received, clocks; cbn [map concat snd app flat_map fst m_now]; [constructor| | |].
  - repeat (apply Forall_cons; split; [left; cbn [m_raw]; rewrite demo_fec_generation by lia; done|]). by apply Forall_nil.
  - exists 1. split_and!; [lia|repeat constructor; lia|repeat constructor; lia].
  - exists [nth 0 demo_fec_sent []; nth 2 demo_fec_sent []]. split_and!; [|cbn; lia|].
    + constructor; [intros [E|[]]; by apply Hne|]. constructor; [intros []|constructor].
    + cbn [m_raw]. intros raw Hraw. split; [exact Hraw|]. by destruct Hraw as [<-|[<-|[]]]; rewrite demo_fec_generation by lia.
Qed.

(** What the runs of the two programs are. *)
Lemma demo_fec_runs : exists p t rep enc reason b, prod_main demo_prod_argv ([] : list bytes) demo_prod_env = Ok (0, Some p) /\ pr_seq p = 2 /\
  demo_fec_run = Ok (0, t, rep) /\ omap read_frame (se_reads demo_fec_env) = sink_log (pr_ring p) /\ concat (o_flushed (e_out (t_em t))) = demo_fec_sent /\
  f_built (t_fs t) !! O = Some (enc, reason, b) /\ t_taken t = en_frames enc /\ length (t_taken t) = 2%nat.
Proof.
  destruct (prod_view_inv _ _ _ demo_prod_view) as (p & E & Hs). destruct (fec_view_inv _ _ _ demo_fec_view) as (t & rep & enc & reason & b & Et & Hb & Htk & Hl).
  assert (Hp : demo_produced = sink_log (pr_ring p)) by (unfold demo_produced; by rewrite E).
  exists p, t, rep, enc, reason, b. split_and!; [exact E|exact Hs|exact Et|rewrite <- Hp; exact demo_pipe_reads|unfold demo_fec_sent; by rewrite Et|exact Hb|exact Htk|exact Hl].
Qed.


