(* ===== verification/System.v ===== *)
(** * What the exit statuses mean together

    The processes of [Mains] composed with the producer.  The receiver's main
    loop is a sequence of the iterations [Receiver] describes; it publishes
    only messages of the sender, none twice ([FecPipeline]); so when it exits
    with status 0 after a count equal to what the producer wrote, nothing can be
    missing, whatever the network did. *)
From S2P Require Import Prelude Message Wire Samples Dedupe GF256 Gauss Fec FecDecoder FecRecovery FecStream Multiplex Sink Ring Receiver Transport Batch Fanout Sender SenderCorrect Args Config Producer Metrics Consumer Programs Sockets ReceiverMain SenderMain Mains Pipeline FecPipeline.
From Stdlib Require Strings.String.
Import Strings.String.StringSyntax.
Local Delimit Scope string_scope with string.
Local Open Scope Z_scope.

(** ** The iterations of the main loop *)
Section Iterations.
Context {R : Type} `{Sink R}.
Variable args : RxArgs.

(** What a turn receives. *)
Definition turn_batch (m : RxMain R) (t : RxTurn) : list rx_message :=
  if udp args then match rt_recv t with RecvGot ms => take (Z.to_nat (ra_batch_size args)) ms | _ => [] end
  else match receive_frame (rt_ticks t) (Z.of_nat datagram_cap) (mn_conn m) with (Some raw, _, _) => [mkMessage false raw (rt_now t)] | _ => [] end.

Fixpoint rx_iterations (m : RxMain R) (turns : list RxTurn) : list ((Key -> Z) * list rx_message) :=
  match turns with
  | [] => []
  | t :: turns' =>
    if rt_stop t || negb (rx_continue (rx_config args) (mn_rx m)) then []
    else (rt_expire t, turn_batch m t) :: match rx_turn args m t with Ok (RxContinue, m) => rx_iterations m turns' | _ => [] end
  end.

Hypothesis Hargs : rx_args_wf args.
Hypothesis Hecho : ra_echo args = false.

Lemma rx_messages_batch (ms : list rx_message) (acks : list (list tick)) (m m' : RxMain R) (flow : rx_flow) :
  ra_ack_publish args = false \/ (length ms <= 1)%nat -> rx_messages args m ms acks = Ok (flow, m') -> rx_batch (rx_config args) (mn_rx m) ms = Ok (mn_rx m').
Proof using Type.
  revert m acks. induction ms as [|x ms IH]; intros m acks Hack E; cbn [rx_messages rx_batch length] in *; [by injection E as <- <-|].
  destruct (rx_datagram _ _ _ _ _) as [[acc rx]|]; [|done]. cbn [rbind] in *. change rx with (mn_rx (set_rx m rx)).
  assert (Hms : ra_ack_publish args = false \/ (length ms <= 1)%nat) by (destruct Hack; [by left|right; lia]).
  destruct acc as [acc|]; [|by apply (IH _ _ Hms) in E]. destruct (ra_ack_publish args); [|by apply (IH _ _ Hms) in E].
  destruct Hack as [Hack|Hack]; [done|]. destruct ms; [|cbn in Hack; lia]. destruct (transfer_send _ _) as [[out ok] rest]. cbn [rx_batch mn_rx set_rx] in *.
  destruct (_ && _); by injection E as <- <-.
Qed.

Lemma rx_turn_iteration (m m' : RxMain R) (t : RxTurn) (flow : rx_flow) :
  rx_turn args m t = Ok (flow, m') -> rx_iteration (rx_config args) (mn_rx m) (rt_expire t) (turn_batch m t) = Ok (mn_rx m').
Proof using Hargs Hecho.
  intros E. unfold rx_turn in E. unfold rx_iteration, turn_batch. change (cfg_echo (rx_config args)) with (ra_echo args). rewrite Hecho.
  assert (Hhandle : forall m1 ms, ra_ack_publish args = false \/ (length ms <= 1)%nat -> rx_handle args m1 ms t = Ok (flow, m') -> rx_batch (rx_config args) (mn_rx m1) ms = Ok (mn_rx m')).
  { intros m1 ms Hack Eh. unfold rx_handle in Eh. rewrite Hecho in Eh. destruct (rx_messages args m1 ms (rt_acks t)) as [[fl m2]|] eqn:Em; [|done]. cbn [rbind] in Eh.
    apply rx_messages_batch in Em; [|done]. destruct fl; by injection Eh as <- <-. }
  destruct (udp args) eqn:Hudp.
  - assert (Hack : ra_ack_publish args = false).
    { destruct (ra_ack_publish args) eqn:Ea; [|done]. pose proof (rw_controls args Hargs (or_introl Ea)) as Hu. unfold udp in Hudp. congruence. }
    destruct (rt_recv t) as [ms| |]; [|destruct (_ <? _)|]; try (by injection E as <- <-).
    destruct (take _ ms) as [|x ms'] eqn:Et; cbn [is_nil] in E; [by injection E as <- <-|]. exact (Hhandle _ (x :: ms') (or_introl Hack) E).
  - destruct (receive_frame _ _ _) as [[frame conn] rest]. destruct frame as [raw|]; [exact (Hhandle _ [_] (or_intror (le_n 1)) E)|].
    destruct (_ && _); [destruct (accept_stream _ _)|]; by injection E as <- <-.
Qed.

Lemma rx_main_loop_iterates (turns : list RxTurn) (m m' : RxMain R) (early : option Z) :
  rx_main_loop args m turns = Ok (early, m') -> rx_iterate (rx_config args) (mn_rx m) (rx_iterations m turns) = Ok (mn_rx m').
Proof using Hargs Hecho.
  revert m. induction turns as [|t turns IH]; intros m E; cbn [rx_main_loop rx_iterations] in *; [by injection E as <- <-|].
  destruct (_ || _); [by injection E as <- <-|]. destruct (rx_turn args m t) as [[flow m1]|] eqn:Et; [|done]. cbn [rbind rx_iterate] in *.
  rewrite (rx_turn_iteration m m1 t flow Et). cbn [rbind]. destruct flow; [by apply IH| |]; by injection E as <- <-.
Qed.

Lemma turn_batch_short (m : RxMain R) (t : RxTurn) : (length (turn_batch m t) <= 1024)%nat.
Proof using Hargs.
  pose proof (rw_batch args Hargs) as Hb. unfold turn_batch. destruct (udp args).
  - destruct (rt_recv t); cbn [length]; try lia. rewrite length_take. lia.
  - destruct (receive_frame _ _ _) as [[[raw|] conn] rest]; cbn [length]; lia.
Qed.

Lemma rx_iterations_few (turns : list RxTurn) (m : RxMain R) :
  (length (rx_iterations m turns) + length (messages (rx_iterations m turns)) <= 1025 * length turns)%nat.
Proof using Hargs.
  revert m. induction turns as [|t turns IH]; intros m; cbn [rx_iterations length]; [cbn; lia|]. destruct (_ || _); [cbn; lia|].
  unfold messages in *. cbn [map concat snd length]. rewrite length_app. pose proof (turn_batch_short m t). clear Hecho Hargs.
  destruct (rx_turn args m t) as [[[| |s] m1]|]; [specialize (IH m1)| | |]; cbn [map concat length]; lia.
Qed.
End Iterations.

(** The connection the loop starts with, and the loop, of a run that entered it. *)
Definition first_conn (args : RxArgs) (env : RxEnv) : option bytes :=
  if udp args then Some [] else accept_stream (u64 (re_accept_now env + idle_ns args)) (re_accept env).

Lemma rx_run_main_inv {R : Type} `{Sink R} (args : RxArgs) (ring : R) (env : RxEnv) (s : Z) (m : RxMain R) (r : option RxReport) :
  rx_run_main args ring env = Ok (s, Some m, r) ->
  exists conn early, first_conn args env = Some conn /\ rx_main_loop args (rx_start args ring conn (re_start env)) (re_turns env) = Ok (early, m).
Proof.
  unfold rx_run_main, first_conn. destruct (wait_for_readers _ _ _) as [[]|]; cbn [rbind negb]; [|done|done].
  destruct (if udp args then _ else _) as [conn|]; [|done]. destruct (rx_main_loop _ _ _) as [[early m1]|] eqn:El; cbn [rbind]; [|done]. intros E. exists conn, early. split; [done|].
  rewrite El. destruct early; [by injection E as <- <- <-|]. destruct (rx_finish _ _ _) as [[s2 r2]|]; cbn [rbind] in E; [|done]. by injection E as <- <- <-.
Qed.

(** ** What reaches the ring

    Whatever arrives of a sender's datagrams, with FEC or without. *)
Lemma published_subset {R : Type} `{SinkLaws R} {E : Type} (cfg : TxConfig) (reads : list (FrameStatus * bytes * Z)) (t : Tx E) (all : list bytes)
    (rcfg : RxConfig) (ring : R) (max_streams n sz : Z) (w0 : Window) (its : list ((Key -> Z) * list rx_message)) :
  sent_all cfg reads t -> length (t_taken t) = length all -> 0 <= sz /\ Z.of_nat (length all) + sz + 1 < 2 ^ 64 /\ Z.of_nat (length all) <= 2 ^ 32 ->
  carries (tx_key cfg) (t_taken t) all ->
  wf_key (tx_key cfg) /\ key_stream (tx_key cfg) <> 0 /\ key_epoch (tx_key cfg) <> 0 -> 0 <= tx_fec_k cfg <= 128 /\ 1 <= tx_fec_parity cfg <= 16 ->
  (forall (r : R) f, exists r', sink_publish r f = Ok r') -> cfg_dedupe_enabled rcfg = true /\ cfg_echo rcfg = false ->
  in_range 64 sz /\ Dedupe.make sz = Some w0 -> 1 <= n /\ 1 <= max_streams -> Z.of_nat (length its + length (messages its)) < 2 ^ 64 ->
  Forall (fun m => m_trunc m = false /\ In (m_raw m) (concat (o_flushed (e_out (t_em t))))) (messages its) ->
  exists rx acc, rx_iterate rcfg (rx_init ring max_streams n sz) its = Ok rx /\ sink_log (rx_ring rx) = sink_log ring ++ map (numbered all) acc /\
    NoDup acc /\ forall s, s ∈ acc -> 1 <= s <= Z.of_nat (length all).
Proof.
  intros Hsent Hlen Hroom Hcar Hkey Hfec Hsink [Hded Hecho] [Hsz Hw0] Hn Hfew Hnet. pose proof (taken_genuine cfg t all sz Hroom Hcar) as Hnum.
  assert (Hdone : forall member rx log acc, (forall f, member f -> exists j, t_taken t !! j = Some f) ->
    outcome rcfg sz n max_streams (numbered all) ring member its rx log acc -> rx_iterate rcfg (rx_init ring max_streams n sz) its = Ok rx /\
      sink_log (rx_ring rx) = sink_log ring ++ map (numbered all) acc /\ NoDup acc /\ forall s, s ∈ acc -> 1 <= s <= Z.of_nat (length all)).
  { intros member rx log acc Hm Ho. split_and!; [apply Ho|apply Ho|apply Ho|]. by apply (outcome_range cfg t all sz Hroom Hcar _ _ _ _ _ _ _ _ _ Hm Ho). }
  destruct (decide (tx_fec_k cfg = 0)) as [Hk|Hk].
  - assert (Hm : forall f, f ∈ t_taken t -> exists j, t_taken t !! j = Some f) by (intros f Hf; by apply list_elem_of_lookup).
    assert (Hframes : forall f, f ∈ t_taken t -> genuine_frame (tx_key cfg) sz (numbered all) f) by (intros f (j & Hj)%Hm; by apply (Hnum j)).
    destruct (plain_outcome rcfg (tx_key cfg) sz n max_streams (numbered all) ring w0 (.∈ t_taken t) Hkey Hecho Hsink Hsz Hded Hw0 Hn Hframes its) as (rx & log & acc & Ho);
      [|exists rx, acc; by apply (Hdone _ rx log acc Hm)].
    destruct Hsent as (_ & Hds & _). rewrite Hk in Hds. cbn [Z.eqb] in Hds. rewrite Hds in Hnet. eapply Forall_impl; [exact Hnet|].
    intros m [Htr (f & Hf & Hin)%in_map_iff]. split; [done|]. exists f. split; [by apply list_elem_of_In|done].
  - destruct (sent_generations cfg reads t all sz Hsent Hlen Hroom Hk) as (Hbs & Hgens & Hds & Htk). rewrite Hds in Hnet.
    assert (Hframes : forall f, in_stream (map spec_of (f_built (t_fs t))) f -> genuine_frame (tx_key cfg) sz (numbered all) f) by (intros f (j & Hj)%Htk; by apply (Hnum j)).
    assert (Hfec' : 1 <= tx_fec_k cfg <= 128 /\ 1 <= tx_fec_parity cfg <= 16) by lia.
    destruct (outcome_exists rcfg cfg (f_built (t_fs t)) sz n max_streams (numbered all) ring w0 Hkey Hecho Hfec' Hbs Hgens Hsink Hsz Hded Hw0 Hn Hframes its Hnet Hfew) as (rx & log & acc & Ho).
    exists rx, acc. by apply (Hdone _ rx log acc Htk).
Qed.

(** As many numbers as there are, all different: all of them. *)
Lemma complete_count (all : list bytes) (acc : list Z) :
  NoDup acc -> (forall s, s ∈ acc -> 1 <= s <= Z.of_nat (length all)) -> (length all <= length acc)%nat -> map (numbered all) acc ≡ₚ all.
Proof.
  intros Hnd Hr Hl. rewrite <- (numbered_all all) at 2. apply Permutation_map. apply NoDup_ListNoDup in Hnd as Hnd'.
  apply submseteq_length_Permutation.
  - apply NoDup_submseteq; [done|]. intros s Hs%Hr. apply elem_of_seqZ. lia.
  - rewrite length_seqZ. lia.
Qed.

(** ** The processes *)
Lemma producer_main_inv {R : Type} `{Sink R} (argv : list str) (ring : R) (env : PrEnv) (s : Z) (p : Prod R) :
  producer_main argv (Ok ring) env = Ok (s, Some (Some p)) -> prod_main argv ring env = Ok (s, Some p).
Proof.
  unfold producer_main, prod_program. destruct (producer_parse_args argv) as [a|f]; [|by destruct f]. cbn [rbind].
  destruct (prod_main argv ring env) as [[s' o]|f]; [|by destruct f]. by intros [= -> ->].
Qed.

Lemma consumer_main_inv (argv : list str) (env : CxEnv) (s : Z) (c : Cx) (r : Report) :
  consumer_main argv (Ok tt) env = Ok (s, Some (Some (c, r))) -> cx_main argv env = Ok (s, Some (c, r)).
Proof.
  unfold consumer_main, cx_program. destruct (consumer_parse_args argv) as [a|f]; [|by destruct f]. cbn [rbind].
  destruct (cx_main argv env) as [[s' o]|f]; [|by destruct f]. by intros [= -> ->].
Qed.

Lemma sender_main_inv {E : Type} `{Sink E} (argv : list str) (w : TxProc E) (a : TxArgs) (s : Z) (sockets : list (nat * option bool)) (t : Tx E) (r : option TxReport) :
  sender_parse_args argv (tp_random_id w) (tp_random_epoch w) = Ok a -> sender_main argv w = Ok (s, Some (Some (sockets, t, r))) ->
  exists echo edge, tx_main (tx_config a sockets) echo (tx_environment a edge (tp_env w)) = Ok (s, t, r).
Proof.
  intros Ea. unfold sender_main, tx_program. rewrite Ea. destruct (tp_in w) as [edge|f]; [|by destruct f].
  destruct (if str_empty _ then _ else _) as [echo|f]; [|by destruct f]. unfold tx_connected. destruct (open_sockets _ _ _ _) as [[fds|f] k]; [|by destruct f].
  destruct (tx_main _ _ _) as [[[s' t'] r']|f] eqn:Em; cbn [fst process]; [|by destruct f]. intros [= <- <- <- <-]. by exists echo, edge.
Qed.

Lemma receiver_main_inv {R : Type} `{Sink R} (argv : list str) (w : RxProc R) (a : RxArgs) (ring : R) (s : Z) (m : RxMain R) (r : option RxReport) :
  receiver_parse_args argv = Ok a -> rp_out w = Ok ring -> receiver_main argv w = Ok (s, Some (Some (m, r))) -> rx_run_main a ring (rp_env w) = Ok (s, Some m, r).
Proof.
  intros Ea Er. unfold receiver_main, rx_program. rewrite Ea, Er. cbn [rbind]. destruct (fst (rx_socket a w)) as [fd|f]; cbn [rbind]; [|by destruct f].
  destruct (rx_run_main a ring (rp_env w)) as [[[s' [m'|]] r']|f]; cbn [rbind process]; [|done|by destruct f]. by intros [= <- <- <-].
Qed.

(** A status of 0 means that the count was reached. *)
Lemma receiver_counted {R : Type} `{SinkLaws R} (a : RxArgs) (ring : R) (env : RxEnv) (m : RxMain R) (r : option RxReport) :
  rx_args_wf a -> (forall (r : R) f, exists r', sink_publish r f = Ok r') -> sink_log ring = [] -> 1024 * Z.of_nat (length (re_turns env)) < 2 ^ 64 ->
  ra_echo a = false -> rx_run_main a ring env = Ok (0, Some m, r) -> ra_count a <= Z.of_nat (length (sink_log (rx_ring (mn_rx m)))).
Proof.
  intros Ha Hsink Hl Hb Hecho E. pose proof (rx_run_main_ok a Ha Hsink ring env Hl Hb) as Hw. rewrite E in Hw. destruct Hw as (_ & _ & Hm).
  destruct (Hm m eq_refl) as [He [N Hf]]. destruct (full_sound a Ha Hsink N _ Hf) as (_ & _ & Hpub). inversion He as [|? ? ? ? _ Efin]; subst.
  apply rx_finish_zero in Efin. rewrite Hecho, Hpub in Efin. destruct Efin as [->|Hle]; [lia|]. pose proof (wrap_le 64 (Z.of_nat (length (sink_log (rx_ring (mn_rx m)))))). lia.
Qed.

Section Delivered.
Context {R : Type} `{SinkLaws R} {E : Type} `{Sink E}.
Hypothesis Hsink : forall (r : R) f, exists r', sink_publish r f = Ok r'.

(** The producer. *)
Variables (pargv : list str) (ring0 : R) (penv : PrEnv) (p : Prod R).
Hypothesis Hclocks : 0 <= pe_start penv /\ Forall (fun ev => wf_clocks (pv_clocks ev)) (pe_events penv) /\ Z.of_nat (length (pe_events penv)) < 2 ^ 64.
Hypothesis Hempty : sink_log ring0 = [].
Hypothesis Hprod : producer_main pargv (Ok ring0) penv = Ok (0, Some (Some p)).

(** The sender, which read the producer's ring. *)
Variables (targv : list str) (tw : TxProc E) (targs : TxArgs) (sockets : list (nat * option bool)) (t : Tx E) (trep : option TxReport).
Hypothesis Hids : from_option (in_range 64) True (tp_random_id tw) /\ from_option (in_range 64) True (tp_random_epoch tw).
Hypothesis Htargs : sender_parse_args targv (tp_random_id tw) (tp_random_epoch tw) = Ok targs.
Hypothesis Hplain : str_empty (ta_echo_out_shm targs) = true /\ plain_options targs.
Hypothesis Hio : wd_wire (se_io (tp_env tw)) = [] /\ Z.of_nat (length (se_reads (tp_env tw))) < 2 ^ 64.
Hypothesis Hreads : omap read_frame (se_reads (tp_env tw)) = sink_log (pr_ring p).
Hypothesis Htx : sender_main targv tw = Ok (0, Some (Some (sockets, t, trep))).

(** The receiver, which was given datagrams of the sender only. *)
Variables (rargv : list str) (rw : RxProc R) (rargs : RxArgs) (ring : R) (conn : bytes) (m : RxMain R) (rrep : option RxReport).
Hypothesis Hrargs : receiver_parse_args rargv = Ok rargs.
Hypothesis Hmode : ra_dedupe_enabled rargs = true /\ ra_echo rargs = false.
Hypothesis Hring : rp_out rw = Ok ring /\ sink_log ring = [].
Hypothesis Hconn : first_conn rargs (rp_env rw) = Some conn.
Hypothesis Hturns : 1025 * Z.of_nat (length (re_turns (rp_env rw))) < 2 ^ 64.
Hypothesis Hnet : Forall (fun m => m_trunc m = false /\ In (m_raw m) (concat (o_flushed (e_out (t_em t)))))
  (messages (rx_iterations rargs (rx_start rargs ring conn (re_start (rp_env rw))) (re_turns (rp_env rw)))).
Hypothesis Hrx : receiver_main rargv rw = Ok (0, Some (Some (m, rrep))).

(** The counts asked for are what the producer wrote. *)
Hypothesis Hcounts : ta_count targs = pr_seq p /\ ra_count rargs = pr_seq p /\ pr_seq p <= 2 ^ 32.

(** What the sender took and sent. *)
Lemma process_messages :
  exists all, Forall2 (carried (tx_config targs sockets)) (sink_log (pr_ring p)) all /\ Z.of_nat (length all) = pr_seq p /\
    tx_args_wf targs /\ sent_all (tx_config targs sockets) (se_reads (tp_env tw)) t /\ length (t_taken t) = length all /\
    carries (tx_key (tx_config targs sockets)) (t_taken t) all.
Proof using All.
  destruct Hclocks as (Hst & Hck & Hevs). pose proof (prod_main_ok pargv ring0 penv Hst Hck Hevs) as Hp. rewrite (producer_main_inv _ _ _ _ _ Hprod) in Hp.
  destruct Hp as (_ & _ & Hp). destruct (Hp p eq_refl) as (pa & _ & fs & epoch & Hlog & Hseq & Hmsg & _). rewrite Hempty in Hlog. cbn [app] in Hlog.
  destruct Hids as [Hi1 Hi2]. pose proof (sender_parse_wp targv (tp_random_id tw) (tp_random_epoch tw) Hi1 Hi2) as Hwf. rewrite Htargs in Hwf. cbn in Hwf.
  destruct (sender_main_inv targv tw targs 0 sockets t trep Htargs Htx) as (echo & edge & Emain). destruct Hplain as [Hecho Htest]. destruct (Htest sockets) as [Hd Hro].
  destruct Hio as [Hwire Hrl]. pose proof (tx_main_outcome targs sockets echo (tx_environment targs edge (tp_env tw)) Hwf (config_echo targs sockets (or_introl Hecho)) Hd Hro Hwire Hrl) as Hout. rewrite Emain in Hout.
  destruct (proj2 Hout eq_refl) as (Hsent & _ & Hcnt & _). rewrite (proj1 Hcounts), Hseq in Hcnt.
  pose proof (sender_key targs sockets Hwf) as Hkey. rewrite Hlog in Hreads.
  destruct (carried_messages (tx_config targs sockets) _ t fs _ _ _ (proj1 Hkey) Hsent Hreads ltac:(clear - Hcnt; lia) Hmsg) as (all & Hall & Hlen & Hcar).
  rewrite Hlog. exists all. split_and!; [done|by rewrite Hseq, (Forall2_length _ _ _ Hall)|done|done|done|done].
Qed.

(** The receiver's ring at the end. *)
Lemma delivered_messages :
  exists all, Forall2 (carried (tx_config targs sockets)) (sink_log (pr_ring p)) all /\ Z.of_nat (length all) = pr_seq p /\
    map frame_id all = map (pair (tx_key (tx_config targs sockets))) (seqZ 1 (Z.of_nat (length all))) /\ sink_log (rx_ring (mn_rx m)) ≡ₚ all.
Proof using All.
  destruct process_messages as (all & Hall & Hn & Hwf & Hsent & Hlen & Hcar). exists all. split; [exact Hall|]. split; [exact Hn|]. split; [exact (carries_ids _ _ _ Hcar Hlen)|]. pose proof (sender_key targs sockets Hwf) as Hkey.
  pose proof (receiver_parse_wp rargv) as Hrwf. rewrite Hrargs in Hrwf. cbn in Hrwf. destruct (args_window rargs Hrwf) as (w0 & Hw0 & Hsz). destruct Hring as [Hr1 Hr2]. destruct Hmode as [Hm1 Hm2].
  pose proof (receiver_main_inv rargv rw rargs ring 0 m rrep Hrargs Hr1 Hrx) as Hmain. destruct (rx_run_main_inv rargs ring (rp_env rw) 0 m rrep Hmain) as (conn' & early & Hc' & Hloop).
  rewrite Hconn in Hc'. injection Hc' as <-. pose proof (rx_main_loop_iterates rargs Hrwf Hm2 _ _ _ _ Hloop) as Hit.
  pose proof (rx_iterations_few rargs Hrwf (re_turns (rp_env rw)) (rx_start rargs ring conn (re_start (rp_env rw)))) as Hfew. set (its := rx_iterations _ _ _) in *.
  pose proof (rw_window rargs Hrwf) as [_ Hwin]. pose proof (rw_gens rargs Hrwf) as Hg. pose proof (rw_streams rargs Hrwf) as Hs. destruct Hcounts as (_ & Hc2 & H32).
  destruct (published_subset (tx_config targs sockets) _ t all (rx_config rargs) ring (ra_max_streams rargs) (ra_fec_gens rargs) (ra_dedupe_window rargs) w0 its Hsent Hlen)
    as (rx & acc & Erx & Hacc & Hnd & Hrange); [clear - Hwin Hn H32; lia|exact Hcar|exact Hkey|exact (conj (proj1 (tw_fec targs Hwf)) (proj1 (proj2 (tw_fec targs Hwf))))|
      exact Hsink|done|done|clear - Hg Hs; lia|clear - Hfew Hturns; lia|exact Hnet|].
  cbn [mn_rx rx_start] in Hit. rewrite Erx in Hit. injection Hit as ->. rewrite Hr2 in Hacc. cbn [app] in Hacc. rewrite Hacc. apply complete_count; [done|done|].
  pose proof (receiver_counted rargs ring (rp_env rw) m rrep Hrwf Hsink Hr2 ltac:(clear - Hturns; lia) Hm2 Hmain) as Hle. rewrite Hacc, length_map, Hc2 in Hle. clear - Hle Hn. lia.
Qed.

End Delivered.

(** ** Witness: a lost message, recovered

    Two messages, one generation with one parity frame; the second datagram is
    lost, and all three programs exit with status 0. *)
Definition demo_sys_tx : TxProc (list bytes) :=
  mkTxProc None None (Ok 0) [] (Throw RuntimeError) demo_net [demo_net_env] (fun _ => Some false) demo_fec_env.
Definition demo_sys_sent : list bytes :=
  match sender_main demo_fec_argv demo_sys_tx with Ok (_, Some (Some (_, t, _))) => concat (o_flushed (e_out (t_em t))) | _ => [] end.
Definition demo_sys_argv : list str := ["--allow-insecure-udp"; "--count"; "2"]%string.
Definition demo_sys_args : RxArgs := match receiver_parse_args demo_sys_argv with Ok a => a | Throw _ => RxArgs_default end.
Definition demo_sys_env : RxEnv :=
  demo_env [quiet_turn; demo_turn (RecvGot [mkMessage false (nth 0 demo_sys_sent []) 6; mkMessage false (nth 2 demo_sys_sent []) 7]) []].
Definition demo_sys_rx : RxProc (list bytes) := mkRxProc (Ok []) demo_net demo_net_env demo_sys_env.
#[local] Abbreviation demo_sys_iterations :=
  (rx_iterations demo_sys_args (rx_start demo_sys_args ([] : list bytes) [] (re_start (rp_env demo_sys_rx))) (re_turns (rp_env demo_sys_rx))).

Lemma demo_sys_sender_view : sender_view (sender_main demo_fec_argv demo_sys_tx) = Some (0, 2%nat).
Proof. vm_compute. reflexivity. Qed.
Lemma demo_sys_receiver_view : receiver_view (receiver_main demo_sys_argv demo_sys_rx) = Some (0, 2%nat).
Proof. vm_compute. reflexivity. Qed.
Lemma demo_sys_parsed : sender_parse_args demo_fec_argv None None = Ok demo_fec_args /\ receiver_parse_args demo_sys_argv = Ok demo_sys_args.
Proof. split; vm_compute; reflexivity. Qed.
Lemma demo_sys_plain : str_empty (ta_echo_out_shm demo_fec_args) = true /\ plain_options demo_fec_args.
Proof. split; [vm_compute; reflexivity|intros sockets; split; vm_compute; reflexivity]. Qed.
Lemma demo_sys_mode : ra_dedupe_enabled demo_sys_args = true /\ ra_echo demo_sys_args = false.
Proof. split; vm_compute; reflexivity. Qed.
Lemma demo_sys_conn : first_conn demo_sys_args demo_sys_env = Some [].
Proof. vm_compute. reflexivity. Qed.
Lemma demo_sys_counts : ta_count demo_fec_args = 2 /\ ra_count demo_sys_args = 2 /\ 2 <= 2 ^ 32.
Proof. split_and!; [vm_compute; reflexivity|vm_compute; reflexivity|lia]. Qed.
Lemma demo_sys_turns : 1025 * Z.of_nat (length (re_turns demo_sys_env)) < 2 ^ 64.
Proof. cbn [demo_sys_env demo_env re_turns length]. lia. Qed.

Lemma demo_sys_arrivals : forallb (fun m => negb (m_trunc m) && existsb (fun d => bool_decide (d = m_raw m)) demo_sys_sent) (messages demo_sys_iterations) = true.
Proof. vm_compute. reflexivity. Qed.
Lemma demo_sys_net : Forall (fun m => m_trunc m = false /\ In (m_raw m) demo_sys_sent) (messages demo_sys_iterations).
Proof.
  pose proof demo_sys_arrivals as Ha. rewrite forallb_forall in Ha. apply Forall_forall. intros m Hm%list_elem_of_In%Ha.
  apply andb_true_iff in Hm as [Ht%negb_true_iff (d & Hd & ->%bool_decide_eq_true)%existsb_exists]. by split.
Qed.

(** The three runs. *)
Lemma sender_view_inv (r : res (Z * option (option (list (nat * option bool) * Tx (list bytes) * option TxReport)))) (s : Z) (n : nat) :
  sender_view r = Some (s, n) -> exists sockets t rep, r = Ok (s, Some (Some (sockets, t, rep))).
Proof. destruct r as [[s' [[[[sockets t] rep]|]|]]|]; try done. intros [= -> _]. by exists sockets, t, rep. Qed.
Lemma receiver_view_inv (r : res (Z * option (option (RxMain (list bytes) * option RxReport)))) (s : Z) (n : nat) :
  receiver_view r = Some (s, n) -> exists m rep, r = Ok (s, Some (Some (m, rep))).
Proof. destruct r as [[s' [[[m rep]|]|]]|]; try done. intros [= -> _]. by exists m, rep. Qed.

Lemma demo_sys_runs : exists p sockets t trep m rrep,
  producer_main demo_prod_argv (Ok ([] : list bytes)) demo_prod_env = Ok (0, Some (Some p)) /\ pr_seq p = 2 /\ omap read_frame (se_reads demo_fec_env) = sink_log (pr_ring p) /\
  sender_main demo_fec_argv demo_sys_tx = Ok (0, Some (Some (sockets, t, trep))) /\ concat (o_flushed (e_out (t_em t))) = demo_sys_sent /\
  receiver_main demo_sys_argv demo_sys_rx = Ok (0, Some (Some (m, rrep))).
Proof.
  destruct (producer_view_inv _ _ _ demo_producer_view) as (p & E & Hs). pose proof (producer_main_inv _ _ _ _ _ E) as Ep.
  assert (Hr : omap read_frame (se_reads demo_fec_env) = sink_log (pr_ring p)).
  { destruct demo_fec_runs as (p' & _ & _ & _ & _ & _ & Ep' & _ & _ & Hr & _). rewrite Ep in Ep'. by injection Ep' as <-. }
  destruct (sender_view_inv _ _ _ demo_sys_sender_view) as (sockets & t & trep & Et).
  destruct (receiver_view_inv _ _ _ demo_sys_receiver_view) as (m & rrep & Er). exists p, sockets, t, trep, m, rrep.
  split_and!; [exact E|exact Hs|exact Hr|exact Et|unfold demo_sys_sent; by rewrite Et|exact Er].
Qed.


(** The consumer of that ring. *)
Definition demo_sys_delivered : list bytes :=
  match receiver_main demo_sys_argv demo_sys_rx with Ok (_, Some (Some (m, _))) => rx_ring (mn_rx m) | _ => [] end.
Definition demo_sys_cx_env : CxEnv := mkCxEnv true true 0 0 (map (fun f => mkCxEvent false (kOk, f, 0) 2000 1 true) demo_sys_delivered).
Lemma demo_sys_consumer_view : consumer_view (consumer_main demo_consumer_argv (Ok tt) demo_sys_cx_env) = Some (0, 2).
Proof. vm_compute. reflexivity. Qed.
Lemma demo_sys_read : length demo_sys_delivered = 2%nat /\ omap ev_frame (xe_events demo_sys_cx_env) = demo_sys_delivered.
Proof.
  split; [vm_compute; reflexivity|]. unfold demo_sys_cx_env. cbn [xe_events]. induction demo_sys_delivered as [|f l IH]; [done|]. cbn. by f_equal.
Qed.

